(* ===== verification/_CoqProject ===== *)
-Q . S2P
Prelude.v
Text.v
Ids.v
Wire.v
Std.v
Spec.v
Manifest.v
Events.v
Store.v
Capture.v
Runner.v
Sandbox.v
Systemd.v
Routes.v
Telemetry.v
Node.v
Blob.v
Workspace.v
Artifact.v
Storage.v
Handlers.v
Client.v
Operations.v
Deployment.v
Lifecycle.v
Daemon.v
