(* ===== verification/Prelude.v ===== *)
(** * Eggwork: a verification development

    Eggwork runs finite commands on a remote node.  A client sends an
    execution specification; the node validates it, reserves it durably under
    a principal and a lease, runs it in a prepared workspace under a sandbox
    helper, journals its output and state as numbered events, and keeps the
    result, the workspace and the declared outputs until they expire.  An
    operator configures, inspects, drains and updates the node with one
    command.

    ** Parts of the program and where they are modelled

    - [eggwork-core/src/lib.rs] (shared protocol types)
      - [Ids.v]: identifiers, generations, blob digests, relative paths;
      - [Spec.v]: [EnvironmentEntry], [CommandSpec], [ExecutionSpec], their
        validation, and the canonical request digests;
      - [Manifest.v]: [WorkspaceManifest], [WorkspaceManifestPatch], portable
        paths;
      - [Events.v]: states, results, events, snapshots, capabilities;
      - [Telemetry.v]: the telemetry vocabulary and its validation.
    - [eggwork-runner/src/lib.rs] (local process runner)
      - [Capture.v]: [BoundedCapture] and the pipe readers;
      - [Runner.v]: [RunnerRequest], [ExecutionSetup], the trust check of the
        helper, the child's environment, [RunnerResult];
      - [Sandbox.v]: [SandboxChannel], [LocalProcessRunner::run] and the Unix
        half of [process_tree.rs];
      - [Systemd.v]: the commands that are started, [SystemdCgroupBackend],
        the Landlock probe and [execution_capabilities].
    - [eggwork-sandbox-helper/src/main.rs]: [Sandbox.v], section [helper], and
      [Systemd.v], section [landlock].
    - [eggwork-server/src/store.rs] (durable execution and event journal):
      [Store.v].  A database is a record of the three SQL tables; each method
      is a function from a database to an answer and a database; a transaction
      that fails, in the code or in SQLite, returns the database unchanged.
    - [eggwork-server/src/blob.rs], [workspace.rs], [artifact.rs]: [Blob.v],
      [Workspace.v], [Artifact.v].  Tables and files together; every system
      call and every SQL statement can fail.
    - [eggwork-server/src/telemetry.rs]: [Telemetry.v].
    - [eggwork-server/src/lib.rs] (the node)
      - [Routes.v]: the route table, body policies, peer authentication, the
        dispatch gate, query parameters, capability checks, and the request
        targets of the client;
      - [Node.v]: the execution record, [publish], [run_execution] with its
        loop, outcome and finalization, the lease monitor, and the event
        streams of [event_response];
      - [Storage.v]: the handlers of the blob, workspace and artifact routes;
      - [Handlers.v]: [NodeState], [execute], [observe], [control], [events],
        the end of a task, start, drain, shutdown and garbage collection;
      - [Lifecycle.v]: the steps of a whole node, crashes and restarts
        included, and what holds of all its runs.
    - [eggwork-client/src/lib.rs]: [Client.v], every call of [NodeClient] and
      the framing of event streams ([ExecutionStream::into_events]).
    - [eggwork-server/src/operations.rs], [deployment.rs] and
      [bin/eggworkd.rs] (the operator's side): [Operations.v], [Deployment.v]
      and [Daemon.v].

    [Prelude.v] (this file) holds the result type with its [let?] notation,
    the action monad (state and error) with its [let!] notation and the [keeps] rules
    for what an action preserves, 64-bit arithmetic, byte strings and Rust's
    string functions, stable sorting, and the tactics ([cases_in],
    [bool_hyps], [keeps_tac]) and hint database ([egg]) the other files use.
    [Text.v] prints and parses decimal numbers, [Wire.v] states what the
    development needs from [serde_json], [Std.v] models what the operator's
    code uses of paths, socket addresses and UTF-8.

    ** Conventions

    - A [u64], [i64] or [usize] is a [Z]; casts ([as_i64], [as_u64]) and
      saturating operations are written out, and range hypotheses appear where
      a theorem needs the type's bound.
    - A [String] is a byte string; UTF-8 is decoded where the code decodes it
      ([Std.v]).
    - A handler or an operation with side effects is an action on its
      component's state; an early return is a thrown response or error, and
      the state keeps what was done before it.
    - What the program finds outside itself is an argument: which calls fail,
      what the clock says, random names, the order a map or a directory is
      listed in ([Workspace.Outside], [Artifact.ArtOutside], [Sandbox.World],
      [Systemd.Machine], [Operations.Os]).
    - Code outside the repository is a parameter.  SHA-256 is the class
      [Ids.Sha256]; JSON encoding is [Wire.Serde] with the laws
      [SerdeRoundTrip] (decoding what was encoded) and [SerdeTotal] (encoding
      succeeds), and [Wire.Tree] gives a concrete encoding with both, on which
      witnesses run; the TLS stack, the URL parser and the telemetry
      provider's protocol are [Operations.TlsLib], [Telemetry.UrlParser] and
      [Telemetry.GreggProtocol]; Eggup, which owns transactions and service
      managers, is [Deployment.Eggup] with [EggupLaws]; the client's HTTP
      transport is the function [send] of [Client.v]; the Landlock library is
      the context of its section in [Systemd.v].
    - Theorems about digests conclude "equal inputs, or two different byte
      strings with the same SHA-256" instead of assuming injectivity.

    ** What the theorems show

    - Requests: validation accepts exactly what the bounds describe; digests
      identify requests and manifests up to the order the code ignores;
      relative and portable paths stay below their root; a patch means an
      override of a finite map, independent of order, and every manifest can
      be reached by one.
    - Execution store: an invariant of every database reachable by any sequence of
      operations and faults, from which follow exactly-once reservation,
      fencing of generations and principals, gapless paging, durability of
      commits, finality of terminal states, lease renewal and recovery.
    - Blobs, workspaces, artifacts: uploads, materializations and captures
      happen completely or not at all under every failure of a step; metadata
      invariants of all reachable stores; collections keep what is referenced
      or live; a workspace derived from a patch equals the one built from the
      whole manifest; what is downloaded has the digest recorded.
    - Node: a step relation interleaves the two halves of a publication with
      control requests, lease changes and every other store operation; from
      its invariant follow that the store, the record, the journal and the
      subscribers agree on one history, that a stream delivers a contiguous
      part of it up to the terminal event (with the one race in which it ends
      early), that the task settles an execution with its result and all its
      output, and that a terminal state is final.  Over the life of a whole
      node, crashes and restarts included, permits are conserved, every live
      execution has one task and one record, no generation is started twice,
      control requests are fenced, and a start recovers what was unfinished.
      A storage request changes only what its principal may change.
    - Client: every request it builds reaches the handler it is meant for; it
      accepts exactly the replies it should; its reader yields exactly the
      events a node sent, in whatever chunks they arrive, up to the bound on a
      line.
    - Runner: bulk capture equals its per-byte reference and keeps head and
      tail; readers account for every byte; required isolation is never
      downgraded by setup, by the handshake or by the whole run; the status
      bytes mean the same on both sides; limits reported as applied were
      installed, by a program only root can change; capabilities are
      advertised exactly as probed, and the Landlock probe mirrors the helper;
      what the helper accepts; the child's environment and working directory;
      the reported result.
    - Telemetry: what is served is a function of the attempts so far, and
      which of it a client accepts; the cadence of polling.
    - Operator: a configuration that validates starts, and grants exactly what
      it lists; the drain marker changes atomically; the operator's preview of
      a collection equals the node's; rendered service definitions run the
      command they were given; the wait for quiescence ends and decides
      correctly; an update changes live members only behind its gates and
      leaves a coherent release or says that it did not; each command changes only its own part of
      the machine.

    ** Bounds and fuel

    Loops that are not structural carry fuel.  [Store.trim_events] runs with one
    more than the number of events, and every round deletes one, so the loop's
    exit condition holds at the end ([Store.trim_events_spec]);
    [Runner.check_ancestors] runs once per path component; [Text.dec] needs 20
    digits for a [u64]; [parents_from] runs once per byte of a path;
    [Capture.chunks], [Blob.chunks_of], [Std.utf8_pieces] and
    [Deployment.xml_unescape] once per element of their input;
    [Operations.tree_loop] once per node of the tree;
    [Deployment.poll_quiescence] once per 100 ms of its timeout and twice more
    ([quiescence_fuel_enough]); [Client.into_events] once per byte, once per
    chunk and twice more, which [into_events_feed] shows to be enough for every
    stream.  Sequence numbers are exact as long as fewer than 2^63 store
    operations have happened, a hypothesis of the store's and the node's
    theorems.

    ** What is not modelled

    - The HTTP server and TLS: a request reaches [Routes.dispatch] parsed, and
      responses are values.
    - SQLite and the file system below the level of their calls.
    - The Windows and macOS halves of the runner and of the operator's command:
      the process tree by Job Objects is a sequence of operating system calls,
      and the service managers of these systems are selected under conditions
      the Linux build does not contain.
    - The client's optional Eggress dialer and the loading of certificates,
      which only hand values to libraries.
    - Setters, [Debug] output and the formatting of messages that nothing
      reads back. *)

From Stdlib Require Import Ascii String ZArith Lia.
From stdpp Require Import base gmap strings list sorting fin_maps.

#[export] Set Default Goal Selector "!".

(** ** Fallible code

    Rust's [Result<A, E>], with the [?] operator as a notation in a scope of
    its own. *)

Inductive result (E A : Type) : Type :=
| Ok (a : A)
| Err (e : E).
Arguments Ok {E A} a.
Arguments Err {E A} e.

Declare Scope result_scope.
Delimit Scope result_scope with result.
Notation "'let?' x ':=' c 'in' k" :=
  (match c with Ok x => k | Err e => Err e end)
  (at level 10, x pattern, c at level 100, k at level 200) : result_scope.
Notation "c ';?' k" :=
  (match c with Ok _ => k | Err e => Err e end)
  (at level 100, k at level 200, right associativity) : result_scope.
Open Scope result_scope.

Definition is_ok {E A} (r : result E A) : bool :=
  match r with Ok _ => true | Err _ => false end.

Definition is_some {A} (o : option A) : bool := match o with Some _ => true | None => false end.

Definition map_err {E F A} (f : E -> F) (r : result E A) : result F A :=
  match r with Ok a => Ok a | Err e => Err (f e) end.

Definition ok_or {E A} (o : option A) (e : E) : result E A :=
  match o with Some a => Ok a | None => Err e end.

(** [for x in l { f(x)?; }] *)
Fixpoint for_each {E A} (f : A -> result E unit) (l : list A) : result E unit :=
  match l with
  | [] => Ok tt
  | x :: l => f x ;? for_each f l
  end.

(** A loop that updates its locals and may return early with an error. *)
Fixpoint try_fold {E S A} (f : S -> A -> result E S) (s : S) (l : list A) : result E S :=
  match l with
  | [] => Ok s
  | x :: l => let? s := f s x in try_fold f s l
  end.

(** ** Stateful code that may fail

    An action threads a state and answers a result; unlike a transaction it
    keeps what it changed before an error. *)

Definition act (S E A : Type) : Type := S -> result E A * S.

Section act.
Context {S E : Type}.

Definition ret {A} (a : A) : act S E A := fun s => (Ok a, s).
Definition throw {A} (e : E) : act S E A := fun s => (Err e, s).
Definition act_bind {A B} (c : act S E A) (k : A -> act S E B) : act S E B :=
  fun s => match c s with (Ok a, s) => k a s | (Err e, s) => (Err e, s) end.

(** [if fails { return Err(e); }] *)
Definition guard_err (fails : bool) (e : E) : act S E unit := if fails then throw e else ret tt.
Definition of_result {A} (r : result E A) : act S E A := fun s => (r, s).
Definition modify (f : S -> S) : act S E unit := fun s => (Ok tt, f s).
Definition gets {A} (f : S -> A) : act S E A := fun s => (Ok (f s), s).

(** [let _ = c;] *)
Definition ignore {A} (c : act S E A) : act S E unit := fun s => (Ok tt, (c s).2).

(** [match c { Ok(..) => .., Err(..) => .. }]: the result as a value. *)
Definition attempt {A} (c : act S E A) : act S E (result E A) := fun s => (Ok (c s).1, (c s).2).

(** [for x in l { f(x)?; }] *)
Fixpoint act_each {A} (f : A -> act S E unit) (l : list A) : act S E unit :=
  match l with
  | [] => ret tt
  | x :: l => act_bind (f x) (fun _ => act_each f l)
  end.
End act.

Declare Scope act_scope.
Delimit Scope act_scope with act.
Notation "'let!' x ':=' c 'in' k" :=
  (act_bind c (fun x => k)) (at level 10, x pattern, c at level 100, k at level 200) : act_scope.
Notation "c ';!' k" :=
  (act_bind c (fun _ => k)) (at level 100, k at level 200, right associativity) : act_scope.

(** ** Machine integers

    Every integer is a [Z]; the width enters through saturation and casts. *)

Definition U64_MAX : Z := 18446744073709551615.
Definition I64_MAX : Z := 9223372036854775807.
Definition USIZE_MAX : Z := U64_MAX.

Definition u64_range (z : Z) : Prop := (0 <= z <= U64_MAX)%Z.
Definition i64_range (z : Z) : Prop := (- I64_MAX - 1 <= z <= I64_MAX)%Z.

(** [u64::saturating_add] and [u64::saturating_sub]. *)
Definition sat_add (a b : Z) : Z := Z.min (a + b) U64_MAX.
Definition sat_sub (a b : Z) : Z := Z.max (a - b) 0.

(** [i64::saturating_add] and [i64::saturating_sub]. *)
Definition i64_clamp (z : Z) : Z := Z.max (- I64_MAX - 1) (Z.min z I64_MAX).
Definition i64_sat_add (a b : Z) : Z := i64_clamp (a + b).
Definition i64_sat_sub (a b : Z) : Z := i64_clamp (a - b).

(** [x as i64] for a [u64] value, and [x as u64] for an [i64] value. *)
Definition as_i64 (z : Z) : Z := if (z <=? I64_MAX)%Z then z else (z - U64_MAX - 1)%Z.
Definition as_u64 (z : Z) : Z := if (z <? 0)%Z then (z + U64_MAX + 1)%Z else z.

(** ** Strings as byte strings

    A Rust [String] is its UTF-8 bytes, so [len] counts bytes and a test on
    an ASCII character is a test on one byte. *)

Definition str_len (s : string) : Z := Z.of_nat (String.length s).

Definition bytes_of (s : string) : list ascii := list_ascii_of_string s.

Definition all_bytes (p : ascii -> bool) (s : string) : bool := forallb p (bytes_of s).
Definition any_byte (p : ascii -> bool) (s : string) : bool := existsb p (bytes_of s).

Definition contains_char (c : ascii) (s : string) : bool := any_byte (Ascii.eqb c) s.

Definition NUL : ascii := "000"%char.
Definition contains_nul (s : string) : bool := contains_char NUL s.

Definition is_empty (s : string) : bool :=
  match s with EmptyString => true | _ => false end.

Definition code (a : ascii) : Z := Z.of_N (N_of_ascii a).

Definition in_range (lo hi : Z) (a : ascii) : bool := ((lo <=? code a) && (code a <=? hi))%Z.

Definition is_ascii_digit : ascii -> bool := in_range 48 57.
Definition is_ascii_uppercase : ascii -> bool := in_range 65 90.
Definition is_ascii_lowercase : ascii -> bool := in_range 97 122.
Definition is_ascii_alphanumeric (a : ascii) : bool :=
  is_ascii_digit a || is_ascii_uppercase a || is_ascii_lowercase a.
Definition is_ascii_hexdigit (a : ascii) : bool :=
  is_ascii_digit a || in_range 65 70 a || in_range 97 102 a.
Definition is_ascii_char (a : ascii) : bool := (code a <=? 127)%Z.

Definition starts_with_char (c : ascii) (s : string) : bool :=
  match s with EmptyString => false | String a _ => Ascii.eqb a c end.

Fixpoint ends_with_char (c : ascii) (s : string) : bool :=
  match s with
  | EmptyString => false
  | String a EmptyString => Ascii.eqb a c
  | String _ s => ends_with_char c s
  end.

(** [s.strip_prefix(p)] *)
Fixpoint strip_prefix (p s : string) : option string :=
  match p, s with
  | EmptyString, _ => Some s
  | String a p, String b s => if Ascii.eqb a b then strip_prefix p s else None
  | String _ _, EmptyString => None
  end.

Definition starts_with (p s : string) : bool :=
  match strip_prefix p s with Some _ => true | None => false end.

(** [s.split(c)]: always at least one piece. *)
Fixpoint split (c : ascii) (s : string) : list string :=
  match s with
  | EmptyString => [EmptyString]
  | String a s =>
      if Ascii.eqb a c then EmptyString :: split c s
      else match split c s with
           | [] => [String a EmptyString]
           | h :: t => String a h :: t
           end
  end.

(** [s.split_once(c)] *)
Fixpoint split_once (c : ascii) (s : string) : option (string * string) :=
  match s with
  | EmptyString => None
  | String a s =>
      if Ascii.eqb a c then Some (EmptyString, s)
      else match split_once c s with
           | Some (l, r) => Some (String a l, r)
           | None => None
           end
  end.

(** [s.rsplit_once(c)] *)
Fixpoint rsplit_once (c : ascii) (s : string) : option (string * string) :=
  match s with
  | EmptyString => None
  | String a s =>
      match rsplit_once c s with
      | Some (l, r) => Some (String a l, r)
      | None => if Ascii.eqb a c then Some (EmptyString, s) else None
      end
  end.

(** [s.find(c)]: the byte index of the first occurrence. *)
Fixpoint find_char (c : ascii) (s : string) : option nat :=
  match s with
  | EmptyString => None
  | String a s => if Ascii.eqb a c then Some 0 else S <$> find_char c s
  end.

Fixpoint str_take (n : nat) (s : string) : string :=
  match n, s with
  | S n, String a s => String a (str_take n s)
  | _, _ => EmptyString
  end.

Fixpoint str_drop (n : nat) (s : string) : string :=
  match n, s with
  | S n, String _ s => str_drop n s
  | _, s => s
  end.

Definition lower_char (a : ascii) : ascii :=
  if is_ascii_uppercase a then ascii_of_N (N_of_ascii a + 32) else a.
Definition upper_char (a : ascii) : ascii :=
  if is_ascii_lowercase a then ascii_of_N (N_of_ascii a - 32) else a.

Fixpoint map_string (f : ascii -> ascii) (s : string) : string :=
  match s with
  | EmptyString => EmptyString
  | String a s => String (f a) (map_string f s)
  end.

Definition to_ascii_lowercase : string -> string := map_string lower_char.
Definition to_ascii_uppercase : string -> string := map_string upper_char.

(** The parent prefixes of a path: the loop
    [while let Some(relative) = path[end..].find('/') { end += relative; ...
    &path[..end] ...; end += 1; }].  [S (length path)] rounds are enough. *)
Fixpoint parents_from (fuel : nat) (path : string) (end_ : nat) : list string :=
  match fuel with
  | O => []
  | S fuel =>
      match find_char "/" (str_drop end_ path) with
      | None => []
      | Some relative =>
          str_take (end_ + relative) path :: parents_from fuel path (S (end_ + relative))
      end
  end.

Definition parents (path : string) : list string :=
  parents_from (S (String.length path)) path 0.

(** ** Sorting

    [slice::sort_by] is a stable sort; a stable sort by a total preorder has
    one possible result, computed here by insertion. *)

Section sort_by.
Context {A : Type} (cmp : A -> A -> comparison).

Fixpoint insert_by (x : A) (l : list A) : list A :=
  match l with
  | [] => [x]
  | y :: l' => match cmp x y with Gt => y :: insert_by x l' | _ => x :: l end
  end.

Definition sort_by (l : list A) : list A := foldr insert_by [] l.
End sort_by.

(** [a.cmp(b).then_with(|| c)] *)
Definition then_with (a b : comparison) : comparison :=
  match a with Eq => b | _ => a end.

Definition str_cmp : string -> string -> comparison := String.compare.

Definition bool_cmp (a b : bool) : comparison :=
  match a, b with
  | false, true => Lt
  | true, false => Gt
  | _, _ => Eq
  end.

Definition cmp_on {A B} (f : A -> B) (cmp : B -> B -> comparison) (x y : A) : comparison :=
  cmp (f x) (f y).

(** ** Automation

    [egg] holds the facts the components' invariants are closed with;
    [cases_in] runs the case analysis a chain of [?] asks for. *)

Create HintDb egg.

Ltac destruct_match_in H :=
  match type of H with
  | context [match ?x with _ => _ end] =>
      lazymatch x with
      | context [match _ with _ => _ end] => fail
      | _ => destruct x eqn:?
      end
  end.

Ltac destruct_match_goal :=
  match goal with
  | |- context [match ?x with _ => _ end] =>
      lazymatch x with
      | context [match _ with _ => _ end] => fail
      | _ => destruct x eqn:?
      end
  end.

(** Turn boolean hypotheses into propositions. *)
Ltac bool_hyps :=
  repeat match goal with
  | H : (_ && _)%bool = true |- _ => apply andb_true_iff in H; destruct H
  | H : (_ || _)%bool = false |- _ => apply orb_false_iff in H; destruct H
  | H : negb _ = true |- _ => apply negb_true_iff in H
  | H : negb _ = false |- _ => apply negb_false_iff in H
  | H : (_ <=? _)%Z = true |- _ => apply Z.leb_le in H
  | H : (_ <=? _)%Z = false |- _ => apply Z.leb_gt in H
  | H : (_ <? _)%Z = true |- _ => apply Z.ltb_lt in H
  | H : (_ <? _)%Z = false |- _ => apply Z.ltb_ge in H
  | H : (_ =? _)%Z = true |- _ => apply Z.eqb_eq in H
  | H : (_ =? _)%Z = false |- _ => apply Z.eqb_neq in H
  | H : String.eqb _ _ = true |- _ => apply String.eqb_eq in H
  | H : String.eqb _ _ = false |- _ => apply String.eqb_neq in H
  | H : Ascii.eqb _ _ = true |- _ => apply Ascii.eqb_eq in H
  | H : Ascii.eqb _ _ = false |- _ => apply Ascii.eqb_neq in H
  end.

(** Case analysis on every test a hypothesis branches on. *)
Ltac cases_in H := repeat (destruct_match_in H; simplify_eq/=); bool_hyps.
Ltac cases := repeat (destruct_match_goal; simplify_eq/=); bool_hyps.

Lemma is_ok_spec {E A} (r : result E A) : is_ok r = true <-> exists a, r = Ok a.
Proof. destruct r; naive_solver. Qed.

Lemma is_some_spec {A} (o : option A) : is_some o = true <-> is_Some o.
Proof. destruct o; simpl; [by split; [eexists|]|]. split; [done|by intros [? ?]]. Qed.

Lemma is_some_false {A} (o : option A) : is_some o = false <-> o = None.
Proof. by destruct o. Qed.

Lemma for_each_ok {E A} (f : A -> result E unit) l :
  for_each f l = Ok tt <-> Forall (fun x => f x = Ok tt) l.
Proof.
  induction l as [|x l IH]; simpl; [naive_solver|].
  rewrite Forall_cons. destruct (f x) as [[]|]; naive_solver.
Qed.

(** ** Integers *)

Lemma sat_add_small a b : (a + b <= U64_MAX)%Z -> sat_add a b = (a + b)%Z.
Proof. unfold sat_add. lia. Qed.

Lemma sat_add_le_iff a b m : (m < U64_MAX)%Z -> (sat_add a b <= m <-> a + b <= m)%Z.
Proof. unfold sat_add. lia. Qed.

Lemma as_u64_as_i64 z : u64_range z -> as_u64 (as_i64 z) = z.
Proof.
  unfold u64_range, as_u64, as_i64, U64_MAX, I64_MAX. intros ?.
  repeat case_match; bool_hyps; lia.
Qed.

Lemma as_i64_inj a b : u64_range a -> u64_range b -> as_i64 a = as_i64 b -> a = b.
Proof.
  intros Ha Hb E. rewrite <- (as_u64_as_i64 a), <- (as_u64_as_i64 b) by done. by rewrite E.
Qed.

Lemma as_i64_small z : (z <= I64_MAX)%Z -> as_i64 z = z.
Proof. unfold as_i64. case_match; bool_hyps; lia. Qed.

Lemma as_u64_nonneg z : (0 <= z)%Z -> as_u64 z = z.
Proof. unfold as_u64. case_match; bool_hyps; lia. Qed.

Definition sum_Z (l : list Z) : Z := foldr Z.add 0%Z l.

Lemma sum_Z_cons x l : sum_Z (x :: l) = (x + sum_Z l)%Z.
Proof. done. Qed.

Lemma sum_Z_app l k : sum_Z (l ++ k) = (sum_Z l + sum_Z k)%Z.
Proof. induction l as [|x l IH]; simpl; [done|]. unfold sum_Z in *. simpl. lia. Qed.

Lemma sum_Z_nonneg l : Forall (fun z => 0 <= z)%Z l -> (0 <= sum_Z l)%Z.
Proof. induction 1; simpl; unfold sum_Z in *; simpl; lia. Qed.

Lemma sum_Z_perm l k : l ≡ₚ k -> sum_Z l = sum_Z k.
Proof. induction 1; unfold sum_Z in *; simpl; lia. Qed.

(** A saturating left fold is the true sum, clipped. *)
Lemma fold_sat_add l acc :
  Forall (fun z => 0 <= z)%Z l -> (0 <= acc <= U64_MAX)%Z ->
  foldl sat_add acc l = Z.min (acc + sum_Z l) U64_MAX.
Proof.
  intros Hl. revert acc. induction Hl as [|x l Hx Hl IH]; intros acc Hacc; simpl.
  - unfold sum_Z; simpl. lia.
  - pose proof (sum_Z_nonneg l Hl) as Hs. rewrite IH by (unfold sat_add; lia).
    unfold sat_add, sum_Z in *. simpl. lia.
Qed.

(** ** Strings *)

Lemma str_len_nonneg s : (0 <= str_len s)%Z.
Proof. unfold str_len. lia. Qed.
#[export] Hint Resolve str_len_nonneg : egg.

Lemma all_bytes_spec p s : all_bytes p s = true <-> Forall (fun a => p a = true) (bytes_of s).
Proof. unfold all_bytes. rewrite forallb_forall, Forall_forall. by setoid_rewrite list_elem_of_In. Qed.

Lemma any_byte_false p s : any_byte p s = false <-> Forall (fun a => p a = false) (bytes_of s).
Proof.
  unfold any_byte. induction (bytes_of s) as [|a l IH]; simpl; [naive_solver|].
  rewrite orb_false_iff, Forall_cons, IH. done.
Qed.

Lemma contains_char_spec c s : contains_char c s = true <-> c ∈ bytes_of s.
Proof.
  unfold contains_char, any_byte. rewrite existsb_exists. setoid_rewrite Ascii.eqb_eq.
  rewrite list_elem_of_In. naive_solver.
Qed.

Lemma contains_char_false c s : contains_char c s = false <-> c ∉ bytes_of s.
Proof. rewrite <- contains_char_spec. destruct (contains_char c s); naive_solver. Qed.

Lemma bytes_of_app (s t : string) : bytes_of (s +:+ t) = bytes_of s ++ bytes_of t.
Proof. induction s as [|a s IH]; [done|]. change (a :: bytes_of (s +:+ t) = a :: bytes_of s ++ bytes_of t). by f_equal. Qed.

Lemma is_empty_spec s : is_empty s = true <-> s = EmptyString.
Proof. destruct s; naive_solver. Qed.

Lemma str_app_cons a (s t : string) : String a s +:+ t = String a (s +:+ t).
Proof. done. Qed.

Lemma str_app_nil_l (s : string) : EmptyString +:+ s = s.
Proof. done. Qed.

Lemma str_app_nil_r (s : string) : s +:+ EmptyString = s.
Proof. induction s as [|a s IH]; [done|]. by rewrite str_app_cons, IH. Qed.

Lemma str_app_assoc (s t u : string) : (s +:+ t) +:+ u = s +:+ (t +:+ u).
Proof. induction s as [|a s IH]; [done|]. by rewrite !str_app_cons, IH. Qed.

Lemma str_length_app (s t : string) : String.length (s +:+ t) = String.length s + String.length t.
Proof. induction s as [|a s IH]; [done|]. rewrite str_app_cons. simpl. by rewrite IH. Qed.

Lemma strip_prefix_spec p s r : strip_prefix p s = Some r <-> s = p +:+ r.
Proof.
  revert s. induction p as [|a p IH]; intros s; simpl; [naive_solver|].
  destruct s as [|b s]; [done|]. rewrite str_app_cons.
  destruct (Ascii.eqb_spec a b) as [->|]; [rewrite IH|]; naive_solver.
Qed.

Lemma starts_with_spec p s : starts_with p s = true <-> exists r, s = p +:+ r.
Proof.
  unfold starts_with. setoid_rewrite <- strip_prefix_spec. destruct (strip_prefix p s); naive_solver.
Qed.

Lemma split_not_nil c s : split c s <> [].
Proof. destruct s; simpl; [done|]. repeat case_match; done. Qed.

Lemma split_no_sep c s : Forall (fun p => c ∉ bytes_of p) (split c s).
Proof.
  induction s as [|a s IH]; simpl.
  - constructor; [|done]. apply not_elem_of_nil.
  - destruct (Ascii.eqb_spec a c) as [->|Hne].
    + constructor; [apply not_elem_of_nil|done].
    + destruct (split c s) as [|h t]; [by apply Forall_singleton, not_elem_of_cons; split; [|apply not_elem_of_nil]|].
      inversion IH; subst. constructor; [|done]. by apply not_elem_of_cons.
Qed.

(** The pieces joined by the separator. *)
Fixpoint join (sep : string) (l : list string) : string :=
  match l with
  | [] => EmptyString
  | [x] => x
  | x :: l => x +:+ sep +:+ join sep l
  end.

Lemma join_split c s : join (String c EmptyString) (split c s) = s.
Proof.
  induction s as [|a s IH]; [done|]. cbn [split]. destruct (Ascii.eqb_spec a c) as [->|Hne].
  - destruct (split c s) as [|h t] eqn:E; [by apply split_not_nil in E|].
    rewrite <- IH. done.
  - destruct (split c s) as [|h t] eqn:E; [by apply split_not_nil in E|].
    rewrite <- IH. by destruct t.
Qed.

Lemma split_app_sep c p r :
  c ∉ bytes_of p -> split c (p +:+ String c r) = p :: split c r.
Proof.
  induction p as [|a p IH]; intros Hp.
  - rewrite str_app_nil_l. cbn [split]. by rewrite Ascii.eqb_refl.
  - rewrite str_app_cons. cbn [split]. apply not_elem_of_cons in Hp as [Hne Hp].
    destruct (Ascii.eqb_spec a c); [congruence|]. by rewrite IH.
Qed.

Lemma split_single c s : c ∉ bytes_of s -> split c s = [s].
Proof.
  induction s as [|a s IH]; [done|]. intros [Hne Hs]%not_elem_of_cons. cbn [split].
  destruct (Ascii.eqb_spec a c); [congruence|]. by rewrite IH.
Qed.

Lemma split_join c l :
  l <> [] -> Forall (fun p => c ∉ bytes_of p) l -> split c (join (String c EmptyString) l) = l.
Proof.
  intros Hne Hl. induction Hl as [|p l Hp Hl IH]; [done|]. destruct l as [|q l]; [by apply split_single|].
  change (join _ (p :: q :: l)) with (p +:+ String c (join (String c EmptyString) (q :: l))).
  rewrite split_app_sep by done. by rewrite IH.
Qed.

Lemma split_once_app c p r : c ∉ bytes_of p -> split_once c (p +:+ String c r) = Some (p, r).
Proof.
  induction p as [|a p IH]; intros Hp.
  - rewrite str_app_nil_l. cbn [split_once]. by rewrite Ascii.eqb_refl.
  - rewrite str_app_cons. cbn [split_once]. apply not_elem_of_cons in Hp as [Hne Hp].
    destruct (Ascii.eqb_spec a c); [congruence|]. by rewrite IH.
Qed.

Lemma split_once_none c s : c ∉ bytes_of s -> split_once c s = None.
Proof.
  induction s as [|a s IH]; [done|]. intros [Hne Hs]%not_elem_of_cons. cbn [split_once].
  destruct (Ascii.eqb_spec a c); [congruence|]. by rewrite IH.
Qed.

Lemma rsplit_once_Some c s l r : rsplit_once c s = Some (l, r) -> s = l +:+ String c r.
Proof.
  revert l. induction s as [|a s IH]; intros l; simpl; [done|]. destruct (rsplit_once c s) as [[l' r']|].
  - intros [= <- <-]. by rewrite str_app_cons, (IH l').
  - destruct (Ascii.eqb_spec a c) as [->|]; [|done]. intros [= <- <-]. done.
Qed.

Lemma rsplit_once_None c s : c ∉ bytes_of s -> rsplit_once c s = None.
Proof.
  induction s as [|a s IH]; [done|]. intros Hn. simpl. rewrite IH by (intros ?; apply Hn; by right).
  destruct (Ascii.eqb_spec a c) as [->|]; [|done]. destruct Hn. by left.
Qed.

Lemma rsplit_once_app c l r : c ∉ bytes_of r -> rsplit_once c (l +:+ String c r) = Some (l, r).
Proof.
  intros Hr. induction l as [|a l IH].
  - rewrite str_app_nil_l. simpl. by rewrite rsplit_once_None, Ascii.eqb_refl.
  - rewrite str_app_cons. simpl. by rewrite IH.
Qed.

Lemma find_char_None c s : find_char c s = None <-> c ∉ bytes_of s.
Proof.
  induction s as [|a s IH]; simpl; [by split; [intros _; apply not_elem_of_nil|]|].
  rewrite not_elem_of_cons. destruct (Ascii.eqb_spec a c) as [->|]; [naive_solver|].
  rewrite fmap_None, IH. naive_solver.
Qed.

Lemma find_char_Some c s n :
  find_char c s = Some n ->
  s = str_take n s +:+ String c (str_drop (S n) s) /\ c ∉ bytes_of (str_take n s).
Proof.
  revert n. induction s as [|a s IH]; intros n; simpl; [done|].
  destruct (Ascii.eqb_spec a c) as [->|Hne].
  - intros [= <-]. simpl. rewrite str_app_nil_l. split; [by destruct s|apply not_elem_of_nil].
  - intros (m & Hm & ->)%fmap_Some. apply IH in Hm as [E Hn]. split.
    + change (String a s = String a (str_take m s +:+ String c (str_drop (S m) s))). by f_equal.
    + by apply not_elem_of_cons.
Qed.

Lemma str_take_app (s t : string) : str_take (String.length s) (s +:+ t) = s.
Proof. induction s as [|a s IH]; [done|]. rewrite str_app_cons. simpl. by rewrite IH. Qed.

Lemma str_drop_app (s t : string) : str_drop (String.length s) (s +:+ t) = t.
Proof. induction s as [|a s IH]; [done|]. rewrite str_app_cons. simpl. by rewrite IH. Qed.

Lemma str_take_length n s : n <= String.length s -> String.length (str_take n s) = n.
Proof. revert n. induction s as [|a s IH]; intros [|n] Hn; simpl in *; [lia..|]. rewrite IH; lia. Qed.

Lemma find_char_lt c s n : find_char c s = Some n -> n < String.length s.
Proof.
  revert n. induction s as [|a s IH]; intros n; simpl; [done|]. case_match; [intros; simplify_eq; lia|].
  intros (m & Hm & ->)%fmap_Some. apply IH in Hm. lia.
Qed.

Lemma app_sep_split c (a b mid suf : string) :
  c ∉ bytes_of a -> a +:+ String c b = mid +:+ String c suf ->
  (mid = a /\ suf = b) \/ exists m, mid = a +:+ String c m /\ b = m +:+ String c suf.
Proof.
  revert mid. induction a as [|x a IH]; intros [|y mid] Hno E;
    rewrite ?str_app_cons, ?str_app_nil_l in *.
  - injection E as ->. by left.
  - injection E as -> ->. right. by exists mid.
  - injection E as -> _. by apply not_elem_of_cons in Hno as [? ?].
  - injection E as -> E2. apply not_elem_of_cons in Hno as [? Hno].
    destruct (IH mid Hno E2) as [[-> ->]|(m & -> & ->)]; [by left|right].
    by exists m.
Qed.

(** The loop over parent prefixes visits exactly the prefixes that a slash
    follows: the fuel never runs out. *)
Lemma parents_from_spec fuel pre rest x :
  String.length rest < fuel ->
  x ∈ parents_from fuel (pre +:+ rest) (String.length pre) <->
  exists mid suffix, rest = mid +:+ String "/" suffix /\ x = pre +:+ mid.
Proof.
  revert pre rest. induction fuel as [|fuel IH]; intros pre rest Hf; [lia|]. cbn [parents_from].
  rewrite str_drop_app. destruct (find_char "/" rest) as [n|] eqn:E.
  - pose proof (find_char_lt _ _ _ E) as Hlt. apply find_char_Some in E as [E Hno].
    set (a := str_take n rest) in *. set (b := str_drop (S n) rest) in *.
    assert (String.length a = n) as Hla by (apply str_take_length; lia).
    assert (pre +:+ rest = (pre +:+ a +:+ "/") +:+ b) as E2.
    { rewrite E, !str_app_assoc. done. }
    assert (str_take (String.length pre + n) (pre +:+ rest) = pre +:+ a) as ->.
    { rewrite E, <- str_app_assoc, <- Hla, <- str_length_app. apply str_take_app. }
    replace (S (String.length pre + n)) with (String.length (pre +:+ a +:+ "/"))
      by (rewrite !str_length_app, Hla; simpl; lia).
    rewrite E2, elem_of_cons, IH.
    2:{ rewrite E, str_length_app in Hf. simpl in Hf. lia. }
    split.
    + intros [->|(mid & suf & -> & ->)]; [by exists a, b|].
      exists (a +:+ String "/" mid), suf. split; [|by rewrite !str_app_assoc].
      rewrite E, str_app_assoc. done.
    + intros (mid & suf & Er & ->). rewrite E in Er.
      destruct (app_sep_split _ _ _ _ _ Hno Er) as [[-> ->]|(m & -> & ->)]; [by left|right].
      exists m, suf. split; [done|]. by rewrite !str_app_assoc.
  - apply find_char_None in E. split; [by intros ?%not_elem_of_nil|].
    intros (mid & suf & -> & _). exfalso. apply E. rewrite bytes_of_app. set_solver.
Qed.

Lemma elem_of_parents path x :
  x ∈ parents path <-> exists suffix, path = x +:+ String "/" suffix.
Proof.
  unfold parents. pose proof (parents_from_spec (S (String.length path)) EmptyString path x) as H.
  rewrite str_app_nil_l in H. simpl in H. rewrite H by lia. naive_solver.
Qed.

(** ** Comparators *)

Class CmpOrder {A} (cmp : A -> A -> comparison) : Prop := {
  cmp_flip x y : cmp x y = CompOpp (cmp y x);
  cmp_le_trans x y z : cmp x y <> Gt -> cmp y z <> Gt -> cmp x z <> Gt;
}.

(** Comparing equal means being equal. *)
Class CmpStrict {A} (cmp : A -> A -> comparison) : Prop :=
  cmp_eq_eq x y : cmp x y = Eq -> x = y.

Section cmp.
Context {A : Type} (cmp : A -> A -> comparison) `{!CmpOrder cmp}.

Lemma cmp_refl x : cmp x x = Eq.
Proof. pose proof (cmp_flip x x). destruct (cmp x x); simpl in *; congruence. Qed.

Lemma cmp_gt_flip x y : cmp x y = Gt -> cmp y x = Lt.
Proof. rewrite cmp_flip. destruct (cmp y x); simpl; congruence. Qed.

Lemma insert_by_perm x l : insert_by cmp x l ≡ₚ x :: l.
Proof.
  induction l as [|y l IH]; simpl; [done|]. case_match; try done.
  rewrite IH. apply Permutation_swap.
Qed.

Lemma sort_by_perm l : sort_by cmp l ≡ₚ l.
Proof. unfold sort_by. induction l as [|x l IH]; simpl; [done|]. by rewrite insert_by_perm, IH. Qed.

Lemma insert_by_sorted x l :
  StronglySorted (fun a b => cmp a b <> Gt) l ->
  StronglySorted (fun a b => cmp a b <> Gt) (insert_by cmp x l).
Proof.
  induction 1 as [|y l Hl IH Hy]; simpl; [by repeat constructor|].
  destruct (cmp x y) eqn:E.
  1,2: constructor; [by constructor|]; constructor; [congruence|];
    eapply Forall_impl; [done|]; intros z Hz; apply (cmp_le_trans x y z); [congruence|exact Hz].
  constructor; [done|]. rewrite insert_by_perm. constructor; [|done].
  by rewrite (cmp_gt_flip _ _ E).
Qed.

Lemma sort_by_sorted l : StronglySorted (fun a b => cmp a b <> Gt) (sort_by cmp l).
Proof. unfold sort_by. induction l; simpl; [constructor|]. by apply insert_by_sorted. Qed.

(** The result depends only on the elements once no two distinct elements
    compare equal. *)
Lemma sort_by_unique l k :
  l ≡ₚ k -> (forall x y, x ∈ l -> y ∈ l -> cmp x y = Eq -> x = y) ->
  sort_by cmp l = sort_by cmp k.
Proof.
  intros Hp Heq. apply (StronglySorted_unique_strong (fun a b => cmp a b <> Gt)).
  - intros x y Hx Hy H1 H2. rewrite sort_by_perm in Hx. rewrite sort_by_perm, <- Hp in Hy.
    apply Heq; [done..|]. rewrite cmp_flip in H2. destruct (cmp x y); simpl in *; congruence.
  - apply sort_by_sorted.
  - apply sort_by_sorted.
  - by rewrite !sort_by_perm.
Qed.

Lemma insert_by_head x l :
  Forall (fun y => cmp x y <> Gt) l -> insert_by cmp x l = x :: l.
Proof. destruct 1 as [|y l Hy]; simpl; [done|]. by destruct (cmp x y). Qed.

Lemma sort_by_id l : StronglySorted (fun a b => cmp a b <> Gt) l -> sort_by cmp l = l.
Proof.
  unfold sort_by. induction 1 as [|x l Hl IH Hx]; simpl; [done|]. rewrite IH. by apply insert_by_head.
Qed.

Lemma sort_by_idemp l : sort_by cmp (sort_by cmp l) = sort_by cmp l.
Proof. apply sort_by_id, sort_by_sorted. Qed.

#[export] Instance cmp_on_order {B} (f : B -> A) : CmpOrder (cmp_on f cmp).
Proof.
  unfold cmp_on. split; [intros; apply cmp_flip|intros x y z; apply cmp_le_trans].
Qed.

Lemma cmp_lt_trans x y z : cmp x y = Lt -> cmp y z <> Gt -> cmp x z = Lt.
Proof.
  intros H1 H2. assert (cmp y x = Gt) as H3 by (by rewrite cmp_flip, H1).
  assert (cmp x z <> Gt) as H4 by (apply (cmp_le_trans x y z); congruence).
  destruct (cmp x z) eqn:E; [|done|congruence].
  exfalso. apply (cmp_le_trans (cmp := cmp) y z x H2); [|exact H3]. rewrite cmp_flip, E. discriminate.
Qed.

Lemma cmp_eq_trans_r x y z : cmp x y = Eq -> cmp x z = cmp y z.
Proof.
  intros H. assert (cmp y x = Eq) as H' by (rewrite cmp_flip, H; done).
  destruct (cmp y z) eqn:E.
  - assert (cmp z y = Eq) as E' by (by rewrite cmp_flip, E). destruct (cmp x z) eqn:E2; [done|..].
    + apply (cmp_lt_trans x z y) in E2; congruence.
    + apply cmp_gt_flip in E2. apply (cmp_lt_trans z x y) in E2; congruence.
  - destruct (cmp x z) eqn:E2; [|done|].
    + assert (cmp z x = Eq) as E' by (by rewrite cmp_flip, E2).
      apply (cmp_lt_trans y z x) in E; congruence.
    + exfalso. apply (cmp_le_trans (cmp := cmp) x y z); congruence.
  - apply cmp_gt_flip in E. apply (cmp_lt_trans z y x) in E; [|congruence].
    by rewrite cmp_flip, E.
Qed.
End cmp.

#[export] Instance str_cmp_strict : CmpStrict str_cmp.
Proof. intros x y. apply String.compare_eq_iff. Qed.

Lemma ascii_cmp_code a b : Ascii.compare a b = Z.compare (code a) (code b).
Proof. symmetry. apply N2Z.inj_compare. Qed.

Lemma code_inj a b : code a = code b -> a = b.
Proof.
  unfold code. intros H%N2Z.inj. rewrite <- (ascii_N_embedding a), <- (ascii_N_embedding b). by rewrite H.
Qed.

#[export] Instance str_cmp_order : CmpOrder str_cmp.
Proof.
  split; [apply String.compare_antisym|]. unfold str_cmp.
  induction x as [|a x IH]; intros [|b y] [|c z]; simpl; try done.
  rewrite !ascii_cmp_code.
  destruct (Z.compare_spec (code a) (code b)), (Z.compare_spec (code b) (code c)),
    (Z.compare_spec (code a) (code c)); try lia; try done. apply IH.
Qed.

#[export] Instance bool_cmp_strict : CmpStrict bool_cmp.
Proof. by intros [] []. Qed.

#[export] Instance bool_cmp_order : CmpOrder bool_cmp.
Proof. split; [by intros [] []|by intros [] [] []]. Qed.

#[export] Instance Z_compare_order : CmpOrder Z.compare.
Proof. split; [intros x y; apply Z.compare_antisym|]. intros x y z. rewrite !Z.compare_ngt_iff. lia. Qed.

(** Lexicographic comparison by two keys: [a.k1.cmp(b.k1).then_with(|| ...)]. *)
Section lex.
Context {A : Type} (c1 c2 : A -> A -> comparison) `{!CmpOrder c1, !CmpOrder c2}.

#[export] Instance then_with_order : CmpOrder (fun x y => then_with (c1 x y) (c2 x y)).
Proof.
  split.
  - intros x y. rewrite (cmp_flip (cmp := c1) x y), (cmp_flip (cmp := c2) x y).
    by destruct (c1 y x).
  - intros x y z. destruct (c1 x y) eqn:E; simpl; [|intros _|done].
    + rewrite (cmp_eq_trans_r c1 _ _ z E). destruct (c1 y z); simpl; try done. apply cmp_le_trans.
    + intros H. rewrite (cmp_lt_trans c1 x y z E); [done|]. by destruct (c1 y z).
Qed.
End lex.

(** Sorting commutes with a map that the comparators agree on. *)
Lemma insert_by_fmap {A B} (f : A -> B) c1 c2 x l :
  Forall (fun y => c1 x y = c2 (f x) (f y)) l ->
  f <$> insert_by c1 x l = insert_by c2 (f x) (f <$> l).
Proof. induction 1 as [|y l Hy Hl IH]; csimpl; [done|]. rewrite Hy. case_match; csimpl; congruence. Qed.

Lemma sort_by_fmap {A B} (f : A -> B) c1 c2 `{!CmpOrder c1} (l : list A) :
  (forall x y, x ∈ l -> y ∈ l -> c1 x y = c2 (f x) (f y)) ->
  f <$> sort_by c1 l = sort_by c2 (f <$> l).
Proof.
  unfold sort_by. induction l as [|x l IH]; csimpl; intros H; [done|].
  rewrite <- IH by set_solver. apply insert_by_fmap, Forall_forall. intros y Hy.
  change (foldr (insert_by c1) [] l) with (sort_by c1 l) in Hy. rewrite sort_by_perm in Hy by done.
  apply H; set_solver.
Qed.

(** ** Membership tests through a growing set

    [iter.any(|x| !set.insert(x))]: does the sequence repeat an element? *)
Section duplicates.
Context `{Countable K}.

Fixpoint has_duplicate (seen : gset K) (l : list K) : bool :=
  match l with
  | [] => false
  | x :: l => if decide (x ∈ seen) then true else has_duplicate ({[x]} ∪ seen) l
  end.

Lemma has_duplicate_seen seen l :
  has_duplicate seen l = false <-> NoDup l /\ forall x, x ∈ l -> x ∉ seen.
Proof.
  revert seen. induction l as [|x l IH]; intros seen; simpl.
  - split; [|done]. intros _. split; [constructor|by intros ? ?%not_elem_of_nil].
  - destruct (decide (x ∈ seen)) as [Hx|Hx].
    + split; [done|]. intros [_ Hs]. by destruct (Hs x); [left|].
    + rewrite IH, NoDup_cons. set_solver.
Qed.

Lemma has_duplicate_spec l : has_duplicate ∅ l = false <-> NoDup l.
Proof. rewrite has_duplicate_seen. set_solver. Qed.
End duplicates.

(** An injective key makes equal-key elements of a duplicate-free list equal. *)
Lemma NoDup_fmap_eq {A B} (f : A -> B) (l : list A) x y :
  NoDup (f <$> l) -> x ∈ l -> y ∈ l -> f x = f y -> x = y.
Proof.
  induction l as [|z l IH]; simpl; [by intros _ ?%not_elem_of_nil|].
  rewrite NoDup_cons, !elem_of_cons. intros [Hz Hl] [->|Hx] [->|Hy] E; [done|..|auto].
  - destruct Hz. rewrite E. by apply list_elem_of_fmap_2.
  - destruct Hz. rewrite <- E. by apply list_elem_of_fmap_2.
Qed.

Lemma filter_all {A} (P : A -> Prop) `{Hdec : !forall x, Decision (P x)} (l : list A) :
  (forall x, x ∈ l -> P x) -> filter P l = l.
Proof.
  induction l as [|x l IH]; intros H; [done|].
  rewrite filter_cons_True by (apply H; by left). f_equal. apply IH. intros y Hy. apply H. by right.
Qed.

Lemma filter_none {A} (P : A -> Prop) `{Hdec : !forall x, Decision (P x)} (l : list A) :
  (forall x, x ∈ l -> ~ P x) -> filter P l = [].
Proof.
  induction l as [|x l IH]; intros H; [done|].
  rewrite filter_cons_False by (apply H; by left). apply IH. intros y Hy. apply H. by right.
Qed.

Lemma StronglySorted_filter {A} (R : A -> A -> Prop) (P : A -> Prop) `{!forall x, Decision (P x)} (l : list A) :
  StronglySorted R l -> StronglySorted R (filter P l).
Proof.
  induction 1 as [|x l Hl IH Hx]; [constructor|]. rewrite filter_cons. case_decide; [|done]. constructor; [done|].
  rewrite Forall_forall in *. intros y [_ Hy]%list_elem_of_filter. auto.
Qed.

Lemma alter_as_insert `{Countable K} {A} (m : gmap K A) k f x :
  m !! k = Some x -> alter f k m = <[k := f x]> m.
Proof.
  intros Hk. apply map_eq. intros i. destruct (decide (k = i)) as [<-|Hne].
  - by rewrite lookup_alter_eq, lookup_insert_eq, Hk.
  - by rewrite lookup_alter_ne, lookup_insert_ne.
Qed.

(** Positions of a list. *)
Lemma elem_of_imap_pair {A} (l : list A) x : x ∈ l -> exists i, (i, x) ∈ imap pair l.
Proof.
  intros [i Hi]%list_elem_of_lookup_1. exists i. apply (list_elem_of_lookup_2 _ i). by rewrite list_lookup_imap, Hi.
Qed.

Lemma elem_of_imap_snd {A} (l : list A) p : p ∈ imap pair l -> p.2 ∈ l.
Proof.
  intros [i Hi]%list_elem_of_lookup_1. rewrite list_lookup_imap in Hi. destruct (l !! i) eqn:E; [|done]. injection Hi as <-.
  by apply list_elem_of_lookup_2 in E.
Qed.

Lemma imap_pair_snd {A} (l : list A) : (imap pair l).*2 = l.
Proof. apply list_eq. intros i. rewrite list_lookup_fmap, list_lookup_imap. by destruct (l !! i). Qed.

(** ** Actions *)

Section act_lemmas.
Context {S E : Type}.
Open Scope act_scope.

Lemma act_bind_Ok {A B} (c : act S E A) (k : A -> act S E B) s b s' :
  act_bind c k s = (Ok b, s') <-> exists a s1, c s = (Ok a, s1) /\ k a s1 = (Ok b, s').
Proof. unfold act_bind. destruct (c s) as [[a|e] s1]; naive_solver. Qed.

Lemma act_bind_Err {A B} (c : act S E A) (k : A -> act S E B) s e s' :
  act_bind c k s = (Err e, s') <-> c s = (Err e, s') \/ exists a s1, c s = (Ok a, s1) /\ k a s1 = (Err e, s').
Proof. unfold act_bind. destruct (c s) as [[a|e'] s1]; naive_solver. Qed.

Lemma act_each_Ok {A} (f : A -> act S E unit) l (P : A -> S -> Prop) (R : S -> S -> Prop) `{!PreOrder R} s s' :
  (forall x s s', x ∈ l -> f x s = (Ok tt, s') -> P x s /\ R s s') -> (forall x s s', R s s' -> P x s' -> P x s) ->
  act_each f l s = (Ok tt, s') -> R s s' /\ forall x, x ∈ l -> P x s.
Proof.
  intros Hf HP. revert s. induction l as [|x l IH]; intros s; simpl.
  - intros [= <-]. split; [done|]. by intros x ?%not_elem_of_nil.
  - rewrite act_bind_Ok. intros ([] & s1 & H1 & H2). destruct (Hf x s s1 ltac:(by left) H1) as [HPx HR].
    apply IH in H2 as [HR' H2]; [|intros; apply Hf; [by right|done]]. split; [by etrans|].
    intros y [->|Hy]%elem_of_cons; [done|]. eapply HP; [done|]. by apply H2.
Qed.

Lemma act_each_total {A} (f : A -> act S E unit) l (R : S -> S -> Prop) `{!PreOrder R} s :
  (forall x s, x ∈ l -> exists s', f x s = (Ok tt, s') /\ R s s') -> exists s', act_each f l s = (Ok tt, s') /\ R s s'.
Proof.
  revert s. induction l as [|x l IH]; intros s Hf; simpl; [by exists s|].
  destruct (Hf x s ltac:(by left)) as (s1 & E1 & R1). unfold act_bind. rewrite E1.
  destruct (IH s1) as (s2 & E2 & R2); [intros; apply Hf; by right|]. exists s2. split; [done|by etrans].
Qed.

Lemma fst_Ok {A} (x : result E A * S) a : x.1 = Ok a -> x = (Ok a, x.2).
Proof. destruct x. by intros [= ->]. Qed.

(** An action that moves the state along a relation, whether or not it fails. *)
Definition keeps {A} (R : S -> S -> Prop) (c : act S E A) : Prop := forall s, R s (c s).2.

Section keeps.
Context (R : S -> S -> Prop) `{!PreOrder R}.

Lemma keeps_bind {A B} (c : act S E A) (k : A -> act S E B) : keeps R c -> (forall a, keeps R (k a)) -> keeps R (act_bind c k).
Proof.
  intros Hc Hk s. unfold act_bind. specialize (Hc s). destruct (c s) as [[a|e] s1]; [|done]. simpl in Hc. etrans; [done|apply Hk].
Qed.

(** The continuation may use that the first action succeeded. *)
Lemma keeps_bind_Ok {A B} (c : act S E A) (k : A -> act S E B) :
  keeps R c -> (forall a s s', c s = (Ok a, s') -> keeps R (k a)) -> keeps R (act_bind c k).
Proof.
  intros Hc Hk s. unfold act_bind. specialize (Hc s). destruct (c s) as [[a|e] s1] eqn:E'; [|done]. etrans; [done|by eapply Hk].
Qed.

Lemma keeps_ret {A} (a : A) : keeps R (ret a : act S E A).
Proof. by intros s. Qed.
Lemma keeps_throw {A} e : keeps R (throw e : act S E A).
Proof. by intros s. Qed.
Lemma keeps_guard b e : keeps R (guard_err b e).
Proof. by destruct b; intros s. Qed.
Lemma keeps_of_result {A} (r : result E A) : keeps R (of_result r).
Proof. by intros s. Qed.
Lemma keeps_gets {A} (f : S -> A) : keeps R (gets f : act S E A).
Proof. by intros s. Qed.
Lemma keeps_modify f : (forall s, R s (f s)) -> keeps R (modify f).
Proof. by intros Hf s. Qed.
Lemma keeps_ignore {A} (c : act S E A) : keeps R c -> keeps R (ignore c).
Proof. intros Hc s. apply Hc. Qed.
Lemma keeps_attempt {A} (c : act S E A) : keeps R c -> keeps R (attempt c).
Proof. intros Hc s. apply Hc. Qed.
Lemma keeps_if {A} (b : bool) (c c' : act S E A) : keeps R c -> keeps R c' -> keeps R (if b then c else c').
Proof. by destruct b. Qed.
Lemma keeps_each {A} (f : A -> act S E unit) l : (forall x, x ∈ l -> keeps R (f x)) -> keeps R (act_each f l).
Proof.
  induction l as [|x l IH]; intros Hf; simpl; [apply keeps_ret|]. apply keeps_bind; [apply Hf; by left|].
  intros _. apply IH. intros y Hy. apply Hf. by right.
Qed.
End keeps.
End act_lemmas.

(** Close a [keeps] goal up to what the code does to the state. *)
Ltac keeps_tac :=
  repeat lazymatch goal with
  | |- forall _, _ => intro
  | |- keeps _ (let _ := _ in _) => cbv zeta
  | |- keeps _ (ret _) => apply keeps_ret; apply _
  | |- keeps _ (throw _) => apply keeps_throw; apply _
  | |- keeps _ (guard_err _ _) => apply keeps_guard; apply _
  | |- keeps _ (of_result _) => apply keeps_of_result; apply _
  | |- keeps _ (gets _) => apply keeps_gets; apply _
  | |- keeps _ (ignore _) => apply keeps_ignore
  | |- keeps _ (attempt _) => apply keeps_attempt
  | |- keeps _ (act_bind _ _) => apply keeps_bind; [apply _| |]
  | |- keeps _ (act_each _ _) => apply keeps_each; [apply _|]
  | |- keeps _ (match ?x with _ => _ end) => destruct x
  end.
