(* ===== verification/Text.v ===== *)
(** * Decimal numbers as text

    [to_string] and [parse] of the unsigned integers the protocol carries in
    URLs, environment variables and error messages. *)

From Stdlib Require Import Ascii String ZArith Lia.
From stdpp Require Import base strings list.
From S2P Require Import Prelude.

Definition digit (d : Z) : ascii := ascii_of_N (Z.to_N (48 + d)).

(** The digits of [z] in front of [acc]; a [u64] has at most 20. *)
Fixpoint dec_from (fuel : nat) (z : Z) (acc : string) : string :=
  match fuel with
  | O => acc
  | S fuel =>
      let acc := String (digit (z mod 10)) acc in
      if (z / 10 =? 0)%Z then acc else dec_from fuel (z / 10) acc
  end.

(** [u64::to_string] *)
Definition dec (z : Z) : string := dec_from 20 z EmptyString.

(** The digit loop of [u64::from_str], with its overflow checks. *)
Fixpoint parse_from (acc : Z) (s : string) : option Z :=
  match s with
  | EmptyString => Some acc
  | String a s =>
      if is_ascii_digit a then
        let next := (acc * 10 + (code a - 48))%Z in
        if (next <=? U64_MAX)%Z then parse_from next s else None
      else None
  end.

(** [str::parse::<u64>] *)
Definition parse_u64 (s : string) : option Z :=
  match s with
  | EmptyString => None
  | String a rest =>
      if Ascii.eqb a "+" then (if is_empty rest then None else parse_from 0 rest)
      else parse_from 0 s
  end.

Lemma code_digit d : (0 <= d < 10)%Z -> code (digit d) = (48 + d)%Z.
Proof. intros Hd. unfold code, digit. rewrite N_ascii_embedding; lia. Qed.

Lemma digit_is_digit d : (0 <= d < 10)%Z -> is_ascii_digit (digit d) = true.
Proof.
  intros Hd. unfold is_ascii_digit, in_range. rewrite code_digit by done.
  apply andb_true_iff. rewrite !Z.leb_le. lia.
Qed.

Lemma parse_dec_from fuel z s :
  (0 <= z <= U64_MAX)%Z -> (z < 10 ^ Z.of_nat fuel)%Z ->
  parse_from 0 (dec_from fuel z s) = parse_from z s.
Proof.
  revert z s. induction fuel as [|fuel IH]; intros z s Hz Hf; [simpl in *; by replace z with 0%Z by lia|].
  cbn [dec_from]. pose proof (Z.mod_pos_bound z 10 ltac:(lia)) as Hm.
  pose proof (Z.div_mod z 10 ltac:(lia)) as Hdm.
  rewrite Nat2Z.inj_succ, Z.pow_succ_r in Hf by lia.
  assert (forall a, a * 10 + z mod 10 <= U64_MAX -> (0 <= a)%Z ->
    parse_from a (String (digit (z mod 10)) s) = parse_from (a * 10 + z mod 10) s)%Z as Hone.
  { intros a Ha Ha0. cbn [parse_from]. rewrite digit_is_digit, code_digit by done.
    replace (a * 10 + (48 + z mod 10 - 48))%Z with (a * 10 + z mod 10)%Z by lia.
    by rewrite (proj2 (Z.leb_le _ _)). }
  destruct (z / 10 =? 0)%Z eqn:E; bool_hyps.
  - rewrite Hone by lia. f_equal. lia.
  - rewrite IH, Hone by lia. f_equal. lia.
Qed.

Lemma dec_from_shape fuel z s :
  (0 <= z)%Z -> exists p, dec_from fuel z s = p +:+ s /\ String.length p <= fuel
    /\ (0 < fuel -> p <> EmptyString) /\ Forall (fun a => is_ascii_digit a = true) (bytes_of p).
Proof.
  revert z s. induction fuel as [|fuel IH]; intros z s Hz; [exists EmptyString; split_and!; [done|simpl; lia|lia|constructor]|].
  cbn [dec_from]. pose proof (Z.mod_pos_bound z 10 ltac:(lia)) as Hm. destruct (z / 10 =? 0)%Z.
  - exists (String (digit (z mod 10)) EmptyString). split_and!; [done|simpl; lia|done|].
    constructor; [by apply digit_is_digit|constructor].
  - destruct (IH (z / 10)%Z (String (digit (z mod 10)) s)) as (p & -> & Hl & _ & Hd); [by apply Z.div_pos|].
    exists (p +:+ String (digit (z mod 10)) EmptyString). split_and!.
    + by rewrite str_app_assoc.
    + rewrite str_length_app. simpl. lia.
    + by destruct p.
    + rewrite bytes_of_app. apply Forall_app. split; [done|]. constructor; [by apply digit_is_digit|constructor].
Qed.

(** A printed number is one to twenty digits. *)
Lemma dec_shape z :
  (0 <= z)%Z -> dec z <> EmptyString /\ (str_len (dec z) <= 20)%Z
    /\ Forall (fun a => is_ascii_digit a = true) (bytes_of (dec z)).
Proof.
  intros Hz. destruct (dec_from_shape 20 z EmptyString Hz) as (p & E & Hl & Hne & Hd).
  unfold dec. rewrite E, str_app_nil_r. split_and!; [apply Hne; lia|unfold str_len; lia|done].
Qed.

Lemma dec_no_byte z c : (0 <= z)%Z -> is_ascii_digit c = false -> c ∉ bytes_of (dec z).
Proof.
  intros Hz Hc Hin. destruct (dec_shape z Hz) as (_ & _ & Hd). rewrite Forall_forall in Hd.
  apply Hd in Hin. congruence.
Qed.

Lemma parse_dec z : u64_range z -> parse_u64 (dec z) = Some z.
Proof.
  intros Hz. destruct (dec_shape z) as (Hne & _ & Hd); [unfold u64_range in Hz; lia|].
  unfold parse_u64. destruct (dec z) as [|a rest] eqn:E; [done|].
  destruct (Ascii.eqb_spec a "+") as [->|Hp]; [by inversion Hd|]. rewrite <- E. unfold dec.
  rewrite parse_dec_from; [done|done|]. unfold u64_range, U64_MAX in Hz. simpl. lia.
Qed.

Lemma parse_from_range s : forall acc n, u64_range acc -> parse_from acc s = Some n -> u64_range n.
Proof.
  induction s as [|a s IH]; intros acc n Ha; simpl; [by intros [= <-]|]. destruct (is_ascii_digit a) eqn:Ed; [|done].
  destruct (_ <=? U64_MAX)%Z eqn:En; [|done]. apply IH. unfold is_ascii_digit, in_range in Ed. bool_hyps. unfold u64_range in *. lia.
Qed.

(** A parsed number is a [u64]. *)
Lemma parse_u64_range s n : parse_u64 s = Some n -> u64_range n.
Proof.
  assert (u64_range 0) as H0 by (unfold u64_range, U64_MAX; lia). unfold parse_u64. destruct s as [|a s]; [done|].
  destruct (Ascii.eqb a "+"); [destruct (is_empty s); [done|]|]; by apply parse_from_range.
Qed.
