(* ===== verification/Ids.v ===== *)
(** * Bounded identifiers, digests and paths

    [eggwork-core/src/lib.rs], lines 10-236: the protocol bounds, the
    validation error, the identifier newtypes of the [id_type!] macro, the
    SHA-256 blob digest and the confined relative path.

    A newtype around a private [String] is modelled by the string it holds;
    the constructor is the only way to obtain one, so "is a value of the type"
    is "the constructor accepts it". *)

From Stdlib Require Import Strings.Byte Ascii String ZArith Lia.
From stdpp Require Import base gmap strings list.
From S2P Require Import Prelude.

Abbreviation bytes := (list Byte.byte).

#[export] Instance byte_eq_dec : EqDecision Byte.byte := Byte.byte_eq_dec.

#[export] Instance byte_countable : Countable Byte.byte :=
  inj_countable Byte.to_N Byte.of_N Byte.of_to_N.

Definition len {A} (l : list A) : Z := Z.of_nat (length l).

Definition MAX_ID_BYTES : Z := 128.
Definition MAX_PATH_BYTES : Z := 4096.

Inductive ValidationError : Type :=
| Empty (field : string)
| TooLong (field : string) (max : Z)
| InvalidSyntax (field : string)
| TooMany (field : string) (max : Z)
| Forbidden (field : string)
| InvalidPath (field : string)
| OutOfRange (field : string).

(** ** Identifiers *)

Definition id_byte (b : ascii) : bool :=
  is_ascii_alphanumeric b
  || Ascii.eqb b "-" || Ascii.eqb b "_" || Ascii.eqb b "." || Ascii.eqb b ":".

(** [$name::new] of the [id_type!] macro, for the label of the type. *)
Definition id_new (label value : string) : result ValidationError string :=
  if is_empty value then Err (Empty label)
  else if (MAX_ID_BYTES <? str_len value)%Z then Err (TooLong label MAX_ID_BYTES)
  else if negb (all_bytes id_byte value) then Err (InvalidSyntax label)
  else Ok value.

Definition NodeId_new := id_new "node id".
Definition PrincipalId_new := id_new "principal id".
Definition ExecutionId_new := id_new "execution id".
Definition LeaseId_new := id_new "lease id".
Definition WorkspaceId_new := id_new "workspace id".
Definition ArtifactId_new := id_new "artifact id".

(** [ExecutionGeneration::new]; the value is a [u64]. *)
Definition ExecutionGeneration_new (value : Z) : result ValidationError Z :=
  if (value =? 0)%Z then Err (OutOfRange "execution generation") else Ok value.

(** ** Blob digests *)

(** [BlobDigest::parse] *)
Definition BlobDigest_parse (value : string) : result ValidationError string :=
  if negb (str_len value =? 64)%Z
     || negb (all_bytes (fun b => is_ascii_hexdigit b && negb (is_ascii_uppercase b)) value)
  then Err (InvalidSyntax "sha256 blob digest")
  else Ok value.

(** The hash function: [hex::encode(Sha256::digest(bytes))] of the [sha2] and
    [hex] crates, which are not part of the repository. *)
Class Sha256 := sha256_hex : bytes -> string.

(** What the node relies on: the hexadecimal digest is 64 lower-case
    hexadecimal digits. *)
Class Sha256Ok `{Sha256} : Prop :=
  sha256_hex_wf b : BlobDigest_parse (sha256_hex b) = Ok (sha256_hex b).

(** [BlobDigest::from_bytes] *)
Definition BlobDigest_from_bytes `{Sha256} (b : bytes) : string := sha256_hex b.

(** A function of the shape the node relies on, for concrete runs. *)
Definition zeros : string := "0000000000000000000000000000000000000000000000000000000000000000".
Definition zero_sha256 : Sha256 := fun _ => zeros.

(** ** Relative paths *)

Definition path_component_confined (c : string) : bool :=
  negb (is_empty c || String.eqb c "." || String.eqb c "..").

(** [RelativePath::new] *)
Definition RelativePath_new (value : string) : result ValidationError string :=
  if is_empty value
     || (MAX_PATH_BYTES <? str_len value)%Z
     || starts_with_char "/" value
     || contains_char "\" value
     || contains_nul value
  then Err (InvalidPath "relative path")
  else if existsb (fun c => is_empty c || String.eqb c "." || String.eqb c "..") (split "/" value)
  then Err (InvalidPath "relative path")
  else Ok value.

(** ** What the constructors accept *)

Definition valid_id (value : string) : Prop :=
  value <> EmptyString /\ (str_len value <= MAX_ID_BYTES)%Z
  /\ Forall (fun b => id_byte b = true) (bytes_of value).

Lemma id_new_ok label v w : id_new label v = Ok w <-> w = v /\ valid_id v.
Proof.
  unfold id_new, valid_id. rewrite <- all_bytes_spec, <- is_empty_spec.
  split; [intros H; cases_in H; naive_solver lia|].
  intros (-> & He & Hl & ->). apply Z.ltb_ge in Hl as ->. by destruct (is_empty v).
Qed.

(** An identifier never contains a byte the wire format gives a meaning to. *)
Lemma valid_id_no_byte c v : id_byte c = false -> valid_id v -> c ∉ bytes_of v.
Proof. intros Hc (_ & _ & Hv) Hin. rewrite Forall_forall in Hv. apply Hv in Hin. congruence. Qed.

(** The identifier newtypes are closed under the round trip through [String]
    ([From<$name> for String], then [TryFrom<String>]). *)
Lemma id_new_idempotent label v w : id_new label v = Ok w -> id_new label w = Ok w.
Proof. intros [-> Hv]%id_new_ok. by apply id_new_ok. Qed.

Definition valid_digest (value : string) : Prop :=
  str_len value = 64%Z
  /\ Forall (fun b => (48 <= code b <= 57 \/ 97 <= code b <= 102)%Z) (bytes_of value).

Lemma hex_lower_spec b :
  is_ascii_hexdigit b && negb (is_ascii_uppercase b) = true
  <-> (48 <= code b <= 57 \/ 97 <= code b <= 102)%Z.
Proof.
  unfold is_ascii_hexdigit, is_ascii_uppercase, is_ascii_digit, in_range.
  rewrite !andb_true_iff, !orb_true_iff, negb_true_iff, !andb_true_iff, andb_false_iff,
    !Z.leb_le, !Z.leb_gt. lia.
Qed.

Lemma BlobDigest_parse_ok v w : BlobDigest_parse v = Ok w <-> w = v /\ valid_digest v.
Proof.
  unfold BlobDigest_parse, valid_digest.
  assert (Forall (fun b => (48 <= code b <= 57 \/ 97 <= code b <= 102)%Z) (bytes_of v)
          <-> all_bytes (fun b => is_ascii_hexdigit b && negb (is_ascii_uppercase b)) v = true) as ->.
  { rewrite all_bytes_spec. apply Forall_iff. intros b. by rewrite hex_lower_spec. }
  split; [intros H; cases_in H; naive_solver|].
  intros (-> & -> & ->). done.
Qed.

Lemma valid_digest_no_byte c v :
  (code c < 48 \/ 57 < code c < 97 \/ 102 < code c)%Z -> valid_digest v -> c ∉ bytes_of v.
Proof. intros Hc (_ & Hv) Hin. rewrite Forall_forall in Hv. apply Hv in Hin. lia. Qed.

(** *** Confinement of relative paths *)

(** Lexical resolution of path components under a root: what joining the path
    to the root and normalising the result names. *)
Fixpoint resolve (root : list string) (components : list string) : list string :=
  match components with
  | [] => root
  | c :: rest =>
      if String.eqb c ".." then resolve (removelast root) rest
      else if is_empty c || String.eqb c "." then resolve root rest
      else resolve (root ++ [c]) rest
  end.

Lemma RelativePath_new_ok v w :
  RelativePath_new v = Ok w <->
  w = v /\ v <> EmptyString /\ (str_len v <= MAX_PATH_BYTES)%Z /\ starts_with_char "/" v = false
  /\ "\"%char ∉ bytes_of v /\ NUL ∉ bytes_of v
  /\ Forall (fun c => path_component_confined c = true) (split "/" v).
Proof.
  unfold RelativePath_new, contains_nul.
  rewrite <- !contains_char_false, <- is_empty_spec.
  assert (Forall (fun c => path_component_confined c = true) (split "/" v) <->
          existsb (fun c => is_empty c || String.eqb c "." || String.eqb c "..") (split "/" v) = false) as ->.
  { unfold path_component_confined. induction (split "/" v) as [|c l IH]; simpl; [naive_solver|].
    rewrite Forall_cons, IH, orb_false_iff, negb_true_iff. done. }
  split.
  - intros H. cases_in H. split_and!; try done; try lia. congruence.
  - intros (-> & He & Hl & -> & -> & -> & ->). apply Z.ltb_ge in Hl as ->. by destruct (is_empty v).
Qed.

Lemma resolve_confined root comps :
  Forall (fun c => path_component_confined c = true) comps -> resolve root comps = root ++ comps.
Proof.
  intros H. revert root. induction H as [|c comps Hc _ IH]; intros root; simpl; [by rewrite app_nil_r|].
  unfold path_component_confined in Hc. bool_hyps.
  destruct (String.eqb_spec c ".."); [done|]. destruct (is_empty c); [done|].
  destruct (String.eqb_spec c "."); [done|]. simpl. rewrite IH, <- app_assoc. done.
Qed.

(** A path accepted by [RelativePath::new] names, under any root, exactly
    its components below that root; joining it can never leave the root. *)
Theorem relative_path_confined (v w : string) (root : list string) :
  RelativePath_new v = Ok w ->
  resolve root (split "/" w) = root ++ split "/" w /\ join "/" (split "/" w) = v.
Proof.
  intros (-> & _ & _ & _ & _ & _ & Hc)%RelativePath_new_ok. split.
  - by apply resolve_confined.
  - apply join_split.
Qed.

Lemma relative_path_confined_witness :
  RelativePath_new "src/lib.rs" = Ok "src/lib.rs"
  /\ resolve ["root"] (split "/" "src/lib.rs") = ["root"; "src"; "lib.rs"].
Proof.
  split; [reflexivity|].
  exact (proj1 (relative_path_confined "src/lib.rs" "src/lib.rs" ["root"] eq_refl)).
Defined.
