(* ===== verification/Wire.v ===== *)
(** * The JSON encoder, and a reference instance of it

    The node encodes its protocol values with [serde_json], which is not part
    of the repository: an encoding of a type is a [Serde] instance, and what
    the code relies on is stated by the two classes after it.

    [Tree] gives a concrete encoding for every protocol type (a tree of
    integers, written as bits).  It is used only to show that the hypotheses
    on the encoder can be met and to run the model on concrete values; no
    theorem depends on it. *)

From Stdlib Require Import Strings.Byte Ascii String ZArith Lia.
From stdpp Require Import base countable gmap strings list.
From S2P Require Import Prelude Ids.

(** JSON encoding of a type: [serde_json::to_vec] and [serde_json::from_slice],
    which are not part of the repository. *)
Class Serde (A : Type) := {
  to_vec : A -> option bytes;
  from_slice : bytes -> option A;
}.

(** What the node relies on: a value that encodes decodes to itself. *)
Class SerdeRoundTrip (A : Type) `{Serde A} : Prop :=
  from_slice_to_vec (a : A) b : to_vec a = Some b -> from_slice b = Some a.

(** The encoder fails on none of the protocol types (they hold no map with
    non-string keys and no failing [Serialize] implementation). *)
Class SerdeTotal (A : Type) `{Serde A} : Prop :=
  to_vec_total (a : A) : is_Some (to_vec a).

Lemma to_vec_inj {A} `{SerdeRoundTrip A} (a b : A) v : to_vec a = Some v -> to_vec b = Some v -> a = b.
Proof. intros Ha%from_slice_to_vec Hb%from_slice_to_vec. congruence. Qed.

(** ** A reference encoding *)

Abbreviation tree := (gen_tree positive).

Class Tree (A : Type) := {
  to_tree : A -> tree;
  of_tree : tree -> option A;
  of_to_tree a : of_tree (to_tree a) = Some a;
}.

#[export, refine] Instance leaf_tree `{Countable A} : Tree A | 10 := {|
  to_tree a := GenLeaf (encode a);
  of_tree t := match t with GenLeaf p => decode p | _ => None end;
|}.
Proof. intros; simpl; apply decode_encode. Defined.

Lemma list_of_to_tree `{Tree A} (l : list A) : mapM of_tree (to_tree <$> l) = Some l.
Proof. apply mapM_Some. induction l; simpl; constructor; auto using of_to_tree. Qed.

#[export, refine] Instance list_tree `{Tree A} : Tree (list A) | 5 := {|
  to_tree l := GenNode 0 (to_tree <$> l);
  of_tree t := match t with GenNode 0 l => mapM of_tree l | _ => None end;
|}.
Proof. apply list_of_to_tree. Defined.

#[export, refine] Instance prod_tree `{Tree A, Tree B} : Tree (A * B) | 5 := {|
  to_tree p := GenNode 0 [to_tree p.1; to_tree p.2];
  of_tree t := match t with
    | GenNode 0 [x; y] => a ← of_tree x; b ← of_tree y; Some (a, b)
    | _ => None
    end;
|}.
Proof. intros a; destruct a; simpl; by rewrite !of_to_tree. Defined.

#[export, refine] Instance option_tree `{Tree A} : Tree (option A) | 5 := {|
  to_tree o := match o with None => GenNode 0 [] | Some a => GenNode 1 [to_tree a] end;
  of_tree t := match t with
    | GenNode 0 [] => Some None
    | GenNode 1 [x] => Some <$> of_tree x
    | _ => None
    end;
|}.
Proof. intros a; destruct a; simpl; by rewrite ?of_to_tree. Defined.

#[export, refine] Instance sum_tree `{Tree A, Tree B} : Tree (A + B) | 5 := {|
  to_tree s := match s with inl a => GenNode 0 [to_tree a] | inr b => GenNode 1 [to_tree b] end;
  of_tree t := match t with
    | GenNode 0 [x] => inl <$> of_tree x
    | GenNode 1 [x] => inr <$> of_tree x
    | _ => None
    end;
|}.
Proof. intros a; destruct a; simpl; by rewrite of_to_tree. Defined.

(** Records and enumerations go through tuples and sums. *)
#[refine] Definition via_tree `{Tree B} {A} (f : A -> B) (g : B -> A) (E : forall a, g (f a) = a) : Tree A := {|
  to_tree a := to_tree (f a);
  of_tree t := g <$> of_tree t;
|}.
Proof. intros; simpl; rewrite of_to_tree; simpl; by rewrite E. Defined.

Fixpoint bits_of (p : positive) : bytes :=
  match p with
  | xH => []
  | xO p => Byte.x30 :: bits_of p
  | xI p => Byte.x31 :: bits_of p
  end.

Fixpoint of_bits (b : bytes) : positive :=
  match b with
  | [] => xH
  | c :: b => if Byte.eqb c Byte.x30 then xO (of_bits b) else xI (of_bits b)
  end.

Lemma of_bits_of p : of_bits (bits_of p) = p.
Proof. induction p; simpl; congruence. Qed.

Definition tree_serde `{Tree A} : Serde A := {|
  to_vec a := Some (bits_of (encode (to_tree a)));
  from_slice b := decode (of_bits b) ≫= of_tree;
|}.

Lemma tree_serde_roundtrip `{Tree A} : @SerdeRoundTrip A tree_serde.
Proof.
  intros a b. cbn [to_vec from_slice tree_serde]. intros [= <-].
  rewrite of_bits_of, decode_encode. apply of_to_tree.
Qed.

Lemma tree_serde_total `{Tree A} : @SerdeTotal A tree_serde.
Proof. intros a. by eexists. Qed.
