(* ===== verification/Std.v ===== *)
(** * Paths, socket addresses and UTF-8

    What the operator code uses of Rust's [std::path], [std::net] and
    [std::str]: a [PathBuf] as the components [Path] compares by, the parser
    behind [str::parse::<SocketAddr>], and the characters of a byte string
    with [from_utf8], [from_utf8_lossy], [trim], [contains] and
    [char::is_control]. *)

From Stdlib Require Import Ascii String ZArith Lia.
From stdpp Require Import base gmap strings list.
From S2P Require Import Prelude Text.

#[local] Open Scope string_scope.
#[local] Open Scope list_scope.

(** ** Paths *)

(** The components of a Unix path: whether it starts at the root, and the
    names after it, [..] included.  Repeated separators and inner [.] are
    gone, as [Path::components] drops them. *)
Record PathBuf := { absolute : bool; names : list string }.

#[export] Instance PathBuf_eq_dec : EqDecision PathBuf.
Proof. solve_decision. Defined.

#[export] Instance PathBuf_countable : Countable PathBuf.
Proof.
  refine (inj_countable' (fun p => (absolute p, names p)) (fun p => {| absolute := p.1; names := p.2 |}) _).
  by intros [].
Defined.

Definition dropped_component (c : string) : bool := is_empty c || String.eqb c ".".

(** The path a string spells; a leading [.] of a relative path is kept. *)
Definition path_of (s : string) : PathBuf :=
  let parts := split "/" s in
  {| absolute := starts_with_char "/"%char s;
     names := match parts with
              | "." :: rest => "." :: List.filter (fun c => negb (dropped_component c)) rest
              | _ => List.filter (fun c => negb (dropped_component c)) parts
              end |}.

Definition is_relative (p : PathBuf) : bool := negb (absolute p).

(** [Path::join] *)
Definition path_join (base p : PathBuf) : PathBuf :=
  if absolute p then p else {| absolute := absolute base; names := names base ++ names p |}.

Definition join_name (base : PathBuf) (name : string) : PathBuf :=
  {| absolute := absolute base; names := names base ++ [name] |}.

(** [Path::parent] *)
Definition path_parent (p : PathBuf) : option PathBuf :=
  match names p with [] => None | _ => Some {| absolute := absolute p; names := removelast (names p) |} end.

(** [Path::starts_with], by whole components. *)
Fixpoint list_prefix (pre l : list string) : bool :=
  match pre, l with
  | [], _ => true
  | a :: pre, b :: l => String.eqb a b && list_prefix pre l
  | _ :: _, [] => false
  end.
Definition path_under (p base : PathBuf) : bool :=
  Bool.eqb (absolute p) (absolute base) && list_prefix (names base) (names p).

(** [Path::file_name] and the stem before its last dot. *)
Definition file_name (p : PathBuf) : option string :=
  match last (names p) with
  | Some name => if String.eqb name ".." then None else Some name
  | None => None
  end.

Definition file_stem_of (name : string) : string :=
  match rsplit_once "."%char name with
  | Some (EmptyString, _) | None => name
  | Some (before, _) => before
  end.

(** [Path::with_extension], for an extension that is not empty. *)
Definition with_extension (p : PathBuf) (ext : string) : PathBuf :=
  match file_name p with
  | Some name =>
      {| absolute := absolute p; names := removelast (names p) ++ [file_stem_of name +:+ "." +:+ ext] |}
  | None => p
  end.

Lemma list_prefix_spec pre l : list_prefix pre l = true <-> exists rest, l = pre ++ rest.
Proof.
  revert l. induction pre as [|a pre IH]; intros [|b l]; simpl.
  - split; [by exists []|done].
  - split; [by exists (b :: l)|done].
  - split; [done|]. by intros [? [=]].
  - rewrite andb_true_iff, String.eqb_eq, IH. split.
    + intros [-> [rest ->]]. by exists rest.
    + intros [rest [= -> ->]]. split; [done|by exists rest].
Qed.

Lemma path_under_spec p base :
  path_under p base = true <-> absolute p = absolute base /\ exists rest, names p = names base ++ rest.
Proof. unfold path_under. by rewrite andb_true_iff, Bool.eqb_true_iff, list_prefix_spec. Qed.

(** ** Socket addresses *)

Inductive SocketAddr : Type :=
| SocketV4 (octets : list Z) (port : Z)
| SocketV6 (groups : list Z) (scope : Z) (port : Z).

(** A parser step: the value read and the rest of the input. *)
Abbreviation parser A := (string -> option (A * string)).

Definition read_char (c : ascii) : parser unit :=
  fun s => match s with String a s' => if Ascii.eqb a c then Some (tt, s') else None | EmptyString => None end.

(** [char::to_digit], for radix 10 and 16. *)
Definition to_digit (radix : Z) (a : ascii) : option Z :=
  let v := if is_ascii_digit a then (code a - 48)%Z
           else if in_range 97 102 a then (code a - 87)%Z
           else if in_range 65 70 a then (code a - 55)%Z
           else 255%Z in
  if (v <? radix)%Z then Some v else None.

(** The digits at the front, at most [limit] accepted: their value within
    [max], how many there were, and the rest. *)
Fixpoint read_digits (radix max : Z) (limit : option nat) (count : nat) (acc : Z) (s : string)
    : option (Z * nat * string) :=
  match s with
  | String a s' =>
      match to_digit radix a with
      | Some d =>
          let v := (acc * radix + d)%Z in
          if (max <? v)%Z then None
          else if match limit with Some n => (n <? S count)%nat | None => false end then None
          else read_digits radix max limit (S count) v s'
      | None => Some (acc, count, s)
      end
  | EmptyString => Some (acc, count, EmptyString)
  end.

(** [Parser::read_number] *)
Definition read_number (radix max : Z) (limit : option nat) (allow_zero_prefix : bool) : parser Z :=
  fun s =>
    let has_leading_zero := starts_with_char "0"%char s in
    match read_digits radix max limit 0 0 s with
    | Some (v, count, rest) =>
        if Nat.eqb count 0 then None
        else if negb allow_zero_prefix && has_leading_zero && (1 <? count)%nat then None
        else Some (v, rest)
    | None => None
    end.

(** [Parser::read_separator] *)
Definition read_separator {A} (sep : ascii) (index : nat) (inner : parser A) : parser A :=
  fun s =>
    if Nat.eqb index 0 then inner s
    else match read_char sep s with Some (_, s') => inner s' | None => None end.

Definition read_octet (index : nat) : parser Z := read_separator "."%char index (read_number 10 255 (Some 3%nat) false).

(** [Parser::read_ipv4_addr] *)
Definition read_ipv4_addr : parser (list Z) :=
  fun s =>
    '(a, s) ← read_octet 0 s; '(b, s) ← read_octet 1 s; '(c, s) ← read_octet 2 s; '(d, s) ← read_octet 3 s;
    Some ([a; b; c; d], s).

(** [read_groups] of [Parser::read_ipv6_addr], from group [i] of [i + left]:
    the groups read and whether they ended in an embedded IPv4 address. *)
Fixpoint read_groups (i left : nat) (s : string) : list Z * bool * string :=
  match left with
  | O => ([], false, s)
  | S left' =>
      let group :=
        match read_separator ":"%char i (read_number 16 65535 (Some 4%nat) true) s with
        | Some (g, s') => let '(gs, v4, rest) := read_groups (S i) left' s' in (g :: gs, v4, rest)
        | None => ([], false, s)
        end in
      match left' with
      | O => group
      | S _ =>
          match read_separator ":"%char i read_ipv4_addr s with
          | Some ([a; b; c; d], s') => ([a * 256 + b; c * 256 + d]%Z, true, s')
          | _ => group
          end
      end
  end.

(** [Parser::read_ipv6_addr] *)
Definition read_ipv6_addr : parser (list Z) :=
  fun s =>
    let '(head, head_v4, s) := read_groups 0 8 s in
    if Nat.eqb (length head) 8 then Some (head, s)
    else if head_v4 then None
    else
      '(_, s) ← read_char ":"%char s; '(_, s) ← read_char ":"%char s;
      let '(tail, _, s) := read_groups 0 (7 - length head) s in
      Some (head ++ repeat 0%Z (8 - length head - length tail) ++ tail, s).

(** [Parser::read_scope_id] *)
Definition read_scope_id : parser Z :=
  fun s => '(_, s) ← read_char "%"%char s; read_number 10 4294967295 None true s.

Definition read_port : parser Z :=
  fun s => '(_, s) ← read_char ":"%char s; read_number 10 65535 None true s.

Definition read_socket_addr_v4 : parser SocketAddr :=
  fun s => '(a, s) ← read_ipv4_addr s; '(p, s) ← read_port s; Some (SocketV4 a p, s).

Definition read_socket_addr_v6 : parser SocketAddr :=
  fun s =>
    '(_, s) ← read_char "["%char s;
    '(a, s) ← read_ipv6_addr s;
    let '(scope, s) := match read_scope_id s with Some (sc, s') => (sc, s') | None => (0%Z, s) end in
    '(_, s) ← read_char "]"%char s;
    '(p, s) ← read_port s;
    Some (SocketV6 a scope p, s).

(** [str::parse::<SocketAddr>]: one of the two forms, to the end. *)
Definition parse_socket_addr (s : string) : option SocketAddr :=
  match (match read_socket_addr_v4 s with Some r => Some r | None => read_socket_addr_v6 s end) with
  | Some (addr, EmptyString) => Some addr
  | _ => None
  end.

Example parse_loopback : parse_socket_addr "127.0.0.1:8443" = Some (SocketV4 [127; 0; 0; 1]%Z 8443).
Proof. by vm_compute. Qed.

Example parse_bracketed :
  parse_socket_addr "[fe80::1%3]:443" = Some (SocketV6 [65152; 0; 0; 0; 0; 0; 0; 1]%Z 3 443) /\
  parse_socket_addr "[::ffff:10.0.0.7]:1" = Some (SocketV6 [0; 0; 0; 0; 0; 65535; 2560; 7]%Z 0 1) /\
  parse_socket_addr "localhost:80" = None /\ parse_socket_addr "1.2.3.4:65536" = None /\
  parse_socket_addr "01.2.3.4:5" = None.
Proof. by vm_compute. Qed.

(** ** UTF-8 *)

Fixpoint byte_at (n : nat) (s : string) : Z :=
  match s, n with
  | EmptyString, _ => -1
  | String a _, O => code a
  | String _ s, S n => byte_at n s
  end.

Definition between (lo hi b : Z) : bool := (lo <=? b)%Z && (b <=? hi)%Z.
Definition continuation : Z -> bool := between 128 191.

(** The sequence at the front of a non-empty string: whether it is a
    character, and the bytes of it or of the ill-formed part. *)
Definition utf8_next (s : string) : bool * nat :=
  let b0 := byte_at 0 s in
  let b1 := byte_at 1 s in
  if (b0 <? 128)%Z then (true, 1%nat)
  else if between 194 223 b0 then (if continuation b1 then (true, 2%nat) else (false, 1%nat))
  else if between 224 239 b0 then
    if between (if (b0 =? 224)%Z then 160 else 128) (if (b0 =? 237)%Z then 159 else 191) b1
    then (if continuation (byte_at 2 s) then (true, 3%nat) else (false, 2%nat))
    else (false, 1%nat)
  else if between 240 244 b0 then
    if between (if (b0 =? 240)%Z then 144 else 128) (if (b0 =? 244)%Z then 143 else 191) b1
    then (if continuation (byte_at 2 s)
          then (if continuation (byte_at 3 s) then (true, 4%nat) else (false, 3%nat))
          else (false, 2%nat))
    else (false, 1%nat)
  else (false, 1%nat).

(** The pieces of a string; every piece has at least one byte. *)
Fixpoint utf8_pieces (fuel : nat) (s : string) : list (bool * string) :=
  match fuel, s with
  | S fuel, String _ _ =>
      let '(valid, n) := utf8_next s in (valid, str_take n s) :: utf8_pieces fuel (str_drop n s)
  | _, _ => []
  end.

Definition pieces (s : string) : list (bool * string) := utf8_pieces (String.length s) s.
Definition concat_strings (l : list string) : string := foldr String.append EmptyString l.

(** [str::from_utf8], [String::from_utf8_lossy] and [str::chars] *)
Definition from_utf8 (s : string) : option string := if forallb fst (pieces s) then Some s else None.

Definition REPLACEMENT : string := String "239"%char (String "191"%char (String "189"%char EmptyString)).
Definition from_utf8_lossy (s : string) : string :=
  concat_strings ((fun p : bool * string => if p.1 then p.2 else REPLACEMENT) <$> pieces s).

Definition chars (s : string) : list string := (pieces s).*2.
Definition take_chars (n : nat) (s : string) : string := concat_strings (take n (chars s)).

(** [char::is_control] *)
Definition is_control (c : string) : bool :=
  match c with
  | String a EmptyString => (code a <? 32)%Z || (code a =? 127)%Z
  | String a (String b EmptyString) => (code a =? 194)%Z && between 128 159 (code b)
  | _ => false
  end.

(** [char::is_whitespace] *)
Definition is_whitespace (c : string) : bool :=
  match bytes_of c with
  | [a] => between 9 13 (code a) || (code a =? 32)%Z
  | [a; b] => (code a =? 194)%Z && ((code b =? 133)%Z || (code b =? 160)%Z)
  | [a; b; d] =>
      ((code a =? 225)%Z && (code b =? 154)%Z && (code d =? 128)%Z)
      || ((code a =? 226)%Z && (code b =? 128)%Z
          && (between 128 138 (code d) || (code d =? 168)%Z || (code d =? 169)%Z || (code d =? 175)%Z))
      || ((code a =? 226)%Z && (code b =? 129)%Z && (code d =? 159)%Z)
      || ((code a =? 227)%Z && (code b =? 128)%Z && (code d =? 128)%Z)
  | _ => false
  end.

Fixpoint drop_while {A} (p : A -> bool) (l : list A) : list A :=
  match l with x :: rest => if p x then drop_while p rest else l | [] => [] end.

(** [str::trim] *)
Definition trim (s : string) : string :=
  concat_strings (rev (drop_while is_whitespace (rev (drop_while is_whitespace (chars s))))).

(** [str::contains] *)
Fixpoint str_contains (pat s : string) : bool :=
  starts_with pat s || match s with String _ s' => str_contains pat s' | EmptyString => false end.

Lemma str_take_drop n s : str_take n s +:+ str_drop n s = s.
Proof. revert n. induction s as [|a s IH]; intros [|n]; cbn; [done..|]. by rewrite str_app_cons, IH. Qed.

Lemma str_drop_length n s : String.length (str_drop n s) = String.length s - n.
Proof. revert n. induction s as [|a s IH]; intros [|n]; cbn; [done..|]. apply IH. Qed.

Lemma utf8_next_pos s : 1 <= (utf8_next s).2.
Proof. unfold utf8_next. repeat case_match; cbn; lia. Qed.

(** The pieces put together are the string. *)
Lemma utf8_pieces_concat fuel s : String.length s <= fuel -> concat_strings (utf8_pieces fuel s).*2 = s.
Proof.
  revert s. induction fuel as [|fuel IH]; intros [|a s] Hf; [done|cbn in Hf; lia|done|]. cbn [utf8_pieces].
  pose proof (utf8_next_pos (String a s)). destruct (utf8_next (String a s)) as [valid n]. cbn [snd] in *. csimpl.
  rewrite IH; [apply str_take_drop|]. rewrite str_drop_length. cbn [String.length] in *. lia.
Qed.

Lemma chars_concat s : concat_strings (chars s) = s.
Proof. by apply utf8_pieces_concat. Qed.

(** There are at most as many characters as bytes. *)
Lemma chars_length s : length (chars s) <= String.length s.
Proof.
  unfold chars, pieces. rewrite length_fmap.
  assert (Hp : forall fuel s, length (utf8_pieces fuel s) <= fuel); [|apply Hp].
  intros fuel. induction fuel as [|fuel IH]; intros [|a t]; cbn; try lia. destruct (utf8_next _) as [v n]. cbn. specialize (IH (str_drop n (String a t))). lia.
Qed.

Lemma str_contains_spec pat s : str_contains pat s = true <-> exists a b, s = a +:+ pat +:+ b.
Proof.
  induction s as [|x s IH]; cbn [str_contains]; rewrite orb_true_iff, starts_with_spec.
  - split.
    + intros [[r Hr]|[=]]. exists EmptyString, r. by rewrite str_app_nil_l.
    + intros (a & b & Hab). left. exists b. destruct a; [done|]. by rewrite str_app_cons in Hab.
  - rewrite IH. split.
    + intros [[r Hr]|(a & b & ->)]; [by exists EmptyString, r|]. exists (String x a), b. by rewrite str_app_cons.
    + intros (a & b & Hab). destruct a as [|y a]; [left; by exists b|]. right. rewrite str_app_cons in Hab.
      injection Hab as -> ->. by exists a, b.
Qed.

Example lossy_replaces :
  from_utf8_lossy (String "195"%char (String "040"%char (String "226"%char (String "130"%char EmptyString)))) =
  REPLACEMENT +:+ "(" +:+ REPLACEMENT.
Proof. by vm_compute. Qed.
