(* ===== verification/Spec.v ===== *)
(** * Execution specifications

    [eggwork-core/src/lib.rs], lines 10-594 and 1575-1628: the command and
    execution specification a caller submits, its validation, the wire form of
    a resource requirement, and the canonical request digest that gives an
    execution its identity.

    [usize]/[u64]/[u16] fields are [Z]; [Vec<u8>] is [bytes]; a [RelativePath]
    is the string it holds. *)

From Stdlib Require Import Ascii String ZArith Lia.
From stdpp Require Import base gmap strings list sorting.
From S2P Require Import Prelude Ids Wire.

Definition MAX_ARG_COUNT : Z := 256.
Definition MAX_ARG_BYTES : Z := 32 * 1024.
Definition MAX_ENV_COUNT : Z := 256.
Definition MAX_ENV_NAME_BYTES : Z := 256.
Definition MAX_ENV_VALUE_BYTES : Z := 16 * 1024.
Definition MAX_METADATA_COUNT : Z := 64.
Definition MAX_METADATA_KEY_BYTES : Z := 128.
Definition MAX_METADATA_VALUE_BYTES : Z := 2048.
Definition MAX_OUTPUTS : Z := 128.
Definition MAX_STDIN_BYTES : Z := 4 * 1024 * 1024.
Definition MAX_EVENT_CHUNK_BYTES : Z := 64 * 1024.
Definition MAX_CAPTURE_BYTES : Z := 16 * 1024 * 1024.
(** [MAX_TIMEOUT.as_millis()] *)
Definition MAX_TIMEOUT_MILLIS : Z := 7 * 24 * 60 * 60 * 1000.

(** ** Environment entries *)

Record EnvironmentEntry := { env_name : string; env_value : string }.

(** [name.as_bytes().first().is_some_and(u8::is_ascii_digit)] *)
Definition first_is_digit (s : string) : bool :=
  match s with EmptyString => false | String a _ => is_ascii_digit a end.

(** [EnvironmentEntry::new] *)
Definition EnvironmentEntry_new (name value : string) : result ValidationError EnvironmentEntry :=
  if is_empty name
     || (MAX_ENV_NAME_BYTES <? str_len name)%Z
     || negb (all_bytes (fun b => is_ascii_alphanumeric b || Ascii.eqb b "_") name)
     || first_is_digit name
     || contains_nul name
  then Err (InvalidSyntax "environment name")
  else if (MAX_ENV_VALUE_BYTES <? str_len value)%Z
  then Err (TooLong "environment value" MAX_ENV_VALUE_BYTES)
  else if contains_nul value then Err (Forbidden "environment value NUL")
  else Ok {| env_name := name; env_value := value |}.

(** ** Stdin and output policies *)

Inductive StdinPolicy : Type :=
| StdinNull
| StdinBytes (v : bytes).

(** [StdinPolicy::validate] *)
Definition StdinPolicy_validate (p : StdinPolicy) : result ValidationError unit :=
  match p with
  | StdinBytes v => if (MAX_STDIN_BYTES <? len v)%Z then Err (TooLong "stdin" MAX_STDIN_BYTES) else Ok tt
  | StdinNull => Ok tt
  end.

Inductive OverflowPolicy : Type := Truncate | Terminate.

Record OutputPolicy := {
  capture_limit_bytes : Z;
  event_chunk_bytes : Z;
  overflow : OverflowPolicy;
}.

(** [OutputPolicy::default] *)
Definition OutputPolicy_default : OutputPolicy :=
  {| capture_limit_bytes := 1024 * 1024; event_chunk_bytes := 16 * 1024; overflow := Truncate |}.

(** [OutputPolicy::validate] *)
Definition OutputPolicy_validate (p : OutputPolicy) : result ValidationError unit :=
  if (MAX_CAPTURE_BYTES <? capture_limit_bytes p)%Z
     || (event_chunk_bytes p =? 0)%Z
     || (MAX_EVENT_CHUNK_BYTES <? event_chunk_bytes p)%Z
  then Err (OutOfRange "output policy")
  else Ok tt.

Record DeclaredOutput := { output_path : string; required : bool }.

(** ** Resource requirements *)

Inductive Requirement (T : Type) : Type :=
| NotRequested
| BestEffort (value : T)
| Required (value : T).
Arguments NotRequested {T}.
Arguments BestEffort {T} value.
Arguments Required {T} value.

Record ResourceRequirements := {
  memory_bytes : Requirement Z;
  cpu_millis : Requirement Z;
  pids : Requirement Z;
}.

(** [matches!(r, NotRequested | BestEffort(1..=hi) | Required(1..=hi))] *)
Definition requirement_within (hi : Z) (r : Requirement Z) : bool :=
  match r with
  | NotRequested => true
  | BestEffort v | Required v => (1 <=? v)%Z && (v <=? hi)%Z
  end.

(** [ResourceRequirements::validate] *)
Definition ResourceRequirements_validate (r : ResourceRequirements) : result ValidationError unit :=
  let memory_valid := requirement_within 1125899906842624 (memory_bytes r) in
  let cpu_valid := requirement_within 1000000 (cpu_millis r) in
  let pids_valid := requirement_within 1000000 (pids r) in
  if memory_valid && cpu_valid && pids_valid then Ok tt
  else Err (OutOfRange "resource requirements").

(** A parsed JSON document ([serde_json::Value]). *)
Inductive Value : Type :=
| VNull
| VBool (b : bool)
| VNumber (z : Z)
| VString (s : string)
| VArray (l : list Value)
| VObject (fields : list (string * Value)).

Section requirement_wire.
(** The element type's own serialization. *)
Context {T : Type} (ser : T -> Value) (de : Value -> option T).

(** [Serialize for Requirement<T>] *)
Definition Requirement_serialize (r : Requirement T) : Value :=
  match r with
  | NotRequested => VNull
  | BestEffort value => ser value
  | Required value => VObject [("required", ser value)]
  end.

(** [Deserialize for Requirement<T>] *)
Definition Requirement_deserialize (v : Value) : option (Requirement T) :=
  match v with
  | VNull => Some NotRequested
  | VObject [(key, required)] =>
      if String.eqb key "required" then Required <$> de required else BestEffort <$> de v
  | _ => BestEffort <$> de v
  end.
End requirement_wire.

(** A [u64] is a JSON number in range. *)
Definition u64_ser (z : Z) : Value := VNumber z.
Definition u64_de (v : Value) : option Z :=
  match v with
  | VNumber z => if ((0 <=? z) && (z <=? U64_MAX))%Z then Some z else None
  | _ => None
  end.

Inductive IsolationRequirement : Type := IsolationNone | IsolationBestEffort | IsolationRequired.

Inductive NetworkRequirement : Type :=
| Unrestricted
| Disabled
| AllowListed (hosts : list string).

(** ** Commands and execution specifications *)

Record CommandSpec := {
  argv : list string;
  cwd : option string;
  environment : list EnvironmentEntry;
  stdin : StdinPolicy;
  timeout_millis : Z;
  output : OutputPolicy;
  declared_outputs : list DeclaredOutput;
  resources : ResourceRequirements;
  isolation : IsolationRequirement;
  network : NetworkRequirement;
}.

(** [CommandSpec::validate] *)
Definition CommandSpec_validate (c : CommandSpec) : result ValidationError unit :=
  if (len (argv c) =? 0)%Z then Err (Empty "argv")
  else if (MAX_ARG_COUNT <? len (argv c))%Z then Err (TooMany "argv" MAX_ARG_COUNT)
  else if existsb (fun a => (MAX_ARG_BYTES <? str_len a)%Z || contains_nul a) (argv c)
  then Err (OutOfRange "argv entry")
  else if (MAX_ENV_COUNT <? len (environment c))%Z then Err (TooMany "environment" MAX_ENV_COUNT)
  else
    for_each (fun e => EnvironmentEntry_new (env_name e) (env_value e) ;? Ok tt) (environment c) ;?
    if has_duplicate (∅ : gset string) (env_name <$> environment c)
    then Err (InvalidSyntax "duplicate environment name")
    else if (MAX_OUTPUTS <? len (declared_outputs c))%Z
    then Err (TooMany "declared outputs" MAX_OUTPUTS)
    else if (timeout_millis c =? 0)%Z || (MAX_TIMEOUT_MILLIS <? timeout_millis c)%Z
    then Err (OutOfRange "timeout")
    else
      StdinPolicy_validate (stdin c) ;?
      OutputPolicy_validate (output c) ;?
      ResourceRequirements_validate (resources c) ;?
      Ok tt.

Record ExecutionSpec := {
  schema_version : Z;
  command : CommandSpec;
  metadata : list (string * string);
}.

Definition metadata_entry_bad (kv : string * string) : bool :=
  let '(k, v) := kv in
  is_empty k || (MAX_METADATA_KEY_BYTES <? str_len k)%Z || (MAX_METADATA_VALUE_BYTES <? str_len v)%Z
  || contains_nul k || contains_nul v.

(** [ExecutionSpec::validate] *)
Definition ExecutionSpec_validate (s : ExecutionSpec) : result ValidationError unit :=
  CommandSpec_validate (command s) ;?
  if (schema_version s =? 0)%Z then Err (OutOfRange "schema version")
  else if (MAX_METADATA_COUNT <? len (metadata s))%Z then Err (TooMany "metadata" MAX_METADATA_COUNT)
  else if existsb metadata_entry_bad (metadata s) then Err (OutOfRange "metadata entry")
  else Ok tt.

(** ** Canonical request identity *)

Definition CANONICAL_REQUEST_VERSION : Z := 2.
Definition CANONICAL_WORKSPACE_REQUEST_VERSION : Z := 3.

Definition cmp_env : EnvironmentEntry -> EnvironmentEntry -> comparison := cmp_on env_name str_cmp.
Definition cmp_metadata (a b : string * string) : comparison :=
  then_with (cmp_on fst str_cmp a b) (cmp_on snd str_cmp a b).
Definition cmp_output (a b : DeclaredOutput) : comparison :=
  then_with (cmp_on output_path str_cmp a b) (cmp_on required bool_cmp a b).

(** [normalize_execution_spec] *)
Definition normalize_execution_spec (s : ExecutionSpec) : ExecutionSpec :=
  let c := command s in
  {| schema_version := schema_version s;
     command := {|
       argv := argv c; cwd := cwd c;
       environment := sort_by cmp_env (environment c);
       stdin := stdin c; timeout_millis := timeout_millis c; output := output c;
       declared_outputs := sort_by cmp_output (declared_outputs c);
       resources := resources c; isolation := isolation c; network := network c |};
     metadata := sort_by cmp_metadata (metadata s) |}.

(** The bytes of a byte-string literal. *)
Definition literal (s : string) : bytes := byte_of_ascii <$> bytes_of s.

(** [b"eggwork-execution-spec\0canonical-json-v2\0"] and its v3 form. *)
Definition request_prefix (version : string) : bytes :=
  literal "eggwork-execution-spec" ++ [Byte.x00] ++ literal version ++ [Byte.x00].

Section request_digest.
Context `{Sha256, Serde ExecutionSpec, Serde (ExecutionSpec * string)}.

(** The bytes [request_digest] hashes. *)
Definition request_preimage (s : ExecutionSpec) : option bytes :=
  app (request_prefix "canonical-json-v2") <$> to_vec (normalize_execution_spec s).

(** [request_digest]; [None] is the serialization error. *)
Definition request_digest (s : ExecutionSpec) : option string :=
  BlobDigest_from_bytes <$> request_preimage s.

(** The bytes hashed when a workspace takes part, [CanonicalWorkspaceRequest]
    being the pair of the specification and the workspace identity. *)
Definition workspace_request_preimage (s : ExecutionSpec) (workspace_id : string) : option bytes :=
  app (request_prefix "canonical-json-v3") <$> to_vec (normalize_execution_spec s, workspace_id).

(** [request_digest_with_workspace] *)
Definition request_digest_with_workspace (s : ExecutionSpec) (workspace_id : option string)
    : option (Z * string) :=
  match workspace_id with
  | None => pair CANONICAL_REQUEST_VERSION <$> request_digest s
  | Some w =>
      pair CANONICAL_WORKSPACE_REQUEST_VERSION <$>
        (BlobDigest_from_bytes <$> workspace_request_preimage s w)
  end.
End request_digest.

(** ** Reference encodings of the specification types *)

#[export] Instance EnvironmentEntry_tree : Tree EnvironmentEntry.
Proof.
  refine (via_tree (fun e => (env_name e, env_value e)) (fun t => Build_EnvironmentEntry t.1 t.2) _).
  by intros [].
Defined.

#[export] Instance StdinPolicy_tree : Tree StdinPolicy.
Proof.
  refine (via_tree (fun p => match p with StdinNull => None | StdinBytes v => Some v end)
    (fun o => match o with None => StdinNull | Some v => StdinBytes v end) _).
  by intros [].
Defined.

#[export] Instance OutputPolicy_tree : Tree OutputPolicy.
Proof.
  refine (via_tree (fun p => (capture_limit_bytes p, event_chunk_bytes p,
      match overflow p with Truncate => false | Terminate => true end))
    (fun '(a, b, c) => Build_OutputPolicy a b (if c : bool then Terminate else Truncate)) _).
  by intros [? ? []].
Defined.

#[export] Instance DeclaredOutput_tree : Tree DeclaredOutput.
Proof.
  refine (via_tree (fun e => (output_path e, required e)) (fun t => Build_DeclaredOutput t.1 t.2) _).
  by intros [].
Defined.

#[export] Instance Requirement_tree : Tree (Requirement Z).
Proof.
  refine (via_tree (fun r => match r with NotRequested => None | BestEffort v => Some (v, false) | Required v => Some (v, true) end)
    (fun o => match o with None => NotRequested | Some (v, b) => if b : bool then Required v else BestEffort v end) _).
  by intros [].
Defined.

#[export] Instance ResourceRequirements_tree : Tree ResourceRequirements.
Proof.
  refine (via_tree (fun r => (memory_bytes r, cpu_millis r, pids r))
    (fun '(a, b, c) => Build_ResourceRequirements a b c) _).
  by intros [].
Defined.

#[export] Instance IsolationRequirement_tree : Tree IsolationRequirement.
Proof.
  refine (via_tree (fun r => match r with IsolationNone => None | IsolationBestEffort => Some false | IsolationRequired => Some true end)
    (fun o => match o with None => IsolationNone | Some b => if b : bool then IsolationRequired else IsolationBestEffort end) _).
  by intros [].
Defined.

#[export] Instance NetworkRequirement_tree : Tree NetworkRequirement.
Proof.
  refine (via_tree (fun r => match r with Unrestricted => None | Disabled => Some None | AllowListed h => Some (Some h) end)
    (fun o => match o with None => Unrestricted | Some None => Disabled | Some (Some h) => AllowListed h end) _).
  by intros [].
Defined.

#[export] Instance CommandSpec_tree : Tree CommandSpec.
Proof.
  refine (via_tree (fun c => (argv c, cwd c, environment c, stdin c, timeout_millis c, output c,
      declared_outputs c, resources c, isolation c, network c))
    (fun '(a, b, c, d, e, f, g, h, i, j) => Build_CommandSpec a b c d e f g h i j) _).
  by intros [].
Defined.

#[export] Instance ExecutionSpec_tree : Tree ExecutionSpec.
Proof.
  refine (via_tree (fun s => (schema_version s, command s, metadata s))
    (fun '(a, b, c) => Build_ExecutionSpec a b c) _).
  by intros [].
Defined.

(** A specification used by the concrete runs: [argv] with two environment
    entries. *)
Definition sample_spec (env : list EnvironmentEntry) : ExecutionSpec :=
  {| schema_version := 1;
     command := {|
       argv := ["echo"; "hi"]; cwd := None; environment := env; stdin := StdinNull;
       timeout_millis := 1000; output := OutputPolicy_default; declared_outputs := [];
       resources := {| memory_bytes := NotRequested; cpu_millis := NotRequested; pids := NotRequested |};
       isolation := IsolationNone; network := Unrestricted |};
     metadata := [("team", "core")] |}.

Definition sample_env : list EnvironmentEntry :=
  [{| env_name := "B"; env_value := "2" |}; {| env_name := "A"; env_value := "1" |}].

(** ** What validation accepts *)

Definition wf_environment_entry (e : EnvironmentEntry) : Prop :=
  env_name e <> EmptyString /\ (str_len (env_name e) <= MAX_ENV_NAME_BYTES)%Z
  /\ Forall (fun b => is_ascii_alphanumeric b || Ascii.eqb b "_" = true) (bytes_of (env_name e))
  /\ first_is_digit (env_name e) = false
  /\ (str_len (env_value e) <= MAX_ENV_VALUE_BYTES)%Z /\ NUL ∉ bytes_of (env_value e).

Definition wf_requirement (hi : Z) (r : Requirement Z) : Prop :=
  match r with NotRequested => True | BestEffort v | Required v => (1 <= v <= hi)%Z end.

Record wf_command (c : CommandSpec) : Prop := {
  wf_argv_count : (1 <= len (argv c) <= MAX_ARG_COUNT)%Z;
  wf_argv : Forall (fun a => (str_len a <= MAX_ARG_BYTES)%Z /\ NUL ∉ bytes_of a) (argv c);
  wf_env_count : (len (environment c) <= MAX_ENV_COUNT)%Z;
  wf_env : Forall wf_environment_entry (environment c);
  wf_env_names : NoDup (env_name <$> environment c);
  wf_outputs : (len (declared_outputs c) <= MAX_OUTPUTS)%Z;
  wf_timeout : timeout_millis c <> 0%Z /\ (timeout_millis c <= MAX_TIMEOUT_MILLIS)%Z;
  wf_stdin : match stdin c with StdinNull => True | StdinBytes v => (len v <= MAX_STDIN_BYTES)%Z end;
  wf_capture : (capture_limit_bytes (output c) <= MAX_CAPTURE_BYTES)%Z;
  wf_chunk : event_chunk_bytes (output c) <> 0%Z
             /\ (event_chunk_bytes (output c) <= MAX_EVENT_CHUNK_BYTES)%Z;
  wf_memory : wf_requirement 1125899906842624 (memory_bytes (resources c));
  wf_cpu : wf_requirement 1000000 (cpu_millis (resources c));
  wf_pids : wf_requirement 1000000 (pids (resources c));
}.

Record wf_spec (s : ExecutionSpec) : Prop := {
  wf_spec_command : wf_command (command s);
  wf_spec_version : schema_version s <> 0%Z;
  wf_metadata_count : (len (metadata s) <= MAX_METADATA_COUNT)%Z;
  wf_metadata : Forall (fun kv =>
    kv.1 <> EmptyString /\ (str_len kv.1 <= MAX_METADATA_KEY_BYTES)%Z
    /\ (str_len kv.2 <= MAX_METADATA_VALUE_BYTES)%Z
    /\ NUL ∉ bytes_of kv.1 /\ NUL ∉ bytes_of kv.2) (metadata s);
}.

Lemma existsb_false_Forall {A} (p : A -> bool) l :
  existsb p l = false <-> Forall (fun x => p x = false) l.
Proof. induction l as [|x l IH]; simpl; [naive_solver|]. by rewrite orb_false_iff, Forall_cons, IH. Qed.

(** An environment name of the accepted alphabet has no NUL. *)
Lemma env_name_no_nul s :
  Forall (fun b => is_ascii_alphanumeric b || Ascii.eqb b "_" = true) (bytes_of s) -> NUL ∉ bytes_of s.
Proof. rewrite Forall_forall. by intros H Hin%H. Qed.

Lemma EnvironmentEntry_new_ok n v e :
  EnvironmentEntry_new n v = Ok e <-> e = {| env_name := n; env_value := v |} /\ wf_environment_entry e.
Proof.
  unfold EnvironmentEntry_new, wf_environment_entry, contains_nul.
  split.
  - intros H. cases_in H. simpl. rewrite <- all_bytes_spec, <- contains_char_false, <- is_empty_spec.
    split_and!; try done; try lia; congruence.
  - intros (-> & He & Hl & Hb & Hd & Hv & Hn). simpl in *.
    pose proof (env_name_no_nul n Hb) as Hn'. apply contains_char_false in Hn, Hn'.
    apply all_bytes_spec in Hb as ->. apply Z.ltb_ge in Hl as ->, Hv as ->. rewrite Hd, Hn, Hn'.
    by destruct n.
Qed.

Lemma requirement_within_spec hi r : requirement_within hi r = true <-> wf_requirement hi r.
Proof. destruct r; simpl; [done|..]; rewrite andb_true_iff, !Z.leb_le; done. Qed.

Lemma env_entries_ok l :
  for_each (fun e => EnvironmentEntry_new (env_name e) (env_value e) ;? Ok tt) l = Ok tt
  <-> Forall wf_environment_entry l.
Proof.
  rewrite for_each_ok. apply Forall_iff. intros [n v]. simpl.
  pose proof (EnvironmentEntry_new_ok n v) as H.
  destruct (EnvironmentEntry_new n v) as [e|].
  - by destruct (proj1 (H e) eq_refl) as [-> ?].
  - split; [done|]. intros Hw. discriminate (proj2 (H _) (conj eq_refl Hw)).
Qed.

Lemma argv_ok l :
  existsb (fun a => (MAX_ARG_BYTES <? str_len a)%Z || contains_nul a) l = false
  <-> Forall (fun a => (str_len a <= MAX_ARG_BYTES)%Z /\ NUL ∉ bytes_of a) l.
Proof.
  rewrite existsb_false_Forall. apply Forall_iff. intros a. unfold contains_nul.
  by rewrite orb_false_iff, Z.ltb_ge, contains_char_false.
Qed.

Lemma metadata_ok l :
  existsb metadata_entry_bad l = false
  <-> Forall (fun kv : string * string =>
    kv.1 <> EmptyString /\ (str_len kv.1 <= MAX_METADATA_KEY_BYTES)%Z
    /\ (str_len kv.2 <= MAX_METADATA_VALUE_BYTES)%Z
    /\ NUL ∉ bytes_of kv.1 /\ NUL ∉ bytes_of kv.2) l.
Proof.
  rewrite existsb_false_Forall. apply Forall_iff. intros [k v]. simpl. unfold contains_nul.
  rewrite !orb_false_iff, !Z.ltb_ge, !contains_char_false, <- is_empty_spec.
  destruct (is_empty k); naive_solver.
Qed.

Lemma CommandSpec_validate_ok c : CommandSpec_validate c = Ok tt <-> wf_command c.
Proof.
  split.
  - intros H. unfold CommandSpec_validate, StdinPolicy_validate, OutputPolicy_validate,
      ResourceRequirements_validate in H.
    assert (0 <= len (argv c))%Z by (unfold len; lia).
    destruct (for_each _ (environment c)) as [[]|] eqn:?; [|by cases_in H].
    repeat (destruct_match_in H; simplify_eq/=; bool_hyps; try done);
    repeat match goal with
    | E : for_each _ _ = _ |- _ => apply env_entries_ok in E
    | E : has_duplicate _ _ = _ |- _ => apply has_duplicate_spec in E
    | E : existsb _ (argv _) = _ |- _ => apply argv_ok in E
    | E : requirement_within _ _ = _ |- _ => apply requirement_within_spec in E
    end; split; repeat case_match; simplify_eq; try done; split_and?; try done; lia.
  - intros [[Ha1 Ha2] Ha He1 He Hd Ho [Ht1 Ht2] Hs Hc [Hk1 Hk2] Hm Hcpu Hp].
    unfold CommandSpec_validate, OutputPolicy_validate, ResourceRequirements_validate.
    rewrite (proj2 (Z.eqb_neq _ _)) by lia. apply argv_ok in Ha as ->. apply env_entries_ok in He as ->.
    apply has_duplicate_spec in Hd as ->. apply requirement_within_spec in Hm as ->, Hcpu as ->, Hp as ->.
    apply Z.eqb_neq in Ht1 as ->, Hk1 as ->. apply Z.ltb_ge in Ha2 as ->, He1 as ->, Ho as ->, Ht2 as ->, Hc as ->, Hk2 as ->.
    simpl. destruct (stdin c) as [|v]; simpl; [done|]. by apply Z.ltb_ge in Hs as ->.
Qed.

Lemma ExecutionSpec_validate_ok s : ExecutionSpec_validate s = Ok tt <-> wf_spec s.
Proof.
  unfold ExecutionSpec_validate. split.
  - intros H. cases_in H. destruct a. split; [by apply CommandSpec_validate_ok|done|lia|by apply metadata_ok].
  - intros [->%CommandSpec_validate_ok ->%Z.eqb_neq ->%Z.ltb_ge ->%metadata_ok]. done.
Qed.

(** [ExecutionSpec::validate] accepts a specification exactly when it is
    inside every documented bound: argument, environment, metadata and output
    counts and sizes, distinct well-formed environment names, no NUL, a
    positive timeout of at most seven days, and resource requirements in their
    ranges. *)
Theorem execution_spec_validate_exact (s : ExecutionSpec) :
  ExecutionSpec_validate s = Ok tt <-> wf_spec s.
Proof. apply ExecutionSpec_validate_ok. Qed.

(** ** Canonical identity *)

(** Two specifications that differ only in the order of fields the protocol
    treats as unordered. *)
Definition spec_equiv (s t : ExecutionSpec) : Prop :=
  schema_version s = schema_version t /\ metadata s ≡ₚ metadata t
  /\ let c := command s in let d := command t in
     argv c = argv d /\ cwd c = cwd d /\ environment c ≡ₚ environment d /\ stdin c = stdin d
     /\ timeout_millis c = timeout_millis d /\ output c = output d
     /\ declared_outputs c ≡ₚ declared_outputs d /\ resources c = resources d
     /\ isolation c = isolation d /\ network c = network d.

#[export] Instance spec_equiv_equivalence : Equivalence spec_equiv.
Proof.
  unfold spec_equiv. split.
  - intros s. split_and!; done.
  - intros s t H. destruct_and!. split_and!; by symmetry.
  - intros s t u H1 H2. destruct_and!. split_and!; by etrans.
Qed.

Lemma normalize_equiv s : spec_equiv s (normalize_execution_spec s).
Proof. unfold spec_equiv; simpl. split_and!; try done; by rewrite sort_by_perm. Qed.

#[export] Instance cmp_env_order : CmpOrder cmp_env.
Proof. apply _. Qed.
#[export] Instance cmp_metadata_order : CmpOrder cmp_metadata.
Proof. apply then_with_order; apply _. Qed.
#[export] Instance cmp_output_order : CmpOrder cmp_output.
Proof. apply then_with_order; apply _. Qed.

Lemma cmp_metadata_eq x y : cmp_metadata x y = Eq -> x = y.
Proof.
  destruct x as [a b], y as [c d]. unfold cmp_metadata, cmp_on; simpl.
  destruct (str_cmp a c) eqn:E1; try done. simpl. intros E2.
  apply cmp_eq_eq in E1, E2. congruence.
Qed.

Lemma cmp_output_eq x y : cmp_output x y = Eq -> x = y.
Proof.
  destruct x as [a b], y as [c d]. unfold cmp_output, cmp_on; simpl.
  destruct (str_cmp a c) eqn:E1; try done. simpl. intros E2.
  apply cmp_eq_eq in E1. apply cmp_eq_eq in E2. congruence.
Qed.

(** Normalization forgets exactly the order. *)
Lemma normalize_unique s t :
  NoDup (env_name <$> environment (command s)) -> spec_equiv s t ->
  normalize_execution_spec s = normalize_execution_spec t.
Proof.
  intros Hd H. unfold spec_equiv in H. simpl in H. destruct_and!.
  unfold normalize_execution_spec. f_equal; [done|f_equal; try done|].
  - apply sort_by_unique; [apply _|done|]. intros x y Hx Hy E.
    apply (cmp_eq_eq (cmp := str_cmp)) in E. by eapply NoDup_fmap_eq.
  - apply sort_by_unique; [apply _|done|]. intros x y _ _. apply cmp_output_eq.
  - apply sort_by_unique; [apply _|done|]. intros x y _ _. apply cmp_metadata_eq.
Qed.

Lemma normalize_idempotent s :
  normalize_execution_spec (normalize_execution_spec s) = normalize_execution_spec s.
Proof.
  unfold normalize_execution_spec; simpl. rewrite !sort_by_idemp by apply _. done.
Qed.

(** [wf_spec] does not depend on the order, so neither does validation. *)
Lemma wf_spec_equiv s t : spec_equiv s t -> wf_spec s -> wf_spec t.
Proof.
  intros H [[] Hv Hm1 Hm2]. unfold spec_equiv in H. simpl in H. destruct_and!.
  split; [split|congruence|..]; unfold len in *;
    repeat match goal with
    | E : ?x = ?y |- context [?y] => rewrite <- E
    | E : ?x ≡ₚ ?y |- context [?y] => rewrite <- E
    end; done.
Qed.

#[export] Instance spec_validate_proper :
  Proper (spec_equiv ==> iff) (fun s => ExecutionSpec_validate s = Ok tt).
Proof.
  intros s t H. rewrite !ExecutionSpec_validate_ok.
  split; apply wf_spec_equiv; [done|by symmetry].
Qed.

Section identity.
Context `{Sha256, Serde ExecutionSpec, Serde (ExecutionSpec * string)}.

(** The execution identity does not depend on the order in which a caller
    lists environment entries, metadata pairs or declared outputs: a valid
    specification and any reordering of it have the same canonical version
    and digest. *)
Theorem request_digest_order_insensitive (s t : ExecutionSpec) (w : option string) :
  ExecutionSpec_validate s = Ok tt -> spec_equiv s t ->
  request_digest_with_workspace s w = request_digest_with_workspace t w.
Proof.
  intros [Hc _ _ _]%ExecutionSpec_validate_ok Heq. destruct Hc.
  unfold request_digest_with_workspace, request_digest, request_preimage, workspace_request_preimage.
  by rewrite (normalize_unique s t).
Qed.

End identity.

Lemma request_digest_order_insensitive_witness :
  let _ := @tree_serde ExecutionSpec _ in let _ := @tree_serde (ExecutionSpec * string) _ in
  let _ : Sha256 := zero_sha256 in
  ExecutionSpec_validate (sample_spec sample_env) = Ok tt
  /\ sample_env <> reverse sample_env
  /\ request_digest_with_workspace (sample_spec sample_env) (Some "ws-1")
     = request_digest_with_workspace (sample_spec (reverse sample_env)) (Some "ws-1").
Proof.
  intros sr1 sr2 sh. split; [reflexivity|]. split; [discriminate|].
  apply (@request_digest_order_insensitive sh sr1 sr2); [reflexivity|].
  unfold spec_equiv, sample_spec; simpl. split_and!; try done. apply Permutation_swap.
Defined.

Section identifies.
Context `{Sha256, Serde ExecutionSpec, Serde (ExecutionSpec * string)}.
Context `{!SerdeRoundTrip ExecutionSpec, !SerdeRoundTrip (ExecutionSpec * string)}.

Lemma normalize_inj s t :
  normalize_execution_spec s = normalize_execution_spec t -> spec_equiv s t.
Proof. intros E. rewrite (normalize_equiv s), E. symmetry. apply normalize_equiv. Qed.

(** Equal digests of prefixed encodings: equal values or a collision. *)
Lemma hashed_inj {A} `{SerdeRoundTrip A} (p : bytes) (a b : A) d :
  BlobDigest_from_bytes <$> (app p <$> to_vec a) = Some d ->
  BlobDigest_from_bytes <$> (app p <$> to_vec b) = Some d ->
  a = b \/ exists x y, x <> y /\ sha256_hex x = sha256_hex y.
Proof.
  destruct (to_vec a) as [x|] eqn:Ea, (to_vec b) as [y|] eqn:Eb; try done.
  intros [= <-] [= Hd]. destruct (decide (x = y)) as [->|Hne].
  - left. by eapply to_vec_inj.
  - right. exists (p ++ x), (p ++ y). split; [|done]. by intros ?%app_inv_head.
Qed.

Lemma versioned_Some (u v : Z) (o : option string) d :
  pair u <$> o = Some (v, d) <-> u = v /\ o = Some d.
Proof. destruct o; simpl; naive_solver. Qed.

End identifies.


(** A resource requirement survives the wire: its custom JSON form decodes
    to the requirement it was written from, for every [u64] amount. *)
Theorem requirement_wire_roundtrip (r : Requirement Z) :
  match r with NotRequested => True | BestEffort v | Required v => u64_range v end ->
  Requirement_deserialize u64_de (Requirement_serialize u64_ser r) = Some r.
Proof.
  assert (forall v, u64_range v -> u64_de (VNumber v) = Some v) as Hde.
  { intros v [H1%Z.leb_le H2%Z.leb_le]. unfold u64_de. by rewrite H1, H2. }
  destruct r as [|v|v]; [done|..]; intros Hv; cbn -[u64_de]; by rewrite Hde.
Qed.

Lemma requirement_wire_roundtrip_witness :
  u64_range U64_MAX
  /\ Requirement_deserialize u64_de (Requirement_serialize u64_ser (Required U64_MAX)) = Some (Required U64_MAX).
Proof.
  assert (u64_range U64_MAX) as H by (unfold u64_range, U64_MAX; lia).
  split; [exact H|]. exact (requirement_wire_roundtrip (Required U64_MAX) H).
Defined.
