(* ===== verification/Manifest.v ===== *)
(** * Workspace manifests and patches

    [eggwork-core/src/lib.rs], lines 596-885: the portable file-tree
    description, its validator, its canonical digest, and the patch that
    derives one manifest from another.

    A [BTreeMap] is a [gmap] read back in key order, a [HashSet] or
    [BTreeSet] a [gset].  The abstract meaning of a manifest is the finite map
    from paths to entries ([tree_of]); validation and patching are related to
    it. *)

From Stdlib Require Import Ascii String ZArith Lia.
From stdpp Require Import base gmap strings list sorting fin_maps.
From S2P Require Import Prelude Ids Wire Spec.

Definition MAX_WORKSPACE_ENTRIES : Z := 4096.
Definition MAX_WORKSPACE_PATH_BYTES : Z := 1024 * 1024.
Definition MAX_WORKSPACE_DEPTH : Z := 128.
Definition MAX_WORKSPACE_LOGICAL_BYTES : Z := 2 * 1024 * 1024 * 1024.

Inductive WorkspaceEntry : Type :=
| Directory (path : string)
| File (path : string) (digest : string) (size_bytes : Z) (executable : bool)
| Symlink (path : string) (target : string).

#[export] Instance WorkspaceEntry_eq_dec : EqDecision WorkspaceEntry.
Proof. solve_decision. Defined.

Record WorkspaceManifest := {
  wm_schema_version : Z;
  wm_entries : list WorkspaceEntry;
}.

(** [WorkspaceEntry::path] *)
Definition entry_path (e : WorkspaceEntry) : string :=
  match e with Directory path | File path _ _ _ | Symlink path _ => path end.

Definition is_directory (e : WorkspaceEntry) : bool :=
  match e with Directory _ => true | _ => false end.

Definition DQUOTE : ascii := "034"%char.

(** The bytes refused inside a component. *)
Definition forbidden_byte (b : ascii) : bool :=
  (code b <? 32)%Z || Ascii.eqb b "<" || Ascii.eqb b ">" || Ascii.eqb b ":" || Ascii.eqb b DQUOTE
  || Ascii.eqb b "|" || Ascii.eqb b "?" || Ascii.eqb b "*".

Definition string_in (s : string) (l : list string) : bool := existsb (String.eqb s) l.

(** [component.split('.').next().unwrap_or_default().to_ascii_uppercase()] *)
Definition basename (component : string) : string :=
  to_ascii_uppercase (default EmptyString (head (split "." component))).

Definition DEVICES : list string := ["CON"; "PRN"; "AUX"; "NUL"; "CONIN$"; "CONOUT$"; "CLOCK$"].
Definition PORT_NUMBERS : list string := ["1"; "2"; "3"; "4"; "5"; "6"; "7"; "8"; "9"].

Definition reserved_basename (b : string) : bool :=
  string_in b DEVICES
  || match (match strip_prefix "COM" b with Some n => Some n | None => strip_prefix "LPT" b end) with
     | Some number => string_in number PORT_NUMBERS
     | None => false
     end.

Definition validate_portable_component (c : string) : result ValidationError unit :=
  if is_empty c || String.eqb c "." || String.eqb c ".." || ends_with_char "." c || ends_with_char " " c
     || any_byte forbidden_byte c
  then Err (InvalidPath "portable workspace path")
  else if reserved_basename (basename c) then Err (InvalidPath "reserved workspace path")
  else Ok tt.

(** [validate_portable_workspace_path] *)
Definition validate_portable_workspace_path (path : string) : result ValidationError unit :=
  if is_empty path
     || (MAX_PATH_BYTES <? str_len path)%Z
     || (MAX_WORKSPACE_DEPTH <? len (split "/" path))%Z
     || negb (all_bytes is_ascii_char path)
     || starts_with_char "/" path
     || contains_char "\" path
     || contains_nul path
  then Err (InvalidPath "portable workspace path")
  else for_each validate_portable_component (split "/" path).

(** The locals of the loop of [WorkspaceManifest::validate]. *)
Record ValidateState := {
  vs_paths : gmap string bool;
  vs_folded : gset string;
  total_path_bytes : Z;
  total_file_bytes : Z;
}.

Definition validate_init : ValidateState :=
  {| vs_paths := ∅; vs_folded := ∅; total_path_bytes := 0; total_file_bytes := 0 |}.

(** One round of the first loop of [WorkspaceManifest::validate]. *)
Definition validate_entry (st : ValidateState) (e : WorkspaceEntry) : result ValidationError ValidateState :=
  let raw_path := entry_path e in
  validate_portable_workspace_path raw_path ;?
  let path_bytes := sat_add (total_path_bytes st) (str_len raw_path) in
  if (MAX_WORKSPACE_PATH_BYTES <? path_bytes)%Z then Err (OutOfRange "workspace path bytes")
  else if decide (to_ascii_lowercase raw_path ∈ vs_folded st)
  then Err (InvalidSyntax "workspace case collision")
  else
    let folded := {[to_ascii_lowercase raw_path]} ∪ vs_folded st in
    match vs_paths st !! raw_path with
    | Some _ => Err (InvalidSyntax "duplicate workspace path")
    | None =>
        let paths := <[raw_path := is_directory e]> (vs_paths st) in
        match e with
        | File _ _ size_bytes _ =>
            let file_bytes := sat_add (total_file_bytes st) size_bytes in
            if (MAX_WORKSPACE_LOGICAL_BYTES <? file_bytes)%Z
            then Err (OutOfRange "workspace logical bytes")
            else Ok {| vs_paths := paths; vs_folded := folded;
                       total_path_bytes := path_bytes; total_file_bytes := file_bytes |}
        | Symlink _ _ => Err (Forbidden "workspace symlink")
        | Directory _ =>
            Ok {| vs_paths := paths; vs_folded := folded;
                  total_path_bytes := path_bytes; total_file_bytes := total_file_bytes st |}
        end
    end.

(** One round of the second loop: every parent prefix is a declared directory. *)
Definition validate_parents (paths : gmap string bool) (e : WorkspaceEntry) : result ValidationError unit :=
  for_each (fun parent =>
    match paths !! parent with
    | Some true => Ok tt
    | _ => Err (InvalidPath "workspace parent directory")
    end) (parents (entry_path e)).

(** [WorkspaceManifest::validate] *)
Definition WorkspaceManifest_validate (m : WorkspaceManifest) : result ValidationError unit :=
  if negb (wm_schema_version m =? 1)%Z then Err (OutOfRange "workspace schema version")
  else if (MAX_WORKSPACE_ENTRIES <? len (wm_entries m))%Z
  then Err (TooMany "workspace entries" MAX_WORKSPACE_ENTRIES)
  else
    let? st := try_fold validate_entry validate_init (wm_entries m) in
    for_each (validate_parents (vs_paths st)) (wm_entries m).

Definition entry_bytes (e : WorkspaceEntry) : Z :=
  match e with File _ _ size_bytes _ => size_bytes | _ => 0%Z end.

(** [WorkspaceManifest::logical_bytes] *)
Definition logical_bytes (m : WorkspaceManifest) : Z :=
  foldl sat_add 0%Z (entry_bytes <$> wm_entries m).

Definition cmp_entry : WorkspaceEntry -> WorkspaceEntry -> comparison := cmp_on entry_path str_cmp.

Section manifest_digest.
Context `{Sha256, Serde WorkspaceManifest}.

Definition normalize_manifest (m : WorkspaceManifest) : WorkspaceManifest :=
  {| wm_schema_version := wm_schema_version m; wm_entries := sort_by cmp_entry (wm_entries m) |}.

Definition manifest_prefix : bytes :=
  literal "eggwork-workspace-manifest" ++ [Byte.x00] ++ literal "canonical-json-v1" ++ [Byte.x00].

(** [WorkspaceManifest::digest] *)
Definition WorkspaceManifest_digest (m : WorkspaceManifest) : option string :=
  BlobDigest_from_bytes <$> (app manifest_prefix <$> to_vec (normalize_manifest m)).
End manifest_digest.

(** ** Patches *)

Inductive WorkspacePatchEntry : Type :=
| PRemove (path : string)
| PDirectory (path : string)
| PFile (path : string) (digest : string) (size_bytes : Z) (executable : bool).

Record WorkspaceManifestPatch := {
  wp_schema_version : Z;
  base_manifest_digest : string;
  wp_entries : list WorkspacePatchEntry;
}.

(** [WorkspacePatchEntry::path] *)
Definition patch_path (e : WorkspacePatchEntry) : string :=
  match e with PRemove path | PDirectory path | PFile path _ _ _ => path end.

(** [WorkspaceManifestPatch::validate] *)
Definition WorkspaceManifestPatch_validate (p : WorkspaceManifestPatch) : result ValidationError unit :=
  if negb (wp_schema_version p =? 1)%Z then Err (OutOfRange "workspace patch schema version")
  else if (MAX_WORKSPACE_ENTRIES <? len (wp_entries p))%Z
  then Err (TooMany "workspace patch entries" MAX_WORKSPACE_ENTRIES)
  else if has_duplicate (∅ : gset string) (patch_path <$> wp_entries p)
  then Err (InvalidSyntax "duplicate workspace patch path")
  else Ok tt.

(** [tree.insert(entry.path(), entry.clone())] for each base entry. *)
Definition tree_insert (t : gmap string WorkspaceEntry) (e : WorkspaceEntry) : gmap string WorkspaceEntry :=
  <[entry_path e := e]> t.

(** One round of the patch loop. *)
Definition apply_entry (t : gmap string WorkspaceEntry) (e : WorkspacePatchEntry) : gmap string WorkspaceEntry :=
  match e with
  | PRemove path => delete path t
  | PDirectory path => <[path := Directory path]> t
  | PFile path digest size_bytes executable => <[path := File path digest size_bytes executable]> t
  end.

(** [BTreeMap::into_values]: the values in key order. *)
Definition into_values {A} (t : gmap string A) : list A :=
  snd <$> sort_by (cmp_on fst str_cmp) (map_to_list t).

(** [WorkspaceManifestPatch::apply_to] *)
Definition apply_to (p : WorkspaceManifestPatch) (base : WorkspaceManifest)
    : result ValidationError WorkspaceManifest :=
  WorkspaceManifestPatch_validate p ;?
  let tree := foldl tree_insert ∅ (wm_entries base) in
  let tree := foldl apply_entry tree (wp_entries p) in
  let final_manifest := {| wm_schema_version := 1; wm_entries := into_values tree |} in
  WorkspaceManifest_validate final_manifest ;?
  Ok final_manifest.

(** ** Reference encoding *)

#[export] Instance WorkspaceEntry_tree : Tree WorkspaceEntry.
Proof.
  refine (via_tree (fun e => match e with
      | Directory p => inl p
      | File p d s x => inr (inl (p, d, s, x))
      | Symlink p t => inr (inr (p, t)) end)
    (fun s => match s with
      | inl p => Directory p
      | inr (inl (p, d, s, x)) => File p d s x
      | inr (inr (p, t)) => Symlink p t end) _).
  by intros [].
Defined.

#[export] Instance WorkspaceManifest_tree : Tree WorkspaceManifest.
Proof.
  refine (via_tree (fun m => (wm_schema_version m, wm_entries m))
    (fun t => Build_WorkspaceManifest t.1 t.2) _).
  by intros [].
Defined.

(** ** The meaning of a valid manifest *)

Definition is_symlink (e : WorkspaceEntry) : bool :=
  match e with Symlink _ _ => true | _ => false end.

(** The entry as the source's types allow it: sizes are [u64]. *)
Definition typed_entry (e : WorkspaceEntry) : Prop := u64_range (entry_bytes e).

Record wf_manifest (m : WorkspaceManifest) : Prop := {
  wfm_schema : wm_schema_version m = 1%Z;
  wfm_count : (len (wm_entries m) <= MAX_WORKSPACE_ENTRIES)%Z;
  wfm_portable : Forall (fun e => validate_portable_workspace_path (entry_path e) = Ok tt) (wm_entries m);
  wfm_path_bytes : (sum_Z (str_len <$> (entry_path <$> wm_entries m)) <= MAX_WORKSPACE_PATH_BYTES)%Z;
  wfm_case : NoDup (to_ascii_lowercase <$> (entry_path <$> wm_entries m));
  wfm_logical : (sum_Z (entry_bytes <$> wm_entries m) <= MAX_WORKSPACE_LOGICAL_BYTES)%Z;
  wfm_symlink : Forall (fun e => is_symlink e = false) (wm_entries m);
  wfm_parents : forall e p suffix, e ∈ wm_entries m -> entry_path e = p +:+ String "/" suffix ->
    Directory p ∈ wm_entries m;
}.

(** What the first loop computes from the entries it has seen. *)
Definition after_entries (st : ValidateState) (l : list WorkspaceEntry) : ValidateState :=
  {| vs_paths := foldl (fun m e => <[entry_path e := is_directory e]> m) (vs_paths st) l;
     vs_folded := list_to_set (to_ascii_lowercase <$> (entry_path <$> l)) ∪ vs_folded st;
     total_path_bytes := total_path_bytes st + sum_Z (str_len <$> (entry_path <$> l));
     total_file_bytes := total_file_bytes st + sum_Z (entry_bytes <$> l) |}.

Lemma after_one st e :
  after_entries st [e] =
  {| vs_paths := <[entry_path e := is_directory e]> (vs_paths st);
     vs_folded := {[to_ascii_lowercase (entry_path e)]} ∪ vs_folded st;
     total_path_bytes := total_path_bytes st + str_len (entry_path e);
     total_file_bytes := total_file_bytes st + entry_bytes e |}.
Proof. unfold after_entries, sum_Z; csimpl. f_equal; [set_solver|lia..]. Qed.

Lemma after_cons st e l : after_entries (after_entries st [e]) l = after_entries st (e :: l).
Proof. unfold after_entries, sum_Z; csimpl. f_equal; [set_solver|lia..]. Qed.

Lemma validate_entry_ok st e st' :
  (0 <= total_path_bytes st)%Z -> (0 <= total_file_bytes st <= MAX_WORKSPACE_LOGICAL_BYTES)%Z -> typed_entry e ->
  validate_entry st e = Ok st' <->
  validate_portable_workspace_path (entry_path e) = Ok tt
  /\ (total_path_bytes st + str_len (entry_path e) <= MAX_WORKSPACE_PATH_BYTES)%Z
  /\ to_ascii_lowercase (entry_path e) ∉ vs_folded st
  /\ vs_paths st !! entry_path e = None
  /\ (total_file_bytes st + entry_bytes e <= MAX_WORKSPACE_LOGICAL_BYTES)%Z
  /\ is_symlink e = false /\ st' = after_entries st [e].
Proof.
  intros Hp Hf [Ht _]. pose proof (str_len_nonneg (entry_path e)) as Hl.
  rewrite after_one. unfold validate_entry.
  assert (forall a b, 0 <= a -> 0 <= b -> a + b <= 2147483648 -> sat_add a b = a + b)%Z as Hsat
    by (intros; apply sat_add_small; unfold U64_MAX; lia).
  assert (forall a b m, m <= 2147483648 -> sat_add a b <= m -> sat_add a b = a + b)%Z as Hsat'
    by (unfold sat_add, U64_MAX; lia).
  unfold MAX_WORKSPACE_PATH_BYTES, MAX_WORKSPACE_LOGICAL_BYTES in *.
  split.
  - intros H. destruct (decide _); [by cases_in H|]. cases_in H; destruct a; simpl in *;
      repeat match goal with
      | E : (sat_add ?a ?b <= ?m)%Z |- _ =>
          let K := fresh in assert (K := Hsat' a b m ltac:(lia) E); rewrite K in *; clear K
      end; rewrite ?Hsat by lia; (split_and!; [done|lia|done|done|lia|done|]); f_equal; lia.
  - intros (-> & Hb & Hc & -> & Hz & Hs & ->).
    rewrite Hsat by lia. rewrite decide_False by done. rewrite (proj2 (Z.ltb_ge _ _)) by lia.
    destruct e as [p|p d z x|]; [..|done]; simpl in *; [by rewrite Z.add_0_r|].
    rewrite Hsat by lia. by rewrite (proj2 (Z.ltb_ge _ _)) by lia.
Qed.

Lemma sum_entry_bytes_nonneg l : Forall typed_entry l -> (0 <= sum_Z (entry_bytes <$> l))%Z.
Proof. intros H. apply sum_Z_nonneg, Forall_fmap. eapply Forall_impl; [done|]. by intros e [? _]. Qed.

Lemma sum_str_len_nonneg l : (0 <= sum_Z (str_len <$> l))%Z.
Proof. apply sum_Z_nonneg, Forall_fmap, Forall_true. intros s. apply str_len_nonneg. Qed.

(** The first loop succeeds exactly when the entries are within bounds, new
    and free of collisions; it then has computed [after_entries]. *)
Lemma validate_loop st l st' :
  Forall typed_entry l ->
  (0 <= total_path_bytes st <= MAX_WORKSPACE_PATH_BYTES)%Z ->
  (0 <= total_file_bytes st <= MAX_WORKSPACE_LOGICAL_BYTES)%Z ->
  try_fold validate_entry st l = Ok st' <->
  Forall (fun e => validate_portable_workspace_path (entry_path e) = Ok tt) l
  /\ (total_path_bytes st + sum_Z (str_len <$> (entry_path <$> l)) <= MAX_WORKSPACE_PATH_BYTES)%Z
  /\ NoDup (to_ascii_lowercase <$> (entry_path <$> l))
  /\ (forall e, e ∈ l -> to_ascii_lowercase (entry_path e) ∉ vs_folded st)
  /\ (forall e, e ∈ l -> vs_paths st !! entry_path e = None)
  /\ (total_file_bytes st + sum_Z (entry_bytes <$> l) <= MAX_WORKSPACE_LOGICAL_BYTES)%Z
  /\ Forall (fun e => is_symlink e = false) l /\ st' = after_entries st l.
Proof.
  intros Ht. revert st. induction Ht as [|e l He Hl IH]; intros st Hp Hf; cbn [try_fold].
  - assert (after_entries st [] = st) as ->.
    { unfold after_entries, sum_Z. destruct st; simpl. f_equal; [set_solver|lia..]. }
    unfold sum_Z; simpl. split; [intros [= <-]|naive_solver].
    split_and!; try constructor; try lia; set_solver.
  - pose proof (sum_str_len_nonneg (entry_path <$> l)). pose proof (sum_entry_bytes_nonneg l Hl).
    pose proof (str_len_nonneg (entry_path e)).
    rewrite !fmap_cons, !sum_Z_cons, !Forall_cons, NoDup_cons, <- after_cons. pose proof He as [He0 _].
    split.
    + destruct (validate_entry st e) as [st1|] eqn:E; [|done].
      apply validate_entry_ok in E as (J1 & J2 & J3 & J4 & J5 & J6 & ->); [|lia|lia|done].
      rewrite IH by (rewrite after_one; simpl; lia).
      rewrite after_one; simpl. intros (K1 & K2 & K3 & K4 & K5 & K6 & K7 & ->).
      split_and!; try done; try lia.
      * intros Hin. apply list_elem_of_fmap in Hin as (p & Ep & Hin).
        apply list_elem_of_fmap in Hin as (e' & -> & Hin). apply K4 in Hin. set_solver.
      * intros e' [->|Hin]%elem_of_cons; [done|]. apply K4 in Hin. set_solver.
      * intros e' [->|Hin]%elem_of_cons; [done|]. apply K5 in Hin.
        by apply lookup_insert_None in Hin as [? _].
    + intros ([K1 K1'] & K2 & [K3 K3'] & K4 & K5 & K6 & [K7 K7'] & ->).
      assert (validate_entry st e = Ok (after_entries st [e])) as ->.
      { apply validate_entry_ok; [lia|lia|done|]. split_and!; try done; try lia.
        - apply K4. by left.
        - apply K5. by left. }
      apply IH; [rewrite after_one; simpl; lia..|]. rewrite after_one; simpl.
      split_and!; try done; try lia.
      * intros e' Hin. rewrite not_elem_of_union, not_elem_of_singleton. split; [|apply K4; by right].
        intros Ex. apply K3. rewrite <- Ex. by do 2 apply list_elem_of_fmap_2.
      * intros e' Hin. apply lookup_insert_None. split; [apply K5; by right|].
        intros Ex. apply K3. rewrite Ex. by do 2 apply list_elem_of_fmap_2.
Qed.

Lemma NoDup_lower_paths l :
  NoDup (to_ascii_lowercase <$> (entry_path <$> l)) -> NoDup (entry_path <$> l).
Proof. apply NoDup_fmap_1. Qed.

Lemma paths_lookup l (m : gmap string bool) p b :
  NoDup (entry_path <$> l) -> (forall e, e ∈ l -> m !! entry_path e = None) ->
  foldl (fun m e => <[entry_path e := is_directory e]> m) m l !! p = Some b <->
  (exists e, e ∈ l /\ entry_path e = p /\ is_directory e = b) \/ m !! p = Some b.
Proof.
  revert m. induction l as [|e l IH]; intros m Hd Hm; simpl.
  - set_solver.
  - apply NoDup_cons in Hd as [Hn Hd]. rewrite IH; [|done|].
    2:{ intros e' Hin. apply lookup_insert_None. split; [apply Hm; by right|].
        intros E. apply Hn. rewrite E. by apply list_elem_of_fmap_2. }
    destruct (decide (entry_path e = p)) as [<-|Hne].
    + rewrite lookup_insert_eq. specialize (Hm e ltac:(by left)). rewrite Hm. split.
      * intros [(e' & Hin & He)|[= <-]]; left; [exists e'; split; [by right|done]|exists e; split; [by left|done]].
      * intros [(e' & [->|Hin]%elem_of_cons & Ep & Eb)|]; [right; by f_equal|left; by exists e'|done].
    + rewrite lookup_insert_ne by done. split.
      * intros [(e' & Hin & He)|]; [left; exists e'; split; [by right|done]|by right].
      * intros [(e' & [->|Hin]%elem_of_cons & Ep & Eb)|]; [done|left; by exists e'|by right].
Qed.

Lemma is_directory_spec e p : entry_path e = p /\ is_directory e = true <-> e = Directory p.
Proof. destruct e; naive_solver. Qed.

Lemma validate_parents_ok l e :
  NoDup (entry_path <$> l) ->
  validate_parents (vs_paths (after_entries validate_init l)) e = Ok tt <->
  forall p suffix, entry_path e = p +:+ String "/" suffix -> Directory p ∈ l.
Proof.
  intros Hd. unfold validate_parents. rewrite for_each_ok, Forall_forall.
  assert (forall p, vs_paths (after_entries validate_init l) !! p = Some true <-> Directory p ∈ l) as Hp.
  { intros p. simpl. rewrite paths_lookup by (done || (intros; apply lookup_empty)).
    rewrite lookup_empty. setoid_rewrite is_directory_spec. naive_solver. }
  setoid_rewrite elem_of_parents. split.
  - intros H p suf Ep. apply Hp. specialize (H p ltac:(eauto)). by repeat case_match; simplify_eq.
  - intros H p [suf Ep]. by rewrite (proj2 (Hp p) (H _ _ Ep)).
Qed.

Lemma WorkspaceManifest_validate_ok m :
  Forall typed_entry (wm_entries m) -> WorkspaceManifest_validate m = Ok tt <-> wf_manifest m.
Proof.
  intros Ht. unfold WorkspaceManifest_validate.
  assert (0 <= 0 <= MAX_WORKSPACE_PATH_BYTES)%Z as B1 by (unfold MAX_WORKSPACE_PATH_BYTES; lia).
  assert (0 <= 0 <= MAX_WORKSPACE_LOGICAL_BYTES)%Z as B2 by (unfold MAX_WORKSPACE_LOGICAL_BYTES; lia).
  split.
  - intros H. cases_in H. apply validate_loop in Heqr as (H1 & H2 & H3 & _ & _ & H4 & H5 & ->); [|done..].
    rewrite for_each_ok, Forall_forall in H.
    split; try done. intros e p suf Hin. apply H in Hin.
    rewrite validate_parents_ok in Hin by by apply NoDup_lower_paths. apply Hin.
  - intros []. rewrite wfm_schema0. simpl. rewrite (proj2 (Z.ltb_ge _ _)) by done.
    rewrite (proj2 (validate_loop validate_init _ _ Ht B1 B2)) by (split_and!; set_solver).
    apply for_each_ok, Forall_forall. intros e Hin.
    apply validate_parents_ok; [by apply NoDup_lower_paths|]. eauto.
Qed.

(** C40: [WorkspaceManifest::validate] accepts exactly the portable trees: at
    most 4096 entries with portable paths, no two equal up to letter case, no
    symlink, path and file byte totals within bounds (no saturation can hide
    an overflow), and every path's parent prefixes declared as directories. *)
Theorem manifest_validate_exact (m : WorkspaceManifest) :
  Forall typed_entry (wm_entries m) -> WorkspaceManifest_validate m = Ok tt <-> wf_manifest m.
Proof. apply WorkspaceManifest_validate_ok. Qed.

Definition sample_manifest : WorkspaceManifest :=
  {| wm_schema_version := 1;
     wm_entries := [File "src/main.rs" zeros 12 false; Directory "src"; File "Makefile" zeros 3 true] |}.

Lemma manifest_validate_exact_witness :
  Forall typed_entry (wm_entries sample_manifest)
  /\ (WorkspaceManifest_validate sample_manifest = Ok tt <-> wf_manifest sample_manifest).
Proof.
  assert (Forall typed_entry (wm_entries sample_manifest)) as H
    by (repeat constructor; unfold entry_bytes, U64_MAX; lia).
  split; [exact H|]. exact (manifest_validate_exact sample_manifest H).
Defined.

(** ** Manifests as finite maps *)

(** The tree a manifest describes. *)
Definition tree_of (l : list WorkspaceEntry) : gmap string WorkspaceEntry := foldl tree_insert ∅ l.

(** Every entry sits under its own path. *)
Definition keyed (t : gmap string WorkspaceEntry) : Prop := map_Forall (fun k e => entry_path e = k) t.

#[export] Instance cmp_entry_order : CmpOrder cmp_entry.
Proof. apply _. Qed.

Lemma foldl_tree_insert_lookup l t k e :
  NoDup (entry_path <$> l) -> (forall e, e ∈ l -> t !! entry_path e = None) ->
  foldl tree_insert t l !! k = Some e <-> (e ∈ l /\ entry_path e = k) \/ t !! k = Some e.
Proof.
  revert t. induction l as [|x l IH]; intros t Hd Ht; simpl; [set_solver|].
  apply NoDup_cons in Hd as [Hn Hd]. rewrite IH; [|done|]; unfold tree_insert.
  2:{ intros e' Hin. apply lookup_insert_None. split; [apply Ht; by right|].
      intros E. apply Hn. rewrite E. by apply list_elem_of_fmap_2. }
  specialize (Ht x ltac:(by left)). rewrite elem_of_cons.
  destruct (decide (entry_path x = k)) as [<-|Hne].
  - rewrite lookup_insert_eq. naive_solver.
  - rewrite lookup_insert_ne by done. naive_solver.
Qed.

Lemma tree_of_lookup l k e :
  NoDup (entry_path <$> l) -> tree_of l !! k = Some e <-> e ∈ l /\ entry_path e = k.
Proof.
  intros Hd. unfold tree_of. rewrite foldl_tree_insert_lookup by (done || (intros; apply lookup_empty)).
  rewrite lookup_empty. naive_solver.
Qed.

Lemma keyed_tree_insert t e : keyed t -> keyed (tree_insert t e).
Proof. intros H. by apply map_Forall_insert_2. Qed.

Lemma keyed_foldl_tree_insert l t : keyed t -> keyed (foldl tree_insert t l).
Proof. revert t. induction l; simpl; auto using keyed_tree_insert. Qed.

Lemma keyed_tree_of l : keyed (tree_of l).
Proof. apply keyed_foldl_tree_insert, map_Forall_empty. Qed.

Lemma keyed_apply_entry t e : keyed t -> keyed (apply_entry t e).
Proof. intros H. destruct e; simpl; [by apply map_Forall_delete|by apply map_Forall_insert_2..]. Qed.

Lemma keyed_foldl_apply ps t : keyed t -> keyed (foldl apply_entry t ps).
Proof. revert t. induction ps; simpl; auto using keyed_apply_entry. Qed.
#[export] Hint Resolve keyed_tree_of keyed_foldl_apply : egg.

Lemma elem_of_into_values {A} (t : gmap string A) x : x ∈ into_values t <-> exists k, t !! k = Some x.
Proof.
  unfold into_values. rewrite list_elem_of_fmap. split.
  - intros ([k y] & -> & Hin). rewrite sort_by_perm in Hin. apply elem_of_map_to_list in Hin. eauto.
  - intros [k Hk]. exists (k, x). split; [done|]. rewrite sort_by_perm. by apply elem_of_map_to_list.
Qed.

(** Reading the map back in key order lists the entries in path order. *)
Lemma into_values_sorted t :
  keyed t -> into_values t = sort_by cmp_entry (map_to_list t).*2.
Proof.
  intros Hk. unfold into_values.
  assert (Forall (fun kv => entry_path kv.2 = kv.1) (map_to_list t)) as Hl.
  { apply Forall_forall. intros [k e] Hin%elem_of_map_to_list. by apply Hk in Hin. }
  rewrite Forall_forall in Hl. apply sort_by_fmap; [apply _|].
  intros x y Hx%Hl Hy%Hl. unfold cmp_entry, cmp_on. by rewrite Hx, Hy.
Qed.

Lemma into_values_paths t : keyed t -> NoDup (entry_path <$> into_values t).
Proof.
  intros Hk. rewrite into_values_sorted by done. rewrite sort_by_perm.
  replace (entry_path <$> (map_to_list t).*2) with (map_to_list t).*1; [apply NoDup_fst_map_to_list|].
  rewrite <- list_fmap_compose. apply list_fmap_ext. intros i [k e] Hin.
  apply list_elem_of_lookup_2, elem_of_map_to_list in Hin. simpl. by apply Hk in Hin.
Qed.

Lemma tree_of_into_values t : keyed t -> tree_of (into_values t) = t.
Proof.
  intros Hk. apply map_eq. intros k. apply option_eq. intros e.
  rewrite tree_of_lookup by by apply into_values_paths. rewrite elem_of_into_values. split.
  - intros [[k' Hk'] <-]. by rewrite (Hk _ _ Hk').
  - intros He. split; [eauto|by apply Hk in He].
Qed.

Lemma into_values_tree_of l : NoDup (entry_path <$> l) -> into_values (tree_of l) = sort_by cmp_entry l.
Proof.
  intros Hd. rewrite into_values_sorted by apply keyed_tree_of.
  assert (NoDup (map_to_list (tree_of l)).*2) as Hn.
  { apply (NoDup_fmap_1 entry_path). rewrite <- (sort_by_perm cmp_entry).
    rewrite <- into_values_sorted by apply keyed_tree_of. apply into_values_paths, keyed_tree_of. }
  apply sort_by_unique; [apply _|..].
  - apply NoDup_Permutation; [done|by apply NoDup_fmap_1 in Hd|]. intros e.
    rewrite list_elem_of_fmap. split.
    + intros ([k x] & -> & Hin%elem_of_map_to_list). by apply tree_of_lookup in Hin as [? _].
    + intros He. exists (entry_path e, e). split; [done|]. apply elem_of_map_to_list.
      by apply tree_of_lookup.
  - intros x y Hx Hy E. apply (cmp_eq_eq (cmp := str_cmp)) in E.
    apply list_elem_of_fmap in Hx as ([k x'] & -> & Hx%elem_of_map_to_list).
    apply list_elem_of_fmap in Hy as ([k' y'] & -> & Hy%elem_of_map_to_list).
    simpl in *. apply tree_of_lookup in Hx as [? <-], Hy as [? <-]; [|done..].
    by eapply NoDup_fmap_eq.
Qed.

(** ** What a patch does *)

(** What a patch entry leaves at its path. *)
Definition patch_result (e : WorkspacePatchEntry) : option WorkspaceEntry :=
  match e with
  | PRemove _ => None
  | PDirectory path => Some (Directory path)
  | PFile path digest size_bytes executable => Some (File path digest size_bytes executable)
  end.

Definition patch_map (ps : list WorkspacePatchEntry) : gmap string (option WorkspaceEntry) :=
  list_to_map ((fun e => (patch_path e, patch_result e)) <$> ps).

(** The abstract patch: overwrite the tree where the patch speaks. *)
Definition patched (t : gmap string WorkspaceEntry) (ps : list WorkspacePatchEntry)
    : gmap string WorkspaceEntry :=
  merge (fun p e => match p with Some r => r | None => e end) (patch_map ps) t.

Definition typed_patch_entry (e : WorkspacePatchEntry) : Prop :=
  match e with PFile _ _ size_bytes _ => u64_range size_bytes | _ => True end.

Lemma apply_entry_lookup t e k :
  apply_entry t e !! k = if decide (patch_path e = k) then patch_result e else t !! k.
Proof.
  destruct e; simpl; case_decide; subst;
    rewrite ?lookup_delete_eq, ?lookup_insert_eq, ?lookup_delete_ne, ?lookup_insert_ne by done; done.
Qed.

Lemma foldl_apply_entry t ps :
  NoDup (patch_path <$> ps) -> foldl apply_entry t ps = patched t ps.
Proof.
  intros Hd. apply map_eq. intros k. unfold patched. rewrite lookup_merge.
  revert t. induction ps as [|e ps IH]; intros t; simpl.
  - unfold patch_map. simpl. rewrite lookup_empty. by destruct (t !! k).
  - apply NoDup_cons in Hd as [Hn Hd]. rewrite IH by done. rewrite apply_entry_lookup.
    unfold patch_map. csimpl. case_decide as Hk.
    + rewrite Hk, lookup_insert_eq. fold (patch_map ps). rewrite <- Hk in *.
      assert (patch_map ps !! patch_path e = None) as ->.
      { apply not_elem_of_list_to_map_1. rewrite <- list_fmap_compose. done. }
      by destruct (patch_result e), (t !! patch_path e).
    + rewrite lookup_insert_ne by done. done.
Qed.

Lemma WorkspaceManifestPatch_validate_ok p :
  WorkspaceManifestPatch_validate p = Ok tt <->
  wp_schema_version p = 1%Z /\ (len (wp_entries p) <= MAX_WORKSPACE_ENTRIES)%Z
  /\ NoDup (patch_path <$> wp_entries p).
Proof.
  unfold WorkspaceManifestPatch_validate. rewrite <- has_duplicate_spec. split.
  - intros H. by cases_in H.
  - intros (-> & ->%Z.ltb_ge & ->). done.
Qed.

Lemma typed_tree_of l :
  NoDup (entry_path <$> l) -> Forall typed_entry l -> map_Forall (fun _ => typed_entry) (tree_of l).
Proof. intros Hd Hl k e [He _]%tree_of_lookup; [|done]. rewrite Forall_forall in Hl. auto. Qed.

Lemma typed_patched t ps :
  map_Forall (fun _ => typed_entry) t -> Forall typed_patch_entry ps ->
  map_Forall (fun _ => typed_entry) (patched t ps).
Proof.
  intros Ht Hp k e. unfold patched. rewrite lookup_merge. unfold diag_None.
  destruct (patch_map ps !! k) as [r|] eqn:E.
  - apply elem_of_list_to_map_2, list_elem_of_fmap in E as (x & [= -> ->] & Hx).
    rewrite Forall_forall in Hp. apply Hp in Hx. intros Hr.
    assert (patch_result x = Some e) as Hr' by (by destruct (t !! patch_path x)).
    destruct x; simpl in *; simplify_eq; [|done]. unfold typed_entry, u64_range, U64_MAX. simpl. lia.
  - destruct (t !! k) as [x|] eqn:Ex; [|done]. intros [= ->]. by eapply Ht.
Qed.

Lemma typed_into_values t :
  map_Forall (fun _ => typed_entry) t -> Forall typed_entry (into_values t).
Proof. intros H. apply Forall_forall. intros e [k Hk]%elem_of_into_values. eauto. Qed.

Lemma wf_manifest_paths m : wf_manifest m -> NoDup (entry_path <$> wm_entries m).
Proof. intros []. by apply NoDup_lower_paths. Qed.

Lemma wf_manifest_normalize m : wf_manifest m -> wf_manifest (normalize_manifest m).
Proof.
  intros [H1 H2 H3 H4 H5 H6 H7 H8]. pose proof (sort_by_perm cmp_entry (wm_entries m)) as Hp.
  split; simpl; unfold len in *; try rewrite Hp; try done.
  - erewrite sum_Z_perm; [done|]. by rewrite Hp.
  - erewrite sum_Z_perm; [done|]. by rewrite Hp.
  - intros e p suf. rewrite !Hp. eauto.
Qed.

(** Sorted in path order, as a canonical manifest lists its entries. *)
Definition canonical (m : WorkspaceManifest) : Prop := normalize_manifest m = m.

Lemma canonical_into_values t :
  keyed t -> canonical {| wm_schema_version := 1; wm_entries := into_values t |}.
Proof.
  intros Hk. unfold canonical, normalize_manifest. simpl. f_equal.
  rewrite into_values_sorted by done. apply sort_by_idemp, _.
Qed.

Lemma apply_to_ok (p : WorkspaceManifestPatch) (base m : WorkspaceManifest) :
  wf_manifest base -> Forall typed_entry (wm_entries base) -> Forall typed_patch_entry (wp_entries p) ->
  apply_to p base = Ok m <->
  WorkspaceManifestPatch_validate p = Ok tt /\ wf_manifest m /\ canonical m
  /\ tree_of (wm_entries m) = patched (tree_of (wm_entries base)) (wp_entries p).
Proof.
  intros Hb%wf_manifest_paths Htb Htp. unfold apply_to.
  set (t := foldl apply_entry _ _).
  assert (keyed t) as Hk by (unfold t; auto with egg).
  assert (NoDup (patch_path <$> wp_entries p) -> t = patched (tree_of (wm_entries base)) (wp_entries p)) as Ht
    by (apply foldl_apply_entry).
  split.
  - intros H. cases_in H. destruct a, a0. split; [done|].
    apply WorkspaceManifestPatch_validate_ok in Heqr as (_ & _ & Hd). rewrite <- Ht by done.
    rewrite WorkspaceManifest_validate_ok in Heqr0.
    + split_and!; [done|by apply canonical_into_values|by apply tree_of_into_values].
    + simpl. apply typed_into_values. rewrite Ht by done. by apply typed_patched; [apply typed_tree_of|].
  - intros (Hp & Hm & Hc & Hpt). pose proof (wf_manifest_paths _ Hm) as Hnd.
    rewrite Hp. apply WorkspaceManifestPatch_validate_ok in Hp as (_ & _ & Hd).
    rewrite Ht, <- Hpt by done.
    assert ({| wm_schema_version := 1; wm_entries := into_values (tree_of (wm_entries m)) |} = m) as ->.
    { rewrite into_values_tree_of by done. unfold canonical, normalize_manifest in Hc.
      rewrite (wfm_schema _ Hm) in Hc. exact Hc. }
    assert (Forall typed_entry (wm_entries m)) as Htm.
    { apply Forall_forall. intros e He. assert (tree_of (wm_entries m) !! entry_path e = Some e) as Hl
        by (by apply tree_of_lookup).
      rewrite Hpt in Hl. revert Hl. by apply typed_patched; [apply typed_tree_of|]. }
    by apply WorkspaceManifest_validate_ok in Hm as ->.
Qed.

(** C18: [WorkspaceManifestPatch::apply_to] refines the map update: it returns
    [m] exactly when the patch is well-formed, and [m] is the valid canonical
    manifest of the base tree overwritten where the patch speaks (removals
    delete, upserts replace) and unchanged elsewhere. *)
Theorem patch_apply_refines (p : WorkspaceManifestPatch) (base m : WorkspaceManifest) :
  wf_manifest base -> Forall typed_entry (wm_entries base) -> Forall typed_patch_entry (wp_entries p) ->
  apply_to p base = Ok m <->
  WorkspaceManifestPatch_validate p = Ok tt /\ wf_manifest m /\ canonical m
  /\ tree_of (wm_entries m) = patched (tree_of (wm_entries base)) (wp_entries p).
Proof. apply apply_to_ok. Qed.

Lemma has_duplicate_perm (xs ys : list string) :
  xs ≡ₚ ys -> has_duplicate (∅ : gset string) xs = has_duplicate ∅ ys.
Proof.
  intros Hp. destruct (has_duplicate _ xs) eqn:E1, (has_duplicate _ ys) eqn:E2; try done.
  - apply has_duplicate_spec in E2. rewrite <- Hp in E2. apply has_duplicate_spec in E2. congruence.
  - apply has_duplicate_spec in E1. rewrite Hp in E1. apply has_duplicate_spec in E1. congruence.
Qed.

Lemma patch_validate_perm v d ps qs :
  ps ≡ₚ qs ->
  WorkspaceManifestPatch_validate {| wp_schema_version := v; base_manifest_digest := d; wp_entries := ps |} =
  WorkspaceManifestPatch_validate {| wp_schema_version := v; base_manifest_digest := d; wp_entries := qs |}.
Proof.
  intros Hp. unfold WorkspaceManifestPatch_validate, len. simpl.
  by rewrite Hp, (has_duplicate_perm (patch_path <$> ps) (patch_path <$> qs)) by (by rewrite Hp).
Qed.

Lemma patch_map_perm ps qs :
  NoDup (patch_path <$> ps) -> ps ≡ₚ qs -> patch_map ps = patch_map qs.
Proof.
  intros Hd Hp. apply list_to_map_proper; [|by rewrite Hp].
  by rewrite <- list_fmap_compose.
Qed.

(** The order of patch entries never affects the result, errors included. *)
Theorem patch_order_insensitive (v : Z) (d : string) (ps qs : list WorkspacePatchEntry) (base : WorkspaceManifest) :
  ps ≡ₚ qs ->
  apply_to {| wp_schema_version := v; base_manifest_digest := d; wp_entries := ps |} base =
  apply_to {| wp_schema_version := v; base_manifest_digest := d; wp_entries := qs |} base.
Proof.
  intros Hp. unfold apply_to. rewrite (patch_validate_perm v d ps qs) by done.
  destruct (WorkspaceManifestPatch_validate _) as [[]|] eqn:E; [|done]. simpl.
  apply WorkspaceManifestPatch_validate_ok in E as (_ & _ & Hq). simpl in Hq.
  assert (NoDup (patch_path <$> ps)) as Hps by by rewrite Hp.
  rewrite !foldl_apply_entry by done. unfold patched. by rewrite (patch_map_perm ps qs).
Qed.

Lemma patch_order_insensitive_witness :
  let ps := [PRemove "a"; PDirectory "b"] in let qs := [PDirectory "b"; PRemove "a"] in
  ps ≡ₚ qs /\ apply_to {| wp_schema_version := 1; base_manifest_digest := zeros; wp_entries := ps |} sample_manifest
    = apply_to {| wp_schema_version := 1; base_manifest_digest := zeros; wp_entries := qs |} sample_manifest.
Proof.
  intros ps qs. assert (ps ≡ₚ qs) as H by apply Permutation_swap. split; [exact H|].
  exact (patch_order_insensitive 1 zeros ps qs sample_manifest H).
Defined.

Section manifest_identity.
Context `{Sha256, Serde WorkspaceManifest}.

Lemma normalize_manifest_perm m n :
  NoDup (entry_path <$> wm_entries m) -> wm_schema_version m = wm_schema_version n ->
  wm_entries m ≡ₚ wm_entries n -> normalize_manifest m = normalize_manifest n.
Proof.
  intros Hd Hv Hp. unfold normalize_manifest. f_equal; [done|]. apply sort_by_unique; [apply _|done|].
  intros x y Hx Hy E. apply (cmp_eq_eq (cmp := str_cmp)) in E. by eapply NoDup_fmap_eq.
Qed.

Lemma tree_of_perm l k :
  NoDup (entry_path <$> l) -> NoDup (entry_path <$> k) -> tree_of l = tree_of k -> l ≡ₚ k.
Proof.
  intros Hl Hk E. apply NoDup_Permutation; [by eapply NoDup_fmap_1..|]. intros e.
  pose proof (tree_of_lookup l (entry_path e) e Hl) as H1.
  pose proof (tree_of_lookup k (entry_path e) e Hk) as H2. rewrite E in H1. naive_solver.
Qed.

Context `{!SerdeRoundTrip WorkspaceManifest}.

(** The manifest digest names the tree: two valid manifests of the same
    tree have the same digest whatever order they list it in, and two
    manifests with the same digest list the same entries unless they exhibit
    a SHA-256 collision. *)
Theorem manifest_digest_identifies (m n : WorkspaceManifest) (d : string) :
  wf_manifest m -> wf_manifest n -> WorkspaceManifest_digest m = Some d ->
  (tree_of (wm_entries m) = tree_of (wm_entries n) -> WorkspaceManifest_digest n = Some d)
  /\ (WorkspaceManifest_digest n = Some d ->
      wm_entries m ≡ₚ wm_entries n \/ exists b c, b <> c /\ sha256_hex b = sha256_hex c).
Proof.
  intros Hm Hn Hd. pose proof (wf_manifest_paths m Hm). pose proof (wf_manifest_paths n Hn). split.
  - intros Ht. rewrite <- Hd. unfold WorkspaceManifest_digest. rewrite (normalize_manifest_perm m n); [done|done| |].
    + by rewrite (wfm_schema _ Hm), (wfm_schema _ Hn).
    + by apply tree_of_perm.
  - intros Hd'. destruct (hashed_inj _ _ _ _ Hd Hd') as [[= _ E]|Hc]; [left|by right].
    by rewrite <- (sort_by_perm cmp_entry (wm_entries m)), E, sort_by_perm.
Qed.
End manifest_identity.

Lemma wf_sample_manifest : wf_manifest sample_manifest.
Proof.
  apply WorkspaceManifest_validate_ok; [|vm_compute; reflexivity].
  repeat constructor; unfold entry_bytes, U64_MAX; lia.
Qed.

Definition sample_sorted : WorkspaceManifest := normalize_manifest sample_manifest.

Lemma wf_sample_sorted : wf_manifest sample_sorted.
Proof.
  apply WorkspaceManifest_validate_ok; [|vm_compute; reflexivity].
  repeat constructor; unfold entry_bytes, U64_MAX; lia.
Qed.

Lemma manifest_digest_identifies_witness :
  let _ := @tree_serde WorkspaceManifest _ in let _ : Sha256 := zero_sha256 in
  tree_of (wm_entries sample_manifest) = tree_of (wm_entries sample_sorted)
  /\ WorkspaceManifest_digest sample_sorted = Some zeros.
Proof.
  intros sr sh. assert (tree_of (wm_entries sample_manifest) = tree_of (wm_entries sample_sorted)) as E
    by (vm_compute; reflexivity).
  split; [exact E|].
  exact (proj1 (@manifest_digest_identifies sh sr tree_serde_roundtrip sample_manifest sample_sorted zeros
    wf_sample_manifest wf_sample_sorted eq_refl) E).
Defined.

Definition sample_patch : WorkspaceManifestPatch :=
  {| wp_schema_version := 1; base_manifest_digest := zeros;
     wp_entries := [PRemove "Makefile"; PFile "src/lib.rs" zeros 7 false] |}.

Lemma patch_apply_refines_witness :
  let m := {| wm_schema_version := 1;
    wm_entries := [Directory "src"; File "src/lib.rs" zeros 7 false; File "src/main.rs" zeros 12 false] |} in
  apply_to sample_patch sample_manifest = Ok m
  /\ tree_of (wm_entries m) = patched (tree_of (wm_entries sample_manifest)) (wp_entries sample_patch).
Proof.
  intros m. assert (apply_to sample_patch sample_manifest = Ok m) as E by (vm_compute; reflexivity).
  split; [exact E|].
  refine (proj2 (proj2 (proj2 (proj1 (patch_apply_refines sample_patch sample_manifest m
    wf_sample_manifest _ _) E)))).
  - repeat constructor; unfold entry_bytes, U64_MAX; lia.
  - repeat constructor; unfold U64_MAX; lia.
Defined.

(** The patch that turns one tree into another: remove what the target does
    not have, upsert everything it has. *)
Definition upsert (e : WorkspaceEntry) : WorkspacePatchEntry :=
  match e with
  | Directory p | Symlink p _ => PDirectory p
  | File p d s x => PFile p d s x
  end.

Definition diff (base target : list WorkspaceEntry) : list WorkspacePatchEntry :=
  (PRemove <$> filter (fun p => p ∉ entry_path <$> target) (entry_path <$> base)) ++ (upsert <$> target).

Lemma patch_path_upsert e : patch_path (upsert e) = entry_path e.
Proof. by destruct e. Qed.

Lemma diff_paths base target :
  patch_path <$> diff base target =
  filter (fun p => p ∉ entry_path <$> target) (entry_path <$> base) ++ (entry_path <$> target).
Proof.
  unfold diff. rewrite fmap_app, <- !list_fmap_compose. f_equal.
  - by rewrite list_fmap_id.
  - apply list_fmap_ext. intros i e _. apply patch_path_upsert.
Qed.

Lemma diff_NoDup base target :
  NoDup (entry_path <$> base) -> NoDup (entry_path <$> target) -> NoDup (patch_path <$> diff base target).
Proof.
  intros Hb Ht. rewrite diff_paths, NoDup_app. split_and!; [by apply NoDup_filter| |done].
  intros x [Hx _]%list_elem_of_filter. done.
Qed.

Lemma diff_patched base target :
  NoDup (entry_path <$> base) -> NoDup (entry_path <$> target) ->
  Forall (fun e => is_symlink e = false) target ->
  patched (tree_of base) (diff base target) = tree_of target.
Proof.
  intros Hb Ht Hs. apply map_eq. intros k. unfold patched. rewrite lookup_merge.
  assert (forall r, patch_map (diff base target) !! k = Some r <->
    exists e, e ∈ diff base target /\ patch_path e = k /\ patch_result e = r) as Hpm.
  { intros r. unfold patch_map. rewrite <- elem_of_list_to_map.
    2:{ rewrite <- list_fmap_compose. by apply diff_NoDup. }
    rewrite list_elem_of_fmap. naive_solver. }
  destruct (tree_of target !! k) as [e|] eqn:E.
  - apply tree_of_lookup in E as [He <-]; [|done].
    rewrite (proj2 (Hpm (Some e))); [by destruct (tree_of base !! entry_path e)|].
    exists (upsert e). split_and!; [|apply patch_path_upsert|].
    + unfold diff. rewrite elem_of_app. right. by apply list_elem_of_fmap_2.
    + rewrite Forall_forall in Hs. apply Hs in He. by destruct e.
  - assert (k ∉ entry_path <$> target) as Hk.
    { intros (e & -> & He)%list_elem_of_fmap. rewrite (proj2 (tree_of_lookup target _ e Ht)) in E; done. }
    destruct (tree_of base !! k) as [e|] eqn:Eb.
    + apply tree_of_lookup in Eb as [He <-]; [|done]. rewrite (proj2 (Hpm None)); [done|].
      exists (PRemove (entry_path e)). split_and!; [|done..]. unfold diff. rewrite elem_of_app. left.
      apply list_elem_of_fmap_2, list_elem_of_filter. split; [done|]. by apply list_elem_of_fmap_2.
    + destruct (patch_map _ !! k) as [r|] eqn:Er; [|done]. exfalso.
      destruct (proj1 (Hpm r) eq_refl) as (e & He & <- & _). apply (list_elem_of_fmap_2 patch_path) in He.
      rewrite diff_paths in He. apply elem_of_app in He as [He|He]; [|done].
      apply list_elem_of_filter in He as [_ (b & Eb' & Hin)%list_elem_of_fmap].
      rewrite Eb' in Eb. rewrite (proj2 (tree_of_lookup base _ b Hb)) in Eb; done.
Qed.

Lemma diff_typed base target : Forall typed_entry target -> Forall typed_patch_entry (diff base target).
Proof.
  intros Ht. unfold diff. apply Forall_app. split.
  - by apply Forall_fmap, Forall_true.
  - apply Forall_fmap. eapply Forall_impl; [done|]. by intros [].
Qed.

(** Patches are complete: between any two valid manifests the patch that
    removes what the target lacks and upserts what it has is accepted (when
    it fits the entry bound) and yields the target's canonical manifest. *)
Theorem patch_reaches_target (base target : WorkspaceManifest) (d : string) :
  wf_manifest base -> wf_manifest target ->
  Forall typed_entry (wm_entries base) -> Forall typed_entry (wm_entries target) ->
  (len (diff (wm_entries base) (wm_entries target)) <= MAX_WORKSPACE_ENTRIES)%Z ->
  apply_to {| wp_schema_version := 1; base_manifest_digest := d;
              wp_entries := diff (wm_entries base) (wm_entries target) |} base
  = Ok (normalize_manifest target).
Proof.
  intros Hb Ht Htb Htt Hlen. pose proof (wf_manifest_paths _ Hb). pose proof (wf_manifest_paths _ Ht).
  apply apply_to_ok; [done|done|by apply diff_typed|]. split_and!.
  - apply WorkspaceManifestPatch_validate_ok. split_and!; [done..|]. by apply diff_NoDup.
  - by apply wf_manifest_normalize.
  - unfold canonical, normalize_manifest. simpl. by rewrite sort_by_idemp by apply _.
  - simpl. rewrite diff_patched by (done || apply wfm_symlink; done).
    apply map_eq. intros k. apply option_eq. intros e.
    rewrite !tree_of_lookup by (rewrite ?sort_by_perm; done). by rewrite sort_by_perm.
Qed.

Lemma patch_reaches_target_witness :
  let empty := {| wm_schema_version := 1; wm_entries := [] |} in
  apply_to {| wp_schema_version := 1; base_manifest_digest := zeros;
              wp_entries := diff [] (wm_entries sample_manifest) |} empty
  = Ok (normalize_manifest sample_manifest).
Proof.
  intros empty. apply (patch_reaches_target empty sample_manifest zeros).
  - by apply WorkspaceManifest_validate_ok; [constructor|reflexivity].
  - exact wf_sample_manifest.
  - constructor.
  - repeat constructor; unfold entry_bytes, U64_MAX; lia.
  - vm_compute. discriminate.
Defined.

(** ** Portable paths *)

(** The device names Windows reserves in every directory. *)
Definition WINDOWS_DEVICES : list string :=
  DEVICES ++ (String.append "COM" <$> PORT_NUMBERS) ++ (String.append "LPT" <$> PORT_NUMBERS).

Lemma string_in_spec s l : string_in s l = true <-> s ∈ l.
Proof.
  unfold string_in. rewrite existsb_exists, list_elem_of_In. setoid_rewrite String.eqb_eq. naive_solver.
Qed.

Lemma reserved_basename_spec b : reserved_basename b = true <-> b ∈ WINDOWS_DEVICES.
Proof.
  unfold reserved_basename, WINDOWS_DEVICES.
  rewrite orb_true_iff, string_in_spec, !elem_of_app, !list_elem_of_fmap.
  split; (intros [H|H]; [by left|right]).
  - destruct (strip_prefix "COM" b) as [n|] eqn:E1.
    + apply strip_prefix_spec in E1 as ->. left. exists n. by rewrite <- string_in_spec.
    + destruct (strip_prefix "LPT" b) as [n|] eqn:E2; [|done].
      apply strip_prefix_spec in E2 as ->. right. exists n. by rewrite <- string_in_spec.
  - destruct H as [(n & -> & Hn)|(n & -> & Hn)].
    + by rewrite (proj2 (strip_prefix_spec "COM" _ n)), string_in_spec.
    + change (strip_prefix "COM" ("LPT" +:+ n)) with (@None string).
      by rewrite (proj2 (strip_prefix_spec "LPT" _ n)), string_in_spec.
Qed.

(** A portable workspace path is a confined relative path, and no
    component of it can name a Windows device in any letter case or with any
    extension, nor lose trailing dots or spaces there. *)
Theorem portable_path_safe (path : string) :
  validate_portable_workspace_path path = Ok tt ->
  RelativePath_new path = Ok path
  /\ Forall (fun c => basename c ∉ WINDOWS_DEVICES
       /\ ends_with_char "." c = false /\ ends_with_char " " c = false) (split "/" path).
Proof.
  intros H. unfold validate_portable_workspace_path in H. destruct (_ || _) eqn:E; [done|].
  apply for_each_ok in H. bool_hyps. split.
  - apply RelativePath_new_ok. unfold contains_nul in *. rewrite <- !contains_char_false.
    split_and!; try done; [by intros ->|].
    eapply Forall_impl; [done|]. intros c Hc. unfold validate_portable_component in Hc.
    cases_in Hc. unfold path_component_confined. by rewrite negb_true_iff, !orb_false_iff, !String.eqb_neq.
  - eapply Forall_impl; [done|]. intros c Hc. unfold validate_portable_component in Hc. cases_in Hc.
    split_and!; try done. rewrite <- reserved_basename_spec. congruence.
Qed.

Lemma portable_path_safe_witness :
  validate_portable_workspace_path "src/con1.txt" = Ok tt
  /\ validate_portable_workspace_path "src/Con.txt" = Err (InvalidPath "reserved workspace path")
  /\ RelativePath_new "src/con1.txt" = Ok "src/con1.txt".
Proof.
  split; [reflexivity|]. split; [reflexivity|]. exact (proj1 (portable_path_safe "src/con1.txt" eq_refl)).
Defined.
