(* ===== verification/Events.v ===== *)
(** * Execution states, results, events and snapshots

    [eggwork-core/src/lib.rs], lines 887-1104 and 1522-1573: what a node
    reports about an execution.  [Option<i32>] and the counters are [Z];
    [Vec<u8>] payloads are [bytes]. *)

From Stdlib Require Import Ascii String ZArith Lia.
From stdpp Require Import base gmap strings list.
From S2P Require Import Prelude Ids Wire Spec.

Inductive ExecutionState : Type :=
| Accepted
| Preparing
| Running
| Cancelling
| Succeeded
| Failed
| Cancelled
| TimedOut
| Interrupted.

#[export] Instance ExecutionState_eq_dec : EqDecision ExecutionState.
Proof. solve_decision. Defined.

Inductive ExecutionFailure : Type :=
| FailSpawn
| FailInternal
| FailOutputLimit
| FailSandbox
| FailResourceLimit
| FailInterrupted
| FailLeaseExpired.

#[export] Instance ExecutionFailure_eq_dec : EqDecision ExecutionFailure.
Proof. solve_decision. Defined.

Inductive SandboxResult : Type :=
| SandboxNotRequested
| SandboxNotApplied (reason : string)
| SandboxApplied (profile : string)
| SandboxFailed (reason : string).

Inductive ResourceDimensionResult : Type :=
| DimNotRequested
| DimNotApplied (reason : string)
| DimApplied (backend : string)
| DimLimitExceeded (backend : string).

Record ResourceResult := {
  rr_memory_bytes : ResourceDimensionResult;
  rr_cpu_millis : ResourceDimensionResult;
  rr_pids : ResourceDimensionResult;
}.

Inductive ExecutionFinalizationFailure : Type := ArtifactCapture | Retention.

Record ExecutionResult := {
  res_state : ExecutionState;
  exit_code : option Z;
  failure : option ExecutionFailure;
  stdout_bytes : Z;
  stderr_bytes : Z;
  stdout_omitted : Z;
  stderr_omitted : Z;
  cleanup_warning : option string;
  finalization_failure : option ExecutionFinalizationFailure;
  artifact_count : Z;
  res_sandbox : option SandboxResult;
  res_resources : option ResourceResult;
}.

(** ** Events *)

Record EventMetadata := { fields : list (string * string) }.

(** [EventMetadata::validate] *)
Definition EventMetadata_validate (m : EventMetadata) : result ValidationError unit :=
  if (MAX_METADATA_COUNT <? len (fields m))%Z then Err (TooMany "event metadata" MAX_METADATA_COUNT)
  else if existsb (fun kv => (MAX_METADATA_KEY_BYTES <? str_len kv.1)%Z
                          || (MAX_METADATA_VALUE_BYTES <? str_len kv.2)%Z) (fields m)
  then Err (OutOfRange "event metadata")
  else Ok tt.

Inductive ExecutionEventKind : Type :=
| EvState (s : ExecutionState)
| EvStdout (v : bytes)
| EvStderr (v : bytes)
| EvDiagnostic (v : string).

Record ExecutionEvent := {
  sequence : Z;
  kind : ExecutionEventKind;
  ev_metadata : EventMetadata;
}.

Definition payload_len (k : ExecutionEventKind) : Z :=
  match k with
  | EvStdout v | EvStderr v => len v
  | EvDiagnostic v => str_len v
  | EvState _ => 0
  end.

(** [ExecutionEvent::validate] *)
Definition ExecutionEvent_validate (e : ExecutionEvent) : result ValidationError unit :=
  EventMetadata_validate (ev_metadata e) ;?
  if (MAX_EVENT_CHUNK_BYTES <? payload_len (kind e))%Z
  then Err (TooLong "event payload" MAX_EVENT_CHUNK_BYTES)
  else Ok tt.

(** ** Snapshots *)

Record ExecutionSnapshot := {
  snap_schema_version : Z;
  execution_id : string;
  generation : Z;
  snap_state : ExecutionState;
  snap_result : option ExecutionResult;
}.

(** ** Node capabilities *)

Definition MAX_CAPABILITIES : Z := 256.

Record ProtocolVersion := { major : Z; minor : Z }.
Record ProtocolVersionRange := { pv_min : ProtocolVersion; pv_max : ProtocolVersion }.

(** The derived lexicographic order on [ProtocolVersion]. *)
Definition version_gt (a b : ProtocolVersion) : bool :=
  ((major b <? major a) || ((major a =? major b) && (minor b <? minor a)))%Z.

Record NodeCapabilities := {
  protocol : ProtocolVersionRange;
  features : list string;
  max_active_executions : Z;
}.

(** [NodeCapabilities::validate] *)
Definition NodeCapabilities_validate (c : NodeCapabilities) : result ValidationError unit :=
  if version_gt (pv_min (protocol c)) (pv_max (protocol c))
  then Err (OutOfRange "protocol version range")
  else if (MAX_CAPABILITIES <? len (features c))%Z then Err (TooMany "capabilities" MAX_CAPABILITIES)
  else if existsb (fun f => is_empty f || (MAX_METADATA_VALUE_BYTES <? str_len f)%Z || contains_nul f)
            (features c)
  then Err (OutOfRange "capability")
  else Ok tt.

(** ** Reference encodings *)

Definition state_code (s : ExecutionState) : Z :=
  match s with
  | Accepted => 0 | Preparing => 1 | Running => 2 | Cancelling => 3 | Succeeded => 4
  | Failed => 5 | Cancelled => 6 | TimedOut => 7 | Interrupted => 8
  end.

Definition state_of_code (z : Z) : ExecutionState :=
  match z with
  | 0 => Accepted | 1 => Preparing | 2 => Running | 3 => Cancelling | 4 => Succeeded
  | 5 => Failed | 6 => Cancelled | 7 => TimedOut | _ => Interrupted
  end%Z.

#[export] Instance ExecutionState_tree : Tree ExecutionState.
Proof. refine (via_tree state_code state_of_code _). by intros []. Defined.

Definition failure_code (s : ExecutionFailure) : Z :=
  match s with
  | FailSpawn => 0 | FailInternal => 1 | FailOutputLimit => 2 | FailSandbox => 3
  | FailResourceLimit => 4 | FailInterrupted => 5 | FailLeaseExpired => 6
  end.

Definition failure_of_code (z : Z) : ExecutionFailure :=
  match z with
  | 0 => FailSpawn | 1 => FailInternal | 2 => FailOutputLimit | 3 => FailSandbox
  | 4 => FailResourceLimit | 5 => FailInterrupted | _ => FailLeaseExpired
  end%Z.

#[export] Instance ExecutionFailure_tree : Tree ExecutionFailure.
Proof. refine (via_tree failure_code failure_of_code _). by intros []. Defined.

#[export] Instance SandboxResult_tree : Tree SandboxResult.
Proof.
  refine (via_tree (fun r => match r with
      | SandboxNotRequested => (0, EmptyString) | SandboxNotApplied s => (1, s)
      | SandboxApplied s => (2, s) | SandboxFailed s => (3, s) end%Z)
    (fun '(t, s) => match t with
      | 0 => SandboxNotRequested | 1 => SandboxNotApplied s | 2 => SandboxApplied s
      | _ => SandboxFailed s end%Z) _).
  by intros [].
Defined.

#[export] Instance ResourceDimensionResult_tree : Tree ResourceDimensionResult.
Proof.
  refine (via_tree (fun r => match r with
      | DimNotRequested => (0, EmptyString) | DimNotApplied s => (1, s)
      | DimApplied s => (2, s) | DimLimitExceeded s => (3, s) end%Z)
    (fun '(t, s) => match t with
      | 0 => DimNotRequested | 1 => DimNotApplied s | 2 => DimApplied s
      | _ => DimLimitExceeded s end%Z) _).
  by intros [].
Defined.

#[export] Instance ResourceResult_tree : Tree ResourceResult.
Proof.
  refine (via_tree (fun r => (rr_memory_bytes r, rr_cpu_millis r, rr_pids r))
    (fun '(a, b, c) => Build_ResourceResult a b c) _).
  by intros [].
Defined.

#[export] Instance ExecutionFinalizationFailure_tree : Tree ExecutionFinalizationFailure.
Proof.
  refine (via_tree (fun f => match f with ArtifactCapture => false | Retention => true end)
    (fun b : bool => if b then Retention else ArtifactCapture) _).
  by intros [].
Defined.

#[export] Instance ExecutionResult_tree : Tree ExecutionResult.
Proof.
  refine (via_tree (fun r => (res_state r, exit_code r, failure r, stdout_bytes r, stderr_bytes r,
      stdout_omitted r, stderr_omitted r, cleanup_warning r, finalization_failure r, artifact_count r,
      res_sandbox r, res_resources r))
    (fun '(a, b, c, d, e, f, g, h, i, j, k, l) => Build_ExecutionResult a b c d e f g h i j k l) _).
  by intros [].
Defined.

#[export] Instance EventMetadata_tree : Tree EventMetadata.
Proof. refine (via_tree fields Build_EventMetadata _). by intros []. Defined.

#[export] Instance ExecutionEventKind_tree : Tree ExecutionEventKind.
Proof.
  refine (via_tree (fun k => match k with
      | EvState s => inl (inl s) | EvStdout v => inl (inr v)
      | EvStderr v => inr (inl v) | EvDiagnostic s => inr (inr s) end)
    (fun t => match t with
      | inl (inl s) => EvState s | inl (inr v) => EvStdout v
      | inr (inl v) => EvStderr v | inr (inr s) => EvDiagnostic s end) _).
  by intros [].
Defined.

#[export] Instance ExecutionEvent_tree : Tree ExecutionEvent.
Proof.
  refine (via_tree (fun e => (sequence e, kind e, ev_metadata e))
    (fun '(a, b, c) => Build_ExecutionEvent a b c) _).
  by intros [].
Defined.

#[export] Instance ExecutionSnapshot_tree : Tree ExecutionSnapshot.
Proof.
  refine (via_tree (fun s => (snap_schema_version s, execution_id s, generation s, snap_state s, snap_result s))
    (fun '(a, b, c, d, e) => Build_ExecutionSnapshot a b c d e) _).
  by intros [].
Defined.
