(* ===== verification/Store.v ===== *)
(** * The execution store

    [eggwork-server/src/store.rs]: the SQLite journal of executions and their
    events.  A table is what its primary key makes of it: [executions] is a
    finite map from (execution id, generation) to the other columns,
    [execution_events] the list of its rows in insertion order, [node_metrics]
    a finite map from name to value.

    Every operation is one transaction: [transaction] runs the body on the
    database and keeps its effect only when the body returns [Ok]; an [Err],
    from the body or from the engine ([fault]), rolls back, as dropping an
    uncommitted [rusqlite::Transaction] does.  Columns of SQL type INTEGER are
    [i64]; values of [unix_millis()] are arguments.

    The second half of the file proves what every reachable database satisfies
    and what each operation does to it. *)

From Stdlib Require Import Ascii String ZArith Lia.
From stdpp Require Import base gmap strings list sorting fin_maps.
From S2P Require Import Prelude Ids Wire Spec Events.

Definition MAX_EVENT_BYTES : Z := 512 * 1024.
Definition MAX_RETAINED_EVENTS : Z := 256.
Definition MAX_RETAINED_EVENT_BYTES : Z := MAX_EVENT_BYTES.
Definition MAX_EXECUTION_IDENTITIES : Z := 2048.

Inductive StoreError : Type :=
| Sql
| Json
| Worker
| InvalidEvent.

(** ** Tables *)

Record ExecutionRow := {
  canonical_version : Z;
  digest : string;
  principal_id : string;
  lease_token_hash : string;
  lease_expires_unix_ms : Z;
  last_renewal_id : option string;
  state : string;
  next_sequence : Z;
  snapshot_json : bytes;
  created_unix_ms : Z;
  updated_unix_ms : Z;
}.

Record EventRow := {
  ev_execution_id : string;
  ev_generation : Z;
  ev_sequence : Z;
  encoded : bytes;
}.

Record Db := {
  executions : gmap (string * Z) ExecutionRow;
  execution_events : list EventRow;
  node_metrics : gmap string Z;
}.

Definition empty_db : Db := {| executions := ∅; execution_events := []; node_metrics := ∅ |}.

Definition set_executions (f : gmap (string * Z) ExecutionRow -> gmap (string * Z) ExecutionRow) (db : Db) : Db :=
  {| executions := f (executions db); execution_events := execution_events db; node_metrics := node_metrics db |}.
Definition set_events (f : list EventRow -> list EventRow) (db : Db) : Db :=
  {| executions := executions db; execution_events := f (execution_events db); node_metrics := node_metrics db |}.
Definition set_metrics (f : gmap string Z -> gmap string Z) (db : Db) : Db :=
  {| executions := executions db; execution_events := execution_events db; node_metrics := f (node_metrics db) |}.

(** [x + 1] on an [i64] (release arithmetic). *)
Definition i64_succ (x : Z) : Z := if (x =? I64_MAX)%Z then (- I64_MAX - 1)%Z else (x + 1)%Z.

Inductive ReserveResult : Type :=
| Created
| Existing (s : ExecutionSnapshot)
| Conflict
| StaleGeneration
| StorageFull.

Record ExistingExecution := {
  ex_canonical_version : Z;
  ex_digest : string;
  ex_principal_id : string;
  ex_lease_token_hash : string;
  ex_snapshot : ExecutionSnapshot;
}.

Record EventPage := {
  page_base_sequence : Z;
  page_next_sequence : Z;
  page_events : list ExecutionEvent;
}.

(** [state_name] *)
Definition state_name (s : ExecutionState) : string :=
  match s with
  | Accepted => "Accepted"
  | Preparing => "Preparing"
  | Running => "Running"
  | Cancelling => "Cancelling"
  | Succeeded => "Succeeded"
  | Failed => "Failed"
  | Cancelled => "Cancelled"
  | TimedOut => "TimedOut"
  | Interrupted => "Interrupted"
  end.

Definition in_names (s : string) (l : list string) : bool := existsb (String.eqb s) l.

(** [is_terminal_name] *)
Definition is_terminal_name (s : string) : bool :=
  in_names s ["Succeeded"; "Failed"; "Cancelled"; "TimedOut"; "Interrupted"].

(** [lease_hash] *)
Definition lease_hash `{Sha256} (lease : string) : string := sha256_hex (literal lease).

(** Run a transaction: commit on [Ok], roll back on [Err].  [fault] is an error
    of the database engine ([Sql]) or of the worker thread ([Worker]) that
    strikes while it runs. *)
Definition transaction {A} (fault : option StoreError) (body : Db -> result StoreError (A * Db)) (db : Db)
    : result StoreError A * Db :=
  match fault with
  | Some e => (Err e, db)
  | None =>
      match body db with
      | Ok (a, db') => (Ok a, db')
      | Err e => (Err e, db)
      end
  end.

(** [... ORDER BY generation DESC LIMIT 1] among the rows that satisfy [p]. *)
Definition newer (a b : (string * Z) * ExecutionRow) : (string * Z) * ExecutionRow :=
  if (a.1.2 <? b.1.2)%Z then b else a.

Definition latest_where (p : string -> ExecutionRow -> bool) (db : Db) : option ((string * Z) * ExecutionRow) :=
  foldr (fun kv acc =>
    if p kv.1.1 kv.2 then Some (match acc with None => kv | Some b => newer kv b end) else acc)
    None (map_to_list (executions db)).

Definition of_execution (id : string) (generation : Z) (r : EventRow) : bool :=
  String.eqb (ev_execution_id r) id && (ev_generation r =? generation)%Z.

(** The rows of one execution generation. *)
Definition journal (id : string) (generation : Z) (l : list EventRow) : list EventRow :=
  filter (fun r => of_execution id generation r = true) l.

(** [SELECT MIN(sequence)], NULL on no rows. *)
Definition min_sequence (l : list EventRow) : option Z :=
  foldr (fun r acc => Some (match acc with None => ev_sequence r | Some m => Z.min (ev_sequence r) m end)) None l.

Definition total_bytes (l : list EventRow) : Z := sum_Z ((fun r => len (encoded r)) <$> l).

(** [trim_events]: the loop of [DELETE ... WHERE sequence = (SELECT MIN ...)].
    Each round that does not leave the loop deletes a row. *)
Fixpoint trim_events (fuel : nat) (id : string) (generation : Z) (l : list EventRow) : list EventRow :=
  match fuel with
  | O => l
  | S fuel =>
      let mine := journal id generation l in
      if (len mine <=? MAX_RETAINED_EVENTS)%Z && (total_bytes mine <=? MAX_RETAINED_EVENT_BYTES)%Z then l
      else
        trim_events fuel id generation
          (filter (fun r => ~ (of_execution id generation r = true
                               /\ min_sequence mine = Some (ev_sequence r))) l)
  end.

(** [INSERT INTO execution_events]: primary-key and foreign-key constraints. *)
Definition insert_event (r : EventRow) (db : Db) : result StoreError Db :=
  if existsb (fun x => of_execution (ev_execution_id r) (ev_generation r) x && (ev_sequence x =? ev_sequence r)%Z)
       (execution_events db)
  then Err Sql
  else match executions db !! (ev_execution_id r, ev_generation r) with
       | None => Err Sql
       | Some _ => Ok (set_events (fun l => l ++ [r]) db)
       end.

Definition trim (id : string) (generation : Z) (db : Db) : Db :=
  set_events (fun l => trim_events (S (length l)) id generation l) db.

Definition update_row (k : string * Z) (f : ExecutionRow -> ExecutionRow) (db : Db) : Db :=
  set_executions (alter f k) db.

(** [UPDATE executions SET state, next_sequence, snapshot_json, updated_unix_ms]. *)
Definition set_progress (st : string) (seq : Z) (snap : bytes) (now : Z) (r : ExecutionRow) : ExecutionRow :=
  {| canonical_version := canonical_version r; digest := digest r; principal_id := principal_id r;
     lease_token_hash := lease_token_hash r; lease_expires_unix_ms := lease_expires_unix_ms r;
     last_renewal_id := last_renewal_id r; state := st; next_sequence := seq; snapshot_json := snap;
     created_unix_ms := created_unix_ms r; updated_unix_ms := now |}.

(** [UPDATE executions SET lease_expires_unix_ms, last_renewal_id, updated_unix_ms]. *)
Definition set_lease (expires : Z) (renewal_id : string) (now : Z) (r : ExecutionRow) : ExecutionRow :=
  {| canonical_version := canonical_version r; digest := digest r; principal_id := principal_id r;
     lease_token_hash := lease_token_hash r; lease_expires_unix_ms := expires;
     last_renewal_id := Some renewal_id; state := state r; next_sequence := next_sequence r;
     snapshot_json := snapshot_json r; created_unix_ms := created_unix_ms r; updated_unix_ms := now |}.

Section operations.
Context `{Serde ExecutionSnapshot, Serde ExecutionEvent}.

Definition encode_snapshot (s : ExecutionSnapshot) : result StoreError bytes := ok_or (to_vec s) Json.
Definition decode_snapshot (b : bytes) : result StoreError ExecutionSnapshot := ok_or (from_slice b) Json.

(** The fencing test of [reserve]: a new generation is 1, or one more than the
    latest generation once that is terminal. *)
Definition stale_generation (id : string) (generation : Z) (db : Db) : bool :=
  match latest_where (fun i _ => String.eqb i id) db with
  | None => negb (generation =? 1)%Z
  | Some ((_, latest_generation), latest) =>
      negb (generation =? i64_succ latest_generation)%Z || negb (is_terminal_name (state latest))
  end.

(** [ExecutionStore::reserve] *)
Definition reserve_body (snapshot : ExecutionSnapshot) (canonical_version' : Z)
    (digest' principal_id' lease_token_hash' : string) (lease_expires : Z) (now : Z) (db : Db)
    : result StoreError (ReserveResult * Db) :=
  let id := execution_id snapshot in
  let generation := as_i64 (generation snapshot) in
  match executions db !! (id, generation) with
  | Some row =>
      if (canonical_version row =? canonical_version')%Z
         && String.eqb (digest row) digest'
         && String.eqb (principal_id row) principal_id'
         && String.eqb (lease_token_hash row) lease_token_hash'
      then let? s := decode_snapshot (snapshot_json row) in Ok (Existing s, db)
      else Ok (Conflict, db)
  | None =>
      if stale_generation id generation db then Ok (StaleGeneration, db)
      else if (MAX_EXECUTION_IDENTITIES <=? Z.of_nat (size (executions db)))%Z then Ok (StorageFull, db)
      else
        let? encoded := encode_snapshot snapshot in
        Ok (Created, set_executions <[(id, generation) :=
          {| canonical_version := canonical_version'; digest := digest'; principal_id := principal_id';
             lease_token_hash := lease_token_hash'; lease_expires_unix_ms := lease_expires;
             last_renewal_id := None; state := state_name (snap_state snapshot); next_sequence := 1;
             snapshot_json := encoded; created_unix_ms := now; updated_unix_ms := now |}]> db)
  end.

Definition reserve (fault : option StoreError) (snapshot : ExecutionSnapshot) (cv : Z) (dg pr lh : string) (le now : Z) :=
  transaction fault (reserve_body snapshot cv dg pr lh le now).

(** [ExecutionStore::lookup] *)
Definition lookup (id : string) (generation : Z) (db : Db) : result StoreError (option ExistingExecution) :=
  match executions db !! (id, as_i64 generation) with
  | None => Ok None
  | Some row =>
      let? s := decode_snapshot (snapshot_json row) in
      Ok (Some {| ex_canonical_version := canonical_version row mod 65536; ex_digest := digest row;
                  ex_principal_id := principal_id row; ex_lease_token_hash := lease_token_hash row;
                  ex_snapshot := s |})
  end.

Definition decode_found (o : option ExecutionRow) : result StoreError (option ExecutionSnapshot) :=
  match o with
  | None => Ok None
  | Some row => let? s := decode_snapshot (snapshot_json row) in Ok (Some s)
  end.

(** [ExecutionStore::load_snapshot_for_principal] *)
Definition load_snapshot_for_principal (id : string) (generation : option Z) (principal : string) (db : Db)
    : result StoreError (option ExecutionSnapshot) :=
  decode_found
    match generation with
    | Some g =>
        match executions db !! (id, as_i64 g) with
        | Some row => if String.eqb (principal_id row) principal then Some row else None
        | None => None
        end
    | None => snd <$> latest_where (fun i row => String.eqb i id && String.eqb (principal_id row) principal) db
    end.

(** [ExecutionStore::load_snapshot] *)
Definition load_snapshot (id : string) (generation : option Z) (db : Db)
    : result StoreError (option ExecutionSnapshot) :=
  decode_found
    match generation with
    | Some g => executions db !! (id, as_i64 g)
    | None => snd <$> latest_where (fun i _ => String.eqb i id) db
    end.

(** [ExecutionStore::commit_event] *)
Definition commit_event_body (snapshot : ExecutionSnapshot) (k : ExecutionEventKind) (now : Z) (db : Db)
    : result StoreError (option ExecutionEvent * Db) :=
  let id := execution_id snapshot in
  let generation := as_i64 (generation snapshot) in
  match executions db !! (id, generation) with
  | None => Ok (None, db)
  | Some row =>
      if is_terminal_name (state row) then Ok (None, db)
      else
        let seq := next_sequence row in
        let event := {| sequence := as_u64 seq; kind := k; ev_metadata := {| fields := [] |} |} in
        map_err (fun _ => InvalidEvent) (ExecutionEvent_validate event) ;?
        let? enc := ok_or (to_vec event) Json in
        if (MAX_RETAINED_EVENT_BYTES <? len enc)%Z then Err InvalidEvent
        else
          let? snap := encode_snapshot snapshot in
          let db := update_row (id, generation)
            (set_progress (state_name (snap_state snapshot)) (i64_succ seq) snap now) db in
          let? db := insert_event {| ev_execution_id := id; ev_generation := generation;
                                     ev_sequence := seq; encoded := enc |} db in
          Ok (Some event, trim id generation db)
  end.

Definition commit_event (fault : option StoreError) (snapshot : ExecutionSnapshot) (k : ExecutionEventKind) (now : Z) :=
  transaction fault (commit_event_body snapshot k now).

(** [ExecutionStore::update_lease]; [now] is read for the expiry test and
    [now'] for the update. *)
Definition update_lease_body (id : string) (generation : Z) (lease_hash renewal_id : string)
    (lease_expires : Z) (now now' : Z) (db : Db) : result StoreError (option Z * Db) :=
  match executions db !! (id, as_i64 generation) with
  | None => Ok (None, db)
  | Some row =>
      if negb (String.eqb (lease_token_hash row) lease_hash)
         || is_terminal_name (state row)
         || (lease_expires_unix_ms row <=? now)%Z
      then Ok (None, db)
      else if decide (last_renewal_id row = Some renewal_id)
      then Ok (Some (lease_expires_unix_ms row), db)
      else
        let expires := Z.max (lease_expires_unix_ms row) lease_expires in
        Ok (Some expires, update_row (id, as_i64 generation) (set_lease expires renewal_id now') db)
  end.

Definition update_lease (fault : option StoreError) (id : string) (generation : Z) (lh rid : string) (le now now' : Z) :=
  transaction fault (update_lease_body id generation lh rid le now now').

Fixpoint decode_events (l : list EventRow) : result StoreError (list ExecutionEvent) :=
  match l with
  | [] => Ok []
  | r :: l =>
      let? e := ok_or (from_slice (encoded r)) Json in
      let? es := decode_events l in
      Ok (e :: es)
  end.

(** [ExecutionStore::load_page] *)
Definition load_page (id : string) (generation : Z) (after_sequence : Z) (db : Db)
    : result StoreError (option EventPage) :=
  let g := as_i64 generation in
  match executions db !! (id, g) with
  | None => Ok None
  | Some row =>
      let mine := journal id g (execution_events db) in
      let base_sequence := as_u64 (Z.max (default (next_sequence row) (min_sequence mine)) 1) in
      if (sat_add after_sequence 1 <? base_sequence)%Z
      then Ok (Some {| page_base_sequence := base_sequence;
                       page_next_sequence := as_u64 (next_sequence row); page_events := [] |})
      else
        let? events := decode_events (sort_by (cmp_on ev_sequence Z.compare)
          (filter (fun r => as_i64 after_sequence < ev_sequence r)%Z mine)) in
        Ok (Some {| page_base_sequence := base_sequence;
                    page_next_sequence := as_u64 (next_sequence row); page_events := events |})
  end.

Fixpoint decode_snapshots (l : list bytes) : result StoreError (list ExecutionSnapshot) :=
  match l with
  | [] => Ok []
  | b :: l => let? s := decode_snapshot b in let? ss := decode_snapshots l in Ok (s :: ss)
  end.

Definition cmp_key : (string * Z) * ExecutionRow -> (string * Z) * ExecutionRow -> comparison :=
  fun a b => then_with (cmp_on (fun kv => kv.1.1) str_cmp a b) (cmp_on (fun kv => kv.1.2) Z.compare a b).

(** [ExecutionStore::load_all] *)
Definition load_all (db : Db) : result StoreError (list ExecutionSnapshot) :=
  decode_snapshots ((fun kv => snapshot_json kv.2) <$> sort_by cmp_key (map_to_list (executions db))).

(** [ExecutionStore::increment_metrics] *)
Definition increment_one (m : gmap string Z) (d : string * Z) : gmap string Z :=
  let amount := as_i64 (Z.min d.2 I64_MAX) in
  <[d.1 := match m !! d.1 with
           | None => amount
           | Some v => if (I64_MAX - amount <? v)%Z then I64_MAX else (v + amount)%Z
           end]> m.

Definition increment_metrics (fault : option StoreError) (deltas : list (string * Z)) (db : Db) : result StoreError unit * Db :=
  if existsb (fun d => is_empty d.1 || (64 <? str_len d.1)%Z) deltas then (Err InvalidEvent, db)
  else match deltas with
       | [] => (Ok tt, db)
       | _ => transaction fault (fun db => Ok (tt, set_metrics (fun m => foldl increment_one m deltas) db)) db
       end.

Definition interrupted_result : ExecutionResult :=
  {| res_state := Interrupted; exit_code := None; failure := Some FailInterrupted;
     stdout_bytes := 0; stderr_bytes := 0; stdout_omitted := 0; stderr_omitted := 0;
     cleanup_warning := None; finalization_failure := None; artifact_count := 0;
     res_sandbox := None; res_resources := None |}.

Definition interrupted (s : ExecutionSnapshot) : ExecutionSnapshot :=
  {| snap_schema_version := snap_schema_version s; execution_id := execution_id s;
     generation := generation s; snap_state := Interrupted; snap_result := Some interrupted_result |}.

Definition live_name (s : string) : bool := in_names s ["Accepted"; "Preparing"; "Running"; "Cancelling"].

(** [SELECT ... WHERE state IN ('Accepted', ...)]: without ORDER BY, so in some
    order of these rows. *)
Definition live_rows (db : Db) : list ((string * Z) * ExecutionRow) :=
  filter (fun kv => live_name (state kv.2) = true) (map_to_list (executions db)).

(** One round of the loop of [ExecutionStore::recover]. *)
Definition recover_one (now : Z) (db : Db) (s : ExecutionSnapshot) : result StoreError Db :=
  let snapshot := interrupted s in
  let id := execution_id snapshot in
  let g := as_i64 (generation snapshot) in
  match executions db !! (id, g) with
  | None => Err Sql
  | Some row =>
      let seq := next_sequence row in
      let event := {| sequence := as_u64 seq; kind := EvState Interrupted; ev_metadata := {| fields := [] |} |} in
      let? snap := encode_snapshot snapshot in
      let db := update_row (id, g) (set_progress "Interrupted" (i64_succ seq) snap now) db in
      let? enc := ok_or (to_vec event) Json in
      let? db := insert_event {| ev_execution_id := id; ev_generation := g;
                                 ev_sequence := seq; encoded := enc |} db in
      Ok (trim id g db)
  end.

(** [ExecutionStore::recover], for the order in which SQLite lists the live
    rows. *)
Definition recover_body (rows : list ((string * Z) * ExecutionRow)) (now : Z) (db : Db)
    : result StoreError (list ExecutionSnapshot * Db) :=
  let? snapshots := decode_snapshots ((fun kv => snapshot_json kv.2) <$> rows) in
  let? db := try_fold (recover_one now) db snapshots in
  Ok (interrupted <$> snapshots, db).

Definition recover (fault : option StoreError) (rows : list ((string * Z) * ExecutionRow)) (now : Z) :=
  transaction fault (recover_body rows now).
End operations.

(** ** Journals and trimming *)

Lemma of_execution_spec id g r :
  of_execution id g r = true <-> ev_execution_id r = id /\ ev_generation r = g.
Proof. unfold of_execution. by rewrite andb_true_iff, String.eqb_eq, Z.eqb_eq. Qed.

Lemma elem_of_journal id g l r :
  r ∈ journal id g l <-> r ∈ l /\ ev_execution_id r = id /\ ev_generation r = g.
Proof. unfold journal. rewrite list_elem_of_filter, of_execution_spec. naive_solver. Qed.

Lemma journal_app id g l k : journal id g (l ++ k) = journal id g l ++ journal id g k.
Proof. apply filter_app. Qed.

Lemma journal_single id g r :
  journal id g [r] = if decide ((ev_execution_id r, ev_generation r) = (id, g)) then [r] else [].
Proof.
  unfold journal. rewrite filter_cons, filter_nil.
  destruct (decide (of_execution id g r = true)) as [H|H]; rewrite of_execution_spec in H;
    destruct (decide _) as [[= ? ?]|]; naive_solver.
Qed.

(** Consecutive sequence numbers from [base]. *)
Definition consecutive (base : Z) (l : list EventRow) : Prop :=
  ev_sequence <$> l = seqZ base (len l).

Lemma consecutive_cons base r l :
  consecutive base (r :: l) <-> ev_sequence r = base /\ consecutive (Z.succ base) l.
Proof.
  unfold consecutive, len. rewrite fmap_cons, seqZ_cons by (simpl; lia).
  replace (Z.pred (Z.of_nat (length (r :: l)))) with (Z.of_nat (length l)) by (simpl; lia).
  split; [by intros [= -> ->]|by intros [-> ->]].
Qed.

Lemma consecutive_snoc base r l :
  consecutive base (l ++ [r]) <-> ev_sequence r = (base + len l)%Z /\ consecutive base l.
Proof.
  unfold consecutive, len. rewrite fmap_app, length_app, Nat.add_1_r, seqZ_S. split.
  - by intros [E1 E2]%app_inj_tail.
  - intros [E1 ->]. simpl. by rewrite E1.
Qed.

Lemma consecutive_drop base l n :
  consecutive base l -> consecutive (base + Z.of_nat (n `min` length l)) (drop n l).
Proof.
  revert base n. induction l as [|r l IH]; intros base [|n]; simpl; rewrite ?drop_0, ?drop_nil.
  - by rewrite Z.add_0_r.
  - by rewrite Z.add_0_r.
  - by rewrite Z.add_0_r.
  - intros [_ H]%consecutive_cons. apply (IH _ n) in H. by replace (base + Z.of_nat (S (n `min` length l)))%Z
      with (Z.succ base + Z.of_nat (n `min` length l))%Z by lia.
Qed.

Lemma consecutive_bounds base l r :
  consecutive base l -> r ∈ l -> (base <= ev_sequence r < base + len l)%Z.
Proof.
  intros H Hr. apply (list_elem_of_fmap_2 ev_sequence) in Hr. rewrite H in Hr.
  by apply elem_of_seqZ in Hr.
Qed.

Lemma consecutive_min base l :
  consecutive base l -> min_sequence l = match l with [] => None | _ => Some base end.
Proof.
  revert base. induction l as [|r l IH]; intros base; [done|].
  intros [<- Hl]%consecutive_cons. simpl. rewrite (IH _ Hl). destruct l; f_equal; lia.
Qed.

(** The retention bounds. *)
Definition fits (l : list EventRow) : Prop :=
  (len l <= MAX_RETAINED_EVENTS)%Z /\ (total_bytes l <= MAX_RETAINED_EVENT_BYTES)%Z.

Lemma fits_bool l :
  (len l <=? MAX_RETAINED_EVENTS)%Z && (total_bytes l <=? MAX_RETAINED_EVENT_BYTES)%Z = true <-> fits l.
Proof. unfold fits. by rewrite andb_true_iff, !Z.leb_le. Qed.

Lemma fits_nil : fits [].
Proof. split; done. Qed.

(** Deleting the row with the least sequence drops the head of the journal. *)
Lemma journal_delete_min id g l r J base :
  journal id g l = r :: J -> consecutive base (r :: J) ->
  journal id g (filter (fun x => ~ (of_execution id g x = true
    /\ min_sequence (journal id g l) = Some (ev_sequence x))) l) = J.
Proof.
  intros HJ Hc. rewrite HJ, (consecutive_min base) by done.
  set (Q := fun x => _). unfold journal in *.
  assert (forall k, filter (fun r => of_execution id g r = true) (filter Q k)
                  = filter Q (filter (fun r => of_execution id g r = true) k)) as ->.
  { intros k. rewrite !list_filter_filter. apply list_filter_iff. naive_solver. }
  rewrite HJ. assert (forall x, x ∈ r :: J -> of_execution id g x = true) as Hof.
  { intros x Hx. rewrite <- HJ in Hx. by apply list_elem_of_filter in Hx as [? _]. }
  apply consecutive_cons in Hc as [Hr Hc]. rewrite filter_cons_False.
  - apply filter_all. intros x Hx [_ [= E]].
    apply (consecutive_bounds _ _ _ Hc) in Hx. lia.
  - intros HQ. apply HQ. split; [apply Hof; by left|by rewrite Hr].
Qed.

Lemma journal_delete_other id g id' g' l m :
  (id', g') <> (id, g) ->
  journal id' g' (filter (fun x => ~ (of_execution id g x = true /\ m = Some (ev_sequence x))) l)
  = journal id' g' l.
Proof.
  intros Hne. unfold journal. rewrite list_filter_filter. apply list_filter_iff.
  intros x. rewrite !of_execution_spec. naive_solver.
Qed.

(** The loop ends with the longest suffix of the journal that fits; the fuel
    never runs out. *)
Lemma trim_events_spec fuel id g l base :
  consecutive base (journal id g l) -> length (journal id g l) < fuel ->
  exists k, journal id g (trim_events fuel id g l) = drop k (journal id g l)
    /\ k <= length (journal id g l) /\ fits (drop k (journal id g l))
    /\ (forall j, j < k -> ~ fits (drop j (journal id g l))).
Proof.
  revert l base. induction fuel as [|fuel IH]; intros l base Hc Hf; [lia|]. cbn [trim_events].
  destruct (_ && _) eqn:E.
  - apply fits_bool in E. exists 0. split_and!; [done|lia|done|lia].
  - assert (~ fits (journal id g l)) as Hno by (rewrite <- fits_bool; congruence).
    destruct (journal id g l) as [|r J] eqn:EJ; [by destruct Hno; apply fits_nil|].
    assert (Hd := journal_delete_min id g l r J base EJ Hc). rewrite EJ in Hd. simpl in Hf.
    destruct (IH (filter (fun x => ~ (of_execution id g x = true
      /\ min_sequence (r :: J) = Some (ev_sequence x))) l) (Z.succ base)) as (k & Hk & Hle & Hfit & Hmin).
    { rewrite Hd. by apply consecutive_cons in Hc as [_ ?]. }
    { rewrite Hd. lia. }
    rewrite Hd in *. exists (S k). split_and!; [done|simpl; lia|done|].
    intros [|j] Hj; [done|]. apply Hmin. lia.
Qed.

Lemma trim_events_other fuel id g id' g' l :
  (id', g') <> (id, g) -> journal id' g' (trim_events fuel id g l) = journal id' g' l.
Proof.
  intros Hne. revert l. induction fuel as [|fuel IH]; intros l; simpl; [done|].
  case_match; [done|]. by rewrite IH, journal_delete_other.
Qed.

Lemma trim_events_subset fuel id g l r : r ∈ trim_events fuel id g l -> r ∈ l.
Proof.
  revert l. induction fuel as [|fuel IH]; intros l; simpl; [done|].
  case_match; [done|]. by intros [_ ?]%IH%list_elem_of_filter.
Qed.

Lemma journal_length id g l : length (journal id g l) <= length l.
Proof. apply length_filter. Qed.

(** ** The invariant of the store *)

Section invariant.
Context `{Serde ExecutionSnapshot, Serde ExecutionEvent}.

(** The stored snapshot is the row's own, and agrees with its state column. *)
Definition snapshot_inv (k : string * Z) (row : ExecutionRow) : Prop :=
  exists s, to_vec s = Some (snapshot_json row) /\ execution_id s = k.1 /\ u64_range (generation s)
    /\ as_i64 (generation s) = k.2 /\ state row = state_name (snap_state s).

(** A journal row holds the event with its sequence number. *)
Definition event_inv (r : EventRow) : Prop :=
  exists e, to_vec e = Some (encoded r) /\ sequence e = ev_sequence r.

(** The journal of a row: the newest events, consecutive up to the next
    sequence number, within the retention bounds. *)
Record journal_inv (next : Z) (J : list EventRow) : Prop := {
  j_base : consecutive (next - len J) J;
  j_pos : (1 <= next - len J)%Z;
  j_fits : fits J;
  j_events : Forall event_inv J;
}.

(** [m] bounds the sequence numbers handed out so far. *)
Record DbInv (m : Z) (db : Db) : Prop := {
  i_snapshot k row : executions db !! k = Some row -> snapshot_inv k row;
  i_sequence k row : executions db !! k = Some row -> (1 <= next_sequence row <= m)%Z;
  i_journal k row : executions db !! k = Some row ->
    journal_inv (next_sequence row) (journal k.1 k.2 (execution_events db));
  i_foreign r : r ∈ execution_events db -> is_Some (executions db !! (ev_execution_id r, ev_generation r));
  i_positive id g : is_Some (executions db !! (id, g)) -> (1 <= g)%Z;
  i_fenced id g : is_Some (executions db !! (id, g)) -> (1 < g)%Z ->
    exists row, executions db !! (id, g - 1)%Z = Some row /\ is_terminal_name (state row) = true;
  i_count : (Z.of_nat (size (executions db)) <= MAX_EXECUTION_IDENTITIES)%Z;
  i_metrics : map_Forall (fun _ v => 0 <= v <= I64_MAX)%Z (node_metrics db);
}.

Lemma DbInv_empty : DbInv 1 empty_db.
Proof.
  split; simpl; try (by intros; simplify_map_eq); try done.
  - by intros r ?%not_elem_of_nil.
Qed.

Lemma DbInv_mono m m' db : (m <= m')%Z -> DbInv m db -> DbInv m' db.
Proof. intros Hle []. split; try done. intros k row Hk. apply i_sequence0 in Hk. lia. Qed.

(** Generations are contiguous from 1, so they are bounded by the number of
    rows. *)
Lemma generations_below m db id g g' :
  DbInv m db -> is_Some (executions db !! (id, g)) -> (1 <= g' <= g)%Z -> is_Some (executions db !! (id, g')).
Proof.
  intros HI Hg [H1 H2]. replace g' with (g - Z.of_nat (Z.to_nat (g - g')))%Z by lia.
  assert (Z.to_nat (g - g') <= Z.to_nat (g - 1)) as Hn by lia. revert Hn.
  induction (Z.to_nat (g - g')) as [|n IH]; intros Hn; [by rewrite Z.sub_0_r|].
  destruct (i_fenced _ _ HI id (g - Z.of_nat n)) as (row & Hrow & _); [apply IH; lia|lia|].
  replace (g - Z.of_nat (S n))%Z with (g - Z.of_nat n - 1)%Z by lia. by exists row.
Qed.

Lemma generation_bound m db id g :
  DbInv m db -> is_Some (executions db !! (id, g)) -> (1 <= g <= MAX_EXECUTION_IDENTITIES)%Z.
Proof.
  intros HI Hg. pose proof (i_positive _ _ HI _ _ Hg). split; [done|].
  etrans; [|apply (i_count _ _ HI)]. rewrite <- size_dom.
  set (gens := list_to_set ((fun g => (id, g)) <$> seqZ 1 g) : gset (string * Z)).
  assert (gens ⊆ dom (executions db)) as Hsub.
  { intros k. unfold gens. rewrite elem_of_list_to_set, list_elem_of_fmap.
    intros (g' & -> & Hg'%elem_of_seqZ). apply elem_of_dom. eapply generations_below; [done|done|lia]. }
  apply subseteq_size in Hsub. unfold gens in Hsub.
  rewrite size_list_to_set, length_fmap, length_seqZ in Hsub; [lia|].
  apply NoDup_fmap_2; [by intros ?? [=]|apply NoDup_seqZ].
Qed.

(** A live generation is the newest one of its execution. *)
Lemma live_is_latest m db id g row :
  DbInv m db -> executions db !! (id, g) = Some row -> is_terminal_name (state row) = false ->
  executions db !! (id, g + 1)%Z = None.
Proof.
  intros HI Hrow Hlive. destruct (executions db !! (id, g + 1)%Z) as [row'|] eqn:E; [|done].
  pose proof (i_positive _ _ HI id g ltac:(eauto)).
  destruct (i_fenced _ _ HI id (g + 1)%Z ltac:(eauto) ltac:(lia)) as (row'' & Hr & Ht).
  replace (g + 1 - 1)%Z with g in Hr by lia. congruence.
Qed.

Lemma i64_succ_small x : (x < I64_MAX)%Z -> i64_succ x = (x + 1)%Z.
Proof. unfold i64_succ. case_match; bool_hyps; lia. Qed.

(** ** Appending to a journal *)

(** What [commit_event] and each round of [recover] do to the tables. *)
Definition advanced (id : string) (g : Z) (row : ExecutionRow) (st : string) (snap enc : bytes) (now : Z) (db : Db) : Db :=
  trim id g (set_events (fun l => l ++ [{| ev_execution_id := id; ev_generation := g;
                                           ev_sequence := next_sequence row; encoded := enc |}])
    (update_row (id, g) (set_progress st (i64_succ (next_sequence row)) snap now) db)).

Lemma insert_event_fresh m db id g row enc f :
  DbInv m db -> executions db !! (id, g) = Some row ->
  insert_event {| ev_execution_id := id; ev_generation := g; ev_sequence := next_sequence row; encoded := enc |}
    (update_row (id, g) f db)
  = Ok (set_events (fun l => l ++ [{| ev_execution_id := id; ev_generation := g;
                                      ev_sequence := next_sequence row; encoded := enc |}])
      (update_row (id, g) f db)).
Proof.
  intros HI Hrow. unfold insert_event. simpl. rewrite lookup_alter_eq, Hrow. simpl.
  destruct (existsb _ _) eqn:E; [|done]. exfalso. apply existsb_exists in E as (r & Hr & Ht).
  apply list_elem_of_In in Hr. bool_hyps. apply of_execution_spec in H1 as [? ?].
  destruct (i_journal _ _ HI _ _ Hrow) as [Hc _ _ _]. simpl in Hc.
  assert (r ∈ journal id g (execution_events db)) as Hj by (by apply elem_of_journal).
  apply (consecutive_bounds _ _ _ Hc) in Hj. lia.
Qed.

Lemma journal_append m db id g row enc :
  DbInv m db -> executions db !! (id, g) = Some row ->
  let r := {| ev_execution_id := id; ev_generation := g; ev_sequence := next_sequence row; encoded := enc |} in
  let J := journal id g (execution_events db) in
  journal id g (execution_events db ++ [r]) = J ++ [r]
  /\ consecutive (next_sequence row - len J) (J ++ [r]).
Proof.
  intros HI Hrow r J. destruct (i_journal _ _ HI _ _ Hrow) as [Hc _ _ _]. simpl in Hc. split.
  - by rewrite journal_app, journal_single, decide_True.
  - apply consecutive_snoc. split; [simpl; unfold J; lia|done].
Qed.

(** The journal of the appended execution: the longest suffix that fits. *)
Lemma advanced_journal m db id g row st snap enc now :
  DbInv m db -> executions db !! (id, g) = Some row ->
  let J' := journal id g (execution_events db) ++
    [{| ev_execution_id := id; ev_generation := g; ev_sequence := next_sequence row; encoded := enc |}] in
  exists k, journal id g (execution_events (advanced id g row st snap enc now db)) = drop k J'
    /\ k <= length J' /\ fits (drop k J') /\ (forall j, j < k -> ~ fits (drop j J')).
Proof.
  intros HI Hrow J'. destruct (journal_append m db id g row enc HI Hrow) as [HJ Hc].
  unfold J'. rewrite <- HJ in *. unfold advanced, trim.
  cbn [execution_events set_events update_row set_executions].
  eapply trim_events_spec; [done|]. pose proof (journal_length id g
    (execution_events db ++ [{| ev_execution_id := id; ev_generation := g; ev_sequence := next_sequence row; encoded := enc |}])).
  lia.
Qed.

Lemma advanced_journal_other id g row st snap enc now db id' g' :
  (id', g') <> (id, g) ->
  journal id' g' (execution_events (advanced id g row st snap enc now db)) = journal id' g' (execution_events db).
Proof.
  intros Hne. unfold advanced, trim. cbn [execution_events set_events update_row set_executions].
  rewrite trim_events_other by done. rewrite journal_app, journal_single, decide_False by done.
  apply app_nil_r.
Qed.

Lemma advanced_executions id g row st snap enc now db :
  executions (advanced id g row st snap enc now db)
  = alter (set_progress st (i64_succ (next_sequence row)) snap now) (id, g) (executions db).
Proof. done. Qed.

Lemma journal_inv_advanced m db id g row st snap enc now e :
  DbInv m db -> executions db !! (id, g) = Some row -> to_vec e = Some enc -> sequence e = next_sequence row ->
  journal_inv (next_sequence row + 1) (journal id g (execution_events (advanced id g row st snap enc now db))).
Proof.
  intros HI Hrow He Hs. destruct (advanced_journal m db id g row st snap enc now HI Hrow) as (k & -> & Hk & Hf & _).
  destruct (journal_append m db id g row enc HI Hrow) as [_ Hc].
  destruct (i_journal _ _ HI _ _ Hrow) as [_ Hp _ Hev]. simpl in Hp, Hev.
  set (J := journal id g (execution_events db)) in *. set (r := {| ev_execution_id := id |}) in *.
  assert (next_sequence row + 1 - len (drop k (J ++ [r])) = next_sequence row - len J + Z.of_nat k)%Z as Hb.
  { unfold len in *. rewrite length_drop. rewrite length_app in *. simpl in *. lia. }
  split; [|rewrite Hb; lia|done|].
  - rewrite Hb. apply (consecutive_drop _ _ k) in Hc. by rewrite Nat.min_l in Hc.
  - apply Forall_drop, Forall_app. split; [done|]. apply Forall_singleton. by exists e.
Qed.

Lemma advanced_inv m db row s snap enc now e :
  let id := execution_id s in let g := as_i64 (generation s) in
  DbInv m db -> executions db !! (id, g) = Some row -> is_terminal_name (state row) = false ->
  (next_sequence row < m <= I64_MAX)%Z -> u64_range (generation s) ->
  to_vec s = Some snap -> to_vec e = Some enc -> sequence e = next_sequence row ->
  DbInv m (advanced id g row (state_name (snap_state s)) snap enc now db).
Proof.
  intros id g HI Hrow Hlive Hm Hu Hsnap Henc Hseq.
  set (db' := advanced id g row (state_name (snap_state s)) snap enc now db).
  assert (forall k row', executions db' !! k = Some row' ->
    (k = (id, g) /\ row' = set_progress (state_name (snap_state s)) (next_sequence row + 1) snap now row)
    \/ (k <> (id, g) /\ executions db !! k = Some row')) as Hlook.
  { intros k row'. unfold db'. rewrite advanced_executions, i64_succ_small by lia.
    destruct (decide (k = (id, g))) as [->|Hne].
    - rewrite lookup_alter_eq, Hrow. simpl. intros [= <-]. by left.
    - rewrite lookup_alter_ne by done. by right. }
  assert (forall k, is_Some (executions db' !! k) <-> is_Some (executions db !! k)) as Hsome.
  { intros k. unfold db'. rewrite advanced_executions. apply lookup_alter_is_Some. }
  split.
  - intros k row' [[-> ->]|[_ Hk]]%Hlook; [|by eapply i_snapshot]. by exists s.
  - intros k row' [[-> ->]|[_ Hk]]%Hlook; [|by eapply i_sequence].
    pose proof (i_sequence _ _ HI _ _ Hrow). simpl. lia.
  - intros [id' g'] row' [[Ek ->]|[Hne Hk]]%Hlook.
    + injection Ek as -> ->. by eapply journal_inv_advanced.
    + unfold db'. rewrite advanced_journal_other by done. by apply (i_journal _ _ HI _ _ Hk).
  - intros r Hr. apply Hsome. unfold db', advanced, trim in Hr.
    cbn [execution_events set_events update_row set_executions] in Hr.
    apply trim_events_subset in Hr.
    apply elem_of_app in Hr as [Hr|Hr%list_elem_of_singleton]; [by apply (i_foreign _ _ HI)|subst r; by exists row].
  - intros id' g' Hs%Hsome. by eapply i_positive.
  - intros id' g' Hs%Hsome Hgt. destruct (i_fenced _ _ HI id' g' Hs Hgt) as (r' & Hr' & Ht).
    exists r'. split; [|done]. unfold db'. rewrite advanced_executions, lookup_alter_ne; [done|]. congruence.
  - unfold db'. rewrite advanced_executions. rewrite <- size_dom, dom_alter, size_dom. apply (i_count _ _ HI).
  - apply (i_metrics _ _ HI).
Qed.

(** ** Newest rows *)

Lemma latest_list_spec (p : string -> ExecutionRow -> bool) (l : list ((string * Z) * ExecutionRow)) :
  match foldr (fun kv acc =>
      if p kv.1.1 kv.2 then Some (match acc with None => kv | Some b => newer kv b end) else acc) None l with
  | Some kv => kv ∈ l /\ p kv.1.1 kv.2 = true
      /\ forall kv', kv' ∈ l -> p kv'.1.1 kv'.2 = true -> (kv'.1.2 <= kv.1.2)%Z
  | None => forall kv', kv' ∈ l -> p kv'.1.1 kv'.2 = false
  end.
Proof.
  induction l as [|kv l IH]; simpl; [by intros kv ?%not_elem_of_nil|].
  destruct (foldr _ None l) as [b|].
  - destruct IH as (Hin & Hp & Hmax). destruct (p kv.1.1 kv.2) eqn:Hpk.
    + unfold newer. destruct (Z.ltb_spec kv.1.2 b.1.2).
      * split_and!; [by right|done|]. intros kv' [->|Hin']%elem_of_cons Hp'; [lia|eauto].
      * split_and!; [by left|done|]. intros kv' [->|Hin']%elem_of_cons Hp'; [lia|].
        specialize (Hmax _ Hin' Hp'). lia.
    + split_and!; [by right|done|]. intros kv' [->|Hin']%elem_of_cons Hp'; [congruence|eauto].
  - destruct (p kv.1.1 kv.2) eqn:Hpk.
    + split_and!; [by left|done|]. intros kv' [->|Hin']%elem_of_cons Hp'; [lia|].
      rewrite (IH _ Hin') in Hp'. done.
    + intros kv' [->|Hin']%elem_of_cons; [done|eauto].
Qed.

Lemma latest_where_spec (p : string -> ExecutionRow -> bool) db :
  match latest_where p db with
  | Some (k, row) => executions db !! k = Some row /\ p k.1 row = true
      /\ forall k' row', executions db !! k' = Some row' -> p k'.1 row' = true -> (k'.2 <= k.2)%Z
  | None => forall k' row', executions db !! k' = Some row' -> p k'.1 row' = false
  end.
Proof.
  pose proof (latest_list_spec p (map_to_list (executions db))) as Hl. fold (latest_where p db) in Hl.
  destruct (latest_where p db) as [[k row]|].
  - destruct Hl as (Hin & Hp & Hmax). split_and!; [by apply elem_of_map_to_list|done|].
    intros k' row' Hk. apply (Hmax (k', row')). by apply elem_of_map_to_list.
  - intros k' row' Hk. apply (Hl (k', row')). by apply elem_of_map_to_list.
Qed.

(** The next generation of an execution may be created. *)
Definition fresh_generation (id : string) (g : Z) (db : Db) : Prop :=
  executions db !! (id, g) = None
  /\ if decide (g = 1)%Z then forall g', executions db !! (id, g') = None
     else exists row, executions db !! (id, g - 1)%Z = Some row /\ is_terminal_name (state row) = true.

Lemma stale_spec m db id g :
  DbInv m db -> executions db !! (id, g) = None ->
  stale_generation id g db = false <-> fresh_generation id g db.
Proof.
  intros HI Hnone. unfold fresh_generation, stale_generation.
  pose proof (latest_where_spec (fun i _ => String.eqb i id) db) as Hl.
  destruct (latest_where _ db) as [[[i lg] row]|].
  - destruct Hl as (Hrow & Hi & Hmax). simpl in Hi. apply String.eqb_eq in Hi as ->.
    pose proof (generation_bound _ _ _ _ HI (mk_is_Some _ _ Hrow)) as Hb.
    unfold MAX_EXECUTION_IDENTITIES in Hb. rewrite i64_succ_small by (unfold I64_MAX; lia).
    rewrite orb_false_iff, !negb_false_iff, Z.eqb_eq. split.
    + intros [-> Ht]. split; [done|]. rewrite decide_False by lia. exists row.
      by replace (lg + 1 - 1)%Z with lg by lia.
    + intros [_ Hf]. case_decide as Hg.
      * by rewrite Hf in Hrow.
      * destruct Hf as (row' & Hrow' & Ht). assert (g - 1 <= lg)%Z as Hle.
        { apply (Hmax (id, (g - 1)%Z) row' Hrow'). simpl. apply String.eqb_refl. }
        destruct (decide (g - 1 = lg)%Z) as [<-|Hne].
        { split; [lia|]. congruence. }
        exfalso. destruct (generations_below _ _ id lg g HI (mk_is_Some _ _ Hrow)) as [? ?]; [|congruence].
        pose proof (i_positive _ _ HI _ _ (mk_is_Some _ _ Hrow')). lia.
  - rewrite negb_false_iff, Z.eqb_eq. split.
    + intros ->. split; [done|]. rewrite decide_True by done. intros g'.
      destruct (executions db !! (id, g')) as [row|] eqn:E; [|done].
      apply Hl in E. simpl in E. by rewrite String.eqb_refl in E.
    + intros [_ Hf]. case_decide; [done|]. destruct Hf as (row & Hrow & _).
      apply Hl in Hrow. simpl in Hrow. by rewrite String.eqb_refl in Hrow.
Qed.

(** ** Every operation preserves the invariant *)

Lemma reserve_body_inv m db snapshot cv dg pr lh le now r db' :
  DbInv m db -> (1 <= m)%Z -> u64_range (generation snapshot) ->
  reserve_body snapshot cv dg pr lh le now db = Ok (r, db') -> DbInv m db'.
Proof.
  intros HI Hm Hu. unfold reserve_body, encode_snapshot.
  set (id := execution_id snapshot). set (g := as_i64 (generation snapshot)).
  destruct (executions db !! (id, g)) as [row|] eqn:Hrow.
  { intros Hr. by cases_in Hr. }
  pose proof (stale_spec m db id g HI Hrow) as Hst.
  destruct (stale_generation id g db); [by intros [= <- <-]|].
  destruct (proj1 Hst eq_refl) as [_ Hfresh]. 
  destruct (MAX_EXECUTION_IDENTITIES <=? _)%Z eqn:Hcount; [by intros [= <- <-]|]. bool_hyps.
  destruct (to_vec snapshot) as [enc|] eqn:Henc; [|done]. intros [= <- <-].
  assert (forall k, is_Some (executions db !! k) -> k <> (id, g)) as Hne by (intros k [? ?]; congruence).
  split; simpl.
  - intros k row [[<- <-]|[_ Hk]]%lookup_insert_Some; [|by eapply i_snapshot]. by exists snapshot.
  - intros k row [[<- <-]|[_ Hk]]%lookup_insert_Some; [simpl; lia|by eapply i_sequence].
  - intros k row [[<- <-]|[_ Hk]]%lookup_insert_Some; [|by eapply i_journal]. simpl.
    assert (journal id g (execution_events db) = []) as ->.
    { apply filter_none. intros r Hr [? ?]%of_execution_spec. apply (i_foreign _ _ HI) in Hr as [? Hr].
      subst id g. congruence. }
    split; [done..|apply fits_nil|done].
  - intros r Hr. apply (i_foreign _ _ HI) in Hr as Hs. rewrite lookup_insert_ne; [done|]. symmetry. by apply Hne.
  - intros id' g' [row' [[[= <- <-] _]|[_ Hk]]%lookup_insert_Some]; [|by eapply i_positive; eauto].
    case_decide; [lia|]. destruct Hfresh as (row & Hr & _).
    pose proof (i_positive _ _ HI _ _ (mk_is_Some _ _ Hr)). lia.
  - intros id' g' [row' [[[= <- <-] _]|[_ Hk]]%lookup_insert_Some] Hgt.
    + case_decide; [lia|]. destruct Hfresh as (row & Hr & Ht). exists row. split; [|done].
      rewrite lookup_insert_ne; [done|]. intros [= ?]. lia.
    + destruct (i_fenced _ _ HI id' g' (mk_is_Some _ _ Hk) Hgt) as (row & Hr & Ht). exists row.
      split; [|done]. rewrite lookup_insert_ne; [done|]. symmetry. apply Hne. eauto.
  - rewrite map_size_insert_None by done. unfold MAX_EXECUTION_IDENTITIES in *. lia.
  - apply (i_metrics _ _ HI).
Qed.

(** [commit_event] either leaves the store alone or advances one live row. *)
Lemma commit_event_body_cases m db s k now r db' :
  DbInv m db -> commit_event_body s k now db = Ok (r, db') ->
  let id := execution_id s in let g := as_i64 (generation s) in
  (r = None /\ db' = db
   /\ forall row, executions db !! (id, g) = Some row -> is_terminal_name (state row) = true)
  \/ exists row snap enc,
       let e := {| sequence := next_sequence row; kind := k; ev_metadata := {| fields := [] |} |} in
       executions db !! (id, g) = Some row /\ is_terminal_name (state row) = false
       /\ to_vec s = Some snap /\ to_vec e = Some enc /\ (len enc <= MAX_RETAINED_EVENT_BYTES)%Z
       /\ r = Some e /\ db' = advanced id g row (state_name (snap_state s)) snap enc now db.
Proof.
  intros HI Hc id g. unfold commit_event_body, encode_snapshot in Hc. fold id g in Hc.
  destruct (executions db !! (id, g)) as [row|] eqn:Hrow.
  2:{ injection Hc as <- <-. left. by split_and!. }
  destruct (is_terminal_name (state row)) eqn:Ht.
  { injection Hc as <- <-. left. split_and!; [done..|]. by intros row' [= <-]. }
  right. pose proof (i_sequence _ _ HI _ _ Hrow). rewrite as_u64_nonneg in Hc by lia.
  destruct (ExecutionEvent_validate _); [|done]. simpl in Hc.
  destruct (to_vec {| sequence := next_sequence row |}) as [enc|] eqn:Henc; [|done]. simpl in Hc.
  destruct (MAX_RETAINED_EVENT_BYTES <? len enc)%Z eqn:Hlen; [done|]. apply Z.ltb_ge in Hlen.
  destruct (to_vec s) as [snap|] eqn:Hsnap; [|done]. simpl in Hc.
  rewrite (insert_event_fresh m) in Hc by done. injection Hc as <- <-.
  by exists row, snap, enc.
Qed.

Lemma commit_event_body_inv m db s k now r db' :
  DbInv m db -> (m + 1 <= I64_MAX)%Z -> u64_range (generation s) ->
  commit_event_body s k now db = Ok (r, db') -> DbInv (m + 1) db'.
Proof.
  intros HI Hm Hu Hc. pose proof (DbInv_mono m (m + 1) db ltac:(lia) HI) as HI'.
  destruct (commit_event_body_cases m _ _ _ _ _ _ HI Hc) as [(_ & -> & _)|(row & snap & enc & Hrow & Hl & Hs & He & _ & _ & ->)];
    [done|].
  pose proof (i_sequence _ _ HI _ _ Hrow).
  eapply advanced_inv; [done|done|done|lia|done|done|done|done].
Qed.

Lemma update_lease_body_inv m db id g lh rid le now now' r db' :
  DbInv m db -> update_lease_body id g lh rid le now now' db = Ok (r, db') -> DbInv m db'.
Proof.
  intros HI Hc. unfold update_lease_body in Hc.
  destruct (executions db !! (id, as_i64 g)) as [row|] eqn:Hrow; [|by injection Hc as _ <-].
  case_match; [by injection Hc as _ <-|]. case_decide; [by injection Hc as _ <-|]. injection Hc as _ <-.
  set (f := set_lease _ _ _).
  assert (forall k row', alter f (id, as_i64 g) (executions db) !! k = Some row' ->
    exists row0, executions db !! k = Some row0 /\ snapshot_json row' = snapshot_json row0
      /\ state row' = state row0 /\ next_sequence row' = next_sequence row0) as Hlook.
  { intros k row' Hk. destruct (decide (k = (id, as_i64 g))) as [->|Hne].
    - rewrite lookup_alter_eq, Hrow in Hk. injection Hk as <-. by exists row.
    - rewrite lookup_alter_ne in Hk by done. by exists row'. }
  split; simpl.
  - intros k row' (row0 & Hk & E1 & E2 & E3)%Hlook. apply (i_snapshot _ _ HI) in Hk. unfold snapshot_inv in *.
    by rewrite E1, E2.
  - intros k row' (row0 & Hk & E1 & E2 & E3)%Hlook. apply (i_sequence _ _ HI) in Hk. by rewrite E3.
  - intros k row' (row0 & Hk & E1 & E2 & E3)%Hlook. apply (i_journal _ _ HI) in Hk. by rewrite E3.
  - intros r' Hr. apply lookup_alter_is_Some. by apply (i_foreign _ _ HI).
  - intros id' g' Hs%lookup_alter_is_Some. by eapply i_positive.
  - intros id' g' Hs%lookup_alter_is_Some Hgt. destruct (i_fenced _ _ HI id' g' Hs Hgt) as (r' & Hr' & Ht).
    destruct (decide ((id', g' - 1)%Z = (id, as_i64 g))) as [E|Hne].
    + rewrite E in *. exists (f r'). by rewrite lookup_alter_eq, Hr'.
    + exists r'. by rewrite lookup_alter_ne.
  - rewrite <- size_dom, dom_alter, size_dom. apply (i_count _ _ HI).
  - apply (i_metrics _ _ HI).
Qed.

Lemma increment_one_inv (m : gmap string Z) d :
  (0 <= d.2)%Z -> map_Forall (fun _ v => 0 <= v <= I64_MAX)%Z m ->
  map_Forall (fun _ v => 0 <= v <= I64_MAX)%Z (increment_one m d).
Proof.
  intros Hd Hm. unfold increment_one. rewrite as_i64_small by lia.
  apply map_Forall_insert_2; [|done]. destruct (m !! d.1) as [v|] eqn:E; [|unfold I64_MAX; lia].
  apply Hm in E. case_match; bool_hyps; unfold I64_MAX in *; lia.
Qed.

Lemma increment_all_inv (m : gmap string Z) ds :
  Forall (fun d => 0 <= d.2)%Z ds -> map_Forall (fun _ v => 0 <= v <= I64_MAX)%Z m ->
  map_Forall (fun _ v => 0 <= v <= I64_MAX)%Z (foldl increment_one m ds).
Proof. intros Hd. revert m. induction Hd; simpl; auto using increment_one_inv. Qed.

Lemma set_metrics_inv m db f :
  DbInv m db -> map_Forall (fun _ v => 0 <= v <= I64_MAX)%Z (f (node_metrics db)) -> DbInv m (set_metrics f db).
Proof. intros [] Hf. by split. Qed.

Lemma increment_metrics_inv m db fault deltas :
  DbInv m db -> Forall (fun d => 0 <= d.2)%Z deltas -> DbInv m (increment_metrics fault deltas db).2.
Proof.
  intros HI Hd. unfold increment_metrics. case_match; [done|]. destruct deltas as [|d ds]; [done|].
  destruct fault; [done|]. apply set_metrics_inv; [done|]. by apply increment_all_inv, (i_metrics _ _ HI).
Qed.

(** ** Recovery *)

Definition snapshot_key (s : ExecutionSnapshot) : string * Z := (execution_id s, as_i64 (generation s)).

(** The event recovery appends to a row. *)
Definition interrupted_event (seq : Z) : ExecutionEvent :=
  {| sequence := seq; kind := EvState Interrupted; ev_metadata := {| fields := [] |} |}.

Lemma recover_one_cases m db s row now db' :
  DbInv m db -> executions db !! snapshot_key s = Some row ->
  recover_one now db s = Ok db' <->
  exists snap enc, to_vec (interrupted s) = Some snap /\ to_vec (interrupted_event (next_sequence row)) = Some enc
    /\ db' = advanced (execution_id s) (as_i64 (generation s)) row "Interrupted" snap enc now db.
Proof.
  intros HI Hrow. unfold recover_one, encode_snapshot. cbn [execution_id generation interrupted].
  unfold snapshot_key in Hrow. rewrite Hrow. pose proof (i_sequence _ _ HI _ _ Hrow).
  rewrite as_u64_nonneg by lia. fold (interrupted_event (next_sequence row)).
  destruct (to_vec (interrupted s)) as [snap|]; simpl; [|naive_solver].
  destruct (to_vec (interrupted_event _)) as [enc|]; simpl; [|naive_solver].
  rewrite (insert_event_fresh m) by done. split.
  - intros [= <-]. by exists snap, enc.
  - by intros (? & ? & [= <-] & [= <-] & ->).
Qed.

(** A row as recovery leaves it. *)
Definition recovered_row (now : Z) (s : ExecutionSnapshot) (row row' : ExecutionRow) : Prop :=
  exists snap, to_vec (interrupted s) = Some snap
    /\ row' = set_progress "Interrupted" (next_sequence row + 1) snap now row.

(** One round: only the snapshot's row and journal change. *)
Lemma recover_one_next m db s row now db1 :
  DbInv m db -> (m <= I64_MAX)%Z -> u64_range (generation s) ->
  executions db !! snapshot_key s = Some row -> is_terminal_name (state row) = false -> (next_sequence row < m)%Z ->
  recover_one now db s = Ok db1 ->
  DbInv m db1 /\ node_metrics db1 = node_metrics db
  /\ (forall k, k <> snapshot_key s -> executions db1 !! k = executions db !! k
       /\ journal k.1 k.2 (execution_events db1) = journal k.1 k.2 (execution_events db))
  /\ exists row', executions db1 !! snapshot_key s = Some row' /\ recovered_row now s row row'.
Proof.
  intros HI Hm Hu Hrow Hl Hlt E.
  apply (recover_one_cases m db s row) in E as (snap & enc & Hsnap & Henc & ->); [|done..].
  split_and!; [|done|..].
  - apply (advanced_inv m db row (interrupted s) snap enc now (interrupted_event (next_sequence row)));
      try done; lia.
  - intros k Hk. rewrite advanced_executions, lookup_alter_ne by done. split; [done|].
    apply advanced_journal_other. by destruct k.
  - eexists. split; [|by exists snap]. rewrite advanced_executions, i64_succ_small by lia.
    unfold snapshot_key in *. by rewrite lookup_alter_eq, Hrow.
Qed.

(** The rows of these snapshots are live, with room for one more event. *)
Definition recoverable (m : Z) (db : Db) (ss : list ExecutionSnapshot) : Prop :=
  forall s, s ∈ ss -> u64_range (generation s) /\ exists row, executions db !! snapshot_key s = Some row
    /\ is_terminal_name (state row) = false /\ (next_sequence row < m)%Z.

Lemma recoverable_next m db db1 s ss :
  (forall k, k <> snapshot_key s -> executions db1 !! k = executions db !! k
     /\ journal k.1 k.2 (execution_events db1) = journal k.1 k.2 (execution_events db)) ->
  snapshot_key s ∉ snapshot_key <$> ss -> recoverable m db (s :: ss) -> recoverable m db1 ss.
Proof.
  intros Hex Hn Hr x Hx. destruct (Hex (snapshot_key x)) as [-> _].
  - intros Ex. apply Hn. rewrite <- Ex. by apply list_elem_of_fmap_2.
  - apply Hr. by right.
Qed.

Lemma recover_loop m db ss now db' :
  DbInv m db -> (m <= I64_MAX)%Z -> NoDup (snapshot_key <$> ss) -> recoverable m db ss ->
  try_fold (recover_one now) db ss = Ok db' ->
  DbInv m db' /\ node_metrics db' = node_metrics db
  /\ (forall k, k ∉ snapshot_key <$> ss -> executions db' !! k = executions db !! k
       /\ journal k.1 k.2 (execution_events db') = journal k.1 k.2 (execution_events db))
  /\ (forall s row, s ∈ ss -> executions db !! snapshot_key s = Some row ->
       exists row', executions db' !! snapshot_key s = Some row' /\ recovered_row now s row row').
Proof.
  intros HI Hm Hd. revert db HI. induction ss as [|s ss IH]; intros db HI Hlive Hf.
  { injection Hf as <-. split_and!; try done. by intros s row ?%not_elem_of_nil. }
  cbn [try_fold] in Hf. destruct (recover_one now db s) as [db1|] eqn:E; [|done].
  apply NoDup_cons in Hd as [Hn Hd]. destruct (Hlive s ltac:(by left)) as (Hu & row & Hrow & Hl & Hlt).
  destruct (recover_one_next m db s row now db1) as (HI1 & Hmet1 & Hex & Hs); [done..|].
  destruct (IH Hd db1 HI1) as (HI' & Hmet & Hother & Hrec); [by eapply recoverable_next|done|].
  split_and!; [done|by rewrite Hmet|..].
  - intros k [Hk1 Hk2]%not_elem_of_cons. destruct (Hother k Hk2) as [-> ->]. by apply Hex.
  - intros x xrow [->|Hx]%elem_of_cons Hxrow.
    + rewrite Hrow in Hxrow. injection Hxrow as <-. by destruct (Hother _ Hn) as [-> _].
    + apply Hrec; [done|]. destruct (Hex (snapshot_key x)) as [-> _]; [|done].
      intros Ex. apply Hn. rewrite <- Ex. by apply list_elem_of_fmap_2.
Qed.

Lemma live_not_terminal st : live_name (state_name st) = negb (is_terminal_name (state_name st)).
Proof. by destruct st. Qed.

Lemma row_live m db k row :
  DbInv m db -> executions db !! k = Some row -> live_name (state row) = negb (is_terminal_name (state row)).
Proof. intros HI Hk. destruct (i_snapshot _ _ HI _ _ Hk) as (s & _ & _ & _ & _ & ->). apply live_not_terminal. Qed.

Lemma elem_of_live_rows m db k row :
  DbInv m db -> (k, row) ∈ live_rows db <->
  executions db !! k = Some row /\ is_terminal_name (state row) = false.
Proof.
  intros HI. unfold live_rows. rewrite list_elem_of_filter, elem_of_map_to_list. simpl. split.
  - intros [Hl Hk]. split; [done|]. rewrite (row_live _ _ _ _ HI Hk) in Hl. by apply negb_true_iff in Hl.
  - intros [Hk Hl]. rewrite (row_live _ _ _ _ HI Hk), Hl. done.
Qed.

Lemma live_rows_keys db : NoDup (fst <$> live_rows db).
Proof.
  unfold live_rows. pose proof (NoDup_fst_map_to_list (executions db)) as Hd.
  induction (map_to_list (executions db)) as [|kv l IH]; [constructor|]. apply NoDup_cons in Hd as [Hn Hd].
  rewrite filter_cons. case_decide; [|auto]. csimpl. apply NoDup_cons. split; [|auto].
  intros (kv' & Ek & Hin)%list_elem_of_fmap. apply list_elem_of_filter in Hin as [_ Hin]. apply Hn.
  rewrite Ek. by apply list_elem_of_fmap_2.
Qed.

Context `{!SerdeRoundTrip ExecutionSnapshot}.

(** Decoding stored rows gives the snapshots they were written from. *)
Lemma decode_rows m db rows :
  DbInv m db -> (forall kv, kv ∈ rows -> executions db !! kv.1 = Some kv.2) ->
  exists ss, decode_snapshots ((fun kv => snapshot_json kv.2) <$> rows) = Ok ss
    /\ Forall2 (fun kv s => to_vec s = Some (snapshot_json kv.2) /\ snapshot_key s = kv.1
         /\ u64_range (generation s) /\ state kv.2 = state_name (snap_state s)) rows ss.
Proof.
  intros HI. induction rows as [|[k row] rows IH]; intros Hin; csimpl; [by exists []|].
  destruct IH as (ss & -> & Hss); [intros; apply Hin; by right|].
  destruct (i_snapshot _ _ HI k row (Hin (k, row) ltac:(by left))) as (s & Hs & Hid & Hu & Hg & Hst).
  unfold decode_snapshot. rewrite (from_slice_to_vec _ _ Hs). simpl. exists (s :: ss). split; [done|].
  constructor; [|done]. split_and!; try done. unfold snapshot_key. rewrite Hid, Hg. by destruct k.
Qed.

Lemma Forall2_keys (rows : list ((string * Z) * ExecutionRow)) ss :
  Forall2 (fun kv s => to_vec s = Some (snapshot_json kv.2) /\ snapshot_key s = kv.1
    /\ u64_range (generation s) /\ state kv.2 = state_name (snap_state s)) rows ss ->
  snapshot_key <$> ss = fst <$> rows.
Proof. induction 1 as [|? ? ? ? (_ & E & _)]; csimpl; [done|]. by rewrite E, IHForall2. Qed.

(** The live rows decode to snapshots recovery can process. *)
Lemma live_rows_recoverable m db rows :
  DbInv m db -> rows ≡ₚ live_rows db ->
  exists ss, decode_snapshots ((fun kv => snapshot_json kv.2) <$> rows) = Ok ss
    /\ NoDup (snapshot_key <$> ss) /\ recoverable (m + 1) db ss
    /\ Forall2 (fun kv s => to_vec s = Some (snapshot_json kv.2) /\ snapshot_key s = kv.1
         /\ u64_range (generation s) /\ state kv.2 = state_name (snap_state s)) rows ss.
Proof.
  intros HI Hrows.
  assert (forall kv, kv ∈ rows -> executions db !! kv.1 = Some kv.2 /\ is_terminal_name (state kv.2) = false) as Hin.
  { intros [k row]. rewrite Hrows. by rewrite (elem_of_live_rows m). }
  destruct (decode_rows m db rows HI) as (ss & Hss & Hall); [intros; by apply Hin|].
  exists ss. split_and!; try done.
  - rewrite (Forall2_keys _ _ Hall), Hrows. apply live_rows_keys.
  - intros s Hs. apply list_elem_of_lookup in Hs as [i Hi].
    destruct (Forall2_lookup_r _ _ _ _ _ Hall Hi) as ([k row] & Hkv & Hv & Hk & Hu & Hst).
    apply list_elem_of_lookup_2 in Hkv. destruct (Hin _ Hkv) as [Hrow Hl]. split; [done|].
    exists row. rewrite Hk. split_and!; try done. pose proof (i_sequence _ _ HI _ _ Hrow). simpl in *. lia.
Qed.

(** What [recover] does, for any order in which the live rows are listed. *)
Lemma recover_body_spec m db rows now r db' :
  DbInv m db -> (m + 1 <= I64_MAX)%Z -> rows ≡ₚ live_rows db ->
  recover_body rows now db = Ok (r, db') ->
  DbInv (m + 1) db' /\ node_metrics db' = node_metrics db
  /\ (forall k row, executions db !! k = Some row -> is_terminal_name (state row) = true ->
       executions db' !! k = Some row
       /\ journal k.1 k.2 (execution_events db') = journal k.1 k.2 (execution_events db))
  /\ (forall k, is_Some (executions db' !! k) <-> is_Some (executions db !! k))
  /\ (forall k row, executions db !! k = Some row -> is_terminal_name (state row) = false ->
       exists s row', to_vec s = Some (snapshot_json row) /\ interrupted s ∈ r
         /\ executions db' !! k = Some row' /\ recovered_row now s row row')
  /\ length r = length rows.
Proof.
  intros HI Hm Hrows Hrec. unfold recover_body in Hrec.
  assert (forall kv, kv ∈ rows -> executions db !! kv.1 = Some kv.2 /\ is_terminal_name (state kv.2) = false) as Hin.
  { intros [k row]. rewrite Hrows. by rewrite (elem_of_live_rows m). }
  destruct (live_rows_recoverable m db rows HI Hrows) as (ss & Hss & Hd & Hrb & Hall).
  rewrite Hss in Hrec. destruct (try_fold _ db ss) as [db1|] eqn:Hf; [|done]. injection Hrec as <- <-.
  pose proof (Forall2_keys _ _ Hall) as Hkeys.
  pose proof (DbInv_mono m (m + 1) db ltac:(lia) HI) as HI'.
  destruct (recover_loop (m + 1) db ss now db1) as (HI1 & Hmet & Hother & Hrec); try done.
  assert (forall k row, executions db !! k = Some row -> is_terminal_name (state row) = true ->
    k ∉ snapshot_key <$> ss) as Hterm.
  { intros k row Hk Ht. rewrite Hkeys. intros ([k' row'] & -> & Hkv)%list_elem_of_fmap.
    apply Hin in Hkv as [Hrow' Hl]. simpl in *. congruence. }
  assert (forall k row, executions db !! k = Some row -> is_terminal_name (state row) = false ->
    exists s row', s ∈ ss /\ to_vec s = Some (snapshot_json row)
      /\ executions db1 !! k = Some row' /\ recovered_row now s row row') as Hlive.
  { intros k row Hk Hl. assert ((k, row) ∈ rows) as Hkv by (rewrite Hrows; by apply (elem_of_live_rows m)).
    apply list_elem_of_lookup in Hkv as [i Hi].
    destruct (Forall2_lookup_l _ _ _ _ _ Hall Hi) as (s & Hs & Hv & Hsk & _ & _). simpl in *.
    apply list_elem_of_lookup_2 in Hs. rewrite <- Hsk in Hk.
    destruct (Hrec s row Hs Hk) as (row' & Hrow' & Hr). exists s, row'. by rewrite <- Hsk. }
  split_and!; [done|done|..].
  - intros k row Hk Ht. destruct (Hother k) as [-> ->]; [by eapply Hterm|done].
  - intros k. destruct (executions db !! k) as [row|] eqn:Hk.
    + destruct (is_terminal_name (state row)) eqn:Ht.
      * destruct (Hother k) as [-> _]; [by eapply Hterm|]. by rewrite Hk.
      * destruct (Hlive k row Hk Ht) as (s & row' & _ & _ & -> & _). by split.
    + destruct (Hother k) as [-> _]; [|by rewrite Hk]. rewrite Hkeys.
      intros ([k' row'] & -> & Hkv)%list_elem_of_fmap. apply Hin in Hkv as [? _]. simpl in *. congruence.
  - intros k row Hk Hl. destruct (Hlive k row Hk Hl) as (s & row' & Hs & Hv & Hrow' & Hr).
    exists s, row'. split_and!; try done. by apply list_elem_of_fmap_2.
  - rewrite length_fmap. symmetry. by eapply Forall2_length.
Qed.

(** ** Reachable stores

    A step is one call of a writing operation of the store, faulty or not, with
    arguments of the types the code gives them. *)

Inductive step (db : Db) : Db -> Prop :=
| step_reserve fault snapshot cv dg pr lh le now :
    u64_range (generation snapshot) ->
    step db (reserve fault snapshot cv dg pr lh le now db).2
| step_commit_event fault snapshot k now :
    u64_range (generation snapshot) ->
    step db (commit_event fault snapshot k now db).2
| step_update_lease fault id g lh rid le now now' :
    step db (update_lease fault id g lh rid le now now' db).2
| step_increment_metrics fault deltas :
    Forall (fun d : string * Z => 0 <= d.2)%Z deltas ->
    step db (increment_metrics fault deltas db).2
| step_recover fault rows now :
    rows ≡ₚ live_rows db ->
    step db (recover fault rows now db).2.

(** Databases reachable from the empty one in [n] steps. *)
Inductive reachable : nat -> Db -> Prop :=
| reach_empty : reachable 0 empty_db
| reach_step n db db' : reachable n db -> step db db' -> reachable (S n) db'.

Lemma step_inv m db db' : DbInv m db -> (1 <= m)%Z -> (m + 1 <= I64_MAX)%Z -> step db db' -> DbInv (m + 1) db'.
Proof.
  intros HI Hm1 Hm Hs. pose proof (DbInv_mono m (m + 1) db ltac:(lia) HI) as HI'.
  destruct Hs as [fault snapshot cv dg pr lh le now Hu|fault snapshot k now Hu|fault id g lh rid le now now'
    |fault deltas Hd|fault rows now Hrows].
  - unfold reserve, transaction. destruct fault; [done|]. destruct (reserve_body _ _ _ _ _ _ _ _) as [[]|] eqn:E; [|done].
    eapply (reserve_body_inv (m + 1)); [done|lia|done|done].
  - unfold commit_event, transaction. destruct fault; [done|]. destruct (commit_event_body _ _ _ _) as [[]|] eqn:E; [|done].
    by eapply commit_event_body_inv.
  - unfold update_lease, transaction. destruct fault; [done|].
    destruct (update_lease_body _ _ _ _ _ _ _ _) as [[]|] eqn:E; [|done]. by eapply update_lease_body_inv.
  - by apply increment_metrics_inv.
  - unfold recover, transaction. destruct fault; [done|]. destruct (recover_body _ _ _) as [[]|] eqn:E; [|done].
    by apply (recover_body_spec m) in E as [? _].
Qed.

Lemma reachable_inv n db :
  reachable n db -> (Z.of_nat n < I64_MAX)%Z -> DbInv (Z.of_nat n + 1) db.
Proof.
  induction 1 as [|n db db' Hr IH Hs]; intros Hn; [apply DbInv_empty|].
  replace (Z.of_nat (S n) + 1)%Z with (Z.of_nat n + 1 + 1)%Z by lia.
  eapply step_inv; [apply IH; lia|lia|lia|done].
Qed.

(** C4: every database reachable from the empty one satisfies the journal
    invariant: each row's snapshot is its own and agrees with its state
    column, each journal holds the newest events of its execution with
    consecutive sequence numbers up to the next one and within 256 events and
    512 KiB, no event lacks its execution, the generations of an execution
    are contiguous from 1 with all but the newest terminal, at most 2048 rows
    exist, and counters stay within [i64].  The count of store calls is
    assumed below 2^63, so that sequence numbers do not wrap. *)
Theorem store_reachable_invariant (n : nat) (db : Db) :
  reachable n db -> (Z.of_nat n < I64_MAX)%Z -> DbInv (Z.of_nat n + 1) db.
Proof. apply reachable_inv. Qed.

(** *** Terminal generations are frozen *)

(** The row and its journal are the same in both databases. *)
Definition same_execution (k : string * Z) (db db' : Db) : Prop :=
  executions db' !! k = executions db !! k
  /\ journal k.1 k.2 (execution_events db') = journal k.1 k.2 (execution_events db).

Lemma step_terminal m db db' k row :
  DbInv m db -> (m + 1 <= I64_MAX)%Z -> step db db' ->
  executions db !! k = Some row -> is_terminal_name (state row) = true -> same_execution k db db'.
Proof.
  intros HI Hm Hs Hk Ht. unfold same_execution.
  destruct Hs as [fault snapshot cv dg pr lh le now Hu|fault snapshot ek now Hu|fault id g lh rid le now now'
    |fault deltas Hd|fault rows now Hrows].
  - unfold reserve, transaction. destruct fault; [done|].
    destruct (reserve_body _ _ _ _ _ _ _ _) as [[r db']|] eqn:E; [|done]. unfold reserve_body in E.
    destruct (executions db !! (_, _)) as [row0|] eqn:E0; [by cases_in E|]. cases_in E; [done|done|].
    simpl. split; [|done]. rewrite lookup_insert_ne; [done|]. intros <-. congruence.
  - unfold commit_event, transaction. destruct fault; [done|].
    destruct (commit_event_body _ _ _ _) as [[r db']|] eqn:E; [|done].
    destruct (commit_event_body_cases m _ _ _ _ _ _ HI E)
      as [(_ & -> & _)|(row0 & snap & enc & Hrow & Hl & _ & _ & _ & _ & ->)]; [done|].
    assert (k <> (execution_id snapshot, as_i64 (generation snapshot))) as Hne by congruence.
    cbn [snd]. rewrite advanced_executions, lookup_alter_ne by done. split; [done|].
    apply advanced_journal_other. by destruct k.
  - unfold update_lease, transaction. destruct fault; [done|].
    destruct (update_lease_body _ _ _ _ _ _ _ _) as [[r db']|] eqn:E; [|done]. unfold update_lease_body in E.
    destruct (executions db !! (id, as_i64 g)) as [row0|] eqn:E0; [|by injection E as _ <-].
    destruct (_ || _) eqn:Eg; [by injection E as _ <-|]. case_decide; injection E as _ <-; [done|].
    simpl. split; [|done]. rewrite lookup_alter_ne; [done|]. intros <-. bool_hyps. congruence.
  - unfold increment_metrics, transaction. by repeat case_match.
  - unfold recover, transaction. destruct fault; [done|]. destruct (recover_body _ _ _) as [[]|] eqn:E; [|done].
    apply (recover_body_spec m) in E as (_ & _ & Hterm & _); [|done..]. simpl.
    destruct (Hterm k row Hk Ht) as [-> ->]. done.
Qed.

(** A terminal execution generation is frozen: whatever the store does
    afterwards (events, leases, new generations, recovery, failures), its row
    and its journal stay exactly as they were. *)
Theorem terminal_absorbing (n j : nat) (db db' : Db) (k : string * Z) (row : ExecutionRow) :
  reachable n db -> nsteps step j db db' -> (Z.of_nat n + Z.of_nat j < I64_MAX)%Z ->
  executions db !! k = Some row -> is_terminal_name (state row) = true -> same_execution k db db'.
Proof.
  intros Hr Hs Hn Hk Ht. revert n Hr Hn Hk. induction Hs as [db|j db db1 db2 Hs Hss IH]; intros n Hr Hn Hk; [done|].
  assert (same_execution k db db1) as [E1 E2].
  { eapply step_terminal; [eapply reachable_inv; [done|lia]|lia|done..]. }
  destruct (IH (S n)) as [E3 E4]; [by econstructor|lia|by rewrite E1|].
  split; congruence.
Qed.

(** *** Reservation *)

Context `{!SerdeTotal ExecutionSnapshot}.

Lemma encode_snapshot_total s : exists b, encode_snapshot s = Ok b /\ to_vec s = Some b.
Proof. destruct (to_vec_total s) as [b Hb]. exists b. unfold encode_snapshot. by rewrite Hb. Qed.

(** The row a reservation writes. *)
Definition new_row (cv : Z) (dg pr lh : string) (le now : Z) (s : ExecutionSnapshot) (snap : bytes) : ExecutionRow :=
  {| canonical_version := cv; digest := dg; principal_id := pr; lease_token_hash := lh;
     lease_expires_unix_ms := le; last_renewal_id := None; state := state_name (snap_state s);
     next_sequence := 1; snapshot_json := snap; created_unix_ms := now; updated_unix_ms := now |}.

(** Reservation is exactly-once.  A generation is created exactly when it
    is the next one of its execution (1 for a new execution, one more than a
    terminal newest generation) and fewer than 2048 rows exist; otherwise the
    store is unchanged.  A retry of the creating request, at any later time
    and with any lease expiry, gets the stored snapshot and changes nothing. *)
Theorem reserve_exactly_once (n : nat) (db : Db) (s : ExecutionSnapshot) (cv : Z) (dg pr lh : string) (le now : Z) :
  reachable n db -> (Z.of_nat n < I64_MAX)%Z ->
  let k := snapshot_key s in
  let out := reserve None s cv dg pr lh le now db in
  (out.1 = Ok Created <-> fresh_generation k.1 k.2 db
                          /\ (Z.of_nat (size (executions db)) < MAX_EXECUTION_IDENTITIES)%Z)
  /\ (out.1 <> Ok Created -> out.2 = db)
  /\ (out.1 = Ok Created ->
       (exists snap, to_vec s = Some snap
          /\ out.2 = set_executions <[k := new_row cv dg pr lh le now s snap]> db)
       /\ forall le' now', reserve None s cv dg pr lh le' now' out.2 = (Ok (Existing s), out.2)).
Proof.
  intros Hr Hn k out. pose proof (reachable_inv n db Hr Hn) as HI. unfold out, reserve, transaction, reserve_body.
  change (execution_id s) with k.1. change (as_i64 (generation s)) with k.2. rewrite <- surjective_pairing.
  destruct (encode_snapshot_total s) as (snap & Hsnap & Hv). rewrite Hsnap.
  destruct (executions db !! k) as [row|] eqn:Hk.
  { assert (~ fresh_generation k.1 k.2 db) as Hnf by (intros [? _]; rewrite <- surjective_pairing in *; congruence).
    destruct (_ && _); [destruct (decode_snapshot _)|]; simpl; naive_solver. }
  pose proof (stale_spec _ db k.1 k.2 HI) as Hst. rewrite <- surjective_pairing in Hst. specialize (Hst Hk).
  destruct (stale_generation k.1 k.2 db); [simpl; naive_solver|].
  destruct (MAX_EXECUTION_IDENTITIES <=? _)%Z eqn:Hc; bool_hyps; simpl.
  - split_and!; [|done|done]. split; [done|]. intros [_ ?]. lia.
  - split_and!; [|done|].
    + split; [|done]. intros _. split; [by apply Hst|lia].
    + intros _. split; [by exists snap|]. intros le' now'. rewrite lookup_insert_eq. simpl.
      rewrite Z.eqb_refl, !String.eqb_refl. simpl. unfold decode_snapshot.
      by rewrite (from_slice_to_vec _ _ Hv).
Qed.

(** A request for a generation that exists never writes: it is answered
    with the stored snapshot when canonical version, request digest,
    principal and lease token all match, and with a conflict otherwise. *)
Theorem reserve_identity (n : nat) (db : Db) (s : ExecutionSnapshot) (row : ExecutionRow) (cv : Z)
    (dg pr lh : string) (le now : Z) :
  reachable n db -> (Z.of_nat n < I64_MAX)%Z -> executions db !! snapshot_key s = Some row ->
  let same := canonical_version row = cv /\ digest row = dg /\ principal_id row = pr /\ lease_token_hash row = lh in
  let out := reserve None s cv dg pr lh le now db in
  out.2 = db
  /\ (same -> exists stored, out.1 = Ok (Existing stored) /\ to_vec stored = Some (snapshot_json row)
               /\ snapshot_key stored = snapshot_key s)
  /\ (~ same -> out.1 = Ok Conflict).
Proof.
  intros Hr Hn Hk same out. pose proof (reachable_inv n db Hr Hn) as HI.
  destruct (i_snapshot _ _ HI _ _ Hk) as (stored & Hv & Hid & _ & Hg & _).
  unfold out, reserve, transaction, reserve_body. unfold snapshot_key in Hk. rewrite Hk.
  destruct (_ && _) eqn:E.
  - unfold decode_snapshot. rewrite (from_slice_to_vec _ _ Hv). simpl. bool_hyps.
    split_and!; [done| |by intros []]. intros _. exists stored. split_and!; try done.
    unfold snapshot_key. by rewrite Hid, Hg.
  - split_and!; [done| |done]. intros (E1 & E2 & E3 & E4). by rewrite E1, E2, E3, E4, Z.eqb_refl, !String.eqb_refl in E.
Qed.

(** *** Reading the journal *)

Lemma consecutive_filter base l a :
  consecutive base l ->
  filter (fun r => a < ev_sequence r)%Z l = drop (Z.to_nat (a + 1 - base)) l.
Proof.
  revert base. induction l as [|r l IH]; intros base Hc; [by rewrite drop_nil|].
  apply consecutive_cons in Hc as Hc'. destruct Hc' as [Hr Hl]. destruct (decide (a < ev_sequence r)%Z) as [Hlt|Hge].
  - replace (Z.to_nat (a + 1 - base)) with 0 by lia. rewrite drop_0. apply filter_all.
    intros x Hx. apply (consecutive_bounds _ _ _ Hc) in Hx. lia.
  - rewrite filter_cons_False by done. rewrite (IH _ Hl).
    replace (Z.to_nat (a + 1 - base)) with (S (Z.to_nat (a + 1 - Z.succ base))) by lia. done.
Qed.

#[local] Instance sequence_order : CmpOrder (cmp_on ev_sequence Z.compare).
Proof.
  unfold cmp_on. split; [intros; apply Z.compare_antisym|].
  intros x y z. rewrite !Z.compare_ngt_iff. lia.
Qed.

Lemma consecutive_sorted base l : consecutive base l -> sort_by (cmp_on ev_sequence Z.compare) l = l.
Proof.
  intros Hc. apply sort_by_id. revert base Hc. induction l as [|r l IH]; intros base Hc; constructor.
  - apply consecutive_cons in Hc as [_ Hc]. eauto.
  - apply Forall_forall. intros x Hx. apply consecutive_cons in Hc as [Hr Hc].
    apply (consecutive_bounds _ _ _ Hc) in Hx. unfold cmp_on. rewrite Z.compare_ngt_iff. lia.
Qed.

Context `{!SerdeRoundTrip ExecutionEvent}.

Lemma decode_events_ok l :
  Forall event_inv l ->
  exists es, decode_events l = Ok es /\ Forall2 (fun r e => to_vec e = Some (encoded r)) l es
    /\ sequence <$> es = ev_sequence <$> l.
Proof.
  induction 1 as [|r l (e & He & Hs) Hl IH]; [by exists []|].
  destruct IH as (es & Hes & H2 & Hseq). simpl. rewrite (from_slice_to_vec _ _ He), Hes. simpl.
  exists (e :: es). split_and!; [done|by constructor|]. csimpl. by rewrite Hs, Hseq.
Qed.

Lemma page_base next J :
  journal_inv next J -> as_u64 (Z.max (default next (min_sequence J)) 1) = (next - len J)%Z.
Proof.
  intros [Hc Hp _ _]. rewrite (consecutive_min _ _ Hc). destruct J as [|r J].
  - simpl in *. rewrite as_u64_nonneg by lia. unfold len in *. simpl in *. lia.
  - simpl. rewrite as_u64_nonneg by lia. lia.
Qed.

(** What [load_page] returns, in terms of the journal. *)
Lemma load_page_spec m db id g after row :
  DbInv m db -> executions db !! (id, as_i64 g) = Some row -> (0 <= after <= I64_MAX)%Z ->
  let J := journal id (as_i64 g) (execution_events db) in
  let base := (next_sequence row - len J)%Z in
  exists es, load_page id g after db = Ok (Some {| page_base_sequence := base;
      page_next_sequence := next_sequence row; page_events := es |})
    /\ Forall2 (fun r e => to_vec e = Some (encoded r))
         (if (after + 1 <? base)%Z then [] else drop (Z.to_nat (after + 1 - base)) J) es
    /\ sequence <$> es = if (after + 1 <? base)%Z then []
                         else seqZ (after + 1) (next_sequence row - (after + 1)).
Proof.
  intros HI Hrow Ha J base. pose proof (i_journal _ _ HI _ _ Hrow) as HJ. simpl in HJ. fold J in HJ.
  pose proof (i_sequence _ _ HI _ _ Hrow). unfold load_page. rewrite Hrow. fold J.
  rewrite (page_base _ _ HJ). fold base. rewrite as_u64_nonneg by lia.
  rewrite sat_add_small by (unfold U64_MAX, I64_MAX in *; lia). destruct HJ as [Hc Hp _ Hev]. fold base in Hc, Hp.
  destruct (after + 1 <? base)%Z eqn:E; bool_hyps.
  { exists []. split_and!; [done|constructor|done]. }
  rewrite as_i64_small by lia. rewrite (consecutive_filter _ _ _ Hc).
  pose proof (consecutive_drop _ _ (Z.to_nat (after + 1 - base)) Hc) as Hd.
  rewrite (consecutive_sorted _ _ Hd).
  destruct (decode_events_ok (drop (Z.to_nat (after + 1 - base)) J)) as (es & -> & H2 & Hs).
  { by apply Forall_drop. }
  exists es. split_and!; [done|done|]. rewrite Hs, Hd. unfold len in *. rewrite length_drop.
  destruct (decide (after + 1 < next_sequence row)%Z).
  - f_equal; lia.
  - rewrite !seqZ_nil by lia. done.
Qed.

(** Reading the journal is gap-free.  For a cursor the handlers let
    through (at most [i64::MAX]) a page holds exactly the events after the
    cursor, in order and up to the newest, or, when the oldest of them has
    been trimmed, no events and a base sequence that tells the caller so. *)
Theorem load_page_gapless (n : nat) (db : Db) (id : string) (g after : Z) (row : ExecutionRow) :
  reachable n db -> (Z.of_nat n < I64_MAX)%Z -> executions db !! (id, as_i64 g) = Some row ->
  (0 <= after <= I64_MAX)%Z ->
  exists p, load_page id g after db = Ok (Some p)
    /\ page_next_sequence p = next_sequence row
    /\ (1 <= page_base_sequence p <= page_next_sequence p)%Z
    /\ sequence <$> page_events p =
       if (after + 1 <? page_base_sequence p)%Z then []
       else seqZ (after + 1) (page_next_sequence p - (after + 1)).
Proof.
  intros Hr Hn Hrow Ha. pose proof (reachable_inv n db Hr Hn) as HI.
  destruct (load_page_spec _ db id g after row HI Hrow Ha) as (es & Hp & _ & Hs).
  eexists. split; [exact Hp|]. destruct (i_journal _ _ HI _ _ Hrow) as [_ Hpos _ _]. simpl in *.
  split_and!; [done|done|unfold len; lia|done].
Qed.

(** The event just appended is what a reader at the previous cursor gets. *)
Lemma advanced_page m m' db id gen row st snap enc now e :
  let g := as_i64 gen in let db' := advanced id g row st snap enc now db in
  DbInv m db -> DbInv m' db' -> executions db !! (id, g) = Some row -> (next_sequence row < I64_MAX)%Z ->
  to_vec e = Some enc -> (len enc <= MAX_RETAINED_EVENT_BYTES)%Z -> sequence e = next_sequence row ->
  exists p, load_page id gen (next_sequence row - 1) db' = Ok (Some p) /\ page_events p = [e].
Proof.
  intros g db' HI HI' Hrow Hlt He Hlen Hseq. pose proof (i_sequence _ _ HI _ _ Hrow).
  destruct (advanced_journal m db id g row st snap enc now HI Hrow) as (j & HJ & Hj & _ & Hmin).
  fold db' in HJ. set (J := journal id g (execution_events db)) in *. set (r := {| ev_execution_id := id |}) in *.
  assert (j <= length J) as HjJ.
  { rewrite length_app in Hj. simpl in Hj. destruct (decide (j <= length J)); [done|]. exfalso.
    apply (Hmin (length J)); [lia|]. rewrite drop_app_length. split; [done|].
    unfold total_bytes, sum_Z, MAX_RETAINED_EVENT_BYTES in *. simpl. lia. }
  destruct (load_page_spec m' db' id gen (next_sequence row - 1)
    (set_progress st (next_sequence row + 1) snap now row)) as (es & Hp & H2 & _); [done| |lia|].
  { unfold db'. rewrite advanced_executions, i64_succ_small by lia. fold g. by rewrite lookup_alter_eq, Hrow. }
  eexists. split; [exact Hp|]. cbn [page_events next_sequence set_progress] in *. fold g in H2.
  rewrite HJ, drop_app_le in H2 by done. unfold len in H2. rewrite length_app, length_drop in H2. simpl in H2.
  rewrite (proj2 (Z.ltb_ge _ _)) in H2 by lia.
  replace (Z.to_nat _) with (length (drop j J)) in H2 by (rewrite length_drop; lia).
  rewrite drop_app_length in H2. inversion H2 as [|? x ? ? He2 H3]; subst. inversion H3; subst.
  simpl in He2. f_equal. by eapply to_vec_inj.
Qed.

(** Committing an event is durable and ordered.  An event accepted by
    [commit_event] gets the row's next sequence number, is the last entry of
    the journal the readers see (retention never drops the event just
    written), the row takes the snapshot's state, and no other execution is
    touched. *)
Theorem commit_event_durable (n : nat) (db db' : Db) (s : ExecutionSnapshot) (k : ExecutionEventKind) (now : Z)
    (e : ExecutionEvent) :
  reachable n db -> (Z.of_nat n + 1 < I64_MAX)%Z -> u64_range (generation s) ->
  commit_event None s k now db = (Ok (Some e), db') ->
  exists row snap,
    executions db !! snapshot_key s = Some row /\ is_terminal_name (state row) = false
    /\ e = {| sequence := next_sequence row; kind := k; ev_metadata := {| fields := [] |} |}
    /\ to_vec s = Some snap
    /\ executions db' = <[snapshot_key s :=
         set_progress (state_name (snap_state s)) (next_sequence row + 1) snap now row]> (executions db)
    /\ (exists p, load_page (execution_id s) (generation s) (next_sequence row - 1) db' = Ok (Some p)
         /\ page_events p = [e])
    /\ (forall k', k' <> snapshot_key s -> same_execution k' db db').
Proof.
  intros Hr Hn Hu Hc. assert (DbInv (Z.of_nat n + 1) db) as HI by (apply (reachable_inv n); [done|lia]).
  unfold commit_event, transaction in Hc. destruct (commit_event_body s k now db) as [[r d]|] eqn:E; [|done].
  injection Hc as -> ->.
  pose proof (commit_event_body_inv _ _ _ _ _ _ _ HI ltac:(lia) Hu E) as HI'.
  destruct (commit_event_body_cases _ _ _ _ _ _ _ HI E)
    as [(? & _ & _)|(row & snap & enc & Hrow & Hl & Hs & He & Hlen & [= ->] & Hdb)]; [done|].
  pose proof (i_sequence _ _ HI _ _ Hrow) as Hseq. exists row, snap.
  assert (executions db' = <[snapshot_key s :=
    set_progress (state_name (snap_state s)) (next_sequence row + 1) snap now row]> (executions db)) as Hex.
  { rewrite Hdb, advanced_executions, i64_succ_small by lia. by apply alter_as_insert. }
  split_and!; try done.
  - rewrite Hdb in HI' |- *. eapply advanced_page; [exact HI|exact HI'|done|lia|done|done|done].
  - intros k' Hne. split.
    + by rewrite Hex, lookup_insert_ne.
    + rewrite Hdb. apply advanced_journal_other. by destruct k'.
Qed.

(** *** Leases *)

(** A lease renewal succeeds exactly for the holder of the token of a live
    generation whose lease has not expired.  It never shortens the lease, and
    repeating a renewal with the same renewal id (while the lease lasts)
    answers the same expiry without changing the store; a refused renewal
    changes nothing. *)
Theorem lease_renewal (db db' : Db) (id : string) (g : Z) (lh rid : string) (le now now' : Z) (r : option Z) :
  update_lease None id g lh rid le now now' db = (Ok r, db') ->
  (is_Some r <-> exists row, executions db !! (id, as_i64 g) = Some row /\ lease_token_hash row = lh
                 /\ is_terminal_name (state row) = false /\ (now < lease_expires_unix_ms row)%Z)
  /\ (r = None -> db' = db)
  /\ (forall expires, r = Some expires ->
       (exists row row', executions db !! (id, as_i64 g) = Some row /\ executions db' !! (id, as_i64 g) = Some row'
          /\ lease_expires_unix_ms row' = expires /\ (lease_expires_unix_ms row <= expires)%Z
          /\ state row' = state row /\ snapshot_json row' = snapshot_json row)
       /\ forall le2 now2 now2', (now2 < expires)%Z ->
            update_lease None id g lh rid le2 now2 now2' db' = (Ok (Some expires), db')).
Proof.
  unfold update_lease, transaction, update_lease_body.
  destruct (executions db !! (id, as_i64 g)) as [row|] eqn:Hrow.
  2:{ intros [= <- <-]. split_and!; try done. split; [by intros []|naive_solver]. }
  destruct (_ || _) eqn:Eg.
  { intros [= <- <-]. split_and!; try done. split; [by intros []|].
    intros (row' & [= <-] & <- & Ht & Hlt). rewrite String.eqb_refl, Ht in Eg. simpl in Eg. bool_hyps. lia. }
  bool_hyps. assert (is_Some (Some 0%Z) <-> exists row0, Some row = Some row0 /\ lease_token_hash row0 = lh
    /\ is_terminal_name (state row0) = false /\ (now < lease_expires_unix_ms row0)%Z) as Hgrant.
  { split; [|by eexists]. intros _. by exists row. }
  case_decide as Hid; intros [= <- <-].
  - split_and!; [naive_solver|done|]. intros expires [= <-]. split.
    + by exists row, row.
    + intros le2 now2 now2' Hlt. rewrite Hrow.
      rewrite (proj2 (String.eqb_eq _ _)) by done. rewrite H3, (proj2 (Z.leb_gt _ _)) by lia. simpl.
      by rewrite decide_True.
  - split_and!; [naive_solver|done|]. intros expires [= <-]. split.
    + exists row. eexists. split_and!; [done|simpl; by rewrite lookup_alter_eq, Hrow|done|simpl; lia|done|done].
    + intros le2 now2 now2' Hlt. simpl. rewrite lookup_alter_eq, Hrow. simpl.
      rewrite (proj2 (String.eqb_eq _ _)) by done. rewrite H3, (proj2 (Z.leb_gt _ _)) by lia. simpl.
      by rewrite decide_True.
Qed.

(** *** Observation *)

(** An execution is visible to its principal only: a foreign generation
    reads exactly as a missing one, and the owner reads the stored snapshot. *)
Theorem observe_fenced_by_principal (n : nat) (db : Db) (id : string) (g : Z) (pr : string) :
  reachable n db -> (Z.of_nat n < I64_MAX)%Z ->
  match executions db !! (id, as_i64 g) with
  | Some row =>
      if decide (principal_id row = pr)
      then exists s, load_snapshot_for_principal id (Some g) pr db = Ok (Some s)
             /\ to_vec s = Some (snapshot_json row) /\ snapshot_key s = (id, as_i64 g)
      else load_snapshot_for_principal id (Some g) pr db = Ok None
  | None => load_snapshot_for_principal id (Some g) pr db = Ok None
  end.
Proof.
  intros Hr Hn. pose proof (reachable_inv n db Hr Hn) as HI. unfold load_snapshot_for_principal.
  destruct (executions db !! (id, as_i64 g)) as [row|] eqn:Hrow; [|done].
  destruct (i_snapshot _ _ HI _ _ Hrow) as (s & Hv & Hid & _ & Hg & _). simpl in *. case_decide as Hp.
  - rewrite (proj2 (String.eqb_eq _ _)) by done. simpl. unfold decode_snapshot.
    rewrite (from_slice_to_vec _ _ Hv). exists s. split_and!; try done. unfold snapshot_key. by rewrite Hid, Hg.
  - by rewrite (proj2 (String.eqb_neq _ _)).
Qed.

(** *** Counters *)

Definition sum_for (name : string) (deltas : list (string * Z)) : Z :=
  sum_Z (snd <$> filter (fun d => d.1 = name) deltas).

Lemma increment_one_lookup (m : gmap string Z) d name v :
  (0 <= d.2)%Z -> default 0%Z (m !! name) = v -> (0 <= v <= I64_MAX)%Z ->
  default 0%Z (increment_one m d !! name)
  = if decide (d.1 = name) then Z.min (v + d.2) I64_MAX else v.
Proof.
  intros Hd Hv Hr. unfold increment_one. rewrite as_i64_small by lia. case_decide as En.
  - subst name. rewrite lookup_insert_eq. destruct (m !! d.1) as [x|]; simpl in *; subst.
    + case_match; bool_hyps; lia.
    + lia.
  - by rewrite lookup_insert_ne.
Qed.

(** Counters never lose or wrap: after a batch of increments each counter
    holds its old value plus everything added to it, clipped at the largest
    [i64]. *)
Theorem metrics_saturate (n : nat) (db db' : Db) (deltas : list (string * Z)) (name : string) :
  reachable n db -> (Z.of_nat n < I64_MAX)%Z -> Forall (fun d => 0 <= d.2)%Z deltas ->
  increment_metrics None deltas db = (Ok tt, db') ->
  default 0%Z (node_metrics db' !! name)
  = Z.min (default 0%Z (node_metrics db !! name) + sum_for name deltas) I64_MAX.
Proof.
  intros Hr Hn Hd Hi. pose proof (i_metrics _ _ (reachable_inv n db Hr Hn)) as Hm. clear Hr Hn.
  unfold increment_metrics in Hi. case_match; [done|].
  assert (node_metrics db' = foldl increment_one (node_metrics db) deltas) as ->.
  { destruct deltas; by simplify_eq/=. }
  clear Hi H1. revert Hm. generalize (node_metrics db). induction Hd as [|d ds Hd Hds IH]; intros m Hm.
  - unfold sum_for, sum_Z. simpl. destruct (m !! name) as [v|] eqn:E; simpl; [apply Hm in E; lia|unfold I64_MAX; lia].
  - simpl. rewrite IH by (by apply increment_one_inv).
    assert (0 <= default 0 (m !! name) <= I64_MAX)%Z as Hv.
    { destruct (m !! name) as [v|] eqn:E; simpl; [by apply Hm in E|unfold I64_MAX; lia]. }
    rewrite (increment_one_lookup m d name _ Hd eq_refl Hv). unfold sum_for. rewrite filter_cons.
    assert (0 <= sum_Z (snd <$> filter (fun d => d.1 = name) ds))%Z.
    { apply sum_Z_nonneg, Forall_fmap, Forall_forall. intros x [_ Hx]%list_elem_of_filter.
      rewrite Forall_forall in Hds. by apply Hds. }
    case_decide; rewrite ?fmap_cons, ?sum_Z_cons; lia.
Qed.

(** *** Recovery after a restart *)

Context `{!SerdeTotal ExecutionEvent}.

Lemma recover_loop_total m db ss now :
  DbInv m db -> (m <= I64_MAX)%Z -> NoDup (snapshot_key <$> ss) -> recoverable m db ss ->
  exists db', try_fold (recover_one now) db ss = Ok db'.
Proof.
  intros HI Hm Hd. revert db HI. induction ss as [|s ss IH]; intros db HI Hlive; [by eexists|].
  apply NoDup_cons in Hd as [Hn Hd]. destruct (Hlive s ltac:(by left)) as (Hu & row & Hrow & Hl & Hlt).
  destruct (to_vec_total (interrupted s)) as [snap Hsnap].
  destruct (to_vec_total (interrupted_event (next_sequence row))) as [enc Henc].
  pose proof (proj2 (recover_one_cases m db s row now _ HI Hrow)
    (ex_intro _ snap (ex_intro _ enc (conj Hsnap (conj Henc eq_refl))))) as E.
  cbn [try_fold]. rewrite E. destruct (recover_one_next m db s row now _ HI Hm Hu Hrow Hl Hlt E) as (HI1 & _ & Hex & _).
  apply IH; [done|done|]. by eapply recoverable_next.
Qed.

Lemma recover_body_total m db rows now :
  DbInv m db -> (m + 1 <= I64_MAX)%Z -> rows ≡ₚ live_rows db -> exists r db', recover_body rows now db = Ok (r, db').
Proof.
  intros HI Hm Hrows. destruct (live_rows_recoverable m db rows HI Hrows) as (ss & Hss & Hd & Hr & _).
  destruct (recover_loop_total (m + 1) db ss now) as [db' Hdb'];
    [by eapply DbInv_mono; [|done]; lia|done|done|done|].
  exists (interrupted <$> ss), db'. unfold recover_body. by rewrite Hss, Hdb'.
Qed.

(** Recovery always succeeds on a healthy database and leaves nothing
    running: every live generation becomes [Interrupted] with one more event
    and a snapshot that says so, terminal generations are untouched, the
    reported snapshots are exactly the interrupted ones, and a second recovery
    finds nothing to do.  This holds for every order in which SQLite may list
    the live rows. *)
Theorem recover_settles_everything (n : nat) (db : Db) (rows : list ((string * Z) * ExecutionRow)) (now : Z) :
  reachable n db -> (Z.of_nat n + 1 < I64_MAX)%Z -> rows ≡ₚ live_rows db ->
  exists r db', recover None rows now db = (Ok r, db')
    /\ length r = length rows
    /\ (forall k row, executions db !! k = Some row ->
         exists row', executions db' !! k = Some row' /\ is_terminal_name (state row') = true
           /\ if is_terminal_name (state row) then row' = row
              else exists s, to_vec s = Some (snapshot_json row) /\ interrupted s ∈ r /\ recovered_row now s row row')
    /\ live_rows db' = [] /\ (forall now', recover None [] now' db' = (Ok [], db')).
Proof.
  intros Hr Hn Hrows. assert (DbInv (Z.of_nat n + 1) db) as HI by (apply reachable_inv; [done|lia]).
  destruct (recover_body_total _ db rows now HI ltac:(lia) Hrows) as (r & db' & E).
  destruct (recover_body_spec _ db rows now r db' HI ltac:(lia) Hrows E) as (HI' & _ & Hterm & Hdom & Hlive & Hlen).
  assert (forall k row, executions db !! k = Some row ->
    exists row', executions db' !! k = Some row' /\ is_terminal_name (state row') = true
      /\ if is_terminal_name (state row) then row' = row
         else exists s, to_vec s = Some (snapshot_json row) /\ interrupted s ∈ r /\ recovered_row now s row row') as Hall.
  { intros k row Hk. destruct (is_terminal_name (state row)) eqn:Ht.
    - exists row. destruct (Hterm k row Hk Ht) as [-> _]. by split_and!.
    - destruct (Hlive k row Hk Ht) as (s & row' & Hs & Hin & Hrow' & Hrec). exists row'. split_and!; [done| |eauto].
      destruct Hrec as (snap & _ & ->). done. }
  exists r, db'. split_and!; [|done|done| |done].
  - unfold recover, transaction. by rewrite E.
  - apply filter_none. intros [k row] Hin%elem_of_map_to_list Hl. simpl in Hl.
    rewrite (row_live _ _ _ _ HI' Hin) in Hl.
    destruct (proj1 (Hdom k)) as [row0 Hrow0]; [by eexists|].
    destruct (Hall k row0 Hrow0) as (row' & Hrow' & Ht & _). rewrite Hin in Hrow'. injection Hrow' as ->.
    by rewrite Ht in Hl.
Qed.
End invariant.

(** ** Concrete runs *)

Module Run.
#[export] Instance snapshot_serde : Serde ExecutionSnapshot := tree_serde.
#[export] Instance event_serde : Serde ExecutionEvent := tree_serde.
#[export] Instance snapshot_roundtrip : SerdeRoundTrip ExecutionSnapshot := tree_serde_roundtrip.
#[export] Instance event_roundtrip : SerdeRoundTrip ExecutionEvent := tree_serde_roundtrip.
#[export] Instance snapshot_total : SerdeTotal ExecutionSnapshot := tree_serde_total.
#[export] Instance event_total : SerdeTotal ExecutionEvent := tree_serde_total.

Definition snap (g : Z) (st : ExecutionState) : ExecutionSnapshot :=
  {| snap_schema_version := 1; execution_id := "exec-1"; generation := g; snap_state := st; snap_result := None |}.

Definition db_reserved : Db := (reserve None (snap 1 Accepted) 2 zeros "alice" "hash" 5000 10 empty_db).2.
Definition db_running : Db := (commit_event None (snap 1 Running) (EvStdout [Byte.x68; Byte.x69]) 11 db_reserved).2.
Definition db_done : Db := (commit_event None (snap 1 Succeeded) (EvState Succeeded) 12 db_running).2.
Definition db_retry : Db := (reserve None (snap 2 Accepted) 2 zeros "alice" "hash2" 9000 13 db_done).2.

Lemma snap_range g st : (0 <= g <= 10)%Z -> u64_range (generation (snap g st)).
Proof. unfold u64_range, U64_MAX. simpl. lia. Qed.

Lemma reach_reserved : reachable 1 db_reserved.
Proof. eapply reach_step; [apply reach_empty|]. by apply step_reserve, snap_range. Qed.
Lemma reach_running : reachable 2 db_running.
Proof. eapply reach_step; [apply reach_reserved|]. by apply step_commit_event, snap_range. Qed.
Lemma reach_done : reachable 3 db_done.
Proof. eapply reach_step; [apply reach_running|]. by apply step_commit_event, snap_range. Qed.
Lemma reach_retry : reachable 4 db_retry.
Proof. eapply reach_step; [apply reach_done|]. by apply step_reserve, snap_range. Qed.
End Run.
Import Run.

Lemma store_reachable_invariant_witness : DbInv (Z.of_nat 4 + 1) db_retry.
Proof. apply (store_reachable_invariant 4 db_retry reach_retry). reflexivity. Defined.

(** The row of a run's execution, read back. *)
Definition row_at (g : Z) (db : Db) : ExecutionRow :=
  default (new_row 0 EmptyString EmptyString EmptyString 0 0 (snap 1 Accepted) []) (executions db !! ("exec-1", g)).

Lemma terminal_absorbing_witness :
  executions db_done !! ("exec-1", 1%Z) = Some (row_at 1 db_done)
  /\ is_terminal_name (state (row_at 1 db_done)) = true
  /\ same_execution ("exec-1", 1%Z) db_done db_retry.
Proof.
  assert (executions db_done !! ("exec-1", 1%Z) = Some (row_at 1 db_done)) as Hk by (vm_compute; reflexivity).
  assert (is_terminal_name (state (row_at 1 db_done)) = true) as Ht by (vm_compute; reflexivity).
  split; [exact Hk|]. split; [exact Ht|].
  refine (terminal_absorbing 3 1 db_done db_retry ("exec-1", 1%Z) (row_at 1 db_done) reach_done _ _ Hk Ht).
  - eapply nsteps_l; [|apply nsteps_O]. by apply step_reserve, snap_range.
  - reflexivity.
Defined.

Lemma reserve_exactly_once_witness :
  (reserve None (snap 1 Accepted) 2 zeros "alice" "hash" 5000 10 empty_db).1 = Ok Created
  /\ reserve None (snap 1 Accepted) 2 zeros "alice" "hash" 7777 99 db_reserved = (Ok (Existing (snap 1 Accepted)), db_reserved).
Proof.
  assert ((reserve None (snap 1 Accepted) 2 zeros "alice" "hash" 5000 10 empty_db).1 = Ok Created) as E
    by (vm_compute; reflexivity).
  split; [exact E|].
  exact (proj2 (proj2 (proj2 (reserve_exactly_once 0 empty_db (snap 1 Accepted) 2 zeros "alice" "hash" 5000 10
    reach_empty eq_refl)) E) 7777%Z 99%Z).
Defined.

Lemma reserve_identity_witness :
  let out := reserve None (snap 1 Accepted) 2 zeros "mallory" "hash" 1 1 db_done in
  out.2 = db_done /\ out.1 = Ok Conflict.
Proof.
  assert (executions db_done !! snapshot_key (snap 1 Accepted) = Some (row_at 1 db_done)) as Hk by (vm_compute; reflexivity).
  pose proof (reserve_identity 3 db_done (snap 1 Accepted) (row_at 1 db_done) 2 zeros "mallory" "hash" 1 1
    reach_done eq_refl Hk) as (H1 & _ & H2).
  split; [exact H1|]. apply H2. intros (_ & _ & Hp & _). vm_compute in Hp. discriminate.
Defined.

Lemma load_page_gapless_witness :
  exists p, load_page "exec-1" 1 1 db_done = Ok (Some p) /\ sequence <$> page_events p = [2%Z].
Proof.
  assert (executions db_done !! ("exec-1", as_i64 1) = Some (row_at 1 db_done)) as Hk by (vm_compute; reflexivity).
  destruct (load_page_gapless 3 db_done "exec-1" 1 1 (row_at 1 db_done) reach_done eq_refl Hk
    ltac:(unfold I64_MAX; lia)) as (p & Hp & Hnext & _ & Hs).
  exists p. split; [exact Hp|]. rewrite Hs, Hnext.
  vm_compute in Hp. injection Hp as <-. vm_compute. reflexivity.
Defined.

Lemma commit_event_durable_witness :
  exists e p, commit_event None (snap 1 Running) (EvStdout [Byte.x68; Byte.x69]) 11 db_reserved = (Ok (Some e), db_running)
    /\ load_page "exec-1" 1 0 db_running = Ok (Some p) /\ page_events p = [e].
Proof.
  set (e := {| sequence := 1; kind := EvStdout [Byte.x68; Byte.x69]; ev_metadata := {| fields := [] |} |}).
  assert (commit_event None (snap 1 Running) (EvStdout [Byte.x68; Byte.x69]) 11 db_reserved = (Ok (Some e), db_running)) as E
    by (vm_compute; reflexivity).
  destruct (commit_event_durable 1 db_reserved db_running (snap 1 Running) _ 11 e reach_reserved eq_refl
    (snap_range 1 Running ltac:(lia)) E) as (row & sn & Hrow & _ & _ & _ & _ & (p & Hp & Hev) & _).
  exists e, p. split; [exact E|]. split; [|exact Hev].
  vm_compute in Hrow. injection Hrow as <-. exact Hp.
Defined.

Lemma lease_renewal_witness :
  let out := update_lease None "exec-1" 1 "hash" "renew-1" 6000 20 20 db_running in
  out.1 = Ok (Some 6000%Z)
  /\ update_lease None "exec-1" 1 "hash" "renew-1" 1 30 30 out.2 = (Ok (Some 6000%Z), out.2).
Proof.
  intros out. assert (update_lease None "exec-1" 1 "hash" "renew-1" 6000 20 20 db_running = (Ok (Some 6000%Z), out.2)) as E
    by (vm_compute; reflexivity).
  split; [vm_compute; reflexivity|].
  refine (proj2 (proj2 (proj2 (lease_renewal db_running out.2 "exec-1" 1 "hash" "renew-1" 6000 20 20 _ E)) 6000%Z eq_refl)
    1%Z 30%Z 30%Z _). lia.
Defined.

Lemma observe_fenced_by_principal_witness :
  load_snapshot_for_principal "exec-1" (Some 1%Z) "mallory" db_done = Ok None.
Proof.
  pose proof (observe_fenced_by_principal 3 db_done "exec-1" 1 "mallory" reach_done eq_refl) as H.
  destruct (executions db_done !! ("exec-1", as_i64 1)) as [row|] eqn:E; [|exact H].
  destruct (decide (principal_id row = "mallory")) as [Hp|]; [|exact H].
  exfalso. vm_compute in E. injection E as <-. discriminate Hp.
Defined.

Lemma metrics_saturate_witness :
  let out := increment_metrics None [("runs", 5%Z); ("runs", U64_MAX); ("other", 1%Z)] db_done in
  out.1 = Ok tt /\ default 0%Z (node_metrics out.2 !! "runs") = I64_MAX.
Proof.
  intros out. assert (out.1 = Ok tt) as E by (vm_compute; reflexivity). split; [exact E|].
  rewrite (metrics_saturate 3 db_done out.2 [("runs", 5%Z); ("runs", U64_MAX); ("other", 1%Z)] "runs" reach_done eq_refl).
  - vm_compute. reflexivity.
  - repeat constructor; unfold U64_MAX; simpl; lia.
  - vm_compute. reflexivity.
Defined.

Lemma recover_settles_everything_witness :
  exists r db', recover None (live_rows db_running) 50 db_running = (Ok r, db') /\ live_rows db' = [].
Proof.
  destruct (recover_settles_everything 2 db_running (live_rows db_running) 50 reach_running eq_refl
    (Permutation_refl _)) as (r & db' & E & _ & _ & Hl & _).
  exists r, db'. split; [exact E|exact Hl].
Defined.
