(* ===== verification/Capture.v ===== *)
(** * Bounded output capture

    [eggwork-runner/src/lib.rs], lines 70-164 and 2017-2060: the head-and-tail
    capture of a child's output, its per-byte reference version, and the loop
    that reads a pipe, captures it and forwards it in chunks.

    Slice lengths are [nat] ([usize]); the byte counters are [u64] and
    saturate.  The pipe is the list of blocks the reads return; the output
    channel accepts or refuses each [try_send]. *)

From Stdlib Require Import Ascii String ZArith Lia.
From stdpp Require Import base list.
From S2P Require Import Prelude Ids Spec.

Record BoundedCapture := {
  head_ : bytes;
  tail_ : bytes;
  total_bytes_ : Z;
  omitted_bytes : Z;
}.

(** [BoundedCapture::default] *)
Definition capture_empty : BoundedCapture :=
  {| head_ := []; tail_ := []; total_bytes_ := 0; omitted_bytes := 0 |}.

(** [limit.div_ceil(2)] *)
Definition div_ceil2 (limit : nat) : nat := limit / 2 + (if limit mod 2 =? 0 then 0 else 1).

Definition head_limit (limit : nat) : nat := div_ceil2 limit.
Definition tail_limit (limit : nat) : nat := limit - head_limit limit.

(** [BoundedCapture::push] *)
Definition push (c : BoundedCapture) (b : bytes) (limit : nat) : BoundedCapture :=
  let head_limit := head_limit limit in
  let tail_limit := tail_limit limit in
  let total := sat_add (total_bytes_ c) (len b) in
  let '(head, remaining) :=
    if length (head_ c) <? head_limit then
      let room := head_limit - length (head_ c) in
      let take_ := room `min` length b in
      (head_ c ++ take take_ b, drop take_ b)
    else (head_ c, b) in
  let tail :=
    if tail_limit =? 0 then tail_ c
    else if tail_limit <=? length remaining then drop (length remaining - tail_limit) remaining
    else if length (tail_ c) + length remaining <=? tail_limit then tail_ c ++ remaining
    else
      let keep_from_old := tail_limit - length remaining in
      drop (length (tail_ c) - keep_from_old) (tail_ c) ++ remaining in
  {| head_ := head; tail_ := tail; total_bytes_ := total;
     omitted_bytes := sat_sub total (Z.of_nat (length head + length tail)) |}.

(** One round of the per-byte loop. *)
Definition push_byte (limit : nat) (ht : bytes * bytes) (byte : Byte.byte) : bytes * bytes :=
  let '(head, tail) := ht in
  if length head <? head_limit limit then (head ++ [byte], tail)
  else if 0 <? tail_limit limit then
    (head, (if length tail =? tail_limit limit then drop 1 tail else tail) ++ [byte])
  else (head, tail).

(** [push_per_byte] *)
Definition push_per_byte (c : BoundedCapture) (b : bytes) (limit : nat) : BoundedCapture :=
  let total := sat_add (total_bytes_ c) (len b) in
  let '(head, tail) := foldl (push_byte limit) (head_ c, tail_ c) b in
  {| head_ := head; tail_ := tail; total_bytes_ := total;
     omitted_bytes := sat_sub total (Z.of_nat (length head + length tail)) |}.

(** ** The reader *)

(** [slice.chunks(n)]: pieces of [n], the last one shorter; [n] is positive, so
    [length l] rounds are enough. *)
Fixpoint chunks_from (fuel n : nat) (l : bytes) : list bytes :=
  match fuel, l with
  | S fuel, _ :: _ => take n l :: chunks_from fuel n (drop n l)
  | _, _ => []
  end.

Definition chunks (n : nat) (l : bytes) : list bytes := chunks_from (length l) n l.

Record OutputChunk := { oc_stderr : bool; oc_bytes : bytes }.

Record ReaderState := {
  capture : BoundedCapture;
  dropped : Z;
  sent : list OutputChunk;
  overflowed : bool;
}.

Section reader.
(** [accept i] says whether the [i]-th [try_send] of the run finds room. *)
Context (accept : nat -> bool) (stderr_ : bool) (capture_limit chunk_limit : nat) (overflow : OverflowPolicy).

(** The inner loop over [buffer[..count].chunks(chunk_limit)]; [i] counts the
    [try_send] calls. *)
Fixpoint send_chunks (i : nat) (st : ReaderState) (l : list bytes) : nat * ReaderState :=
  match l with
  | [] => (i, st)
  | b :: l =>
      let st :=
        if accept i then
          {| capture := capture st; dropped := dropped st;
             sent := sent st ++ [{| oc_stderr := stderr_; oc_bytes := b |}]; overflowed := overflowed st |}
        else
          {| capture := capture st; dropped := dropped st + len b;
             sent := sent st; overflowed := overflowed st |} in
      send_chunks (S i) st l
  end.

(** One round of [spawn_reader]'s loop on a block the read returned. *)
Definition read_block (ist : nat * ReaderState) (block : bytes) : nat * ReaderState :=
  let '(i, st) := ist in
  let before := total_bytes_ (capture st) in
  let c := push (capture st) block capture_limit in
  let over := match overflow with Terminate => true | Truncate => false end
    && (before <=? Z.of_nat capture_limit)%Z && (Z.of_nat capture_limit <? total_bytes_ c)%Z in
  send_chunks i {| capture := c; dropped := dropped st; sent := sent st;
                   overflowed := overflowed st || over |} (chunks chunk_limit block).

(** [spawn_reader]: the blocks read until a read returns zero bytes, or until
    one fails with [io_error]. *)
Definition spawn_reader (blocks : list bytes) (io_error : option string) : result string ReaderState :=
  let st :=
    (foldl read_block (0, {| capture := capture_empty; dropped := 0; sent := []; overflowed := false |}) blocks).2 in
  match io_error with Some e => Err e | None => Ok st end.
End reader.

(** ** The last bytes of a sequence *)

Definition lastn (n : nat) (l : bytes) : bytes := drop (length l - n) l.

Lemma lastn_le n l : length l <= n -> lastn n l = l.
Proof. intros H. unfold lastn. by replace (length l - n) with 0 by lia. Qed.

Lemma lastn_0 l : lastn 0 l = [].
Proof. unfold lastn. apply drop_ge. lia. Qed.

Lemma length_lastn n l : length (lastn n l) = n `min` length l.
Proof. unfold lastn. rewrite length_drop. lia. Qed.

Lemma lastn_app_ge n u v : n <= length v -> lastn n (u ++ v) = lastn n v.
Proof.
  intros H. unfold lastn. rewrite length_app, drop_app.
  rewrite (drop_ge u) by lia. simpl. f_equal. lia.
Qed.

Lemma lastn_app_lt n u v : length v <= n -> lastn n (u ++ v) = lastn (n - length v) u ++ v.
Proof.
  intros H. unfold lastn. rewrite length_app, drop_app.
  replace (length u + length v - n - length u) with 0 by lia.
  replace (length u + length v - n) with (length u - (n - length v)) by lia. done.
Qed.

Lemma lastn_app_lastn n u v : lastn n (lastn n u ++ v) = lastn n (u ++ v).
Proof.
  destruct (decide (n <= length v)).
  - by rewrite !lastn_app_ge.
  - rewrite !lastn_app_lt by lia. f_equal. unfold lastn at 1. rewrite length_lastn. unfold lastn.
    rewrite drop_drop. f_equal. lia.
Qed.

Lemma drop1_lastn n l x :
  0 < n -> length l <= n ->
  (if length l =? n then drop 1 l else l) ++ [x] = lastn n (l ++ [x]).
Proof.
  intros Hn Hl. rewrite lastn_app_lt by (simpl; lia). f_equal. unfold lastn. simpl.
  destruct (Nat.eqb_spec (length l) n).
  - f_equal. lia.
  - by replace (length l - (n - 1)) with 0 by lia.
Qed.

(** ** Bulk and per-byte capture agree *)

(** What the head and the tail become after the bytes [b]. *)
Definition keep (limit : nat) (head tail b : bytes) : bytes * bytes :=
  let room := head_limit limit - length head in
  (head ++ take room b,
   if tail_limit limit =? 0 then tail else lastn (tail_limit limit) (tail ++ drop room b)).

Lemma push_keep c b limit :
  length (tail_ c) <= tail_limit limit ->
  (head_ (push c b limit), tail_ (push c b limit)) = keep limit (head_ c) (tail_ c) b.
Proof.
  intros Ht. unfold push, keep.
  assert (forall r, (if tail_limit limit =? 0 then tail_ c
    else if tail_limit limit <=? length r then drop (length r - tail_limit limit) r
    else if length (tail_ c) + length r <=? tail_limit limit then tail_ c ++ r
    else drop (length (tail_ c) - (tail_limit limit - length r)) (tail_ c) ++ r)
    = if tail_limit limit =? 0 then tail_ c else lastn (tail_limit limit) (tail_ c ++ r)) as Htail.
  { intros r. destruct (tail_limit limit =? 0); [done|].
    destruct (Nat.leb_spec (tail_limit limit) (length r)).
    - by rewrite lastn_app_ge by lia.
    - destruct (Nat.leb_spec (length (tail_ c) + length r) (tail_limit limit)).
      + rewrite lastn_le; [done|]. rewrite length_app. lia.
      + by rewrite lastn_app_lt by lia. }
  destruct (Nat.ltb_spec (length (head_ c)) (head_limit limit)); cbn [head_ tail_]; rewrite Htail.
  - f_equal.
    + f_equal. destruct (decide (head_limit limit - length (head_ c) <= length b)).
      * by rewrite Nat.min_l by lia.
      * rewrite Nat.min_r, !take_ge by lia. done.
    + destruct (decide (head_limit limit - length (head_ c) <= length b)).
      * by rewrite Nat.min_l by lia.
      * rewrite Nat.min_r, !drop_ge by lia. done.
  - replace (head_limit limit - length (head_ c)) with 0 by lia. by rewrite take_0, app_nil_r, drop_0.
Qed.

Lemma push_byte_keep limit head tail b :
  length tail <= tail_limit limit -> foldl (push_byte limit) (head, tail) b = keep limit head tail b.
Proof.
  revert head tail. induction b as [|x b IH]; intros head tail Ht; simpl.
  - unfold keep. rewrite take_nil, drop_nil, !app_nil_r. case_match; [done|]. by rewrite lastn_le.
  - destruct (Nat.ltb_spec (length head) (head_limit limit)) as [Hlt|Hge].
    + rewrite IH by done. unfold keep. rewrite length_app. simpl.
      replace (head_limit limit - length head) with (S (head_limit limit - (length head + 1))) by lia.
      simpl. by rewrite <- app_assoc.
    + destruct (Nat.ltb_spec 0 (tail_limit limit)) as [Hpos|Hz].
      * rewrite drop1_lastn by done. rewrite IH by (rewrite length_lastn; lia). unfold keep.
        replace (head_limit limit - length head) with 0 by lia. rewrite !take_0, !drop_0.
        rewrite (proj2 (Nat.eqb_neq _ _)) by lia. rewrite lastn_app_lastn, <- app_assoc. done.
      * rewrite IH by done. unfold keep. replace (head_limit limit - length head) with 0 by lia.
        rewrite !take_0. by replace (tail_limit limit) with 0 by lia.
Qed.

Lemma push_eq c b limit head tail :
  (head_ (push c b limit), tail_ (push c b limit)) = (head, tail) ->
  push c b limit = {| head_ := head; tail_ := tail; total_bytes_ := sat_add (total_bytes_ c) (len b);
    omitted_bytes := sat_sub (sat_add (total_bytes_ c) (len b)) (Z.of_nat (length head + length tail)) |}.
Proof. unfold push. destruct (if _ <? _ then _ else _) as [h r]. cbn [head_ tail_]. by intros [= -> ->]. Qed.

(** The bulk [push] is an optimisation only: whatever the chunk and the
    capture state (with a tail inside its limit), it leaves the same head,
    tail and counters as the per-byte reference. *)
Theorem bulk_push_matches_per_byte (c : BoundedCapture) (b : bytes) (limit : nat) :
  length (tail_ c) <= tail_limit limit -> push c b limit = push_per_byte c b limit.
Proof.
  intros Ht. unfold push_per_byte. rewrite push_byte_keep by done.
  destruct (keep limit (head_ c) (tail_ c) b) as [h t] eqn:E. apply push_eq.
  by rewrite <- E, push_keep.
Qed.

Lemma bulk_push_matches_per_byte_witness :
  let c := {| head_ := [Byte.x61]; tail_ := [Byte.x62; Byte.x63]; total_bytes_ := 9; omitted_bytes := 6 |} in
  length (tail_ c) <= tail_limit 5
  /\ push c [Byte.x64; Byte.x65; Byte.x66] 5 = push_per_byte c [Byte.x64; Byte.x65; Byte.x66] 5.
Proof.
  intros c. assert (length (tail_ c) <= tail_limit 5) as H by (vm_compute; lia). split; [exact H|].
  exact (bulk_push_matches_per_byte c _ 5 H).
Defined.

(** ** What a capture holds *)

(** The first half and the last half of the limit, of everything captured. *)
Definition captured (limit : nat) (all : bytes) : BoundedCapture :=
  let head := take (head_limit limit) all in
  let tail := lastn (tail_limit limit) (drop (head_limit limit) all) in
  let total := Z.min (len all) U64_MAX in
  {| head_ := head; tail_ := tail; total_bytes_ := total;
     omitted_bytes := sat_sub total (Z.of_nat (length head + length tail)) |}.

Lemma limits_sum limit : head_limit limit + tail_limit limit = limit.
Proof.
  unfold tail_limit, head_limit, div_ceil2. pose proof (Nat.div_mod_eq limit 2).
  destruct (Nat.eqb_spec (limit mod 2) 0); lia.
Qed.

Lemma keep_captured limit a b :
  keep limit (take (head_limit limit) a) (lastn (tail_limit limit) (drop (head_limit limit) a)) b
  = (take (head_limit limit) (a ++ b), lastn (tail_limit limit) (drop (head_limit limit) (a ++ b))).
Proof.
  unfold keep. rewrite length_take, take_app, drop_app.
  replace (head_limit limit - head_limit limit `min` length a) with (head_limit limit - length a) by lia.
  f_equal. destruct (Nat.eqb_spec (tail_limit limit) 0) as [->|Hz]; [by rewrite !lastn_0|].
  apply lastn_app_lastn.
Qed.

Lemma push_captured limit a b : push (captured limit a) b limit = captured limit (a ++ b).
Proof.
  pose proof (push_keep (captured limit a) b limit) as Hk. simpl in Hk.
  rewrite keep_captured in Hk. rewrite (push_eq _ _ _ _ _ (Hk ltac:(rewrite length_lastn; lia))).
  unfold captured. cbn [total_bytes_]. f_equal; unfold sat_add, len; rewrite length_app; unfold sat_sub, U64_MAX; lia.
Qed.

Lemma captured_nil limit : captured limit [] = capture_empty.
Proof. unfold captured, lastn. rewrite take_nil, drop_nil. simpl. done. Qed.

Lemma foldl_push limit a blocks :
  foldl (fun c b => push c b limit) (captured limit a) blocks = captured limit (a ++ concat blocks).
Proof.
  revert a. induction blocks as [|b blocks IH]; intros a; simpl; [by rewrite app_nil_r|].
  by rewrite push_captured, IH, app_assoc.
Qed.

(** A capture depends only on the bytes, not on how they were chunked: it
    holds the first half of the limit and the last half of the rest, never
    more than the limit, and its counters account for every byte. *)
Theorem capture_head_and_tail (limit : nat) (blocks : list bytes) :
  let c := foldl (fun c b => push c b limit) capture_empty blocks in
  let all := concat blocks in
  head_ c = take (head_limit limit) all
  /\ tail_ c = lastn (tail_limit limit) (drop (head_limit limit) all)
  /\ length (head_ c) + length (tail_ c) = limit `min` length all
  /\ total_bytes_ c = Z.min (len all) U64_MAX
  /\ ((len all <= U64_MAX)%Z -> (omitted_bytes c = len all - len (head_ c) - len (tail_ c))%Z).
Proof.
  rewrite <- (captured_nil limit), foldl_push. simpl. rewrite length_take, length_lastn, length_drop.
  pose proof (limits_sum limit). split_and!; try done.
  - lia.
  - unfold len, sat_sub. rewrite length_take, length_lastn, length_drop. lia.
Qed.

(** ** What the reader does *)

Lemma chunks_from_spec fuel n l :
  0 < n -> length l <= fuel ->
  concat (chunks_from fuel n l) = l /\ Forall (fun b => length b <= n) (chunks_from fuel n l).
Proof.
  intros Hn. revert l. induction fuel as [|fuel IH]; intros [|x l] Hl; simpl in *; try (split; [done|constructor]); [lia|].
  destruct (IH (drop n (x :: l))) as [H1 H2]; [rewrite length_drop; simpl; lia|]. split.
  - by rewrite H1, take_drop.
  - constructor; [|done]. rewrite length_take. lia.
Qed.

Section reader_facts.
Context (accept : nat -> bool) (stderr_ : bool) (capture_limit chunk_limit : nat) (overflow : OverflowPolicy).

Definition sent_bytes (st : ReaderState) : Z := len (concat (oc_bytes <$> sent st)).

(** What the reader maintains after reading [all]. *)
Record reader_inv (all : bytes) (st : ReaderState) : Prop := {
  r_capture : capture st = captured capture_limit all;
  r_account : (sent_bytes st + dropped st = len all)%Z;
  r_chunks : Forall (fun c => oc_stderr c = stderr_ /\ length (oc_bytes c) <= chunk_limit) (sent st);
  r_lossless : (forall i, accept i = true) -> concat (oc_bytes <$> sent st) = all;
  r_overflow : (len all <= U64_MAX)%Z ->
    overflowed st = true <-> overflow = Terminate /\ (Z.of_nat capture_limit < len all)%Z;
}.

Lemma send_chunks_inv i st l all c over :
  Forall (fun b => length b <= chunk_limit) l ->
  (sent_bytes st + dropped st = len all)%Z ->
  Forall (fun c => oc_stderr c = stderr_ /\ length (oc_bytes c) <= chunk_limit) (sent st) ->
  ((forall i, accept i = true) -> concat (oc_bytes <$> sent st) = all) ->
  capture st = c -> overflowed st = over ->
  let st' := (send_chunks accept stderr_ i st l).2 in
  (sent_bytes st' + dropped st' = len (all ++ concat l))%Z
  /\ Forall (fun c => oc_stderr c = stderr_ /\ length (oc_bytes c) <= chunk_limit) (sent st')
  /\ ((forall i, accept i = true) -> concat (oc_bytes <$> sent st') = all ++ concat l)
  /\ capture st' = c /\ overflowed st' = over.
Proof.
  intros Hl. revert i st all. induction Hl as [|b l Hb Hl IH]; intros i st all Ha Hc Hs Hcap Hov; simpl.
  { rewrite app_nil_r. by split_and!. }
  rewrite app_assoc. destruct (accept i) eqn:Eacc; apply IH; simpl; try done.
  - unfold sent_bytes in *. simpl. rewrite fmap_app, concat_app. simpl. rewrite app_nil_r.
    unfold len in *. rewrite !length_app. lia.
  - apply Forall_app. split; [done|]. by constructor.
  - intros Hall. rewrite fmap_app, concat_app. simpl. by rewrite app_nil_r, Hs.
  - unfold sent_bytes, len in *. simpl. rewrite length_app. lia.
  - intros Hall. rewrite Hall in Eacc. done.
Qed.

Lemma read_block_inv i st all block :
  0 < chunk_limit -> reader_inv all st -> 
  reader_inv (all ++ block)
    (read_block accept stderr_ capture_limit chunk_limit overflow (i, st) block).2.
Proof.
  intros Hn [Hcap Hacc Hch Hloss Hov]. destruct (chunks_from_spec (length block) chunk_limit block Hn ltac:(lia)) as [Hcc Hcl].
  unfold read_block. rewrite Hcap, push_captured.
  match goal with |- context [send_chunks _ _ i ?s _] => set (st1 := s) end.
  destruct (send_chunks_inv i st1 (chunks chunk_limit block) all
    (captured capture_limit (all ++ block)) (overflowed st1)) as (H1 & H2 & H3 & H4 & H5); try done.
  unfold chunks in *. rewrite Hcc in *. split; try done.
  intros Hmax. rewrite H5. unfold st1. cbn [overflowed total_bytes_ captured].
  assert (len all <= U64_MAX)%Z as Hmax' by (unfold len in *; rewrite length_app in Hmax; lia).
  rewrite orb_true_iff, Hov by done. rewrite !Z.min_l by done.
  unfold len in *. rewrite length_app in *. destruct overflow; simpl.
  - split; [intros [[? _]|?]; done|by intros [? _]].
  - rewrite andb_true_iff, Z.leb_le, Z.ltb_lt. split; [intros [[_ ?]|?]; split; [done|lia|done|lia]|].
    intros [_ ?]. destruct (decide (Z.of_nat capture_limit < Z.of_nat (length all))%Z); [by left; split|right; lia].
Qed.

Lemma reader_fold_inv i st all blocks :
  0 < chunk_limit -> reader_inv all st ->
  reader_inv (all ++ concat blocks)
    (foldl (read_block accept stderr_ capture_limit chunk_limit overflow) (i, st) blocks).2.
Proof.
  intros Hn. revert i st all. induction blocks as [|b blocks IH]; intros i st all HI; cbn [foldl concat]; [by rewrite app_nil_r|].
  pose proof (read_block_inv i st all b Hn HI) as HI'.
  destruct (read_block accept stderr_ capture_limit chunk_limit overflow (i, st) b) as [i' st'].
  rewrite app_assoc. by apply IH.
Qed.
End reader_facts.

(** The pipe reader accounts for every byte it reads.  Whatever blocks the
    reads return and whichever sends the channel refuses, the capture is that
    of the whole stream, forwarded and dropped bytes add up to it, forwarded
    chunks respect the chunk limit and their order (nothing is lost when
    nothing is refused), and the overflow signal is raised exactly when the
    policy is to terminate and the stream exceeded the capture limit. *)
Theorem reader_accounts_for_output (accept : nat -> bool) (stderr_ : bool) (capture_limit chunk_limit : nat)
    (overflow : OverflowPolicy) (blocks : list bytes) (st : ReaderState) :
  0 < chunk_limit ->
  spawn_reader accept stderr_ capture_limit chunk_limit overflow blocks None = Ok st ->
  let all := concat blocks in
  capture st = captured capture_limit all
  /\ (len (concat (oc_bytes <$> sent st)) + dropped st = len all)%Z
  /\ Forall (fun c => oc_stderr c = stderr_ /\ length (oc_bytes c) <= chunk_limit) (sent st)
  /\ ((forall i, accept i = true) -> concat (oc_bytes <$> sent st) = all)
  /\ ((len all <= U64_MAX)%Z ->
      overflowed st = true <-> overflow = Terminate /\ (Z.of_nat capture_limit < len all)%Z).
Proof.
  intros Hn Hr all. unfold spawn_reader in Hr. injection Hr as <-.
  match goal with |- context [foldl _ (0, ?s) _] => set (st0 := s) end.
  destruct (reader_fold_inv accept stderr_ capture_limit chunk_limit overflow 0 st0 [] blocks Hn); [|by split_and!].
  split; simpl; [by rewrite captured_nil|done|constructor|done|].
  intros _. split; [done|]. intros [_ ?]. unfold len in *. simpl in *. lia.
Qed.

Lemma reader_accounts_for_output_witness :
  exists st, spawn_reader (fun i => i =? 0) false 3 2 Terminate
      [[Byte.x61; Byte.x62]; [Byte.x63; Byte.x64]] None = Ok st
    /\ capture st = captured 3 [Byte.x61; Byte.x62; Byte.x63; Byte.x64] /\ dropped st = 2%Z.
Proof.
  eexists. split; [reflexivity|]. split; [|reflexivity].
  exact (proj1 (reader_accounts_for_output (fun i => i =? 0) false 3 2 Terminate
    [[Byte.x61; Byte.x62]; [Byte.x63; Byte.x64]] _ ltac:(lia) eq_refl)).
Defined.
