(* ===== verification/Runner.v ===== *)
(** * The local process runner: requests, setup and results

    [eggwork-runner/src/lib.rs], lines 240-296, 497-506, 564-619, 724-1278 and
    1618-1741: the runner's request and its validation, the execution setup
    that prepares a sandbox and resource limits, the child's environment, and
    the translation of a finished run into the protocol's result.

    A path is its list of components; the file system answers [canonicalize],
    [is_dir] and metadata queries, which are arguments.  Error texts follow the
    [Display] implementations. *)

From Stdlib Require Import Ascii String ZArith Lia.
From stdpp Require Import base gmap strings list.
From S2P Require Import Prelude Text Ids Wire Spec Events Capture.

Abbreviation path := (list string).

(** [Display for ValidationError] *)
Definition display_validation (e : ValidationError) : string :=
  match e with
  | Empty f => f +:+ " must not be empty"
  | TooLong f m => f +:+ " exceeds its " +:+ dec m +:+ "-byte limit"
  | InvalidSyntax f => f +:+ " has invalid syntax"
  | TooMany f m => f +:+ " exceeds its " +:+ dec m +:+ "-item limit"
  | Forbidden f => f +:+ " contains a forbidden value"
  | InvalidPath f => f +:+ " must be relative and confined"
  | OutOfRange f => f +:+ " is outside its supported range"
  end.

Inductive RunnerError : Type :=
| InvalidRequest (s : string)
| InvalidRoot (s : string)
| InvalidWorkingDirectory (s : string)
| CancelledBeforeSpawn
| Setup (s : string)
| RequiredSetupUnavailable
| UnsupportedPlatform
| Spawn (s : string)
| Io (s : string)
| Wait (s : string).

(** [Display for RunnerError] *)
Definition display_runner (e : RunnerError) : string :=
  match e with
  | InvalidRequest s => "invalid execution request: " +:+ s
  | InvalidRoot s => "execution root is invalid: " +:+ s
  | InvalidWorkingDirectory s => "working directory is invalid: " +:+ s
  | CancelledBeforeSpawn => "execution was cancelled before spawn"
  | Setup s => "sandbox or resource setup failed: " +:+ s
  | RequiredSetupUnavailable => "required sandbox/resource setup has no configured backend"
  | UnsupportedPlatform => "process-tree control is unsupported on this platform"
  | Spawn s => "process spawn failed: " +:+ s
  | Io s => "process I/O failed: " +:+ s
  | Wait s => "process wait failed: " +:+ s
  end.

(** ** Sandbox and resource setup *)

Inductive SandboxRequest : Type :=
| SbNone
| SbBestEffort (profile : string)
| SbRequired (profile : string).

Inductive SandboxOutcome : Type :=
| SoNotRequested
| SoNotApplied (reason : string)
| SoApplied (profile : string)
| SoFailed (reason : string).

Record ResourceSetupRequest := {
  rs_memory_bytes : Requirement Z;
  rs_cpu_millis : Requirement Z;
  rs_pids : Requirement Z;
}.

Definition is_req {A} (r : Requirement A) : bool :=
  match r with NotRequested => false | _ => true end.
Definition must_have {A} (r : Requirement A) : bool :=
  match r with Required _ => true | _ => false end.
Definition req_value {A} (r : Requirement A) : option A :=
  match r with NotRequested => None | BestEffort v | Required v => Some v end.

(** [ResourceSetupRequest::is_requested] *)
Definition is_requested (r : ResourceSetupRequest) : bool :=
  is_req (rs_memory_bytes r) || is_req (rs_cpu_millis r) || is_req (rs_pids r).

(** [ResourceSetupRequest::has_required] *)
Definition has_required (r : ResourceSetupRequest) : bool :=
  must_have (rs_memory_bytes r) || must_have (rs_cpu_millis r) || must_have (rs_pids r).

(** [ResourceSetupRequest::properties] *)
Definition properties (r : ResourceSetupRequest) : list (string * string) :=
  match req_value (rs_memory_bytes r) with
  | Some value => [("MemoryMax", dec value); ("MemorySwapMax", "0")]
  | None => []
  end ++
  match req_value (rs_cpu_millis r) with
  | Some value => [("CPUQuota", dec (value `div` 10)%Z +:+ "." +:+ dec (value `mod` 10)%Z +:+ "%")]
  | None => []
  end ++
  match req_value (rs_pids r) with
  | Some value => [("TasksMax", dec value)]
  | None => []
  end.

Inductive ResourceSetupOutcome : Type :=
| RoNotRequested
| RoNotApplied (reason : string)
| RoApplied (backend : string)
| RoFailed (reason : string).

Record SetupOutcome := {
  so_sandbox : SandboxOutcome;
  so_resources : ResourceSetupOutcome;
}.

Definition is_applied_sandbox (o : SandboxOutcome) : bool :=
  match o with SoApplied _ => true | _ => false end.
Definition is_applied_resources (o : ResourceSetupOutcome) : bool :=
  match o with RoApplied _ => true | _ => false end.

(** [NoExecutionSetup::prepare] *)
Definition NoExecutionSetup_prepare (sandbox : SandboxRequest) (resources : ResourceSetupRequest)
    : result RunnerError SetupOutcome :=
  if match sandbox with SbRequired _ => true | _ => false end || has_required resources
  then Err RequiredSetupUnavailable
  else Ok {|
    so_sandbox := match sandbox with
      | SbNone => SoNotRequested
      | SbBestEffort _ | SbRequired _ => SoNotApplied "no sandbox backend is configured"
      end;
    so_resources := if is_requested resources
      then RoNotApplied "no resource-control backend is configured" else RoNotRequested |}.

(** [TrustedLandlockSetup::prepare].  [probe] is the systemd probe's answer and
    [trust1], [trust2] those of [verify_trusted_helper] at its two calls. *)
Definition TrustedLandlockSetup_prepare (probe trust1 trust2 : result string unit)
    (sandbox : SandboxRequest) (resources : ResourceSetupRequest) : result RunnerError SetupOutcome :=
  let? resource_outcome :=
    if is_requested resources then
      match probe with
      | Ok _ => Ok (RoApplied "systemd-cgroup-v2")
      | Err reason => if has_required resources then Err (Setup reason) else Ok (RoNotApplied reason)
      end
    else Ok RoNotRequested in
  let? resource_outcome :=
    match resource_outcome, trust1 with
    | RoApplied _, Err reason =>
        if has_required resources then Err (Setup reason) else Ok (RoNotApplied reason)
    | _, _ => Ok resource_outcome
    end in
  let with_sandbox o := Ok {| so_sandbox := o; so_resources := resource_outcome |} in
  match sandbox with
  | SbNone => with_sandbox SoNotRequested
  | SbBestEffort profile =>
      if negb (String.eqb profile "workspace_rw") then with_sandbox (SoNotApplied "unsupported sandbox profile")
      else match trust2 with
           | Ok _ => with_sandbox (SoApplied profile)
           | Err reason => with_sandbox (SoNotApplied reason)
           end
  | SbRequired profile =>
      if negb (String.eqb profile "workspace_rw") then Err (Setup "unsupported sandbox profile")
      else match trust2 with
           | Ok _ => with_sandbox (SoApplied profile)
           | Err reason => Err (Setup reason)
           end
  end.

(** *** The trust check of the sandbox helper *)

Record Metadata := {
  md_is_file : bool;
  md_is_dir : bool;
  md_is_symlink : bool;
  md_uid : Z;
  md_mode : Z;
}.

Section trusted_helper.
(** [symlink_metadata], [metadata], [canonicalize] and [geteuid]. *)
Context (symlink_metadata metadata : path -> option Metadata) (canonicalize : path -> option path) (euid : Z).

Definition writable_by_others (mode : Z) : bool := negb (Z.land mode 18 =? 0)%Z.
Definition foreign_owner (uid : Z) : bool := (negb (uid =? 0) && negb (uid =? euid))%Z.

(** [path.parent()] *)
Definition parent (p : path) : option path :=
  match p with [] => None | _ => Some (removelast p) end.

Definition check_ancestor (next : path) : result string unit :=
  let? md := ok_or (metadata next) "sandbox helper ancestor is invalid" in
  let sticky_root_directory := md_is_dir md && (md_uid md =? 0)%Z && negb (Z.land (md_mode md) 512 =? 0)%Z in
  if negb (md_is_dir md)
     || (foreign_owner (md_uid md) && negb sticky_root_directory)
     || (writable_by_others (md_mode md) && negb sticky_root_directory)
  then Err "sandbox helper ancestor trust check failed"
  else Ok tt.

(** The [while let Some(next) = ancestor.parent()] loop; [length p] rounds. *)
Fixpoint check_ancestors (fuel : nat) (p : path) : result string unit :=
  match fuel, parent p with
  | S fuel, Some next => check_ancestor next ;? check_ancestors fuel next
  | _, _ => Ok tt
  end.

(** [verify_trusted_helper] *)
Definition verify_trusted_helper (p : path) : result string unit :=
  let? md := ok_or (symlink_metadata p) "sandbox helper is unavailable" in
  if negb (md_is_file md) || md_is_symlink md || foreign_owner (md_uid md)
     || writable_by_others (md_mode md) || (Z.land (md_mode md) 73 =? 0)%Z
  then Err "sandbox helper trust check failed"
  else
    let? up := ok_or (parent p) "sandbox helper location is invalid" in
    let? up := ok_or (canonicalize up) "sandbox helper location is invalid" in
    let? pmd := ok_or (metadata up) "sandbox helper location is invalid" in
    if negb (md_is_dir pmd) || foreign_owner (md_uid pmd) || writable_by_others (md_mode pmd)
    then Err "sandbox helper directory trust check failed"
    else check_ancestors (length up) up.
End trusted_helper.

(** ** Requests *)

Record ExecutionProvenance := {
  prov_execution_id : option string;
  prov_generation : option Z;
}.

Record RunnerRequest := {
  rq_argv : list string;
  rq_root : path;
  rq_cwd : option string;
  rq_environment : list (string * string);
  rq_stdin : StdinPolicy;
  rq_timeout_millis : Z;
  rq_capture_limit : Z;
  rq_event_chunk_bytes : Z;
  rq_overflow : OverflowPolicy;
  rq_provenance : ExecutionProvenance;
  rq_sandbox : SandboxRequest;
  rq_resources : ResourceSetupRequest;
}.

(** [RunnerRequest::new] *)
Definition RunnerRequest_new (argv : list string) (root : path) : RunnerRequest :=
  {| rq_argv := argv; rq_root := root; rq_cwd := None; rq_environment := []; rq_stdin := StdinNull;
     rq_timeout_millis := 30 * 1000; rq_capture_limit := MAX_CAPTURE_BYTES;
     rq_event_chunk_bytes := MAX_EVENT_CHUNK_BYTES; rq_overflow := Truncate;
     rq_provenance := {| prov_execution_id := None; prov_generation := None |};
     rq_sandbox := SbNone;
     rq_resources := {| rs_memory_bytes := NotRequested; rs_cpu_millis := NotRequested; rs_pids := NotRequested |} |}.

(** [RunnerRequest::from_spec] *)
Definition RunnerRequest_from_spec (spec : ExecutionSpec) (root : path) (prov : ExecutionProvenance)
    : result RunnerError RunnerRequest :=
  map_err (fun e => InvalidRequest (display_validation e)) (ExecutionSpec_validate spec) ;?
  let c := command spec in
  Ok {| rq_argv := argv c; rq_root := root; rq_cwd := cwd c;
        rq_environment := (fun e => (env_name e, env_value e)) <$> environment c;
        rq_stdin := stdin c; rq_timeout_millis := timeout_millis c;
        rq_capture_limit := capture_limit_bytes (output c);
        rq_event_chunk_bytes := event_chunk_bytes (output c); rq_overflow := overflow (output c);
        rq_provenance := prov;
        rq_sandbox := match isolation c with
          | IsolationNone => SbNone
          | IsolationBestEffort => SbBestEffort "workspace_rw"
          | IsolationRequired => SbRequired "workspace_rw"
          end;
        rq_resources := {| rs_memory_bytes := memory_bytes (resources c);
                           rs_cpu_millis := cpu_millis (resources c); rs_pids := pids (resources c) |} |}.

Definition bad_argument (a : string) : bool :=
  is_empty a || (MAX_ARG_BYTES <? str_len a)%Z || contains_nul a.

Definition bad_environment (kv : string * string) : bool :=
  let '(k, v) := kv in
  is_empty k || (MAX_ENV_NAME_BYTES <? str_len k)%Z || (MAX_ENV_VALUE_BYTES <? str_len v)%Z
  || contains_nul k || contains_char "=" k || contains_nul v.

(** The runner's own [StdinPolicy::validate]. *)
Definition runner_stdin_validate (p : StdinPolicy) : result RunnerError unit :=
  match p with
  | StdinBytes v => if (MAX_STDIN_BYTES <? len v)%Z then Err (InvalidRequest "stdin exceeds limit") else Ok tt
  | StdinNull => Ok tt
  end.

(** The checks of [RunnerRequest::validate] that do not touch the file system. *)
Definition validate_static (r : RunnerRequest) : result RunnerError unit :=
  if (len (rq_argv r) =? 0)%Z || (MAX_ARG_COUNT <? len (rq_argv r))%Z || existsb bad_argument (rq_argv r)
  then Err (InvalidRequest "argv is empty or contains an empty/NUL entry")
  else if (MAX_ENV_COUNT <? len (rq_environment r))%Z || existsb bad_environment (rq_environment r)
  then Err (InvalidRequest "environment violates bounds or syntax")
  else if (MAX_CAPTURE_BYTES <? rq_capture_limit r)%Z || (rq_event_chunk_bytes r =? 0)%Z
          || (MAX_EVENT_CHUNK_BYTES <? rq_event_chunk_bytes r)%Z
  then Err (InvalidRequest "output limits are outside supported bounds")
  else if (rq_timeout_millis r =? 0)%Z || (MAX_TIMEOUT_MILLIS <? rq_timeout_millis r)%Z
  then Err (InvalidRequest "timeout must be positive")
  else map_err (fun e => InvalidRequest (display_runner e)) (runner_stdin_validate (rq_stdin r)).

(** [canonical.starts_with(&root)] on components. *)
Fixpoint path_starts_with (p root : path) {struct root} : bool :=
  match root, p with
  | [], _ => true
  | a :: root, b :: p => String.eqb a b && path_starts_with p root
  | _ :: _, [] => false
  end.

Section validate.
Context (canonicalize : path -> result string path) (is_dir : path -> bool).

(** [RunnerRequest::validate]: the working directory. *)
Definition RunnerRequest_validate (r : RunnerRequest) : result RunnerError path :=
  validate_static r ;?
  let? root := map_err InvalidRoot (canonicalize (rq_root r)) in
  if negb (is_dir root) then Err (InvalidRoot "execution root is not a directory")
  else match rq_cwd r with
       | None => Ok root
       | Some relative =>
           let? canonical := map_err InvalidWorkingDirectory (canonicalize (root ++ split "/" relative)) in
           if negb (path_starts_with canonical root) || negb (is_dir canonical)
           then Err (InvalidWorkingDirectory "cwd escapes root or is not a directory")
           else Ok canonical
       end.
End validate.

(** ** The child's environment *)

Definition DENIED_KEYS : list string :=
  ["LD_"; "DYLD_"; "PATH"; "IFS"; "SHELLOPTS"; "CDPATH"; "BASH_ENV"; "ENV"; "PYTHONPATH"; "PYTHONHOME";
   "NODE_OPTIONS"; "RUBYOPT"; "PERL5OPT"; "GIT_ASKPASS"; "SSH_ASKPASS"; "GIT_CONFIG"; "GIT_CONFIG_";
   "AWS_"; "AZURE_"; "GOOGLE_"; "SSH_AUTH_SOCK"].

(** [denied_environment_key] *)
Definition denied_environment_key (key : string) : bool :=
  let upper := to_ascii_uppercase key in
  existsb (fun denied => String.eqb upper denied || starts_with denied upper) DENIED_KEYS.

(** [baseline_child_environment] on Unix. *)
Definition baseline_child_environment : list (string * string) :=
  [("CI", "1"); ("NO_COLOR", "1"); ("TERM", "dumb"); ("GIT_TERMINAL_PROMPT", "0"); ("PAGER", "cat");
   ("PATH", "/usr/bin:/bin"); ("LANG", "C.UTF-8"); ("LC_ALL", "C.UTF-8")].

Definition provenance_environment (p : ExecutionProvenance) : list (string * string) :=
  match prov_execution_id p with Some id => [("EGGWORK_EXECUTION_ID", id)] | None => [] end ++
  match prov_generation p with Some g => [("EGGWORK_EXECUTION_GENERATION", dec g)] | None => [] end.

(** [command.env(key, value)] on a cleared environment: a later value replaces
    an earlier one. *)
Definition set_env (env : gmap string string) (kv : string * string) : gmap string string := <[kv.1 := kv.2]> env.

(** The environment [direct_command] gives the child. *)
Definition direct_environment (r : RunnerRequest) : gmap string string :=
  let env := foldl set_env ∅ baseline_child_environment in
  let env := foldl (fun env kv => if denied_environment_key kv.1 then env else set_env env kv)
               env (rq_environment r) in
  foldl set_env env (provenance_environment (rq_provenance r)).

(** ** Results *)

Inductive TerminationReason : Type := TExited | TTimedOut | TCancelled | TOutputLimit.

Inductive ResourceDimension : Type := DimMemory | DimCpu | DimPids.

#[export] Instance ResourceDimension_eq_dec : EqDecision ResourceDimension.
Proof. solve_decision. Defined.

Record CleanupDiagnostics := {
  process_group_signal_error : option string;
  wait_error : option string;
  stdin_error : option string;
}.

Record RunnerResult := {
  rr_termination : TerminationReason;
  rr_exit_code : option Z;
  rr_stdout : BoundedCapture;
  rr_stderr : BoundedCapture;
  rr_cleanup : CleanupDiagnostics;
  rr_setup : SetupOutcome;
  rr_resource_request : ResourceSetupRequest;
  rr_resource_limits_exceeded : list ResourceDimension;
  rr_stream_chunks_dropped : Z;
  rr_provenance : ExecutionProvenance;
}.

Definition dimension_result (outcome : ResourceSetupOutcome) (exceeded : list ResourceDimension)
    (requested : bool) (kind : ResourceDimension) : ResourceDimensionResult :=
  match outcome with
  | RoNotRequested => if negb requested then DimNotRequested
                      else DimNotApplied "resource control was not requested"
  | RoNotApplied reason | RoFailed reason => if requested then DimNotApplied reason else DimNotRequested
  | RoApplied backend =>
      if requested then
        if decide (kind ∈ exceeded) then DimLimitExceeded backend else DimApplied backend
      else DimNotRequested
  end.

(** [resource_result] *)
Definition resource_result (outcome : ResourceSetupOutcome) (request : ResourceSetupRequest)
    (exceeded : list ResourceDimension) : ResourceResult :=
  {| rr_memory_bytes := dimension_result outcome exceeded (is_req (rs_memory_bytes request)) DimMemory;
     rr_cpu_millis := dimension_result outcome exceeded (is_req (rs_cpu_millis request)) DimCpu;
     rr_pids := dimension_result outcome exceeded (is_req (rs_pids request)) DimPids |}.

Definition option_or {A} (a b : option A) : option A := match a with Some _ => a | None => b end.

(** [RunnerResult::execution_result] *)
Definition execution_result (r : RunnerResult) : ExecutionResult :=
  let limited := match rr_resource_limits_exceeded r with [] => false | _ => true end in
  {| res_state :=
       if limited then Failed
       else match rr_termination r with
            | TExited => if decide (rr_exit_code r = Some 0%Z) then Succeeded else Failed
            | TTimedOut => TimedOut
            | TCancelled => Cancelled
            | TOutputLimit => Failed
            end;
     exit_code := rr_exit_code r;
     failure :=
       if limited then Some FailResourceLimit
       else match rr_termination r with
            | TOutputLimit => Some FailOutputLimit
            | TExited => match rr_exit_code r with None => Some FailInternal | Some _ => None end
            | _ => None
            end;
     stdout_bytes := total_bytes_ (rr_stdout r); stderr_bytes := total_bytes_ (rr_stderr r);
     stdout_omitted := omitted_bytes (rr_stdout r); stderr_omitted := omitted_bytes (rr_stderr r);
     cleanup_warning := option_or (process_group_signal_error (rr_cleanup r))
       (option_or (wait_error (rr_cleanup r)) (stdin_error (rr_cleanup r)));
     finalization_failure := None; artifact_count := 0;
     res_sandbox := Some match so_sandbox (rr_setup r) with
       | SoNotRequested => SandboxNotRequested
       | SoNotApplied reason => SandboxNotApplied reason
       | SoApplied profile => SandboxApplied profile
       | SoFailed reason => SandboxFailed reason
       end;
     res_resources := Some (resource_result (so_resources (rr_setup r)) (rr_resource_request r)
       (rr_resource_limits_exceeded r)) |}.

(** ** Setup never downgrades a requirement *)

(** What a prepared setup may claim for what was asked. *)
Definition honours_sandbox (sandbox : SandboxRequest) (o : SandboxOutcome) : Prop :=
  match sandbox with
  | SbNone => o = SoNotRequested
  | SbBestEffort profile => o = SoApplied profile \/ exists reason, o = SoNotApplied reason
  | SbRequired profile => o = SoApplied profile
  end.

Definition honours_resources (resources : ResourceSetupRequest) (o : ResourceSetupOutcome) : Prop :=
  if negb (is_requested resources) then o = RoNotRequested
  else if has_required resources then o = RoApplied "systemd-cgroup-v2"
  else o = RoApplied "systemd-cgroup-v2" \/ exists reason, o = RoNotApplied reason.

Lemma has_required_requested r : has_required r = true -> is_requested r = true.
Proof.
  unfold has_required, is_requested.
  destruct (rs_memory_bytes r), (rs_cpu_millis r), (rs_pids r); simpl; congruence.
Qed.

Lemma prepare_honours probe trust1 trust2 sandbox resources o :
  TrustedLandlockSetup_prepare probe trust1 trust2 sandbox resources = Ok o ->
  honours_sandbox sandbox (so_sandbox o) /\ honours_resources resources (so_resources o)
  /\ (is_applied_sandbox (so_sandbox o) = true -> trust2 = Ok tt /\ so_sandbox o = SoApplied "workspace_rw")
  /\ (is_applied_resources (so_resources o) = true -> probe = Ok tt /\ trust1 = Ok tt).
Proof.
  unfold TrustedLandlockSetup_prepare, honours_sandbox, honours_resources.
  pose proof (has_required_requested resources) as Hreq.
  destruct (is_requested resources); [|destruct (has_required resources) eqn:Hr; [by specialize (Hreq eq_refl)|]];
    destruct probe as [[]|e1], trust1 as [[]|e2], trust2 as [[]|e3]; destruct (has_required resources);
    destruct sandbox as [|p|p]; try (destruct (String.eqb_spec p "workspace_rw")); subst; simpl; intros;
    simplify_eq/=; split_and!; eauto; try done.
Qed.

(** A required sandbox or resource limit is never downgraded by setup: the
    trusted setup either fails or reports it applied, it reports something
    applied only when the backend probe and the helper's trust check passed,
    and without a configured backend every requirement is refused. *)
Theorem setup_never_downgrades (probe trust1 trust2 : result string unit) (sandbox : SandboxRequest)
    (resources : ResourceSetupRequest) :
  (forall o, TrustedLandlockSetup_prepare probe trust1 trust2 sandbox resources = Ok o ->
     honours_sandbox sandbox (so_sandbox o) /\ honours_resources resources (so_resources o)
     /\ (is_applied_sandbox (so_sandbox o) = true -> trust2 = Ok tt /\ so_sandbox o = SoApplied "workspace_rw")
     /\ (is_applied_resources (so_resources o) = true -> probe = Ok tt /\ trust1 = Ok tt))
  /\ (forall o, NoExecutionSetup_prepare sandbox resources = Ok o ->
     (forall p, sandbox <> SbRequired p) /\ has_required resources = false
     /\ is_applied_sandbox (so_sandbox o) = false /\ is_applied_resources (so_resources o) = false).
Proof.
  split; [intros o; apply prepare_honours|]. intros o. unfold NoExecutionSetup_prepare.
  destruct (has_required resources); [rewrite orb_true_r; done|].
  destruct sandbox; simpl; [..|done]; intros [= <-]; split_and!; try done; by case_match.
Qed.

(** ** Requests from specifications *)

Lemma bad_argument_spec a :
  (str_len a <= MAX_ARG_BYTES)%Z -> NUL ∉ bytes_of a -> bad_argument a = is_empty a.
Proof.
  intros H1 H2. unfold bad_argument, contains_nul.
  apply Z.ltb_ge in H1 as ->. apply contains_char_false in H2 as ->. by rewrite !orb_false_r.
Qed.

Lemma bad_environment_wf e : wf_environment_entry e -> bad_environment (env_name e, env_value e) = false.
Proof.
  intros (H1 & H2 & H3 & _ & H4 & H5). unfold bad_environment, contains_nul.
  rewrite (proj2 (Z.ltb_ge _ _)), (proj2 (Z.ltb_ge _ _)) by done. apply contains_char_false in H5 as ->.
  rewrite (proj2 (contains_char_false NUL _)), (proj2 (contains_char_false "=" _)).
  - destruct (env_name e); done.
  - intros Hin. rewrite Forall_forall in H3. by apply H3 in Hin.
  - intros Hin. rewrite Forall_forall in H3. by apply H3 in Hin.
Qed.

(** The runner accepts a translated specification (file system aside)
    exactly when no argument is the empty string: every other bound it checks
    is already guaranteed by the specification's own validation.  A valid
    specification with an empty argument is therefore refused only here. *)
Theorem from_spec_validates (spec : ExecutionSpec) (root : path) (prov : ExecutionProvenance) (r : RunnerRequest) :
  RunnerRequest_from_spec spec root prov = Ok r ->
  validate_static r = Ok tt <-> Forall (fun a => a <> EmptyString) (argv (command spec)).
Proof.
  intros H. unfold RunnerRequest_from_spec in H.
  destruct (ExecutionSpec_validate spec) as [[]|] eqn:Hv; [|done]. injection H as <-.
  apply ExecutionSpec_validate_ok in Hv as [[[Ha1 Ha2] Ha He1 He _ _ [Ht1 Ht2] Hs Hc [Hk1 Hk2] _ _ _] _ _ _].
  unfold validate_static. cbn [rq_argv rq_environment rq_capture_limit rq_event_chunk_bytes rq_timeout_millis rq_stdin].
  rewrite (proj2 (Z.eqb_neq _ _)), (proj2 (Z.ltb_ge _ _)) by lia. simpl.
  assert (existsb bad_environment ((fun e => (env_name e, env_value e)) <$> environment (command spec)) = false) as ->.
  { apply existsb_false_Forall, Forall_fmap. eapply Forall_impl; [done|]. intros e. apply bad_environment_wf. }
  unfold len in *. rewrite length_fmap. rewrite (proj2 (Z.ltb_ge _ _)) by done.
  apply Z.eqb_neq in Ht1 as ->, Hk1 as ->. apply Z.ltb_ge in Ht2 as ->, Hc as ->, Hk2 as ->. simpl.
  assert (map_err (fun e => InvalidRequest (display_runner e)) (runner_stdin_validate (stdin (command spec))) = Ok tt) as ->.
  { destruct (stdin (command spec)); [done|]. simpl. unfold len. by apply Z.ltb_ge in Hs as ->. }
  assert (existsb bad_argument (argv (command spec)) = false <->
    Forall (fun a => a <> EmptyString) (argv (command spec))) as <-; [|by destruct (existsb _ _)].
  rewrite existsb_false_Forall. clear -Ha. induction Ha as [|a l [H1 H2] Hl IH]; [by split|].
  rewrite !Forall_cons, IH, bad_argument_spec by done. destruct a; naive_solver.
Qed.

Lemma from_spec_validates_witness :
  exists r, RunnerRequest_from_spec (sample_spec sample_env) ["work"] {| prov_execution_id := None; prov_generation := None |} = Ok r
    /\ validate_static r = Ok tt.
Proof.
  eexists. split; [reflexivity|].
  refine (proj2 (from_spec_validates (sample_spec sample_env) ["work"] _ _ eq_refl) _).
  repeat constructor; discriminate.
Defined.

Lemma path_starts_with_spec p root : path_starts_with p root = true <-> exists rest, p = root ++ rest.
Proof.
  revert p. induction root as [|a root IH]; intros p; simpl; [split; [intros _; by exists p|done]|].
  destruct p as [|b p]; simpl.
  - split; [done|]. by intros [? ?].
  - rewrite andb_true_iff, String.eqb_eq, IH. naive_solver.
Qed.

(** A run starts inside its root: the working directory a validated
    request yields is an existing directory at or below the canonical root,
    whatever symbolic links the requested path goes through. *)
Theorem working_directory_confined (canonicalize : path -> result string path) (is_dir : path -> bool)
    (r : RunnerRequest) (cwd : path) :
  RunnerRequest_validate canonicalize is_dir r = Ok cwd ->
  exists root rest, canonicalize (rq_root r) = Ok root /\ is_dir root = true
    /\ cwd = root ++ rest /\ is_dir cwd = true.
Proof.
  unfold RunnerRequest_validate. destruct (validate_static r) as [[]|]; [|done].
  destruct (canonicalize (rq_root r)) as [root|] eqn:Er; [|done]. simpl.
  destruct (is_dir root) eqn:Ed; [|done]. simpl. destruct (rq_cwd r) as [rel|].
  - destruct (canonicalize (root ++ split "/" rel)) as [c|]; [|done]. simpl.
    destruct (path_starts_with c root) eqn:Ep; [|done]. destruct (is_dir c) eqn:Ec; [|done]. intros [= <-].
    apply path_starts_with_spec in Ep as [rest ->]. by exists root, rest.
  - intros [= <-]. exists root, []. by rewrite app_nil_r.
Qed.

Lemma working_directory_confined_witness :
  RunnerRequest_validate Ok (fun _ => true) (RunnerRequest_new ["true"] ["work"]) = Ok ["work"]
  /\ exists root rest, Ok (E := string) ["work"] = Ok root /\ true = true /\ ["work"] = root ++ rest /\ true = true.
Proof.
  split; [reflexivity|].
  exact (working_directory_confined Ok (fun _ => true) (RunnerRequest_new ["true"] ["work"]) ["work"] eq_refl).
Defined.

(** ** The child's environment *)

Definition last_value (k : string) (l : list (string * string)) : option string :=
  foldl (fun acc kv => if decide (kv.1 = k) then Some kv.2 else acc) None l.

Lemma last_value_from k l acc :
  foldl (fun acc kv => if decide (kv.1 = k) then Some kv.2 else acc) acc l
  = option_or (last_value k l) acc.
Proof.
  unfold last_value. revert acc. induction l as [|kv l IH]; intros acc; simpl; [done|].
  rewrite IH. rewrite (IH (if decide (kv.1 = k) then Some kv.2 else None)).
  destruct (foldl _ None l); [done|]. by case_decide.
Qed.

Lemma set_env_all env l k : foldl set_env env l !! k = option_or (last_value k l) (env !! k).
Proof.
  revert env. induction l as [|kv l IH]; intros env; simpl; [done|]. rewrite IH. unfold last_value at 2. simpl.
  rewrite last_value_from. destruct (last_value k l); [done|]. simpl. unfold set_env. case_decide as E.
  - subst. by rewrite lookup_insert_eq.
  - by rewrite lookup_insert_ne.
Qed.

Lemma set_env_allowed env l k :
  foldl (fun env kv => if denied_environment_key kv.1 then env else set_env env kv) env l !! k
  = if denied_environment_key k then env !! k else option_or (last_value k l) (env !! k).
Proof.
  revert env. induction l as [|kv l IH]; intros env; simpl; [by case_match|]. rewrite IH.
  assert (last_value k (kv :: l) = option_or (last_value k l) (if decide (kv.1 = k) then Some kv.2 else None)) as ->.
  { unfold last_value at 1. simpl. apply last_value_from. }
  unfold set_env. destruct (decide (kv.1 = k)) as [<-|E].
  - destruct (denied_environment_key kv.1); [done|]. rewrite lookup_insert_eq. by destruct (last_value _ l).
  - destruct (denied_environment_key kv.1), (denied_environment_key k); rewrite ?lookup_insert_ne by done;
      try done; by destruct (last_value _ l).
Qed.

Lemma baseline_denied k :
  denied_environment_key k = true ->
  last_value k baseline_child_environment = if decide (k = "PATH") then Some "/usr/bin:/bin" else None.
Proof.
  intros Hd. unfold last_value. cbn [foldl baseline_child_environment fst snd].
  repeat case_decide; subst; try done; by vm_compute in Hd.
Qed.

Lemma provenance_last_value p k :
  last_value k (provenance_environment p) =
  if decide (k = "EGGWORK_EXECUTION_ID") then prov_execution_id p
  else if decide (k = "EGGWORK_EXECUTION_GENERATION") then dec <$> prov_generation p
  else None.
Proof.
  unfold last_value, provenance_environment. destruct (prov_execution_id p), (prov_generation p); simpl;
    repeat case_decide; subst; done.
Qed.

Lemma direct_environment_lookup r k :
  direct_environment r !! k =
  option_or (last_value k (provenance_environment (rq_provenance r)))
    (if denied_environment_key k then last_value k baseline_child_environment
     else option_or (last_value k (rq_environment r)) (last_value k baseline_child_environment)).
Proof.
  unfold direct_environment. rewrite set_env_all, set_env_allowed, set_env_all, lookup_empty.
  f_equal. by destruct (last_value k baseline_child_environment).
Qed.

(** The caller controls neither the search path nor the loader nor the
    run's attribution: for a denied key (in any letter case, or by prefix) the
    child sees the fixed search path or nothing, the execution id and
    generation are the node's whatever the request says, and every other key
    has the request's last value or else the baseline's. *)
Theorem child_environment (r : RunnerRequest) (k : string) :
  (denied_environment_key k = true ->
     direct_environment r !! k = if decide (k = "PATH") then Some "/usr/bin:/bin" else None)
  /\ (forall id, prov_execution_id (rq_provenance r) = Some id ->
        direct_environment r !! "EGGWORK_EXECUTION_ID" = Some id)
  /\ (forall g, prov_generation (rq_provenance r) = Some g ->
        direct_environment r !! "EGGWORK_EXECUTION_GENERATION" = Some (dec g))
  /\ (denied_environment_key k = false ->
      k <> "EGGWORK_EXECUTION_ID" -> k <> "EGGWORK_EXECUTION_GENERATION" ->
      direct_environment r !! k =
        option_or (last_value k (rq_environment r)) (last_value k baseline_child_environment)).
Proof.
  split_and!.
  - intros Hd. rewrite direct_environment_lookup, Hd, baseline_denied, provenance_last_value by done.
    rewrite (decide_False (P := k = "EGGWORK_EXECUTION_ID")) by (intros ->; by vm_compute in Hd).
    by rewrite (decide_False (P := k = "EGGWORK_EXECUTION_GENERATION")) by (intros ->; by vm_compute in Hd).
  - intros id Hid. rewrite direct_environment_lookup, provenance_last_value, Hid. done.
  - intros g Hg. rewrite direct_environment_lookup, provenance_last_value, Hg. done.
  - intros Hd H1 H2. rewrite direct_environment_lookup, Hd, provenance_last_value, !decide_False by done. done.
Qed.

(** ** Results *)

Definition terminal_state (s : ExecutionState) : bool :=
  match s with Succeeded | Failed | Cancelled | TimedOut | Interrupted => true | _ => false end.

(** A finished run is reported faithfully: its state is always terminal;
    it is a success exactly when the leader exited by itself with code 0 and
    no resource limit was exceeded; a resource violation always wins; a
    failure reason is given only for failed runs; and the sandbox is reported
    applied exactly when setup applied it. *)
Theorem execution_result_faithful (r : RunnerResult) :
  let e := execution_result r in
  terminal_state (res_state e) = true
  /\ (res_state e = Succeeded <->
      rr_termination r = TExited /\ rr_exit_code r = Some 0%Z /\ rr_resource_limits_exceeded r = [])
  /\ (failure e = Some FailResourceLimit <-> rr_resource_limits_exceeded r <> [])
  /\ (is_Some (failure e) -> res_state e = Failed)
  /\ (forall p, res_sandbox e = Some (SandboxApplied p) <-> so_sandbox (rr_setup r) = SoApplied p).
Proof.
  destruct r as [t c out err cl [sb ro] req ex dr pv]. simpl.
  destruct ex as [|d ex].
  - destruct t; [destruct c as [c|]; [destruct (decide (Some c = Some 0%Z))|]|..]; simpl;
      destruct sb; split_and!; naive_solver.
  - destruct sb; split_and!; naive_solver.
Qed.

(** ** The trust check *)

Definition trusted_owner (euid : Z) (md : Metadata) : Prop := md_uid md = 0%Z \/ md_uid md = euid.

Definition no_other_writer (md : Metadata) : Prop := Z.land (md_mode md) 18 = 0%Z.

Lemma foreign_owner_false euid uid : foreign_owner euid uid = false <-> uid = 0%Z \/ uid = euid.
Proof. unfold foreign_owner. rewrite andb_false_iff, !negb_false_iff, !Z.eqb_eq. done. Qed.

Lemma writable_false mode : writable_by_others mode = false <-> Z.land mode 18 = 0%Z.
Proof. unfold writable_by_others. by rewrite negb_false_iff, Z.eqb_eq. Qed.

(** A directory nobody but root and the node's user can change, or root's
    sticky directory, where entries belong to their owners. *)
Definition trusted_ancestor (euid : Z) (md : Metadata) : Prop :=
  md_is_dir md = true
  /\ ((trusted_owner euid md /\ no_other_writer md)
      \/ (md_uid md = 0%Z /\ Z.land (md_mode md) 512 <> 0%Z)).

Lemma check_ancestor_ok metadata euid p :
  check_ancestor metadata euid p = Ok tt -> exists md, metadata p = Some md /\ trusted_ancestor euid md.
Proof.
  unfold check_ancestor. destruct (metadata p) as [md|]; [|done]. simpl. intros H.
  destruct (_ || _ || _) eqn:E; [done|]. apply orb_false_iff in E as [[Ed Ef]%orb_false_iff Ew].
  apply negb_false_iff in Ed. exists md. split; [done|]. split; [done|]. rewrite Ed in *. simpl in *.
  destruct ((md_uid md =? 0)%Z && negb (Z.land (md_mode md) 512 =? 0)%Z) eqn:Es; simpl in *.
  - right. bool_hyps. done.
  - left. rewrite andb_true_r in *. by rewrite foreign_owner_false in Ef; rewrite writable_false in Ew.
Qed.

Lemma check_ancestors_ok metadata euid fuel p :
  length p <= fuel -> check_ancestors metadata euid fuel p = Ok tt ->
  forall q rest, p = q ++ rest -> rest <> [] -> exists md, metadata q = Some md /\ trusted_ancestor euid md.
Proof.
  revert p. induction fuel as [|fuel IH]; intros p Hf Hc q rest -> Hrest.
  { rewrite length_app in Hf. destruct rest; simpl in *; [done|lia]. }
  destruct (exists_last Hrest) as (init & x & ->). rewrite app_assoc in *.
  cbn [check_ancestors] in Hc. unfold parent in Hc.
  destruct ((q ++ init) ++ [x]) as [|a l] eqn:E; [by destruct (q ++ init)|]. rewrite <- E, removelast_last in Hc.
  destruct (check_ancestor metadata euid (q ++ init)) as [[]|] eqn:Ec; [|done].
  destruct init as [|y init]; [rewrite app_nil_r in Ec; by apply check_ancestor_ok|].
  eapply IH; [|exact Hc|reflexivity|done].
  assert (length ((q ++ y :: init) ++ [x]) = length (a :: l)) as El by (by rewrite E).
  rewrite length_app in El. simpl in *. lia.
Qed.

(** A helper that passes the trust check is a regular executable file
    owned by root or the node's user and writable by no one else, in such a
    directory, and every directory above it is such a directory or root's
    sticky one: no other user can replace it. *)
Theorem trusted_helper_is_protected (symlink_metadata metadata : path -> option Metadata)
    (canonicalize : path -> option path) (euid : Z) (p : path) :
  verify_trusted_helper symlink_metadata metadata canonicalize euid p = Ok tt ->
  exists md up dir,
    symlink_metadata p = Some md /\ md_is_file md = true /\ md_is_symlink md = false
    /\ trusted_owner euid md /\ no_other_writer md /\ Z.land (md_mode md) 73 <> 0%Z
    /\ canonicalize (removelast p) = Some up /\ metadata up = Some dir /\ md_is_dir dir = true
    /\ trusted_owner euid dir /\ no_other_writer dir
    /\ forall q rest, up = q ++ rest -> rest <> [] -> exists amd, metadata q = Some amd /\ trusted_ancestor euid amd.
Proof.
  unfold verify_trusted_helper. destruct (symlink_metadata p) as [md|]; [|done]. simpl.
  destruct (_ || _ || _ || _ || _) eqn:E1; [done|]. unfold parent. destruct p as [|a p']; [done|]. cbn [ok_or].
  destruct (canonicalize (removelast (a :: p'))) as [up|]; [|done]. simpl.
  destruct (metadata up) as [dir|] eqn:Edir; [|done]. simpl.
  destruct (negb (md_is_dir dir) || _ || _) eqn:E2; [done|]. intros Hc.
  repeat match goal with E : (_ || _) = false |- _ => apply orb_false_iff in E; destruct E end.
  rewrite ?negb_false_iff in *. rewrite foreign_owner_false, writable_false in *.
  exists md, up, dir. split_and!; try done.
  - by apply Z.eqb_neq.
  - by eapply check_ancestors_ok.
Qed.

Lemma trusted_helper_is_protected_witness :
  let file := {| md_is_file := true; md_is_dir := false; md_is_symlink := false; md_uid := 0; md_mode := 493 |} in
  let dir := {| md_is_file := false; md_is_dir := true; md_is_symlink := false; md_uid := 0; md_mode := 493 |} in
  verify_trusted_helper (fun _ => Some file) (fun _ => Some dir) Some 1000 ["usr"; "bin"; "helper"] = Ok tt
  /\ trusted_owner 1000 file.
Proof.
  intros file dir.
  assert (verify_trusted_helper (fun _ => Some file) (fun _ => Some dir) Some 1000 ["usr"; "bin"; "helper"] = Ok tt) as H
    by (vm_compute; reflexivity).
  split; [exact H|].
  destruct (trusted_helper_is_protected (fun _ => Some file) (fun _ => Some dir) Some 1000 ["usr"; "bin"; "helper"] H)
    as (md & up & d & Hmd & _ & _ & Ho & _).
  injection Hmd as <-. exact Ho.
Defined.
