(* ===== verification/Sandbox.v ===== *)
(** * The sandbox helper and the run

    [eggwork-runner/src/lib.rs], lines 1282-1615 and 1743-2014, and
    [eggwork-sandbox-helper/src/main.rs]: the launch specification the runner
    hands to the sandbox helper, what the helper checks and reports on the
    status socket, how the runner reads those reports, and the whole run.

    Everything outside the two programs (file system, cgroup files, Landlock,
    process creation, pipes, timers) is an argument: the answers the run gets
    from it.  The select over cancellation, deadline, output monitor and child
    is biased; [ready] says which of them have fired when the run settles. *)

From Stdlib Require Import Ascii String ZArith Lia.
From stdpp Require Import base gmap strings list.
From S2P Require Import Prelude Text Ids Wire Spec Events Capture Runner.

(** ** The launch specification *)

Record LaunchSpec := {
  ls_schema_version : Z;
  ls_profile : option string;
  ls_root : path;
  ls_cwd : path;
  ls_argv : list string;
  ls_environment : list (string * string);
  ls_resource_memory_bytes : option Z;
  ls_resource_cpu_millis : option Z;
  ls_resource_pids : option Z;
}.

Definition MAX_SPEC_BYTES : Z := 1024 * 1024.

(** The baseline [SandboxChannel::new] starts the environment with. *)
Definition sandbox_baseline : list (string * string) :=
  [("PATH", "/usr/bin:/bin"); ("LANG", "C.UTF-8"); ("LC_ALL", "C.UTF-8"); ("CI", "1"); ("NO_COLOR", "1");
   ("TERM", "dumb"); ("GIT_TERMINAL_PROMPT", "0"); ("PAGER", "cat")].

Definition sandbox_environment (r : RunnerRequest) : list (string * string) :=
  sandbox_baseline
  ++ filter (fun kv => denied_environment_key kv.1 = false) (rq_environment r)
  ++ provenance_environment (rq_provenance r).

Section channel.
Context (canonicalize : path -> result string path) (to_vec_spec : LaunchSpec -> option bytes).

(** [SandboxChannel::new]: the specification written for the helper.  [dir_io]
    covers the temporary directory and the status socket, [file_io] writing the
    specification. *)
Definition SandboxChannel_new (r : RunnerRequest) (cwd : path) (resources_applied : bool)
    (dir_io file_io : result string unit) : result RunnerError LaunchSpec :=
  let? profile :=
    match rq_sandbox r with
    | SbBestEffort p | SbRequired p =>
        if String.eqb p "workspace_rw" then Ok (Some p) else Err (Setup "unsupported sandbox profile")
    | SbNone => if is_requested (rq_resources r) then Ok None else Err (Setup "unsupported sandbox profile")
    end in
  map_err Setup dir_io ;?
  let? root := map_err (fun _ => InvalidRoot "execution root is invalid") (canonicalize (rq_root r)) in
  let applied (q : Requirement Z) := if resources_applied then req_value q else None in
  let spec := {| ls_schema_version := 1; ls_profile := profile; ls_root := root; ls_cwd := cwd;
                 ls_argv := rq_argv r; ls_environment := sandbox_environment r;
                 ls_resource_memory_bytes := applied (rs_memory_bytes (rq_resources r));
                 ls_resource_cpu_millis := applied (rs_cpu_millis (rq_resources r));
                 ls_resource_pids := applied (rs_pids (rq_resources r)) |} in
  let? encoded := ok_or (to_vec_spec spec) (Setup "sandbox specification is invalid") in
  if (MAX_SPEC_BYTES <? len encoded)%Z then Err (Setup "sandbox specification exceeds its bound")
  else map_err Setup file_io ;? Ok spec.
End channel.

(** ** The helper *)

Section helper.

Definition helper_bad_environment (kv : string * string) : bool :=
  let '(key, value) := kv in
  is_empty key || (MAX_ENV_NAME_BYTES <? str_len key)%Z || (MAX_ENV_VALUE_BYTES <? str_len value)%Z
  || contains_char "=" key || contains_nul key || contains_nul value
  || (denied_environment_key key && negb (String.eqb key "PATH"))
  || (String.eqb key "PATH" && negb (String.eqb value "/usr/bin:/bin")).

(** The content checks of [read_spec]: status code 12. *)
Definition spec_content_ok (s : LaunchSpec) : bool :=
  negb (negb (ls_schema_version s =? 1)%Z
    || match ls_profile s with Some p => negb (String.eqb p "workspace_rw") | None => false end
    || (len (ls_argv s) =? 0)%Z || (MAX_ARG_COUNT <? len (ls_argv s))%Z
    || existsb (fun a => is_empty a || (MAX_ARG_BYTES <? str_len a)%Z || contains_nul a) (ls_argv s)
    || (MAX_ENV_COUNT <? len (ls_environment s))%Z
    || existsb helper_bad_environment (ls_environment s)
    || negb (Z.of_nat (size (list_to_set (ls_environment s).*1 : gset string)) =? len (ls_environment s))%Z).

(** What [symlink_metadata] and the opened file say about the specification. *)
Record SpecFile := {
  sf_is_file : bool;
  sf_is_symlink : bool;
  sf_owned : bool;
  sf_mode : Z;
  sf_len : Z;
  sf_opens : bool;
  sf_restat : bool;
  sf_same_inode : bool;
  sf_read : option bytes;
}.

Context (from_slice_spec : bytes -> option LaunchSpec) (canonicalize : path -> option path) (is_dir : path -> bool).

(** [read_spec]; the error is the status code. *)
Definition read_spec (f : option SpecFile) (root_opens : bool) : result Z LaunchSpec :=
  let? f := ok_or f 4%Z in
  if negb (sf_is_file f) || sf_is_symlink f || negb (sf_owned f)
     || negb (Z.land (sf_mode f) 63 =? 0)%Z || (MAX_SPEC_BYTES <? sf_len f)%Z then Err 5%Z
  else if negb (sf_opens f) then Err 6%Z
  else if negb (sf_restat f) then Err 7%Z
  else if negb (sf_same_inode f) then Err 8%Z
  else
    let? b := ok_or (sf_read f) 9%Z in
    if (MAX_SPEC_BYTES <? len b)%Z then Err 10%Z
    else
      let? spec := ok_or (from_slice_spec b) 11%Z in
      if negb (spec_content_ok spec) then Err 12%Z
      else
        let? root := ok_or (canonicalize (ls_root spec)) 13%Z in
        let? cwd := ok_or (canonicalize (ls_cwd spec)) 14%Z in
        if negb (if decide (root = ls_root spec) then true else false) || negb (is_dir root)
           || negb (path_starts_with cwd root) || negb (is_dir cwd)
        then Err 15%Z
        else if negb root_opens then Err 16%Z
        else Ok spec.

(** The cgroup files of the helper's own group, as [verify_resource_limits]
    parses them. *)
Record Cgroup := {
  cg_known : bool;
  cg_memory_max : option Z;
  cg_swap_is_zero : bool;
  cg_pids_max : option Z;
  cg_cpu_max : option (Z * Z);
}.

(** [u64::saturating_mul(1000)] *)
Definition sat_mul (a b : Z) : Z := Z.min (a * b) U64_MAX.

(** [verify_resource_limits] *)
Definition verify_resource_limits (s : LaunchSpec) (cg : Cgroup) : bool :=
  match ls_resource_memory_bytes s, ls_resource_cpu_millis s, ls_resource_pids s with
  | None, None, None => true
  | memory, cpu, pids =>
      cg_known cg
      && match memory with
         | None => true
         | Some m => match cg_memory_max cg with Some actual => (actual <=? m)%Z | None => false end
                     && cg_swap_is_zero cg
         end
      && match pids with
         | None => true
         | Some p => match cg_pids_max cg with Some actual => (actual <=? p)%Z | None => false end
         end
      && match cpu with
         | None => true
         | Some c =>
             match cg_cpu_max cg with
             | Some (quota, period) =>
                 negb ((period =? 0) || (c <? sat_mul quota 1000 / period))%Z
             | None => false
             end
         end
  end.

(** [restrict]: what Landlock reported. *)
Inductive LandlockStatus : Type :=
| LlError
| LlPartial
| LlNoNewPrivsMissing
| LlFullyEnforced.

Definition restrict (l : LandlockStatus) : result Z unit :=
  match l with
  | LlError => Err 2%Z
  | LlPartial => Err 30%Z
  | LlNoNewPrivsMissing => Err 31%Z
  | LlFullyEnforced => Ok tt
  end.

(** A counter file: its value when the helper starts and when it reports;
    [None] when it cannot be opened or parsed. *)
Record Counter := { baseline : option Z; final : option Z }.

Definition counter_exceeded (track : bool) (c : Counter) : bool :=
  if track then
    match baseline c with
    | Some b => match final c with Some v => (b <? v)%Z | None => false end
    | None => false
    end
  else false.

Definition counter_unobserved (track : bool) (c : Counter) : bool :=
  track && match baseline c with Some _ => false | None => true end.

(** [ResourceEvents::status_code] *)
Definition status_code (track_memory track_pids : bool) (memory pids : Counter) : Z :=
  Z.lor (Z.lor (if counter_exceeded track_memory memory then 1 else 0)
               (Z.shiftl (if counter_exceeded track_pids pids then 1 else 0) 1))
        ((if counter_unobserved track_memory memory || counter_unobserved track_pids pids then 1 else 0) * 4).

(** [exit_code]: the code, or 128 plus the signal. *)
Definition helper_exit_code (code signal : option Z) : Z :=
  match code with Some c => c | None => (128 + default 0 signal)%Z end.

(** The environment the helper gives the target. *)
Definition helper_environment (s : LaunchSpec) : gmap string string :=
  foldl set_env (set_env ∅ ("PATH", "/usr/bin:/bin")) (filter (fun kv => kv.1 <> "PATH") (ls_environment s)).

(** The bytes the helper writes on the status socket, in order, and its exit
    code: [run] of the helper after it has connected. *)
Definition helper_run (f : option SpecFile) (root_opens : bool) (cg : Cgroup) (ll : LandlockStatus)
    (spawns : bool) (target : option (option Z * option Z)) (memory pids : Counter) : list Z * Z :=
  match read_spec f root_opens with
  | Err code => ([code], 125%Z)
  | Ok spec =>
      if negb (verify_resource_limits spec cg) then ([2%Z], 125%Z)
      else
        match (match ls_profile spec with Some _ => restrict ll | None => Ok tt end) with
        | Err code => ([code], 125%Z)
        | Ok _ =>
            if negb spawns then ([1%Z; 0%Z], 125%Z)
            else match target with
                 | None => ([1%Z; 1%Z], 125%Z)
                 | Some (code, signal) =>
                     ([1%Z; 1%Z; status_code
                         (match ls_resource_memory_bytes spec with Some _ => true | None => false end)
                         (match ls_resource_pids spec with Some _ => true | None => false end) memory pids],
                      helper_exit_code code signal)
                 end
        end
  end.
End helper.

(** ** The runner's side of the status socket *)

(** What one [select!] of [SandboxChannel::wait] sees: cancellation, a timeout,
    a failed operation, or its value. *)
Inductive Polled (A : Type) : Type :=
| PCancelled
| PTimeout
| PFailed
| PValue (a : A).
Arguments PCancelled {A}.
Arguments PTimeout {A}.
Arguments PFailed {A}.
Arguments PValue {A} a.

Inductive SandboxWaitError : Type :=
| BeforeTarget (e : RunnerError)
| AfterTarget (e : RunnerError).

(** [SandboxWaitError::into_runner_error] *)
Definition into_runner_error (e : SandboxWaitError) : RunnerError :=
  match e with BeforeTarget e | AfterTarget e => e end.

Definition polled {A} (wrap : RunnerError -> SandboxWaitError) (p : Polled A) : result SandboxWaitError A :=
  match p with
  | PCancelled => Err (wrap CancelledBeforeSpawn)
  | PTimeout => Err (wrap (Setup "sandbox status timed out"))
  | PFailed => Err (wrap (Setup "sandbox status channel failed"))
  | PValue a => Ok a
  end.

(** [SandboxChannel::wait]: [Ok true] is [Ok(Some(session))]. *)
Definition SandboxChannel_wait (accepted : Polled unit) (first second : Polled Z)
    : result SandboxWaitError bool :=
  polled BeforeTarget accepted ;?
  let? status := polled BeforeTarget first in
  if existsb (Z.eqb status) [0; 2; 3; 30; 31]%Z then Ok false
  else if (4 <=? status)%Z then
    Err (BeforeTarget (Setup ("sandbox helper rejected its launch specification (status "
      +:+ dec status +:+ ")")))
  else if (status =? 1)%Z then
    let? target_spawned := polled AfterTarget second in
    if (target_spawned =? 1)%Z then Ok true
    else if (target_spawned =? 0)%Z then Err (AfterTarget (Spawn "sandbox target could not start"))
    else Err (AfterTarget (Setup "sandbox status was invalid"))
  else Err (BeforeTarget (Setup "sandbox status was invalid")).

(** [SandboxSession::resource_status]; [None] is a timeout or a closed socket. *)
Definition resource_status (status : option Z) : list ResourceDimension * list ResourceDimension :=
  match status with
  | None => ([], [])
  | Some s =>
      ((if negb (Z.land s 1 =? 0)%Z then [DimMemory] else [])
         ++ (if negb (Z.land s 2 =? 0)%Z then [DimPids] else []),
       if negb (Z.land s 4 =? 0)%Z then [DimMemory; DimPids] else [])
  end.

(** ** The run *)

Record ExitStatus := { es_code : option Z }.

Record TreeConvergence := {
  tc_status : option ExitStatus;
  tc_signal_error : option string;
  tc_wait_error : option string;
}.

(** What is ready when the run's [select!] settles. *)
Record Ready := {
  rd_cancelled : bool;
  rd_deadline : bool;
  rd_monitor : option bool;
  rd_child : option (result string ExitStatus);
}.

(** [monitor_termination] *)
Definition monitor_termination (overflowed : bool) : option TerminationReason :=
  if overflowed then Some TOutputLimit else None.

Definition exited (w : result string ExitStatus) : TerminationReason * option ExitStatus * option string :=
  match w with
  | Ok status => (TExited, Some status, None)
  | Err error => (TExited, None, Some error)
  end.

(** The biased [select!] and the wait after it: the first ready arm wins, a
    monitor that settled without overflow defers to the child, whose [wait]
    then answers [late]. *)
Definition settle (rd : Ready) (late : result string ExitStatus)
    : TerminationReason * option ExitStatus * option string :=
  if rd_cancelled rd then (TCancelled, None, None)
  else if rd_deadline rd then (TTimedOut, None, None)
  else
    match rd_monitor rd with
    | Some overflowed =>
        match monitor_termination overflowed with
        | Some t => (t, None, None)
        | None => exited late
        end
    | None => match rd_child rd with Some w => exited w | None => exited late end
    end.

(** Everything the run asks of its surroundings. *)
Record World := {
  w_cancelled : bool;
  w_canonicalize : path -> result string path;
  w_is_dir : path -> bool;
  w_prepare : SandboxRequest -> ResourceSetupRequest -> path -> result RunnerError SetupOutcome;
  w_helper_path : option path;
  w_channel : RunnerRequest -> path -> bool -> result RunnerError LaunchSpec;
  w_wrap : bool -> result RunnerError (option string);
  w_spawn : bool -> result string unit;
  w_handshake : result SandboxWaitError bool;
  w_stdout_pipe : bool;
  w_stderr_pipe : bool;
  w_ready : Ready;
  w_late : result string ExitStatus;
  w_resource_status : option Z;
  w_oom_kill : bool;
  w_stop_unit : option string;
  w_converge : TreeConvergence;
  w_terminate : TreeConvergence;
  w_stdin_error : option string;
  w_stdout : result string (BoundedCapture * Z);
  w_stderr : result string (BoundedCapture * Z);
}.

Definition is_required_sandbox (s : SandboxRequest) : bool := match s with SbRequired _ => true | _ => false end.
Definition is_no_sandbox (s : SandboxRequest) : bool := match s with SbNone => true | _ => false end.

(** [setup.sandbox]/[setup.resources] rewritten to [NotApplied] on a best-effort
    failure. *)
Definition not_applied (r : RunnerRequest) (setup : SetupOutcome) (sb rs : string) : SetupOutcome :=
  {| so_sandbox := if is_no_sandbox (rq_sandbox r) then so_sandbox setup else SoNotApplied sb;
     so_resources := if is_applied_resources (so_resources setup) then RoNotApplied rs else so_resources setup |}.

Definition best_effort (r : RunnerRequest) : bool :=
  negb (is_required_sandbox (rq_sandbox r)) && negb (has_required (rq_resources r)).

(** [wrap_resource_command]: the transient unit, if the outcome asks for one. *)
Definition wrap_resource_command (w : World) (second : bool) (o : ResourceSetupOutcome)
    : result RunnerError (option string) :=
  match o with
  | RoApplied backend => if String.eqb backend "systemd-cgroup-v2" then w_wrap w second else Ok None
  | _ => Ok None
  end.

(** [ProcessTree::spawn_platform] *)
Definition spawn (w : World) (second : bool) : result RunnerError unit := map_err Spawn (w_spawn w second).

(** The part of [run] up to the running target: the setup it finally has, the
    transient unit, whether the helper holds the target, and whether the
    target was started directly. *)
Record Launched := {
  la_setup : SetupOutcome;
  la_unit : option string;
  la_session : bool;
}.

Definition fall_back (w : World) (setup : SetupOutcome) : result RunnerError Launched :=
  let? unit := wrap_resource_command w true (so_resources setup) in
  spawn w true ;?
  Ok {| la_setup := setup; la_unit := unit; la_session := false |}.

Definition launch (w : World) (r : RunnerRequest) (cwd : path) : result RunnerError Launched :=
  let? setup := w_prepare w (rq_sandbox r) (rq_resources r) (rq_root r) in
  let use_helper :=
    ((negb (is_no_sandbox (rq_sandbox r)) && is_applied_sandbox (so_sandbox setup))
     || is_applied_resources (so_resources setup))
    && match w_helper_path w with Some _ => true | None => false end in
  let? (channel, setup) :=
    if use_helper then
      match w_channel w r cwd (is_applied_resources (so_resources setup)) with
      | Ok _ => Ok (true, setup)
      | Err error =>
          if best_effort r then Ok (false, not_applied r setup (display_runner error) (display_runner error))
          else Err error
      end
    else Ok (false, setup) in
  let? unit := wrap_resource_command w false (so_resources setup) in
  spawn w false ;?
  if negb channel then Ok {| la_setup := setup; la_unit := unit; la_session := false |}
  else
    match w_handshake w with
    | Ok true => Ok {| la_setup := setup; la_unit := unit; la_session := true |}
    | Ok false =>
        if best_effort r then
          fall_back w (not_applied r setup "Landlock helper could not enforce the requested profile"
            "resource helper could not verify the cgroup limits")
        else Err RequiredSetupUnavailable
    | Err (BeforeTarget error) =>
        if best_effort r && match error with CancelledBeforeSpawn => false | _ => true end
        then fall_back w (not_applied r setup (display_runner error) (display_runner error))
        else Err error
    | Err (AfterTarget error) => Err error
    end.

Definition get_or_insert {A} (o : option A) (a : A) : option A := match o with Some _ => o | None => Some a end.

(** [LocalProcessRunner::run] *)
Definition run (w : World) (r : RunnerRequest) : result RunnerError RunnerResult :=
  if w_cancelled w then Err CancelledBeforeSpawn
  else
    let? cwd := RunnerRequest_validate (w_canonicalize w) (w_is_dir w) r in
    let? l := launch w r cwd in
    if negb (w_stdout_pipe w) then Err (Io "stdout pipe missing")
    else if negb (w_stderr_pipe w) then Err (Io "stderr pipe missing")
    else
      let '(termination, status, waited) := settle (w_ready w) (w_late w) in
      let '(exceeded, unobserved) :=
        match termination with
        | TExited => if la_session l then resource_status (w_resource_status w) else ([], [])
        | _ => ([], [])
        end in
      let exceeded :=
        match la_unit l with
        | Some _ => if w_oom_kill w && negb (bool_decide (DimMemory ∈ exceeded)) then exceeded ++ [DimMemory] else exceeded
        | None => exceeded
        end in
      let setup := la_setup l in
      let resources :=
        if is_applied_resources (so_resources setup)
           && ((is_req (rs_memory_bytes (rq_resources r)) && bool_decide (DimMemory ∈ unobserved))
               || (is_req (rs_pids (rq_resources r)) && bool_decide (DimPids ∈ unobserved)))
        then RoNotApplied "installed resource limits could not be observed after exit"
        else so_resources setup in
      let cleanup_signal := match la_unit l with Some _ => w_stop_unit w | None => None end in
      let convergence :=
        match status with
        | Some s => {| tc_status := Some s; tc_signal_error := tc_signal_error (w_converge w);
                       tc_wait_error := tc_wait_error (w_converge w) |}
        | None => w_terminate w
        end in
      let cleanup :=
        {| process_group_signal_error :=
             match tc_signal_error convergence with
             | Some error => get_or_insert cleanup_signal error
             | None => cleanup_signal
             end;
           wait_error := match tc_wait_error convergence with Some error => Some error | None => waited end;
           stdin_error := match rq_stdin r with StdinBytes _ => w_stdin_error w | StdinNull => None end |} in
      let? (out, dropped_out) := map_err Io (w_stdout w) in
      let? (err, dropped_err) := map_err Io (w_stderr w) in
      Ok {| rr_termination := termination;
            rr_exit_code := tc_status convergence ≫= es_code;
            rr_stdout := out; rr_stderr := err; rr_cleanup := cleanup;
            rr_setup := {| so_sandbox := so_sandbox setup; so_resources := resources |};
            rr_resource_request := rq_resources r;
            rr_resource_limits_exceeded := exceeded;
            rr_stream_chunks_dropped := (dropped_out + dropped_err)%Z;
            rr_provenance := rq_provenance r |}.

(** *** Unix process-tree convergence *)

(** [killpg]'s answer. *)
Inductive KillAnswer : Type := KillOk | KillNoProcess | KillError (e : string).

(** [terminate_group] and [kill_group] *)
Definition terminate_group (pid : option Z) (a : KillAnswer) : result string bool :=
  match pid with
  | None => Err "child pid is unavailable"
  | Some _ => match a with KillOk => Ok true | KillNoProcess => Ok false | KillError e => Err e end
  end.
Definition kill_group (pid : option Z) (a : KillAnswer) : result string unit :=
  match pid with
  | None => Err "child pid is unavailable"
  | Some _ => match a with KillOk | KillNoProcess => Ok tt | KillError e => Err e end
  end.

(** [ProcessTree::converge_after_leader_exit] *)
Definition converge_after_leader_exit (pid : option Z) (term kill : KillAnswer) : TreeConvergence :=
  let with_error e := {| tc_status := None; tc_signal_error := e; tc_wait_error := None |} in
  match terminate_group pid term with
  | Ok true => match kill_group pid kill with Ok _ => with_error None | Err e => with_error (Some e) end
  | Ok false => with_error None
  | Err e => with_error (Some e)
  end.

(** [ProcessTree::terminate_and_reap]; [reap] is the bounded wait, [None] when
    it times out. *)
Definition terminate_and_reap (pid : option Z) (term kill : KillAnswer) (reap : option (result string ExitStatus))
    : TreeConvergence :=
  let signal_error := match terminate_group pid term with Err e => Some e | Ok _ => None end in
  let signal_error := match kill_group pid kill with
    | Err e => get_or_insert signal_error e
    | Ok _ => signal_error
    end in
  match reap with
  | Some (Ok status) => {| tc_status := Some status; tc_signal_error := signal_error; tc_wait_error := None |}
  | Some (Err e) => {| tc_status := None; tc_signal_error := signal_error; tc_wait_error := Some e |}
  | None => {| tc_status := None; tc_signal_error := signal_error;
               tc_wait_error := Some "child did not exit after SIGKILL" |}
  end.

(** ** The run never downgrades a requirement *)

Definition claims_nothing (o : SetupOutcome) : Prop :=
  is_applied_sandbox (so_sandbox o) = false /\ is_applied_resources (so_resources o) = false.

Lemma not_applied_claims_nothing r o sb rs :
  honours_sandbox (rq_sandbox r) (so_sandbox o) -> claims_nothing (not_applied r o sb rs).
Proof.
  intros Hs. split; simpl; [|by destruct (so_resources o)].
  by destruct (rq_sandbox r); simpl in *; rewrite ?Hs.
Qed.

Lemma fall_back_claims_nothing w r o sb rs l :
  honours_sandbox (rq_sandbox r) (so_sandbox o) ->
  fall_back w (not_applied r o sb rs) = Ok l -> claims_nothing (la_setup l).
Proof.
  intros Hs. unfold fall_back. destruct (wrap_resource_command _ _ _); [|done]. destruct (spawn w true); [|done].
  intros [= <-]. by apply not_applied_claims_nothing.
Qed.

(** What the setup of a launched target says: either it is the prepared one and
    the helper confirmed whatever it claims, or nothing was required and
    nothing is claimed. *)
Lemma launch_setup w r cwd l o :
  w_prepare w (rq_sandbox r) (rq_resources r) (rq_root r) = Ok o ->
  honours_sandbox (rq_sandbox r) (so_sandbox o) -> is_Some (w_helper_path w) ->
  launch w r cwd = Ok l ->
  la_setup l = o /\ (w_handshake w = Ok true \/ claims_nothing o)
  \/ best_effort r = true /\ claims_nothing (la_setup l).
Proof.
  intros Hp Hs [h Hh]. unfold launch. rewrite Hp, Hh, andb_true_r.
  destruct (_ || _) eqn:Hu; [destruct (w_channel w r cwd _) eqn:Hc|]; [|destruct (best_effort r) eqn:Hb; [|done]|];
    (destruct (wrap_resource_command _ _ _); [|done]); (destruct (spawn w false); [|done]); simpl.
  - destruct (w_handshake w) as [[]|[e|e]] eqn:Hw; [..|done].
    + intros [= <-]. left. by split; [|left].
    + destruct (best_effort r); [|done]. intros H. right. by eapply fall_back_claims_nothing in H.
    + destruct (best_effort r); [|done]. simpl. intros H. right. split; [done|].
      destruct e; try done; by eapply fall_back_claims_nothing in H.
  - intros [= <-]. right. split; [done|]. by apply not_applied_claims_nothing.
  - intros [= <-]. left. split; [done|right]. apply orb_false_iff in Hu as [Hu1 Hu2]. split; [|done].
    destruct (rq_sandbox r); simpl in *; [by rewrite Hs|done..].
Qed.

Definition UNOBSERVED : string := "installed resource limits could not be observed after exit".

Lemma run_setup w r res :
  run w r = Ok res ->
  exists cwd l, launch w r cwd = Ok l
    /\ so_sandbox (rr_setup res) = so_sandbox (la_setup l)
    /\ (so_resources (rr_setup res) = so_resources (la_setup l)
        \/ so_resources (rr_setup res) = RoNotApplied UNOBSERVED).
Proof.
  unfold run. destruct (w_cancelled w); [done|].
  destruct (RunnerRequest_validate _ _ r) as [cwd|]; [|done].
  destruct (launch w r cwd) as [l|] eqn:El; [|done].
  destruct (w_stdout_pipe w); [|done]. destruct (w_stderr_pipe w); [|done]. simpl.
  destruct (settle _ _) as [[t st] wt].
  destruct (match t with TExited => _ | _ => _ end) as [ex un].
  destruct (w_stdout w) as [[out d1]|]; [|done]. destruct (w_stderr w) as [[err d2]|]; [|done].
  simpl. intros [= <-]. exists cwd, l. split_and!; try done. simpl. destruct (_ && _); [by right|by left].
Qed.

(** C5: a whole run never downgrades a requirement: with the trusted setup and
    a configured helper, a completed run whose sandbox was required reports it
    applied, required limits are reported applied (or, after the fact, as not
    observable), and whatever is reported applied passed the trust check and
    was confirmed by the helper on the status socket. *)
Theorem run_never_downgrades (w : World) (r : RunnerRequest) (res : RunnerResult)
    (probe trust1 trust2 : result string unit) :
  (forall sb rs root, w_prepare w sb rs root = TrustedLandlockSetup_prepare probe trust1 trust2 sb rs) ->
  is_Some (w_helper_path w) ->
  run w r = Ok res ->
  (forall p, rq_sandbox r = SbRequired p -> so_sandbox (rr_setup res) = SoApplied p)
  /\ (has_required (rq_resources r) = true ->
      so_resources (rr_setup res) = RoApplied "systemd-cgroup-v2"
      \/ so_resources (rr_setup res) = RoNotApplied UNOBSERVED)
  /\ (is_applied_sandbox (so_sandbox (rr_setup res)) = true -> w_handshake w = Ok true /\ trust2 = Ok tt)
  /\ (is_applied_resources (so_resources (rr_setup res)) = true ->
      w_handshake w = Ok true /\ probe = Ok tt /\ trust1 = Ok tt).
Proof.
  intros Hp Hh Hr. destruct (run_setup w r res Hr) as (cwd & l & Hl & -> & Er).
  assert (exists o, w_prepare w (rq_sandbox r) (rq_resources r) (rq_root r) = Ok o) as [o Ho].
  { unfold launch in Hl. destruct (w_prepare _ _ _ _) as [o|]; [by exists o|done]. }
  pose proof Ho as Hho. rewrite Hp in Hho. apply prepare_honours in Hho as (Hsb & Hrs & Ht & Hpr).
  destruct (launch_setup w r cwd l o Ho Hsb Hh Hl) as [[El Hw]|[Hb [Hc1 Hc2]]].
  - rewrite El in *. split_and!.
    + intros p Hq. by rewrite Hq in Hsb.
    + intros Hq. unfold honours_resources in Hrs. rewrite (has_required_requested _ Hq), Hq in Hrs. simpl in Hrs.
      destruct Er as [->| ->]; [by left|by right].
    + intros Ha. destruct Hw as [Hw|[Hc _]]; [|congruence]. by destruct (Ht Ha).
    + destruct Er as [->| ->]; [|done]. intros Ha. destruct Hw as [Hw|[_ Hc]]; [|congruence]. by destruct (Hpr Ha).
  - unfold best_effort in Hb. rewrite Hc1. split_and!; [..|done|].
    + intros p Hq. by rewrite Hq in Hb.
    + intros Hq. by rewrite Hq, andb_false_r in Hb.
    + destruct Er as [->| ->]; [|done]. by rewrite Hc2.
Qed.

Module SandboxRun.
Definition req : RunnerRequest :=
  {| rq_argv := ["true"]; rq_root := ["work"]; rq_cwd := None; rq_environment := []; rq_stdin := StdinNull;
     rq_timeout_millis := 1000; rq_capture_limit := 64; rq_event_chunk_bytes := 16; rq_overflow := Truncate;
     rq_provenance := {| prov_execution_id := None; prov_generation := None |};
     rq_sandbox := SbRequired "workspace_rw";
     rq_resources := {| rs_memory_bytes := NotRequested; rs_cpu_millis := NotRequested; rs_pids := Required 8%Z |} |}.

Definition world : World :=
  {| w_cancelled := false; w_canonicalize := Ok; w_is_dir := fun _ => true;
     w_prepare := fun sb rs _ => TrustedLandlockSetup_prepare (Ok tt) (Ok tt) (Ok tt) sb rs;
     w_helper_path := Some ["usr"; "bin"; "eggwork-sandbox-helper"];
     w_channel := fun r cwd applied => SandboxChannel_new Ok (fun _ => Some []) r cwd applied (Ok tt) (Ok tt);
     w_wrap := fun _ => Ok (Some "eggwork-1.scope"); w_spawn := fun _ => Ok tt; w_handshake := Ok true;
     w_stdout_pipe := true; w_stderr_pipe := true;
     w_ready := {| rd_cancelled := false; rd_deadline := false; rd_monitor := None;
                   rd_child := Some (Ok {| es_code := Some 0%Z |}) |};
     w_late := Err "unused"; w_resource_status := Some 0%Z; w_oom_kill := false; w_stop_unit := None;
     w_converge := {| tc_status := None; tc_signal_error := None; tc_wait_error := None |};
     w_terminate := {| tc_status := None; tc_signal_error := None; tc_wait_error := None |};
     w_stdin_error := None; w_stdout := Ok (capture_empty, 0%Z); w_stderr := Ok (capture_empty, 0%Z) |}.
End SandboxRun.

Lemma run_never_downgrades_witness :
  exists res, run SandboxRun.world SandboxRun.req = Ok res
    /\ so_sandbox (rr_setup res) = SoApplied "workspace_rw"
    /\ (so_resources (rr_setup res) = RoApplied "systemd-cgroup-v2"
        \/ so_resources (rr_setup res) = RoNotApplied UNOBSERVED).
Proof.
  destruct (run SandboxRun.world SandboxRun.req) as [res|e] eqn:E; [|discriminate E].
  exists res. split; [reflexivity|].
  destruct (run_never_downgrades SandboxRun.world SandboxRun.req res (Ok tt) (Ok tt) (Ok tt)
    (fun _ _ _ => eq_refl) (mk_is_Some _ _ eq_refl) E) as (H1 & H2 & _).
  split; [exact (H1 "workspace_rw" eq_refl)|exact (H2 eq_refl)].
Defined.

(** ** The status protocol *)

Definition byte_at (out : list Z) (i : nat) : Polled Z :=
  match out !! i with Some b => PValue b | None => PFailed end.

Definition enforceable (spec : LaunchSpec) (cg : Cgroup) (ll : LandlockStatus) : bool :=
  verify_resource_limits spec cg
  && match ls_profile spec, ll with None, _ | Some _, LlFullyEnforced => true | _, _ => false end.

Definition rejection (code : Z) : SandboxWaitError :=
  BeforeTarget (Setup ("sandbox helper rejected its launch specification (status " +:+ dec code +:+ ")")).

Lemma read_spec_code fs cn id f ro c : read_spec fs cn id f ro = Err c -> (4 <= c <= 16)%Z.
Proof.
  unfold read_spec, ok_or. intros H.
  repeat (destruct_match_in H; simplify_eq/=); lia.
Qed.

Lemma wait_rejection c second :
  (4 <= c <= 16)%Z -> SandboxChannel_wait (PValue tt) (PValue c) second = Err (rejection c).
Proof.
  intros Hc. unfold SandboxChannel_wait. cbn [polled].
  rewrite (proj2 (existsb_false_Forall _ _)) by (repeat constructor; apply Z.eqb_neq; lia).
  by rewrite (proj2 (Z.leb_le _ _)) by lia.
Qed.

(** The bits of the third byte. *)
Lemma resource_status_code tm tp m p :
  resource_status (Some (status_code tm tp m p)) =
  ((if counter_exceeded tm m then [DimMemory] else []) ++ (if counter_exceeded tp p then [DimPids] else []),
   if counter_unobserved tm m || counter_unobserved tp p then [DimMemory; DimPids] else []).
Proof.
  unfold status_code.
  by destruct (counter_exceeded tm m), (counter_exceeded tp p), (counter_unobserved tm m), (counter_unobserved tp p).
Qed.

Definition tracks (o : option Z) : bool := match o with Some _ => true | None => false end.


(** ** The two ways to start a command agree on its environment *)

Lemma last_value_app k l1 l2 : last_value k (l1 ++ l2) = option_or (last_value k l2) (last_value k l1).
Proof. unfold last_value at 1. rewrite foldl_app. apply last_value_from. Qed.

Lemma last_value_filter (P : string -> Prop) `{Hdec : !forall k, Decision (P k)}
    `{Hdec' : !forall kv : string * string, Decision (P kv.1)} k l :
  last_value k (filter (fun kv => P kv.1) l) = if decide (P k) then last_value k l else None.
Proof.
  induction l as [|kv l IH]; [by case_decide|].
  change (kv :: l) with ([kv] ++ l). rewrite filter_app, !last_value_app, IH.
  unfold last_value at 2 4. rewrite filter_cons. destruct (decide (P kv.1)) as [Hp|Hp]; simpl;
    destruct (decide (kv.1 = k)) as [<-|Hk]; rewrite ?(decide_True (P := P kv.1)), ?(decide_False (P := P kv.1)) by done;
    try done; by destruct (decide (P k)), (last_value k l).
Qed.

Lemma baselines_agree k : last_value k sandbox_baseline = last_value k baseline_child_environment.
Proof. unfold last_value. cbn [foldl sandbox_baseline baseline_child_environment fst snd]. repeat case_decide; subst; done. Qed.

Lemma helper_environment_direct r s :
  ls_environment s = sandbox_environment r -> helper_environment s = direct_environment r.
Proof.
  intros Es. apply map_eq. intros k. unfold helper_environment.
  rewrite set_env_all, (last_value_filter (fun k => k <> "PATH")), Es, direct_environment_lookup.
  unfold sandbox_environment.
  rewrite !last_value_app, (last_value_filter (fun k => denied_environment_key k = false)), baselines_agree.
  unfold set_env. destruct (decide (k = "PATH")) as [->|Hk].
  - rewrite decide_False by naive_solver. rewrite provenance_last_value. done.
  - rewrite decide_True, lookup_insert_ne, lookup_empty by done.
    destruct (denied_environment_key k); simpl; destruct (last_value k (provenance_environment _)); simpl; try done.
    + by destruct (last_value k baseline_child_environment).
    + by destruct (last_value k (rq_environment r)), (last_value k baseline_child_environment).
Qed.

Lemma size_names_le (l : list string) : size (list_to_set l : gset string) <= length l.
Proof.
  induction l as [|x l IH]; [done|]. simpl. pose proof (size_union_alt (C := gset string) {[x]} (list_to_set l)) as E.
  rewrite E, size_singleton. assert (size ((list_to_set l : gset string) ∖ {[x]}) <= size (list_to_set l : gset string)).
  { apply subseteq_size. set_solver. } lia.
Qed.

Lemma size_names (l : list string) : size (list_to_set l : gset string) = length l <-> NoDup l.
Proof.
  split; [|apply size_list_to_set]. induction l as [|x l IH]; [constructor|]. simpl. intros E.
  destruct (decide (x ∈ l)) as [Hx|Hx].
  - assert ({[x]} ∪ list_to_set l = (list_to_set l : gset string)) as Eu by set_solver.
    rewrite Eu in E. pose proof (size_names_le l). lia.
  - rewrite size_union, size_singleton in E by set_solver. constructor; [done|]. apply IH. lia.
Qed.

Definition reserved_names (p : ExecutionProvenance) : list string :=
  sandbox_baseline.*1 ++ (provenance_environment p).*1.

(** The node's provenance: an identifier and a [u64] generation. *)
Definition wf_provenance (p : ExecutionProvenance) : Prop :=
  (forall id, prov_execution_id p = Some id -> valid_id id)
  /\ (forall g, prov_generation p = Some g -> u64_range g).

Lemma provenance_not_bad p :
  wf_provenance p -> Forall (fun kv => helper_bad_environment kv = false) (provenance_environment p).
Proof.
  intros [Hid Hg]. unfold provenance_environment. apply Forall_app. split.
  - destruct (prov_execution_id p) as [id|]; constructor; [|done]. destruct (Hid id eq_refl) as (Hn & Hl & Hb).
    unfold helper_bad_environment, contains_nul.
    rewrite (proj2 (contains_char_false NUL id)) by (by apply valid_id_no_byte).
    unfold MAX_ID_BYTES in Hl. rewrite (proj2 (Z.ltb_ge MAX_ENV_VALUE_BYTES _)); [done|].
    unfold MAX_ENV_VALUE_BYTES. lia.
  - destruct (prov_generation p) as [g|]; constructor; [|done]. destruct (Hg g eq_refl) as [H0 _].
    destruct (dec_shape g H0) as (_ & Hl & _). unfold helper_bad_environment, contains_nul.
    rewrite (proj2 (contains_char_false NUL (dec g))) by (by apply dec_no_byte).
    rewrite (proj2 (Z.ltb_ge MAX_ENV_VALUE_BYTES _)); [done|]. unfold MAX_ENV_VALUE_BYTES. lia.
Qed.

Lemma request_not_bad (l : list (string * string)) :
  Forall (fun kv => bad_environment kv = false) l ->
  Forall (fun kv => helper_bad_environment kv = false) (filter (fun kv => denied_environment_key kv.1 = false) l).
Proof.
  rewrite !Forall_forall. intros H [k v] [Hd Hin]%list_elem_of_filter. apply H in Hin. simpl in Hd.
  unfold bad_environment in Hin. unfold helper_bad_environment. rewrite Hd.
  destruct (String.eqb_spec k "PATH") as [->|]; [by vm_compute in Hd|].
  repeat match goal with E : (_ || _) = false |- _ => apply orb_false_iff in E; destruct E end.
  by repeat match goal with E : _ = false |- _ => rewrite E; clear E end.
Qed.

Definition allowed_names (r : RunnerRequest) : list string :=
  (filter (fun kv => denied_environment_key kv.1 = false) (rq_environment r)).*1.

Lemma sandbox_names_nodup r :
  NoDup (rq_environment r).*1 ->
  NoDup (sandbox_environment r).*1 <->
  Forall (fun k => k ∉ reserved_names (rq_provenance r)) (allowed_names r).
Proof.
  intros Hnd. unfold sandbox_environment, reserved_names. rewrite !fmap_app. fold (allowed_names r).
  assert (NoDup (allowed_names r)) as Ha.
  { eapply sublist_NoDup; [exact Hnd|]. apply fmap_sublist, sublist_filter. }
  assert (NoDup (provenance_environment (rq_provenance r)).*1) as Hp.
  { unfold provenance_environment. destruct (prov_execution_id _), (prov_generation _); simpl;
      apply NoDup_ListNoDup; repeat constructor; simpl; naive_solver. }
  assert (NoDup sandbox_baseline.*1) as Hb by (apply (bool_decide_unpack _); vm_compute; exact I).
  assert (forall x, x ∈ sandbox_baseline.*1 -> x ∉ (provenance_environment (rq_provenance r)).*1) as Hbp.
  { intros x Hx Hin. unfold provenance_environment in Hin.
    assert (x = "EGGWORK_EXECUTION_ID" \/ x = "EGGWORK_EXECUTION_GENERATION") as Ex.
    { destruct (prov_execution_id _), (prov_generation _); simpl in Hin; rewrite ?elem_of_cons, elem_of_nil in Hin;
        tauto. }
    destruct Ex as [->| ->]; apply (bool_decide_pack _) in Hx; by vm_compute in Hx. }
  rewrite !NoDup_app, Forall_forall. setoid_rewrite elem_of_app. split.
  - intros (_ & H1 & _ & H2 & _) x Hx [Hin|Hin]; [by apply (H1 x Hin); left|by apply (H2 x Hx)].
  - intros H. split_and!; try done.
    + intros x Hx [Hin|Hin]; [by apply (H x Hin); left|by apply (Hbp x Hx)].
    + intros x Hx Hin. by apply (H x Hx); right.
Qed.

Lemma content_ok_env s :
  spec_content_ok s = true <->
  (ls_schema_version s = 1%Z /\ (forall p, ls_profile s = Some p -> p = "workspace_rw"))
  /\ (1 <= len (ls_argv s) <= MAX_ARG_COUNT)%Z /\ Forall (fun a => bad_argument a = false) (ls_argv s)
  /\ (len (ls_environment s) <= MAX_ENV_COUNT)%Z
  /\ Forall (fun kv => helper_bad_environment kv = false) (ls_environment s)
  /\ NoDup (ls_environment s).*1.
Proof.
  unfold spec_content_ok. rewrite negb_true_iff, !orb_false_iff, !negb_false_iff, !existsb_false_Forall.
  fold bad_argument. rewrite <- size_names, length_fmap, !Z.eqb_eq, !Z.ltb_ge, Z.eqb_neq. unfold len.
  split.
  - intros [[[[[[[Hv Hp] H1] H2] H3] H4] H5] H6]. split_and!; try done; try lia.
    intros p E. rewrite E in Hp. by apply negb_false_iff, String.eqb_eq in Hp.
  - intros ([Hv Hp] & H1 & H2 & H3 & H4 & H5). split_and!; try done; try lia.
    destruct (ls_profile s) as [p|]; [|done]. by rewrite (Hp p eq_refl).
Qed.

Lemma SandboxChannel_new_spec canonicalize to_vec_spec r cwd applied dir_io file_io ls :
  SandboxChannel_new canonicalize to_vec_spec r cwd applied dir_io file_io = Ok ls ->
  ls_argv ls = rq_argv r /\ ls_environment ls = sandbox_environment r
  /\ ls_schema_version ls = 1%Z /\ (forall p, ls_profile ls = Some p -> p = "workspace_rw").
Proof.
  unfold SandboxChannel_new. intros H.
  destruct (rq_sandbox r) as [|q|q];
    [destruct (is_requested (rq_resources r)); [|done]|destruct (String.eqb_spec q "workspace_rw"); [|done]..];
    (destruct (map_err Setup dir_io); [|done]); (destruct (map_err _ (canonicalize _)); [|done]);
    (destruct (ok_or (to_vec_spec _) _); [|done]); (destruct (_ <? _)%Z; [done|]);
    (destruct (map_err Setup file_io); [|done]); injection H as <-; split_and!; naive_solver.
Qed.

(** C39: when the helper accepts what the runner hands it.  For a command from
    a valid specification, the helper's content check passes exactly when no
    argument is empty, no (not denied) variable of the request is one the node
    sets itself, and the combined environment stays within 256 entries; and
    then the target's environment is exactly the one it would have without the
    sandbox.  A valid specification that sets [TERM], [LANG], [CI] or another
    baseline variable is therefore refused under a sandbox, and runs without one. *)
Theorem sandbox_accepts_exactly canonicalize to_vec_spec (spec : ExecutionSpec) (root cwd : path)
    (prov : ExecutionProvenance) (r : RunnerRequest) (applied : bool) (ls : LaunchSpec) :
  RunnerRequest_from_spec spec root prov = Ok r -> wf_provenance prov ->
  SandboxChannel_new canonicalize to_vec_spec r cwd applied (Ok tt) (Ok tt) = Ok ls ->
  (spec_content_ok ls = true <->
     Forall (fun a => a <> EmptyString) (argv (command spec))
     /\ Forall (fun k => k ∉ reserved_names prov) (allowed_names r)
     /\ (len (sandbox_environment r) <= MAX_ENV_COUNT)%Z)
  /\ helper_environment ls = direct_environment r.
Proof.
  intros Hr Hp Hc. unfold RunnerRequest_from_spec in Hr.
  destruct (ExecutionSpec_validate spec) as [[]|] eqn:Hv; [|done]. simpl in Hr. apply ExecutionSpec_validate_ok in Hv.
  assert (ls_argv ls = rq_argv r /\ ls_environment ls = sandbox_environment r
    /\ ls_schema_version ls = 1%Z /\ (forall p, ls_profile ls = Some p -> p = "workspace_rw")) as (Ea & Ee & Es & Epr).
  { by eapply SandboxChannel_new_spec. }
  split; [|by apply helper_environment_direct]. destruct Hv as [[Ha1 Ha2 He1 He2 Hnd _ _ _ _ _ _ _ _] _ _ _].
  assert (rq_argv r = argv (command spec) /\ rq_provenance r = prov
    /\ rq_environment r = (fun e => (env_name e, env_value e)) <$> environment (command spec)) as (E1 & E2 & E3)
    by (by injection Hr as <-). clear Hr Hc.
  rewrite content_ok_env, Ea, Ee, Es, E1, sandbox_names_nodup, E2
    by (rewrite E3, <- list_fmap_compose; exact Hnd).
  assert (Forall (fun a => bad_argument a = false) (argv (command spec)) <->
          Forall (fun a => a <> EmptyString) (argv (command spec))) as ->.
  { clear -Ha2. induction Ha2 as [|a l [H1 H2] Hl IH]; [by split|].
    rewrite !Forall_cons, IH, bad_argument_spec by done. destruct a; naive_solver. }
  assert (Forall (fun kv => helper_bad_environment kv = false) (sandbox_environment r)) as Hne.
  { unfold sandbox_environment. rewrite !Forall_app, E2. split_and!.
    - repeat constructor.
    - apply request_not_bad. rewrite E3. apply Forall_fmap. eapply Forall_impl; [exact He2|].
      intros e. apply bad_environment_wf.
    - by apply provenance_not_bad. }
  naive_solver.
Qed.

Module SandboxEnv.
(** A sandboxed specification with the environment [env]. *)
Definition isolated (env : list EnvironmentEntry) : ExecutionSpec :=
  let s := sample_spec env in
  {| schema_version := schema_version s;
     command := {|
       argv := argv (command s); cwd := cwd (command s); environment := env; stdin := stdin (command s);
       timeout_millis := timeout_millis (command s); output := output (command s);
       declared_outputs := declared_outputs (command s); resources := resources (command s);
       isolation := IsolationRequired; network := network (command s) |};
     metadata := metadata s |}.

Definition prov : ExecutionProvenance := {| prov_execution_id := Some "e-1"; prov_generation := Some 7%Z |}.

Definition launch_spec (env : list EnvironmentEntry) : result RunnerError (RunnerRequest * LaunchSpec) :=
  let? r := RunnerRequest_from_spec (isolated env) ["work"] prov in
  let? ls := SandboxChannel_new Ok (fun _ => Some []) r ["work"] false (Ok tt) (Ok tt) in
  Ok (r, ls).
End SandboxEnv.

Lemma sandbox_accepts_exactly_witness :
  exists r ls, SandboxEnv.launch_spec sample_env = Ok (r, ls)
    /\ helper_environment ls = direct_environment r.
Proof.
  eexists _, _. split; [reflexivity|].
  refine (proj2 (sandbox_accepts_exactly Ok (fun _ => Some []) (SandboxEnv.isolated sample_env) ["work"] ["work"]
    SandboxEnv.prov _ false _ eq_refl _ eq_refl)).
  split; intros ? [= <-]; [|by vm_compute]. split_and!; [done|by vm_compute|]. by repeat constructor.
Defined.

(** A valid specification that sets [TERM]: accepted by the core and by the
    runner, refused by the helper. *)
Example sandbox_refuses_term :
  let env := [{| env_name := "TERM"; env_value := "xterm" |}] in
  ExecutionSpec_validate (SandboxEnv.isolated env) = Ok tt
  /\ exists r ls, SandboxEnv.launch_spec env = Ok (r, ls) /\ validate_static r = Ok tt /\ spec_content_ok ls = false.
Proof. intros env. split; [reflexivity|]. eexists _, _. split_and!; reflexivity. Qed.
