(* ===== verification/Systemd.v ===== *)
(** * Resource limits and capability probes

    [eggwork-runner/src/lib.rs], lines 298-493, 621-722 and 1740-1756, and
    [restrict] of [eggwork-sandbox-helper/src/main.rs]: the commands the runner
    starts, the systemd backend that puts them under cgroup limits, and the
    live probes behind the capabilities a node advertises.

    The machine (file system, clock, environment of the node, processes) is the
    record [Machine] of its answers at one moment; the calls of a run are made
    at different moments, so each takes its own.  The Landlock library is a
    parameter of its section. *)

From Stdlib Require Import Ascii String ZArith Lia.
From stdpp Require Import base gmap strings list.
From S2P Require Import Prelude Text Ids Wire Std Spec Events Capture Runner Sandbox.

#[local] Open Scope string_scope.
#[local] Open Scope list_scope.

(** ** Commands *)

Inductive Stdio : Type := StdioInherit | StdioPiped | StdioNull.

(** [tokio::process::Command], as far as the runner sets it. *)
Record Command := {
  cm_program : string;
  cm_args : list string;
  cm_env_clear : bool;
  cm_envs : gmap string string;
  cm_current_dir : option path;
  cm_stdin : Stdio;
  cm_stdout : Stdio;
  cm_stderr : Stdio;
  cm_process_group : option Z;
  cm_kill_on_drop : bool;
}.

(** An absolute path as an argument. *)
Definition path_arg (p : path) : string := "/" +:+ String.concat "/" p.

(** [direct_command], for an argument list that is not empty. *)
Definition direct_command (r : RunnerRequest) (cwd : path) : Command :=
  {| cm_program := hd EmptyString (rq_argv r); cm_args := tl (rq_argv r); cm_env_clear := true;
     cm_envs := direct_environment r; cm_current_dir := Some cwd;
     cm_stdin := StdioPiped; cm_stdout := StdioPiped; cm_stderr := StdioPiped;
     cm_process_group := None; cm_kill_on_drop := true |}.

(** [SandboxChannel::command], the files in the channel's directory. *)
Definition SandboxChannel_command (helper_path directory : path) : Command :=
  {| cm_program := path_arg helper_path;
     cm_args := ["--spec"; path_arg (directory ++ ["spec.json"]); "--status"; path_arg (directory ++ ["status.sock"])];
     cm_env_clear := true;
     cm_envs := foldl set_env ∅ [("PATH", "/usr/bin:/bin"); ("LANG", "C.UTF-8"); ("LC_ALL", "C.UTF-8")];
     cm_current_dir := Some directory;
     cm_stdin := StdioPiped; cm_stdout := StdioPiped; cm_stderr := StdioPiped;
     cm_process_group := None; cm_kill_on_drop := true |}.

(** ** The machine *)

(** What became of a command that was waited for up to a limit. *)
Inductive Spawned : Type :=
| SpawnFailed
| Waited (success : bool) (stdout : string)
| WaitFailed
| WaitTimedOut.

Record Machine := {
  mc_canonicalize : string -> option path;
  mc_symlink_metadata : path -> option Metadata;
  mc_euid : Z;
  mc_var : string -> option string;
  mc_pid : Z;
  mc_nanos : Z;
  mc_run : Command -> Z -> Spawned;
}.

(** ** The systemd backend *)

Record SystemdCgroupBackend := {
  sb_systemd_run : path;
  sb_user_manager : bool;
}.

(** [resource_unit_name] *)
Definition resource_unit_name (m : Machine) : string :=
  "eggwork-" +:+ dec (mc_pid m) +:+ "-" +:+ dec (mc_nanos m) +:+ ".scope".

(** The check [discover] and [systemctl_path] make of a system program. *)
Definition trusted_program (md : Metadata) : bool :=
  md_is_file md && (md_uid md =? 0)%Z && negb (writable_by_others (md_mode md)) && negb (Z.land (md_mode md) 73 =? 0)%Z.

Fixpoint find_map {A B} (f : A -> option B) (l : list A) : option B :=
  match l with
  | [] => None
  | x :: l => match f x with Some y => Some y | None => find_map f l end
  end.

Definition UNAVAILABLE : string := "systemd transient resource backend is unavailable".

Definition discover (m : Machine) : result string SystemdCgroupBackend :=
  let? systemd_run := ok_or (find_map (mc_canonicalize m) ["/usr/bin/systemd-run"; "/bin/systemd-run"]) UNAVAILABLE in
  let? metadata := ok_or (mc_symlink_metadata m systemd_run) UNAVAILABLE in
  if negb (trusted_program metadata) then Err "systemd transient resource backend failed trust checks"
  else Ok {| sb_systemd_run := systemd_run; sb_user_manager := negb (mc_euid m =? 0)%Z |}.

(** [Command::new], nothing set. *)
Definition Command_new (program : string) (args : list string) : Command :=
  {| cm_program := program; cm_args := args; cm_env_clear := false; cm_envs := ∅; cm_current_dir := None;
     cm_stdin := StdioInherit; cm_stdout := StdioInherit; cm_stderr := StdioInherit;
     cm_process_group := None; cm_kill_on_drop := false |}.

(** [add_manager_arg] *)
Definition manager_arg (b : SystemdCgroupBackend) : list string := if sb_user_manager b then ["--user"] else [].

Definition base_command (b : SystemdCgroupBackend) : Command := Command_new (path_arg (sb_systemd_run b)) (manager_arg b).

Definition property_arg (kv : string * string) : string := "--property=" +:+ kv.1 +:+ "=" +:+ kv.2.

(** [SystemdCgroupBackend::probe] *)
Definition probe_command (m : Machine) (b : SystemdCgroupBackend) (resources : ResourceSetupRequest) : Command :=
  let base := base_command b in
  {| cm_program := cm_program base;
     cm_args := cm_args base ++ ["--scope"; "--quiet"; "--collect"; "--unit=" +:+ resource_unit_name m]
                ++ (property_arg <$> properties resources) ++ ["--"; "/usr/bin/true"];
     cm_env_clear := false; cm_envs := ∅; cm_current_dir := None;
     cm_stdin := StdioNull; cm_stdout := StdioNull; cm_stderr := StdioNull;
     cm_process_group := Some 0%Z; cm_kill_on_drop := true |}.

Definition probe (m : Machine) (resources : ResourceSetupRequest) : result string unit :=
  let? backend := discover m in
  match mc_run m (probe_command m backend resources) 5 with
  | SpawnFailed => Err UNAVAILABLE
  | Waited true _ => Ok tt
  | Waited false _ | WaitFailed => Err "systemd could not establish the requested cgroup limits"
  | WaitTimedOut => Err "systemd resource capability probe timed out"
  end.

(** The node's own variables a wrapped command keeps. *)
Definition PASSED_VARIABLES : list string := ["DBUS_SESSION_BUS_ADDRESS"; "XDG_RUNTIME_DIR"; "HOME"].

Definition passed_environment (m : Machine) : gmap string string :=
  foldl (fun env key => match mc_var m key with Some value => <[key := value]> env | None => env end) ∅ PASSED_VARIABLES.

(** [SystemdCgroupBackend::wrap]: the inner command's own variables are set
    last. *)
Definition wrap (m : Machine) (b : SystemdCgroupBackend) (inner : Command) (resources : ResourceSetupRequest)
    : result RunnerError (Command * string) :=
  let? cwd := ok_or (cm_current_dir inner) (Setup "resource command cwd is unavailable") in
  let unit := resource_unit_name m in
  let base := base_command b in
  Ok ({| cm_program := cm_program base;
         cm_args := cm_args base ++ ["--scope"; "--quiet"; "--unit=" +:+ unit; "--working-directory"; path_arg cwd]
                    ++ (property_arg <$> properties resources) ++ "--" :: cm_program inner :: cm_args inner;
         cm_env_clear := true;
         cm_envs := cm_envs inner ∪ <["PATH" := "/usr/bin:/bin"]> (passed_environment m);
         cm_current_dir := Some cwd;
         cm_stdin := StdioPiped; cm_stdout := StdioPiped; cm_stderr := StdioPiped;
         cm_process_group := None; cm_kill_on_drop := true |}, unit).

(** [wrap_resource_command] on a command. *)
Definition wrap_command (m : Machine) (command : Command) (resources : ResourceSetupRequest)
    : result RunnerError (Command * string) :=
  let? backend := map_err Setup (discover m) in
  wrap m backend command resources.

Definition systemctl_path (m : Machine) : option path :=
  systemctl ← find_map (mc_canonicalize m) ["/usr/bin/systemctl"; "/bin/systemctl"];
  metadata ← mc_symlink_metadata m systemctl;
  if negb (trusted_program metadata) then None else Some systemctl.

Definition systemctl_command (b : SystemdCgroupBackend) (systemctl : path) (args : list string) (stdout : Stdio) : Command :=
  {| cm_program := path_arg systemctl; cm_args := manager_arg b ++ args; cm_env_clear := false; cm_envs := ∅;
     cm_current_dir := None; cm_stdin := StdioInherit; cm_stdout := stdout; cm_stderr := StdioNull;
     cm_process_group := None; cm_kill_on_drop := true |}.

(** [unit_result] *)
Definition unit_result (m : Machine) (b : SystemdCgroupBackend) (unit : string) : option string :=
  systemctl ← systemctl_path m;
  match mc_run m (systemctl_command b systemctl ["show"; unit; "--property=Result"; "--value"] StdioPiped) 1 with
  | Waited true stdout =>
      text ← from_utf8 stdout;
      let result := Std.trim text in
      if is_empty result then None else Some result
  | _ => None
  end.

(** [stop_unit] *)
Definition stop_unit (m : Machine) (b : SystemdCgroupBackend) (name : string) : result string unit :=
  let? systemctl := ok_or (systemctl_path m) "systemd cleanup command is unavailable" in
  match mc_run m (systemctl_command b systemctl ["stop"; name] StdioNull) 2 with
  | Waited true _ => Ok tt
  | SpawnFailed | Waited false _ | WaitFailed => Err "systemd scope cleanup failed"
  | WaitTimedOut => Err "systemd scope cleanup timed out"
  end.

(** ** A run on a machine *)

(** The moments at which a run asks the machine. *)
Record Moments := {
  at_prepare : Machine;
  at_wrap : Machine;
  at_fallback : Machine;
  at_result : Machine;
  at_stop : Machine;
}.

(** The command a launch starts first: the helper when the channel exists. *)
Definition first_command (w : World) (r : RunnerRequest) (cwd helper directory : path) (applied : bool) : Command :=
  match w_channel w r cwd applied with
  | Ok _ => SandboxChannel_command helper directory
  | Err _ => direct_command r cwd
  end.

Definition oom_killed (m : Machine) (name : string) : bool :=
  match discover m with
  | Ok backend => bool_decide (unit_result m backend name = Some "oom-kill")
  | Err _ => false
  end.

Definition cleanup_warning (m : Machine) (name : string) : option string :=
  match discover m with
  | Ok backend => match stop_unit m backend name with Err e => Some e | Ok _ => None end
  | Err _ => Some "systemd scope cleanup was unavailable"
  end.

(** The surroundings of a run with [TrustedLandlockSetup]: what concerns
    systemd is asked of the machine, the rest is as in [w].  [cwd] is the
    validated working directory and [directory] the channel's. *)
Definition systemd_world (w : World) (ms : Moments) (trust1 trust2 : result string unit) (helper directory : path)
    (r : RunnerRequest) (cwd : path) : World :=
  let unit_of (c : result RunnerError (Command * string)) := let? (_, name) := c in Ok (Some name) in
  {| w_cancelled := w_cancelled w; w_canonicalize := w_canonicalize w; w_is_dir := w_is_dir w;
     w_prepare := fun sb rs _ => TrustedLandlockSetup_prepare (probe (at_prepare ms) rs) trust1 trust2 sb rs;
     w_helper_path := Some helper;
     w_channel := w_channel w;
     w_wrap := fun second =>
       if second then unit_of (wrap_command (at_fallback ms) (direct_command r cwd) (rq_resources r))
       else unit_of (wrap_command (at_wrap ms) (first_command w r cwd helper directory true) (rq_resources r));
     w_spawn := w_spawn w; w_handshake := w_handshake w;
     w_stdout_pipe := w_stdout_pipe w; w_stderr_pipe := w_stderr_pipe w;
     w_ready := w_ready w; w_late := w_late w; w_resource_status := w_resource_status w;
     w_oom_kill := oom_killed (at_result ms) (resource_unit_name (at_wrap ms));
     w_stop_unit := cleanup_warning (at_stop ms) (resource_unit_name (at_wrap ms));
     w_converge := w_converge w; w_terminate := w_terminate w; w_stdin_error := w_stdin_error w;
     w_stdout := w_stdout w; w_stderr := w_stderr w |}.

(** ** What systemd is told *)

(** The options of a [systemd-run] command line, and the command after the
    first double dash. *)
Fixpoint split_dashes (args : list string) : option (list string * list string) :=
  match args with
  | [] => None
  | a :: rest =>
      if String.eqb a "--" then Some ([], rest)
      else '(options, command) ← split_dashes rest; Some (a :: options, command)
  end.

(** The value a property is set to. *)
Definition property_value (name : string) (options : list string) : option string :=
  find_map (strip_prefix ("--property=" +:+ name +:+ "=")) options.

(** A percentage with one decimal, in tenths of a percent. *)
Definition parse_tenths (s : string) : option Z :=
  '(whole, rest) ← split_once "."%char s;
  '(tenth, tail) ← split_once "%"%char rest;
  w ← parse_u64 whole; t ← parse_u64 tenth;
  if is_empty tail then Some (w * 10 + t)%Z else None.

(** Bytes of memory, thousandths of a processor and tasks. *)
Definition limits_of (options : list string) : option Z * option Z * option Z :=
  (property_value "MemoryMax" options ≫= parse_u64,
   property_value "CPUQuota" options ≫= parse_tenths,
   property_value "TasksMax" options ≫= parse_u64).

Definition requested_limits (r : ResourceSetupRequest) : option Z * option Z * option Z :=
  (req_value (rs_memory_bytes r), req_value (rs_cpu_millis r), req_value (rs_pids r)).

Definition u64_limits (r : ResourceSetupRequest) : Prop :=
  forall z, req_value (rs_memory_bytes r) = Some z \/ req_value (rs_cpu_millis r) = Some z \/ req_value (rs_pids r) = Some z ->
  u64_range z.

Lemma parse_tenths_quota z :
  u64_range z -> parse_tenths (dec (z `div` 10)%Z +:+ "." +:+ dec (z `mod` 10)%Z +:+ "%") = Some z.
Proof.
  intros Hz. unfold u64_range in Hz. pose proof (Z.mod_pos_bound z 10 ltac:(lia)) as Hm. pose proof (Z.div_mod z 10 ltac:(lia)) as Hd.
  assert (0 <= z `div` 10)%Z as Hq by (apply Z.div_pos; lia).
  unfold parse_tenths. change ("." +:+ ?s) with (String "."%char s).
  rewrite split_once_app by (by apply dec_no_byte). cbn [mbind option_bind].
  change ("%") with (String "%"%char EmptyString). rewrite split_once_app by (apply dec_no_byte; [lia|done]). cbn [mbind option_bind].
  rewrite !parse_dec by (unfold u64_range; lia). cbn. f_equal. lia.
Qed.

Lemma strip_prefix_app p q s : strip_prefix (p +:+ q) s = strip_prefix p s ≫= strip_prefix q.
Proof.
  revert s. induction p as [|a p IH]; intros s; [by destruct s|]. rewrite str_app_cons.
  destruct s as [|b s]; [done|]. cbn [strip_prefix]. destruct (Ascii.eqb a b); [apply IH|done].
Qed.

Lemma find_map_skip {A B} (f : A -> option B) before l : Forall (fun a => f a = None) before -> find_map f (before ++ l) = find_map f l.
Proof. induction 1 as [|a before Ha Hb IH]; [done|]. cbn. by rewrite Ha. Qed.

Lemma property_value_skip name before l :
  Forall (fun o => starts_with "--property=" o = false) before -> property_value name (before ++ l) = property_value name l.
Proof.
  intros Hb. apply find_map_skip. eapply Forall_impl; [exact Hb|]. intros o Ho. cbn beta. rewrite strip_prefix_app.
  unfold starts_with in Ho. by destruct (strip_prefix "--property=" o).
Qed.

Lemma strip_prefix_self p s : strip_prefix p (p +:+ s) = Some s.
Proof. induction p as [|a p IH]; [by destruct s|]. rewrite str_app_cons. cbn. by rewrite Ascii.eqb_refl. Qed.

Lemma strip_name name k v :
  "="%char ∉ bytes_of name -> "="%char ∉ bytes_of k ->
  strip_prefix name (k +:+ "=" +:+ v) ≫= strip_prefix "=" = if String.eqb k name then Some v else None.
Proof.
  revert k. induction name as [|a name IH]; intros [|b k] Hn Hk.
  - rewrite str_app_nil_l, str_app_cons, str_app_nil_l. cbn. by destruct v.
  - rewrite str_app_cons. apply not_elem_of_cons in Hk as [Hb _]. cbn [strip_prefix mbind option_bind String.eqb].
    destruct (Ascii.eqb_spec "="%char b); [congruence|done].
  - rewrite str_app_nil_l, str_app_cons. apply not_elem_of_cons in Hn as [Ha _]. cbn [strip_prefix String.eqb].
    destruct (Ascii.eqb_spec a "="%char); [congruence|done].
  - rewrite str_app_cons. apply not_elem_of_cons in Hn as [_ Hn], Hk as [_ Hk]. cbn [strip_prefix String.eqb].
    rewrite Ascii.eqb_sym. destruct (Ascii.eqb b a); [by apply IH|done].
Qed.

Lemma strip_property name k v :
  "="%char ∉ bytes_of name -> "="%char ∉ bytes_of k ->
  strip_prefix ("--property=" +:+ name +:+ "=") (property_arg (k, v)) = if String.eqb k name then Some v else None.
Proof.
  intros Hn Hk. unfold property_arg. cbn [fst snd]. rewrite strip_prefix_app, strip_prefix_self. cbn [mbind option_bind].
  rewrite strip_prefix_app. by apply strip_name.
Qed.

(** The properties set on the unit are the limits that were requested. *)
Lemma limits_of_properties r before :
  u64_limits r -> Forall (fun o => starts_with "--property=" o = false) before ->
  limits_of (before ++ (property_arg <$> properties r)) = requested_limits r.
Proof.
  intros Hr Hb. unfold limits_of, requested_limits. rewrite !property_value_skip by done. unfold u64_limits in Hr.
  unfold properties, property_value.
  destruct (req_value (rs_memory_bytes r)) as [v1|], (req_value (rs_cpu_millis r)) as [v2|], (req_value (rs_pids r)) as [v3|];
    cbn [app fmap list_fmap find_map]; repeat rewrite strip_property by (apply (bool_decide_unpack _); reflexivity);
    cbn [String.eqb Ascii.eqb Bool.eqb mbind option_bind].
  all: repeat match goal with
    | |- context [parse_u64 (dec ?v)] => rewrite (parse_dec v) by (apply Hr; auto)
    | |- context [parse_tenths ?q] => rewrite (parse_tenths_quota v2) by (apply Hr; auto)
    end.
  all: done.
Qed.

(** ** Wrapped commands *)

Lemma split_dashes_app options command :
  Forall (fun o => o <> "--") options -> split_dashes (options ++ "--" :: command) = Some (options, command).
Proof.
  induction 1 as [|o options Ho Hs IH]; [done|]. cbn [app split_dashes]. destruct (String.eqb_spec o "--"); [done|].
  by rewrite IH.
Qed.

(** The options of a wrapped command. *)
Definition scope_options (m : Machine) (b : SystemdCgroupBackend) (cwd : path) : list string :=
  manager_arg b ++ ["--scope"; "--quiet"; "--unit=" +:+ resource_unit_name m; "--working-directory"; path_arg cwd].

Lemma scope_options_plain m b cwd :
  Forall (fun o => o <> "--" /\ starts_with "--property=" o = false) (scope_options m b cwd).
Proof.
  unfold scope_options, manager_arg. apply Forall_app. split; [by destruct (sb_user_manager b); repeat constructor|].
  repeat constructor; unfold path_arg; rewrite ?str_app_cons; done.
Qed.

Lemma property_arg_plain kv : property_arg kv <> "--".
Proof. unfold property_arg. by rewrite !str_app_cons. Qed.

Lemma user_option m b cwd props :
  "--user" ∈ scope_options m b cwd ++ (property_arg <$> props) <-> sb_user_manager b = true.
Proof.
  unfold scope_options, manager_arg. destruct (sb_user_manager b); cbn [app]; split; try done; [intros _; left|].
  intros Hin. exfalso. assert (Hno : Forall (fun o => o <> "--user")
    (["--scope"; "--quiet"; "--unit=" +:+ resource_unit_name m; "--working-directory"; path_arg cwd] ++ (property_arg <$> props))).
  { apply Forall_app. split; [repeat constructor; unfold path_arg; by rewrite ?str_app_cons|].
    apply Forall_fmap, Forall_true. intros kv. unfold compose, property_arg. by rewrite !str_app_cons. }
  rewrite Forall_forall in Hno. by apply (Hno _ Hin).
Qed.

Lemma passed_environment_lookup m k :
  passed_environment m !! k = if decide (k ∈ PASSED_VARIABLES) then mc_var m k else None.
Proof.
  unfold passed_environment, PASSED_VARIABLES. cbn [foldl].
  destruct (decide _) as [Hin|Hin].
  - apply elem_of_cons in Hin as [->|[->|[->|[]%elem_of_nil]%elem_of_cons]%elem_of_cons];
      destruct (mc_var m "DBUS_SESSION_BUS_ADDRESS") eqn:E1, (mc_var m "XDG_RUNTIME_DIR") eqn:E2, (mc_var m "HOME") eqn:E3;
      by simplify_map_eq.
  - apply not_elem_of_cons in Hin as [H1 [H2 [H3 _]%not_elem_of_cons]%not_elem_of_cons].
    destruct (mc_var m "DBUS_SESSION_BUS_ADDRESS"), (mc_var m "XDG_RUNTIME_DIR"), (mc_var m "HOME"); by simplify_map_eq.
Qed.

(** A command that runs another one under its limits: a system program only
    root can change, told to run exactly the inner command, in its directory,
    under exactly the limits requested; of the node's variables only four
    reach it, and none over one of the inner command. *)
Record wrapped (m : Machine) (inner : Command) (resources : ResourceSetupRequest) (command : Command) : Prop := {
  wr_program : exists program md, cm_program command = path_arg program /\ mc_symlink_metadata m program = Some md /\
    md_is_file md = true /\ md_uid md = 0%Z /\ Z.land (md_mode md) 18 = 0%Z /\ Z.land (md_mode md) 73 <> 0%Z;
  wr_command : exists options, split_dashes (cm_args command) = Some (options, cm_program inner :: cm_args inner) /\
    limits_of options = requested_limits resources /\ ("--user" ∈ options <-> mc_euid m <> 0%Z);
  wr_directory : cm_current_dir command = cm_current_dir inner;
  wr_clear : cm_env_clear command = true;
  wr_environment : forall k, cm_envs command !! k =
    match cm_envs inner !! k with
    | Some v => Some v
    | None => if decide (k = "PATH") then Some "/usr/bin:/bin"
              else if decide (k ∈ PASSED_VARIABLES) then mc_var m k else None
    end;
}.

Lemma discover_trusted m b :
  discover m = Ok b ->
  sb_user_manager b = negb (mc_euid m =? 0)%Z /\
  exists md, mc_symlink_metadata m (sb_systemd_run b) = Some md /\
    md_is_file md = true /\ md_uid md = 0%Z /\ Z.land (md_mode md) 18 = 0%Z /\ Z.land (md_mode md) 73 <> 0%Z.
Proof.
  unfold discover. destruct (find_map _ _) as [program|]; [|done]. cbn.
  destruct (mc_symlink_metadata m program) as [md|] eqn:Em; [|done]. cbn.
  destruct (trusted_program md) eqn:Et; [|done]. intros [= <-]. split; [done|]. exists md. split; [done|].
  unfold trusted_program, writable_by_others in Et. bool_hyps.
  by split_and!.
Qed.

Lemma wrap_wrapped m b inner resources command name :
  u64_limits resources -> discover m = Ok b -> wrap m b inner resources = Ok (command, name) ->
  name = resource_unit_name m /\ wrapped m inner resources command.
Proof.
  intros Hr Hb. destruct (discover_trusted _ _ Hb) as (Hu & md & Hmd & Htrust). unfold wrap.
  destruct (cm_current_dir inner) as [cwd|] eqn:Ed; [|done]. cbn [ok_or]. intros [= <- <-]. split; [done|].
  pose proof (scope_options_plain m b cwd) as Hplain. constructor; cbn [cm_program cm_args cm_envs cm_current_dir cm_env_clear].
  - by exists (sb_systemd_run b), md.
  - exists (scope_options m b cwd ++ (property_arg <$> properties resources)). split_and!.
    + rewrite <- split_dashes_app.
      * unfold scope_options. by rewrite <- !app_assoc.
      * apply Forall_app. split; [eapply Forall_impl; [exact Hplain|naive_solver]|].
        apply Forall_fmap, Forall_true. intros kv. apply property_arg_plain.
    + apply limits_of_properties; [done|]. eapply Forall_impl; [exact Hplain|naive_solver].
    + rewrite user_option, Hu. by destruct (Z.eqb_spec (mc_euid m) 0).
  - done.
  - done.
  - intros k. rewrite lookup_union. destruct (cm_envs inner !! k); [by destruct (<["PATH" := _]> _ !! k)|].
    rewrite left_id by apply _. destruct (decide (k = "PATH")) as [->|Hne]; [by simplify_map_eq|].
    rewrite lookup_insert_ne by done. apply passed_environment_lookup.
Qed.

Lemma wrap_command_wrapped m inner resources command name :
  u64_limits resources -> wrap_command m inner resources = Ok (command, name) ->
  name = resource_unit_name m /\ wrapped m inner resources command.
Proof.
  intros Hr. unfold wrap_command. destruct (discover m) as [b|] eqn:Eb; [|done]. cbn. by apply wrap_wrapped.
Qed.

Lemma prepare_backend probe trust1 trust2 sandbox resources o :
  TrustedLandlockSetup_prepare probe trust1 trust2 sandbox resources = Ok o ->
  is_applied_resources (so_resources o) = true -> so_resources o = RoApplied "systemd-cgroup-v2".
Proof.
  intros (_ & Hr & _)%prepare_honours. unfold honours_resources in Hr.
  destruct (is_requested resources); cbn in Hr; [|by rewrite Hr]. destruct (has_required resources); [done|].
  by destruct Hr as [->|[reason ->]].
Qed.

(** ** The run *)

(** A launch that claims limits started the helper in a transient unit, and
    the helper confirmed them. *)
Lemma launch_applied w r cwd l :
  is_Some (w_helper_path w) -> launch w r cwd = Ok l -> is_applied_resources (so_resources (la_setup l)) = true ->
  w_prepare w (rq_sandbox r) (rq_resources r) (rq_root r) = Ok (la_setup l) /\ (exists spec, w_channel w r cwd true = Ok spec) /\
  w_handshake w = Ok true /\ wrap_resource_command w false (so_resources (la_setup l)) = Ok (la_unit l).
Proof.
  intros [h Hh]. unfold launch. destruct (w_prepare w _ _ _) as [o|]; [|done]. rewrite Hh, andb_true_r.
  assert (Hback : forall sb rs l', fall_back w (not_applied r o sb rs) = Ok l' ->
    is_applied_resources (so_resources (la_setup l')) = false).
  { intros sb rs l'. unfold fall_back. destruct (wrap_resource_command _ _ _); [|done]. destruct (spawn w true); [|done].
    intros [= <-]. cbn. by destruct (so_resources o). }
  destruct (is_applied_resources (so_resources o)) eqn:Ea.
  - rewrite orb_true_r. destruct (w_channel w r cwd true) as [spec|e] eqn:Ec.
    + destruct (wrap_resource_command w false (so_resources o)) as [u|] eqn:Eu; [|done]. destruct (spawn w false); [|done]. cbn.
      destruct (w_handshake w) as [[]|[e|e]] eqn:Ew; [| | |done].
      * intros [= <-] _. cbn. split_and!; [done|by exists spec|done|done].
      * destruct (best_effort r); [|done]. intros Hl Ha. by rewrite (Hback _ _ _ Hl) in Ha.
      * destruct (best_effort r && _); [|done]. intros Hl Ha. by rewrite (Hback _ _ _ Hl) in Ha.
    + destruct (best_effort r); [|done]. cbn. destruct (wrap_resource_command _ _ _); [|done]. destruct (spawn w false); [|done].
      cbn. intros [= <-]. cbn. by rewrite Ea.
  - rewrite orb_false_r.
    assert (Hno : forall sb rs, is_applied_resources (so_resources (not_applied r o sb rs)) = false) by (intros; cbn; by rewrite Ea).
    destruct (_ && _); [destruct (w_channel w r cwd false) as [spec|e]; [|destruct (best_effort r); [|done]]|].
    all: cbn; (destruct (wrap_resource_command _ _ _); [|done]); (destruct (spawn w false); [|done]); cbn.
    + destruct (w_handshake w) as [[]|[e|e]]; [| | |done].
      * intros [= <-]. cbn. by rewrite Ea.
      * destruct (best_effort r); [|done]. intros Hl Ha. by rewrite (Hback _ _ _ Hl) in Ha.
      * destruct (best_effort r && _); [|done]. intros Hl Ha. by rewrite (Hback _ _ _ Hl) in Ha.
    + intros [= <-]. cbn [la_setup]. by rewrite Hno.
    + intros [= <-]. cbn. by rewrite Ea.
Qed.

(** What a completed run makes of its launch. *)
Lemma run_launched w r res :
  run w r = Ok res ->
  exists cwd l, RunnerRequest_validate (w_canonicalize w) (w_is_dir w) r = Ok cwd /\ launch w r cwd = Ok l /\
    (is_applied_resources (so_resources (rr_setup res)) = true -> so_resources (rr_setup res) = so_resources (la_setup l)) /\
    (is_Some (la_unit l) ->
     (w_oom_kill w = true -> DimMemory ∈ rr_resource_limits_exceeded res) /\
     (forall e, w_stop_unit w = Some e -> process_group_signal_error (rr_cleanup res) = Some e)).
Proof.
  unfold run. destruct (w_cancelled w); [done|].
  destruct (RunnerRequest_validate _ _ r) as [cwd|] eqn:Ev; [|done].
  destruct (launch w r cwd) as [l|] eqn:El; [|done].
  destruct (w_stdout_pipe w); [|done]. destruct (w_stderr_pipe w); [|done]. cbn [negb].
  destruct (settle _ _) as [[t st] wt].
  destruct (match t with TExited => _ | _ => _ end) as [ex un].
  destruct (w_stdout w) as [[out d1]|]; [|done]. destruct (w_stderr w) as [[err d2]|]; [|done].
  cbn [map_err]. intros [= <-]. exists cwd, l. split_and!; [done|done| |].
  - cbn. by destruct (_ && _).
  - intros [u Hu]. cbn. rewrite Hu. split.
    + intros ->. cbn [andb]. destruct (bool_decide_reflect (DimMemory ∈ ex)); cbn [negb]; set_solver.
    + intros e ->. by destruct (tc_signal_error _).
Qed.

(** C35: limits that are reported applied are installed.  When a run on a
    machine reports its limits as applied, a live probe with exactly these
    limits succeeded, the helper was trusted, was what the transient unit
    runs, and confirmed the limits; the command that was started is a
    [systemd-run] only root can change, told to run exactly the helper, in its
    directory and under exactly the limits requested, with no other variable
    of the node than the four the user manager needs.  A unit systemd ended
    for lack of memory is reported as exceeding its memory, and a unit that
    could not be stopped is reported. *)
Theorem applied_limits_are_installed (w : World) (ms : Moments) (trust1 trust2 : result string unit)
    (helper directory : path) (r : RunnerRequest) (cwd : path) (res : RunnerResult) :
  u64_limits (rq_resources r) ->
  RunnerRequest_validate (w_canonicalize w) (w_is_dir w) r = Ok cwd ->
  run (systemd_world w ms trust1 trust2 helper directory r cwd) r = Ok res ->
  is_applied_resources (so_resources (rr_setup res)) = true ->
  let inner := SandboxChannel_command helper directory in
  let name := resource_unit_name (at_wrap ms) in
  probe (at_prepare ms) (rq_resources r) = Ok tt /\ trust1 = Ok tt /\ w_handshake w = Ok true /\
  (exists command, wrap_command (at_wrap ms) inner (rq_resources r) = Ok (command, name) /\
     wrapped (at_wrap ms) inner (rq_resources r) command) /\
  (oom_killed (at_result ms) name = true -> DimMemory ∈ rr_resource_limits_exceeded res) /\
  (forall e, cleanup_warning (at_stop ms) name = Some e -> process_group_signal_error (rr_cleanup res) = Some e).
Proof.
  intros Hlim Hcwd Hrun Happ inner name. destruct (run_launched _ _ _ Hrun) as (cwd' & l & Hv & Hl & Hres & Hunit).
  cbn [systemd_world w_canonicalize w_is_dir] in Hv. rewrite Hcwd in Hv. injection Hv as <-. rewrite Hres in Happ by done.
  destruct (launch_applied (systemd_world w ms trust1 trust2 helper directory r cwd) r cwd l (mk_is_Some _ _ eq_refl) Hl Happ) as (Hp & (spec & Hc) & Hh & Hw).
  cbn [systemd_world w_prepare w_channel w_handshake w_helper_path] in Hp, Hc, Hh.
  pose proof (prepare_backend _ _ _ _ _ _ Hp Happ) as Hb. apply prepare_honours in Hp as (_ & _ & _ & Hpr).
  destruct (Hpr Happ) as [Hprobe Ht]. rewrite Hb in Hw. cbn in Hw. unfold first_command in Hw. rewrite Hc in Hw. fold inner in Hw.
  destruct (wrap_command _ _ _) as [[command n]|] eqn:Ewrap in Hw; [|done]. cbn in Hw. injection Hw as Hw.
  destruct (wrap_command_wrapped _ _ _ _ _ Hlim Ewrap) as [Hname Hwr]. subst n.
  destruct (Hunit ltac:(by rewrite <- Hw)) as [Hoom Hstop].
  split_and!; [done|done|done| |exact Hoom|exact Hstop]. by exists command.
Qed.

(** ** Landlock and the advertised capabilities *)

Definition RUNTIME_PATHS : list string := ["/usr"; "/etc/ld.so.cache"; "/etc/ssl/certs"; "/dev/null"].

Section landlock.
(** The Landlock library: its access rights at ABI 4, a ruleset handling all of
    them, adding a rule for an open path, and enforcing a ruleset; and the file
    system. *)
Context {Access Ruleset : Type}.
Context (from_all from_read execute_right read_file write_file : Access) (both : Access -> Access -> Access).
Context (create : option Ruleset) (add_rule : Ruleset -> path -> Access -> option Ruleset).
Context (restrict_self : Ruleset -> LandlockStatus).
Context (canonicalize : string -> option path) (is_dir : path -> bool) (path_fd : path -> bool).

(** The loop of [probe_landlock_ruleset] over the runtime paths. *)
Fixpoint probe_rules (paths : list string) (ruleset : Ruleset) : bool :=
  match paths with
  | [] => true
  | p :: paths =>
      match canonicalize p with
      | None => probe_rules paths ruleset
      | Some canonical =>
          if negb (path_fd canonical) then false
          else
            let access :=
              if is_dir canonical then both from_read execute_right
              else if bool_decide (canonical = ["dev"; "null"]) then both read_file write_file
              else read_file in
            match add_rule ruleset canonical access with
            | None => false
            | Some ruleset => probe_rules paths ruleset
            end
      end
  end.

Definition probe_landlock_ruleset : bool :=
  match create with
  | None => false
  | Some ruleset => probe_rules RUNTIME_PATHS ruleset
  end.

(** The loop of the helper's [restrict] over the runtime paths. *)
Fixpoint helper_rules (paths : list string) (ruleset : Ruleset) : option Ruleset :=
  match paths with
  | [] => Some ruleset
  | p :: paths =>
      match canonicalize p with
      | None => helper_rules paths ruleset
      | Some canonical =>
          let runtime_read :=
            if is_dir canonical then both from_read execute_right
            else if bool_decide (canonical = ["dev"; "null"]) then both read_file write_file
            else read_file in
          if path_fd canonical then
            ruleset ← add_rule ruleset canonical runtime_read; helper_rules paths ruleset
          else None
      end
  end.

(** [restrict] of the helper on its opened root. *)
Definition helper_ruleset (root : path) : option Ruleset :=
  ruleset ← create; ruleset ← add_rule ruleset root from_all; helper_rules RUNTIME_PATHS ruleset.

Definition helper_restrict (root : path) : result Z unit :=
  match helper_ruleset root with
  | None => Err 2%Z
  | Some ruleset => restrict (restrict_self ruleset)
  end.

(** [TrustedLandlockSetup::execution_capabilities], its three probes at their
    moments. *)
Definition probe_request (memory cpu pids : Requirement Z) : ResourceSetupRequest :=
  {| rs_memory_bytes := memory; rs_cpu_millis := cpu; rs_pids := pids |}.

Definition resource_probes : list (string * ResourceSetupRequest) :=
  [("resources.cgroups-v2.memory", probe_request (BestEffort (32 * 1024 * 1024)%Z) NotRequested NotRequested);
   ("resources.cgroups-v2.cpu", probe_request NotRequested (BestEffort 100%Z) NotRequested);
   ("resources.cgroups-v2.pids", probe_request NotRequested NotRequested (BestEffort 16%Z))].

Definition is_ok {E A} (r : result E A) : bool := match r with Ok _ => true | Err _ => false end.

Definition advertise (machine_at : nat -> Machine) (i : nat) (p : string * ResourceSetupRequest) : list string :=
  if is_ok (probe (machine_at i) p.2) then [p.1] else [].

Definition execution_capabilities (trust : result string unit) (machine_at : nat -> Machine) : list string :=
  (if is_ok trust && probe_landlock_ruleset then ["isolation.landlock.workspace-rw.v1"] else []) ++
  mjoin (imap (advertise machine_at) resource_probes).

Lemma is_ok_tt {E} (r : result E unit) : is_ok r = true <-> r = Ok tt.
Proof. by destruct r as [[]|]. Qed.

Lemma capabilities_elem trust machine_at feature :
  feature ∈ execution_capabilities trust machine_at <->
  (feature = "isolation.landlock.workspace-rw.v1" /\ trust = Ok tt /\ probe_landlock_ruleset = true)
  \/ exists i request, resource_probes !! i = Some (feature, request) /\ probe (machine_at i) request = Ok tt.
Proof.
  unfold execution_capabilities. rewrite elem_of_app. f_equiv.
  - rewrite <- is_ok_tt. destruct (is_ok trust), probe_landlock_ruleset; cbn; set_solver.
  - rewrite list_elem_of_join. split.
    + intros (l & Hin & Hl). apply elem_of_lookup_imap_1 in Hl as (i & [f request] & -> & Hi).
      unfold advertise in Hin. cbn in Hin. destruct (is_ok (probe (machine_at i) request)) eqn:Ep; [|by apply elem_of_nil in Hin].
      apply list_elem_of_singleton in Hin as ->. exists i, request. by rewrite <- is_ok_tt.
    + intros (i & request & Hi & Hp). exists [feature]. split; [by left|].
      pose proof (elem_of_lookup_imap_2 (advertise machine_at) _ _ _ Hi) as Hin. unfold advertise in Hin at 1. cbn in Hin.
      by rewrite Hp in Hin.
Qed.

(** Whether the library accepts a rule does not depend on the rules a ruleset
    already has. *)
Hypothesis rules_independent : forall rs rs' p a q b,
  add_rule rs q b = Some rs' -> (is_Some (add_rule rs' p a) <-> is_Some (add_rule rs p a)).

Definition same_rules (rs rs' : Ruleset) : Prop := forall p a, is_Some (add_rule rs p a) <-> is_Some (add_rule rs' p a).

(** The helper and the probe add the same rules. *)
Lemma probe_mirrors paths rs rs' :
  same_rules rs rs' -> (probe_rules paths rs = true <-> is_Some (helper_rules paths rs')).
Proof.
  revert rs rs'. induction paths as [|p paths IH]; intros rs rs' Hsame; cbn [probe_rules helper_rules]; [done|].
  destruct (canonicalize p) as [canonical|]; [|by apply IH]. destruct (path_fd canonical); cbn [negb]; [|split; [done|intros [? [=]]]].
  set (access := if is_dir canonical then _ else _). specialize (Hsame canonical access) as Hstep.
  destruct (add_rule rs canonical access) as [rs1|] eqn:E1, (add_rule rs' canonical access) as [rs2|] eqn:E2; cbn.
  - apply IH. intros q b. rewrite (rules_independent rs rs1 q b _ _ E1), (rules_independent rs' rs2 q b _ _ E2). apply Hsame.
  - destruct (proj1 Hstep (mk_is_Some _ _ eq_refl)) as [? [=]].
  - destruct (proj2 Hstep (mk_is_Some _ _ eq_refl)) as [? [=]].
  - split; [done|intros [? [=]]].
Qed.

(** C36: a node advertises what was probed.  Its execution capabilities are
    exactly those whose live probe succeeded: a memory, processor or task limit
    when systemd could start a command under one, and workspace isolation when
    the helper is trusted and the ruleset can be built.  That probe mirrors the
    helper: on every workspace whose own rule the kernel accepts, the helper
    gets as far as enforcing its ruleset exactly when the probe succeeds, and
    only then can it report anything but a refused ruleset. *)
Theorem capabilities_are_probed (trust : result string unit) (machine_at : nat -> Machine) (root : path) (rs : Ruleset) :
  create = Some rs -> is_Some (add_rule rs root from_all) ->
  (forall feature, feature ∈ execution_capabilities trust machine_at <->
     (feature = "isolation.landlock.workspace-rw.v1" /\ trust = Ok tt /\ probe_landlock_ruleset = true)
     \/ exists i request, resource_probes !! i = Some (feature, request) /\ probe (machine_at i) request = Ok tt) /\
  (probe_landlock_ruleset = true ->
   exists ruleset, helper_ruleset root = Some ruleset /\ helper_restrict root = restrict (restrict_self ruleset)) /\
  (probe_landlock_ruleset = false -> helper_restrict root = Err 2%Z).
Proof.
  intros Hc [rs1 Hroot].
  assert (Hm : probe_landlock_ruleset = true <-> is_Some (helper_ruleset root)).
  { unfold probe_landlock_ruleset, helper_ruleset. rewrite Hc. cbn [mbind option_bind]. rewrite Hroot. cbn [mbind option_bind]. apply probe_mirrors.
    intros p a. by rewrite (rules_independent rs rs1 p a _ _ Hroot). }
  unfold helper_restrict. split_and!.
  - intros feature. apply capabilities_elem.
  - intros [ruleset Hr]%Hm. rewrite Hr. by exists ruleset.
  - intros Hp. destruct (helper_ruleset root) as [ruleset|]; [|done]. exfalso.
    rewrite (proj2 Hm) in Hp by done. done.
Qed.
End landlock.

(** ** A machine with systemd *)

Module Host.
Definition program : Metadata := {| md_is_file := true; md_is_dir := false; md_is_symlink := false; md_uid := 0; md_mode := 493 |}.

Definition machine : Machine :=
  {| mc_canonicalize := fun s => match strip_prefix "/usr/bin/" s with Some name => Some ["usr"; "bin"; name] | None => None end;
     mc_symlink_metadata := fun _ => Some program; mc_euid := 1000; mc_var := fun _ => Some "x"; mc_pid := 7; mc_nanos := 99;
     mc_run := fun _ _ => Waited true "oom-kill" |}.

Definition moments : Moments :=
  {| at_prepare := machine; at_wrap := machine; at_fallback := machine; at_result := machine; at_stop := machine |}.

Definition world : World :=
  systemd_world SandboxRun.world moments (Ok tt) (Ok tt) ["opt"; "eggwork-sandbox-helper"] ["tmp"; "c"] SandboxRun.req ["work"].

Lemma pids_only : u64_limits (rq_resources SandboxRun.req).
Proof. intros z [|[|]]; simplify_eq/=. unfold u64_range, U64_MAX. lia. Qed.

Lemma validated : RunnerRequest_validate (w_canonicalize SandboxRun.world) (w_is_dir SandboxRun.world) SandboxRun.req = Ok ["work"].
Proof. vm_compute. reflexivity. Qed.

(** A run that reports its task limit applied and the memory exceeded. *)
Lemma completes : exists res, run world SandboxRun.req = Ok res /\ is_applied_resources (so_resources (rr_setup res)) = true.
Proof. eexists. split; vm_compute; reflexivity. Qed.
End Host.

Lemma applied_limits_are_installed_witness :
  exists res, run Host.world SandboxRun.req = Ok res /\ exists command,
    wrapped Host.machine (SandboxChannel_command ["opt"; "eggwork-sandbox-helper"] ["tmp"; "c"]) (rq_resources SandboxRun.req) command.
Proof.
  destruct Host.completes as (res & Hrun & Happ). exists res. split; [exact Hrun|].
  destruct (applied_limits_are_installed SandboxRun.world Host.moments (Ok tt) (Ok tt) ["opt"; "eggwork-sandbox-helper"] ["tmp"; "c"]
    SandboxRun.req ["work"] res Host.pids_only Host.validated Hrun Happ) as (_ & _ & _ & (command & _ & Hw) & _).
  exists command. exact Hw.
Defined.

(** A ruleset is the list of its rules, and directories below [/proc] are
    refused. *)
Module Kernel.
Definition rule_of (rs : list (path * nat)) (p : path) (a : nat) : option (list (path * nat)) :=
  if bool_decide (hd EmptyString p = "proc") then None else Some (rs ++ [(p, a)]).

Lemma independent rs rs' p a q b : rule_of rs q b = Some rs' -> is_Some (rule_of rs' p a) <-> is_Some (rule_of rs p a).
Proof. intros _. unfold rule_of. by case_bool_decide. Qed.

Definition canonical (s : string) : option path := if String.eqb s "/usr" then Some ["usr"] else None.
End Kernel.

Lemma capabilities_are_probed_witness :
  "resources.cgroups-v2.cpu" ∈ execution_capabilities 1 2 3 4 Nat.add (Some []) Kernel.rule_of Kernel.canonical (fun _ => true)
    (fun _ => true) (Err "untrusted") (fun _ => Host.machine).
Proof.
  refine (proj2 (proj1 (capabilities_are_probed 0 1 2 3 4 Nat.add (Some []) Kernel.rule_of (fun _ => LlFullyEnforced) Kernel.canonical
    (fun _ => true) (fun _ => true) Kernel.independent (Err "untrusted") (fun _ => Host.machine) ["work"] [] eq_refl
    (mk_is_Some _ _ eq_refl)) _) _).
  right. exists 1%nat. eexists. split; reflexivity.
Defined.
