(* ===== verification/Routes.v ===== *)
(** * Routes, authorization and client URLs

    [eggwork-server/src/lib.rs], lines 57-140, 271-307, 600-675, 677-882 and
    2426-2443: operations and routes, the body policy, the principal of a
    connection, the gate every request passes before its handler, capability
    checks and query parameters; and [eggwork-client/src/lib.rs]: the URLs the
    client builds for them.

    TLS, the certificate resolver and the authorizer are arguments. *)

From Stdlib Require Import Ascii String ZArith Lia.
From stdpp Require Import base gmap strings list.
From S2P Require Import Prelude Text Ids Wire Spec Events.

Inductive Operation : Type :=
| OpCapabilities | OpStatus | OpTelemetry | OpExecute | OpObserve | OpCancel | OpRenew | OpEvents
| OpBlobRead | OpBlobWrite | OpWorkspaceCreate | OpArtifactRead.

Inductive ResourceId : Type :=
| RExecution (id : string)
| RBlob (digest : string)
| RWorkspace (id : string)
| RArtifact (id : string).

Inductive Route : Type :=
| RtCapabilities
| RtStatus
| RtTelemetry
| RtExecute
| RtObserve (id : string)
| RtCancel (id : string)
| RtRenew (id : string)
| RtEvents (id : string)
| RtBlobMissing
| RtBlobPrepare
| RtBlobUpload (digest : string)
| RtBlobDownload (digest : string)
| RtBlobInvalidDigest
| RtWorkspaceCreate
| RtWorkspaceDerive
| RtArtifactList (id : string)
| RtArtifactDownload (id : string).

(** [Result::ok] *)
Definition ok {E A} (r : result E A) : option A := match r with Ok a => Some a | Err _ => None end.

(** [str::ends_with] *)
Fixpoint ends_with (suffix s : string) : bool :=
  String.eqb s suffix || match s with String _ s => ends_with suffix s | EmptyString => false end.

Definition streq (a b : string) : bool := String.eqb a b.

(** [operation_for], the arm for paths with identifiers. *)
Definition operation_for_parts (method : string) (parts : list string) : option (Operation * Route) :=
  match parts with
  | [p0; p1; p2; p3] =>
      if streq p0 "" && streq p1 "v1" && streq p2 "artifacts" then
        match ok (ArtifactId_new p3) with
        | Some artifact => if streq method "GET" then Some (OpArtifactRead, RtArtifactDownload artifact) else None
        | None => None
        end
      else if streq p0 "" && streq p1 "v1" && streq p2 "executions" then
        match ok (ExecutionId_new p3) with
        | Some id => if streq method "GET" then Some (OpObserve, RtObserve id) else None
        | None => None
        end
      else if streq p0 "" && streq p1 "v1" && streq p2 "blobs" then
        if negb (streq method "PUT" || streq method "GET") then None
        else match ok (BlobDigest_parse p3) with
             | None => Some (if streq method "PUT" then OpBlobWrite else OpBlobRead, RtBlobInvalidDigest)
             | Some digest =>
                 if streq method "PUT" then Some (OpBlobWrite, RtBlobUpload digest)
                 else if streq method "GET" then Some (OpBlobRead, RtBlobDownload digest)
                 else None
             end
      else None
  | [p0; p1; p2; p3; p4] =>
      if streq p0 "" && streq p1 "v1" && streq p2 "executions" then
        match ok (ExecutionId_new p3) with
        | Some id =>
            if streq method "POST" && streq p4 "cancel" then Some (OpCancel, RtCancel id)
            else if streq method "POST" && streq p4 "renew" then Some (OpRenew, RtRenew id)
            else if streq method "GET" && streq p4 "events" then Some (OpEvents, RtEvents id)
            else if streq method "GET" && streq p4 "artifacts" then Some (OpArtifactRead, RtArtifactList id)
            else None
        | None => None
        end
      else None
  | _ => None
  end.

(** [operation_for] *)
Definition operation_for (method path : string) : option (Operation * Route) :=
  if streq method "GET" && streq path "/v1/capabilities" then Some (OpCapabilities, RtCapabilities)
  else if streq method "GET" && streq path "/v1/status" then Some (OpStatus, RtStatus)
  else if streq method "GET" && streq path "/v1/node/telemetry" then Some (OpTelemetry, RtTelemetry)
  else if streq method "POST" && streq path "/v1/executions" then Some (OpExecute, RtExecute)
  else if streq method "POST" && streq path "/v1/blobs/missing" then Some (OpBlobRead, RtBlobMissing)
  else if streq method "POST" && streq path "/v1/blobs/prepare" then Some (OpBlobWrite, RtBlobPrepare)
  else if streq method "POST" && streq path "/v1/workspaces" then Some (OpWorkspaceCreate, RtWorkspaceCreate)
  else if streq method "POST" && streq path "/v1/workspaces/derive" then Some (OpWorkspaceCreate, RtWorkspaceDerive)
  else operation_for_parts method (split "/" path).

(** [resource_for_path] *)
Definition resource_for_path (operation : Operation) (path : string) : option ResourceId :=
  let parts := split "/" path in
  match operation with
  | OpObserve | OpCancel | OpRenew | OpEvents =>
      p ← parts !! 3; RExecution <$> ok (ExecutionId_new p)
  | OpBlobRead | OpBlobWrite => p ← parts !! 3; RBlob <$> ok (BlobDigest_parse p)
  | OpArtifactRead =>
      if decide (parts !! 2 = Some "artifacts")
      then p ← parts !! 3; RArtifact <$> ok (ArtifactId_new p)
      else p ← parts !! 3; RExecution <$> ok (ExecutionId_new p)
  | _ => None
  end.

(** [request_body_policy] *)
Inductive RequestBodyPolicy : Type :=
| PolicyBuffer (max_bytes : Z)
| PolicyStream (max_bytes : Z)
| PolicyReject.

Definition MAX_REQUEST_BYTES : Z := 1024 * 1024.
Definition MAX_BLOB_FIND_REQUEST_BYTES : Z := 64 * 1024.
Definition MAX_WORKSPACE_REQUEST_BYTES : Z := 4 * 1024 * 1024.

Definition request_body_policy (max_blob_bytes : Z) (method path : string) : RequestBodyPolicy :=
  if streq method "POST" && (streq path "/v1/blobs/missing" || streq path "/v1/blobs/prepare")
  then PolicyBuffer MAX_BLOB_FIND_REQUEST_BYTES
  else if streq method "POST" && streq path "/v1/workspaces" then PolicyBuffer MAX_WORKSPACE_REQUEST_BYTES
  else if streq method "POST" && streq path "/v1/workspaces/derive" then PolicyBuffer MAX_WORKSPACE_REQUEST_BYTES
  else if streq method "PUT"
          && match strip_prefix "/v1/blobs/" path with
             | Some digest => is_ok (BlobDigest_parse digest)
             | None => false
             end
  then PolicyStream max_blob_bytes
  else if streq method "POST" && streq path "/v1/executions" then PolicyBuffer MAX_REQUEST_BYTES
  else if streq method "POST" && (ends_with "/cancel" path || ends_with "/renew" path)
  then PolicyBuffer MAX_REQUEST_BYTES
  else PolicyReject.

(** ** The principal of a connection *)

Record TlsInfo := {
  client_authenticated : bool;
  peer_certificates_present : bool;
  peer_certificate_chain : option (list bytes);
}.

(** [FingerprintPrincipalResolver::resolve_verified_leaf] *)
Definition resolve_verified_leaf `{Sha256} (principals : gmap string string) (leaf : bytes) : option string :=
  principals !! sha256_hex leaf.

(** [authenticated_principal] *)
Definition authenticated_principal (resolve : bytes -> option string) (tls : option TlsInfo) : option string :=
  t ← tls;
  if negb (client_authenticated t) || negb (peer_certificates_present t) then None
  else
    chain ← peer_certificate_chain t;
    if (len chain =? 0)%Z || (8 <? len chain)%Z || existsb (fun cert => (64 * 1024 <? len cert)%Z) chain
    then None
    else leaf ← head chain; resolve leaf.

(** ** The gate *)

Record OperationRequest := { or_operation : Operation; or_resource : option ResourceId }.

(** What [dispatch] does with a request before the handler: an error with the
    rejection counter it bumps, or a handler with its principal. *)
Inductive Dispatched : Type :=
| DRejected (metric : string) (status : Z) (error_code : string)
| DHandle (principal : string) (route : Route).

Definition dispatch (resolve : bytes -> option string) (authorize_request : string -> OperationRequest -> bool)
    (method path : string) (tls : option TlsInfo) : Dispatched :=
  match operation_for method path with
  | None => DRejected "rejected_route" 404 "not_found"
  | Some (operation, route) =>
      match authenticated_principal resolve tls with
      | None => DRejected "rejected_unauthenticated" 401 "unauthenticated"
      | Some principal =>
          if negb (authorize_request principal
               {| or_operation := operation; or_resource := resource_for_path operation path |})
          then DRejected "rejected_unauthorized" 403 "forbidden"
          else DHandle principal route
      end
  end.

(** ** Query parameters *)

(** One round of [query_parameter]'s loop. *)
Definition query_pair (name : string) (found : option string) (pair : string) : result unit (option string) :=
  match split_once "=" pair with
  | None => Err tt
  | Some (key, value) =>
      if streq key name then match found with Some _ => Err tt | None => Ok (Some value) end
      else if negb (streq key "generation") && negb (streq key "after") && negb (streq key "lease") then Err tt
      else Ok found
  end.

(** [query_parameter] *)
Definition query_parameter (query : option string) (name : string) : result unit (option string) :=
  match query with
  | None => Ok None
  | Some query => try_fold (query_pair name) None (split "&" query)
  end.

(** The generation of [observe], [events_route] and [artifact_list]. *)
Definition parse_generation (value : string) : option Z :=
  v ← parse_u64 value; ok (ExecutionGeneration_new v).

(** [blob_upload]'s declared size. *)
Definition declared_size (query : option string) : option Z :=
  q ← query; size ← strip_prefix "size=" q; parse_u64 size.

(** ** Capabilities *)

Definition static_capability_features : list string :=
  ["exec.argv.v1"; "events.live.v1"; "auth.mtls.v1"; "blob.sha256.v1"; "blob.stream.v1";
   "workspace.manifest.v1"; "workspace.materialize.v1"; "workspace.derive.v1"; "artifact.declared.v1";
   "artifact.stream.v1"; "artifact.retention.v1"; "network.unrestricted.v1"].

(** [Vec::dedup] *)
Fixpoint dedup (l : list string) : list string :=
  match l with
  | [] => []
  | x :: l => match dedup l with
              | y :: r => if streq x y then y :: r else x :: y :: r
              | [] => [x]
              end
  end.

(** [server_capability_features] *)
Definition server_capability_features (dynamic : list string) : list string :=
  dedup (sort_by str_cmp (static_capability_features ++ dynamic)).

(** [node_capabilities_for] *)
Definition node_capabilities_for (features : list string) (max_active : Z) : NodeCapabilities :=
  let v := {| major := 1; minor := 0 |} in
  {| protocol := {| pv_min := v; pv_max := v |}; features := features; max_active_executions := max_active |}.

Definition has (features : list string) (feature : string) : bool := existsb (String.eqb feature) features.

Definition required {A} (r : Requirement A) : bool := match r with Required _ => true | _ => false end.

(** [check_isolation_supported] *)
Definition check_isolation_supported (features : list string) (i : IsolationRequirement) : bool :=
  match i with
  | IsolationNone | IsolationBestEffort => true
  | IsolationRequired => has features "isolation.landlock.workspace-rw.v1"
  end.

(** [check_resources_supported] *)
Definition check_resources_supported (features : list string) (r : ResourceRequirements) : bool :=
  (negb (required (memory_bytes r)) || has features "resources.cgroups-v2.memory")
  && (negb (required (cpu_millis r)) || has features "resources.cgroups-v2.cpu")
  && (negb (required (pids r)) || has features "resources.cgroups-v2.pids").

(** [check_network_supported] *)
Definition check_network_supported (n : NetworkRequirement) : bool :=
  match n with Unrestricted => true | _ => false end.

(** [ensure_protocol_compatible] of the client. *)
Definition ensure_protocol_compatible (c : NodeCapabilities) : bool :=
  let wanted := {| major := 1; minor := 0 |} in
  negb (version_gt (pv_min (protocol c)) wanted) && negb (version_gt wanted (pv_max (protocol c)))
  && has (features c) "exec.argv.v1".

(** ** The client's requests *)

Inductive ClientCall : Type :=
| CCapabilities
| CStatus
| CTelemetry
| CExecute
| CCreateWorkspace
| CCreateWorkspaceDerived
| CObserve (id : string)
| CObserveGeneration (id : string) (generation : Z)
| CCancel (id : string)
| CRenew (id : string)
| CEvents (id : string) (generation after_sequence : Z) (lease_id : string)
| CFindMissingBlobs
| CPrepareBlob
| CUploadBlob (digest : string) (declared_length : Z)
| CDownloadBlob (digest : string)
| CArtifacts (id : string) (generation : Z)
| CDownloadArtifact (artifact_id : string).

(** The HTTP method and the path with query each client call sends. *)
Definition call_target (c : ClientCall) : string * string :=
  match c with
  | CCapabilities => ("GET", "/v1/capabilities")
  | CStatus => ("GET", "/v1/status")
  | CTelemetry => ("GET", "/v1/node/telemetry")
  | CExecute => ("POST", "/v1/executions")
  | CCreateWorkspace => ("POST", "/v1/workspaces")
  | CCreateWorkspaceDerived => ("POST", "/v1/workspaces/derive")
  | CObserve id => ("GET", "/v1/executions/" +:+ id)
  | CObserveGeneration id g => ("GET", "/v1/executions/" +:+ id +:+ "?generation=" +:+ dec g)
  | CCancel id => ("POST", "/v1/executions/" +:+ id +:+ "/cancel")
  | CRenew id => ("POST", "/v1/executions/" +:+ id +:+ "/renew")
  | CEvents id g after lease =>
      ("GET", "/v1/executions/" +:+ id +:+ "/events?generation=" +:+ dec g +:+ "&after=" +:+ dec after
              +:+ "&lease=" +:+ lease)
  | CFindMissingBlobs => ("POST", "/v1/blobs/missing")
  | CPrepareBlob => ("POST", "/v1/blobs/prepare")
  | CUploadBlob d n => ("PUT", "/v1/blobs/" +:+ d +:+ "?size=" +:+ dec n)
  | CDownloadBlob d => ("GET", "/v1/blobs/" +:+ d)
  | CArtifacts id g => ("GET", "/v1/executions/" +:+ id +:+ "/artifacts?generation=" +:+ dec g)
  | CDownloadArtifact a => ("GET", "/v1/artifacts/" +:+ a)
  end.

(** The path and query of a request target. *)
Definition split_target (target : string) : string * option string :=
  match split_once "?" target with
  | Some (path, query) => (path, Some query)
  | None => (target, None)
  end.

(** ** A client call reaches its handler *)

(** What each call is meant to reach. *)
Definition call_route (c : ClientCall) : Operation * Route :=
  match c with
  | CCapabilities => (OpCapabilities, RtCapabilities)
  | CStatus => (OpStatus, RtStatus)
  | CTelemetry => (OpTelemetry, RtTelemetry)
  | CExecute => (OpExecute, RtExecute)
  | CCreateWorkspace => (OpWorkspaceCreate, RtWorkspaceCreate)
  | CCreateWorkspaceDerived => (OpWorkspaceCreate, RtWorkspaceDerive)
  | CObserve id | CObserveGeneration id _ => (OpObserve, RtObserve id)
  | CCancel id => (OpCancel, RtCancel id)
  | CRenew id => (OpRenew, RtRenew id)
  | CEvents id _ _ _ => (OpEvents, RtEvents id)
  | CFindMissingBlobs => (OpBlobRead, RtBlobMissing)
  | CPrepareBlob => (OpBlobWrite, RtBlobPrepare)
  | CUploadBlob d _ => (OpBlobWrite, RtBlobUpload d)
  | CDownloadBlob d => (OpBlobRead, RtBlobDownload d)
  | CArtifacts id _ => (OpArtifactRead, RtArtifactList id)
  | CDownloadArtifact a => (OpArtifactRead, RtArtifactDownload a)
  end.

Definition call_has_body (c : ClientCall) : bool :=
  match c with
  | CExecute | CCreateWorkspace | CCreateWorkspaceDerived | CCancel _ | CRenew _ | CFindMissingBlobs
  | CPrepareBlob | CUploadBlob _ _ => true
  | _ => false
  end.

Definition wf_generation (g : Z) : Prop := (1 <= g <= U64_MAX)%Z.

(** The values the client's types allow. *)
Definition wf_call (c : ClientCall) : Prop :=
  match c with
  | CObserve id | CCancel id | CRenew id | CDownloadArtifact id => valid_id id
  | CObserveGeneration id g | CArtifacts id g => valid_id id /\ wf_generation g
  | CEvents id g after lease => valid_id id /\ wf_generation g /\ u64_range after /\ valid_id lease
  | CUploadBlob d n => valid_digest d /\ u64_range n
  | CDownloadBlob d => valid_digest d
  | _ => True
  end.

(** What the handler reads back from the query. *)
Definition query_means (c : ClientCall) (query : option string) : Prop :=
  let param name := query_parameter query name in
  match c with
  | CObserveGeneration _ g | CArtifacts _ g =>
      exists v, param "generation" = Ok (Some v) /\ parse_generation v = Some g
  | CEvents _ g after lease =>
      (exists v, param "generation" = Ok (Some v) /\ parse_generation v = Some g)
      /\ (exists v, param "after" = Ok (Some v) /\ parse_u64 v = Some after)
      /\ param "lease" = Ok (Some lease) /\ LeaseId_new lease = Ok lease
  | CUploadBlob _ n => declared_size query = Some n
  | CObserve _ => param "generation" = Ok None
  | _ => True
  end.

Lemma id_ok label v : valid_id v -> id_new label v = Ok v.
Proof. intros H. by apply id_new_ok. Qed.

Lemma digest_ok v : valid_digest v -> BlobDigest_parse v = Ok v.
Proof. intros H. by apply BlobDigest_parse_ok. Qed.

Lemma parse_generation_dec g : wf_generation g -> parse_generation (dec g) = Some g.
Proof.
  intros [H1 H2]. unfold parse_generation. rewrite parse_dec by (unfold u64_range; lia). simpl.
  unfold ExecutionGeneration_new. by rewrite (proj2 (Z.eqb_neq g 0)) by lia.
Qed.

Lemma parts_ok l : Forall (fun p => "/"%char ∉ bytes_of p) l -> l <> [] -> split "/" (join "/" l) = l.
Proof. intros. by apply split_join. Qed.

(** A separator that a path or query built from literals, identifiers, digests
    and numbers does not contain. *)
Ltac no_byte :=
  rewrite ?bytes_of_app, ?not_elem_of_app; split_and?;
  first [by apply contains_char_false | by apply valid_id_no_byte
        | by apply dec_no_byte; [unfold u64_range, wf_generation in *; lia|]
        | by apply valid_digest_no_byte; [unfold code; simpl; lia|]].

Ltac no_slashes := repeat (apply Forall_cons; split; [no_byte|]); apply Forall_nil_2.

Lemma split_target_plain t : "?"%char ∉ bytes_of t -> split_target t = (t, None).
Proof. intros H. unfold split_target. by rewrite split_once_none. Qed.

Lemma split_target_query t p q : t = p +:+ String "?" q -> "?"%char ∉ bytes_of p -> split_target t = (p, Some q).
Proof. intros -> H. unfold split_target. by rewrite split_once_app. Qed.

Lemma route_parts m p l r :
  p = join "/" l -> l <> [] -> Forall (fun x => "/"%char ∉ bytes_of x) l ->
  operation_for m (join "/" l) = operation_for_parts m (split "/" (join "/" l)) ->
  operation_for_parts m l = r -> operation_for m p = r.
Proof. intros -> Hne Hl -> <-. by rewrite parts_ok. Qed.

Definition reaches (c : ClientCall) (path : string) (query : option string) : Prop :=
  operation_for (call_target c).1 path = Some (call_route c) /\ query_means c query.

Lemma query_one k v : "="%char ∉ bytes_of k -> "&"%char ∉ bytes_of (k +:+ String "=" v) ->
  query_parameter (Some (k +:+ String "=" v)) k = Ok (Some v).
Proof.
  intros Hk Hv. unfold query_parameter. rewrite split_single by done. cbn [try_fold]. unfold query_pair, streq.
  rewrite split_once_app by done. by rewrite String.eqb_refl.
Qed.

Lemma reaches_events id g after lease :
  wf_call (CEvents id g after lease) ->
  reaches (CEvents id g after lease) ("/v1/executions/" +:+ id +:+ "/events")
    (Some ("generation=" +:+ dec g +:+ "&after=" +:+ dec after +:+ "&lease=" +:+ lease)).
Proof.
  intros (Hid & Hg & Ha & Hl). split.
  - eapply (route_parts _ _ [""; "v1"; "executions"; id; "events"]); [done|done| |done|].
    + no_slashes.
    + simpl. unfold ExecutionId_new. by rewrite id_ok.
  - assert (split "&" ("generation=" +:+ dec g +:+ "&after=" +:+ dec after +:+ "&lease=" +:+ lease)
      = ["generation" +:+ String "=" (dec g); "after" +:+ String "=" (dec after); "lease" +:+ String "=" lease]) as Hs.
    { change ("generation=" +:+ dec g +:+ "&after=" +:+ dec after +:+ "&lease=" +:+ lease) with
        ("generation=" +:+ dec g +:+ String "&" ("after=" +:+ dec after +:+ String "&" ("lease=" +:+ lease))).
      rewrite <- str_app_assoc, split_app_sep by no_byte.
      rewrite <- str_app_assoc, split_app_sep by no_byte. rewrite split_single by no_byte. done. }
    cbn [query_means]. unfold query_parameter. rewrite Hs. cbn [try_fold]. unfold query_pair, streq.
    rewrite !split_once_app by no_byte. simpl. split_and!; eauto using parse_generation_dec, parse_dec.
    by apply id_ok.
Qed.

Lemma reaches_generation c id g tail :
  wf_call c -> valid_id id -> wf_generation g ->
  c = CObserveGeneration id g /\ tail = EmptyString \/ c = CArtifacts id g /\ tail = "/artifacts" ->
  reaches c ("/v1/executions/" +:+ id +:+ tail) (Some ("generation=" +:+ dec g)).
Proof.
  intros _ Hid Hg Hc.
  assert (query_parameter (Some ("generation=" +:+ dec g)) "generation" = Ok (Some (dec g))) as Hq.
  { apply (query_one "generation" (dec g)); [no_byte|].
    change ("generation" +:+ String "=" (dec g)) with ("generation=" +:+ dec g). no_byte. }
  destruct Hc as [[-> ->]|[-> ->]]; (split; [|exists (dec g); eauto using parse_generation_dec]).
  - rewrite str_app_nil_r. eapply (route_parts _ _ [""; "v1"; "executions"; id]); [done|done| |done|].
    + no_slashes.
    + simpl. unfold ExecutionId_new. by rewrite id_ok.
  - eapply (route_parts _ _ [""; "v1"; "executions"; id; "artifacts"]); [done|done| |done|].
    + no_slashes.
    + simpl. unfold ExecutionId_new. by rewrite id_ok.
Qed.

Lemma reaches_plain c last : wf_call c ->
  match c with
  | CObserve id => last = ("executions", id, [])
  | CCancel id => last = ("executions", id, ["cancel"])
  | CRenew id => last = ("executions", id, ["renew"])
  | CDownloadArtifact id => last = ("artifacts", id, [])
  | CDownloadBlob d => last = ("blobs", d, [])
  | CUploadBlob d n => last = ("blobs", d, [])
  | _ => False
  end ->
  operation_for (call_target c).1 (join "/" ([""; "v1"; last.1.1; last.1.2] ++ last.2)) = Some (call_route c).
Proof.
  intros Hw Hc. destruct c; try done; subst last; cbn [fst snd app wf_call] in *;
    try match type of Hw with _ /\ u64_range _ => destruct Hw as [Hw _] end; (eapply route_parts; [done|done|no_slashes|done|]);
    simpl; unfold ExecutionId_new, ArtifactId_new; rewrite ?id_ok by done; rewrite ?digest_ok by done; done.
Qed.

Lemma ends_with_app p s : ends_with p (s +:+ p) = true.
Proof.
  induction s as [|a s IH]; [rewrite str_app_nil_l; by destruct p; cbn [ends_with]; rewrite String.eqb_refl|].
  rewrite str_app_cons. cbn [ends_with]. by rewrite IH, orb_true_r.
Qed.

Lemma ends_with_app3 p s t : ends_with p (s +:+ t +:+ p) = true.
Proof. rewrite <- str_app_assoc. apply ends_with_app. Qed.

Lemma upload_policy max_blob d :
  valid_digest d -> request_body_policy max_blob "PUT" ("/v1/blobs/" +:+ d) = PolicyStream max_blob.
Proof.
  intros Hd. unfold request_body_policy. rewrite (proj2 (strip_prefix_spec "/v1/blobs/" _ d) eq_refl).
  by rewrite digest_ok.
Qed.

(** C37: client and node agree on the protocol's addresses.  For every call of
    the client and all values its types allow, the path it sends is routed to
    the handler meant for it with the same identifiers, and the handler reads
    back from the query the same generation, cursor, lease and size; the node
    accepts a request body exactly for the calls that have one. *)
Theorem client_reaches_handler (max_blob : Z) (c : ClientCall) :
  wf_call c ->
  let '(path, query) := split_target (call_target c).2 in
  operation_for (call_target c).1 path = Some (call_route c)
  /\ query_means c query
  /\ (request_body_policy max_blob (call_target c).1 path = PolicyReject <-> call_has_body c = false).
Proof.
  intros Hw. destruct c.
  - vm_compute. by split_and!.
  - vm_compute. by split_and!.
  - vm_compute. by split_and!.
  - vm_compute. by split_and!.
  - vm_compute. by split_and!.
  - vm_compute. by split_and!.
  - cbn [call_target snd]. rewrite split_target_plain by no_byte.
    split; [exact (reaches_plain (CObserve id) ("executions", id, []) Hw eq_refl)|]. by split.
  - destruct Hw as [Hid Hg]. cbn [call_target snd].
    rewrite (split_target_query _ ("/v1/executions/" +:+ id) ("generation=" +:+ dec generation)); [|done|no_byte].
    destruct (reaches_generation (CObserveGeneration id generation) id generation "") as [Hr Hq]; [done..|by left|].
    rewrite str_app_nil_r in Hr. by split_and!.
  - cbn [call_target snd]. rewrite split_target_plain by no_byte.
    split; [exact (reaches_plain (CCancel id) ("executions", id, ["cancel"]) Hw eq_refl)|]. split; [done|].
    unfold request_body_policy. rewrite ends_with_app3. done.
  - cbn [call_target snd]. rewrite split_target_plain by no_byte.
    split; [exact (reaches_plain (CRenew id) ("executions", id, ["renew"]) Hw eq_refl)|]. split; [done|].
    unfold request_body_policy. rewrite ends_with_app3, orb_true_r. done.
  - cbn [call_target snd]. rewrite (split_target_query _ ("/v1/executions/" +:+ id +:+ "/events")
      ("generation=" +:+ dec generation +:+ "&after=" +:+ dec after_sequence +:+ "&lease=" +:+ lease_id)).
    + by destruct (reaches_events id generation after_sequence lease_id Hw) as [Hr Hq].
    + by rewrite !str_app_assoc.
    + destruct Hw as [Hid _]. no_byte.
  - vm_compute. by split_and!.
  - vm_compute. by split_and!.
  - destruct Hw as [Hd Hn]. cbn [call_target snd].
    rewrite (split_target_query _ ("/v1/blobs/" +:+ digest) ("size=" +:+ dec declared_length)); [|done|no_byte].
    split; [exact (reaches_plain (CUploadBlob digest declared_length) ("blobs", digest, []) (conj Hd Hn) eq_refl)|].
    split; [by apply parse_dec|]. cbn [call_target fst]. rewrite upload_policy by done. done.
  - cbn [call_target snd]. rewrite split_target_plain by no_byte.
    split; [exact (reaches_plain (CDownloadBlob digest) ("blobs", digest, []) Hw eq_refl)|]. by split.
  - destruct Hw as [Hid Hg]. cbn [call_target snd].
    rewrite (split_target_query _ ("/v1/executions/" +:+ id +:+ "/artifacts") ("generation=" +:+ dec generation));
      [|by rewrite !str_app_assoc|no_byte].
    destruct (reaches_generation (CArtifacts id generation) id generation "/artifacts") as [Hr Hq]; [done..|by right|].
    by split_and!.
  - cbn [call_target snd]. rewrite split_target_plain by no_byte.
    split; [exact (reaches_plain (CDownloadArtifact artifact_id) ("artifacts", artifact_id, []) Hw eq_refl)|]. by split.
Qed.

Lemma client_reaches_handler_witness :
  let c := CEvents "exec-1" 2 41 "lease-1" in
  (call_target c).2 = "/v1/executions/exec-1/events?generation=2&after=41&lease=lease-1"
  /\ operation_for "GET" "/v1/executions/exec-1/events" = Some (OpEvents, RtEvents "exec-1").
Proof.
  intros c. split; [reflexivity|].
  assert (wf_call c) as Hw.
  { split_and!; try (by vm_compute); try (by repeat constructor). }
  exact (proj1 (client_reaches_handler 0 c Hw)).
Defined.

(** ** The gate *)

(** What the handler of a route acts on. *)
Definition route_resource (r : Route) : option ResourceId :=
  match r with
  | RtObserve id | RtCancel id | RtRenew id | RtEvents id | RtArtifactList id => Some (RExecution id)
  | RtBlobUpload d | RtBlobDownload d => Some (RBlob d)
  | RtArtifactDownload a => Some (RArtifact a)
  | _ => None
  end.

Lemma streq_eq a b : streq a b = true <-> a = b.
Proof. apply String.eqb_eq. Qed.

Lemma ok_id label v w : ok (id_new label v) = Some w -> w = v /\ id_new label v = Ok v.
Proof.
  destruct (id_new label v) as [u|] eqn:E; [|done]. intros [= <-].
  apply id_new_ok in E as E'. destruct E' as [-> _]. done.
Qed.

Lemma parts_resource method p op rt :
  operation_for_parts method (split "/" p) = Some (op, rt) -> resource_for_path op p = route_resource rt.
Proof.
  unfold operation_for_parts, resource_for_path.
  destruct (split "/" p) as [|p0 [|p1 [|p2 [|p3 [|p4 [|p5 l]]]]]]; try done; intros H.
  - destruct (streq p0 "" && streq p1 "v1" && streq p2 "artifacts") eqn:E1.
    { apply andb_true_iff in E1 as [_ ->%streq_eq]. destruct (ok (ArtifactId_new p3)) as [a|] eqn:Ea; [|done].
      destruct (streq method "GET"); [|done]. injection H as <- <-. rewrite decide_True by done. simpl. by rewrite Ea. }
    destruct (streq p0 "" && streq p1 "v1" && streq p2 "executions") eqn:E2.
    { destruct (ok (ExecutionId_new p3)) as [a|] eqn:Ea; [|done].
      destruct (streq method "GET"); [|done]. injection H as <- <-. simpl. rewrite Ea. done. }
    destruct (streq p0 "" && streq p1 "v1" && streq p2 "blobs"); [|done].
    destruct (negb _); [done|]. destruct (ok (BlobDigest_parse p3)) as [d|] eqn:Ed.
    + destruct (streq method "PUT"); [|destruct (streq method "GET"); [|done]]; injection H as <- <-; simpl; by rewrite Ed.
    + destruct (streq method "PUT"); injection H as <- <-; simpl; by rewrite Ed.
  - destruct (streq p0 "" && streq p1 "v1" && streq p2 "executions") eqn:E; [|done].
    apply andb_true_iff in E as [_ ->%streq_eq].
    destruct (ok (ExecutionId_new p3)) as [id|] eqn:Ei; [|done].
    repeat (destruct (_ && _); [injection H as <- <-; rewrite ?decide_False by done; simpl; by rewrite Ei|]). done.
Qed.

Lemma resource_agrees method path op rt :
  operation_for method path = Some (op, rt) -> resource_for_path op path = route_resource rt.
Proof.
  unfold operation_for. intros H.
  repeat match type of H with
  | (if streq _ _ && streq ?p ?s then _ else _) = _ =>
      let E := fresh in destruct (streq _ _ && streq p s) eqn:E;
      [apply andb_true_iff in E as [_ ->%streq_eq]; injection H as <- <-; by vm_compute|clear E]
  end.
  by eapply parts_resource.
Qed.

(** No request reaches a handler ungated.  When [dispatch] hands a request
    to a handler, the connection presented a verified, bounded certificate
    chain whose leaf resolves to the handler's principal, and the authorizer
    allowed that principal the operation on exactly the execution, blob or
    artifact the handler will act on. *)
Theorem dispatch_gate (resolve : bytes -> option string) (authorize_request : string -> OperationRequest -> bool)
    (method path : string) (tls : option TlsInfo) (principal : string) (route : Route) :
  dispatch resolve authorize_request method path tls = DHandle principal route ->
  exists op t leaf rest,
    operation_for method path = Some (op, route)
    /\ tls = Some t /\ client_authenticated t = true /\ peer_certificates_present t = true
    /\ peer_certificate_chain t = Some (leaf :: rest) /\ (len (leaf :: rest) <= 8)%Z
    /\ Forall (fun cert => len cert <= 64 * 1024)%Z (leaf :: rest)
    /\ resolve leaf = Some principal
    /\ authorize_request principal {| or_operation := op; or_resource := route_resource route |} = true.
Proof.
  unfold dispatch. destruct (operation_for method path) as [[op rt]|] eqn:Eop; [|done].
  destruct (authenticated_principal resolve tls) as [pr|] eqn:Ea; [|done].
  destruct (authorize_request pr _) eqn:Eauth; [|done]. intros [= -> ->].
  rewrite (resource_agrees _ _ _ _ Eop) in Eauth.
  unfold authenticated_principal in Ea. destruct tls as [t|]; [|done]. simpl in Ea.
  destruct (client_authenticated t) eqn:E1; [|done]. destruct (peer_certificates_present t) eqn:E2; [|done]. simpl in Ea.
  destruct (peer_certificate_chain t) as [[|leaf rest]|] eqn:E3; [done| |done]. cbn [mbind option_bind] in Ea.
  destruct (_ || _ || _) eqn:E4; [done|]. apply orb_false_iff in E4 as [[_ E4]%orb_false_iff E5].
  simpl in Ea. exists op, t, leaf, rest. split_and!; try done; [by apply Z.ltb_ge|].
  apply existsb_false_Forall in E5. eapply Forall_impl; [exact E5|]. intros c. by rewrite Z.ltb_ge.
Qed.

Lemma dispatch_gate_witness :
  let tls := {| client_authenticated := true; peer_certificates_present := true;
                peer_certificate_chain := Some [[Byte.x01]] |} in
  exists op t leaf rest,
    operation_for "POST" "/v1/executions/exec-1/cancel" = Some (op, RtCancel "exec-1")
    /\ Some tls = Some t /\ client_authenticated t = true /\ peer_certificates_present t = true
    /\ peer_certificate_chain t = Some (leaf :: rest) /\ (len (leaf :: rest) <= 8)%Z
    /\ Forall (fun cert => len cert <= 64 * 1024)%Z (leaf :: rest)
    /\ Some "alice" = Some "alice" /\ true = true.
Proof.
  intros tls.
  exact (dispatch_gate (fun _ => Some "alice") (fun _ _ => true) "POST" "/v1/executions/exec-1/cancel"
    (Some tls) "alice" (RtCancel "exec-1") eq_refl).
Defined.
