(* ===== verification/Telemetry.v ===== *)
(** * Host telemetry

    The telemetry vocabulary of [eggwork-core/src/lib.rs], lines 1121-1519,
    and [eggwork-server/src/telemetry.rs]: the validated endpoint, one
    provider attempt, the normalized observation, the cache and its polling
    loop, and [node_telemetry] of [eggwork-server/src/lib.rs].

    An [f32] is Stdlib's [spec_float], compared with [SFleb] and [SFltb]; a
    [Duration] and an [Instant] count nanoseconds.  The [url], [eggfetch_core]
    and [gregg_protocol] crates are arguments: the answers of [Url]'s
    accessors, the exchange with the provider, and the decoded payload with
    its own validation. *)

From Stdlib Require Import Ascii String ZArith Lia SpecFloat.
From stdpp Require Import base gmap strings list.
From S2P Require Import Prelude Text Ids Wire.

#[local] Open Scope string_scope.

(** ** The shared vocabulary *)

Definition MAX_TELEMETRY_SAMPLE_INTERVAL_MS : Z := 86400000.
Definition NODE_TELEMETRY_SCHEMA_VERSION : Z := 1.

Inductive TelemetrySource : Type := Gregg.

Inductive TelemetryProviderState : Type :=
| Disabled
| Warming
| Ready
| Stale
| Unavailable
| Invalid.

#[export] Instance TelemetryProviderState_eq_dec : EqDecision TelemetryProviderState.
Proof. solve_decision. Defined.

Inductive TelemetryErrorCategory : Type :=
| CatConnection
| CatTimeout
| CatHttpStatus
| CatMalformed
| CatSchemaVersion
| CatInvalid
| CatTooLarge
| CatClockSkew.

Inductive TelemetryMetric (T : Type) : Type :=
| Unsupported
| Unknown
| Value (value : T).
Arguments Unsupported {T}.
Arguments Unknown {T}.
Arguments Value {T}.

Record TelemetryCpu := { logical_cores : Z; usage_pct : spec_float; iowait_pct : option spec_float }.
Record TelemetryMemory := { mem_available_bytes : Z; mem_total_bytes : Z; mem_used_bytes : Z }.
Record TelemetryLoad := { one : spec_float; five : spec_float; fifteen : spec_float }.
Record TelemetrySwap := { swap_used_bytes : Z; swap_total_bytes : Z }.
Record TelemetryDisk := { disk_available_bytes : Z; disk_total_bytes : Z; volume_count : Z }.
Record TelemetryDiskIo := { read_bytes_per_sec : Z; write_bytes_per_sec : Z }.
Record TelemetryNetwork := { rx_bytes_per_sec : Z; tx_bytes_per_sec : Z }.

Record HostTelemetry := {
  observed_at_unix_ms : Z;
  sample_interval_ms : Z;
  cpu : TelemetryMetric TelemetryCpu;
  memory : TelemetryMetric TelemetryMemory;
  load : TelemetryMetric TelemetryLoad;
  swap : TelemetryMetric TelemetrySwap;
  disk : TelemetryMetric TelemetryDisk;
  disk_io : TelemetryMetric TelemetryDiskIo;
  network : TelemetryMetric TelemetryNetwork;
}.

Record NodeTelemetry := {
  nt_schema_version : Z;
  nt_node_id : string;
  nt_source : TelemetrySource;
  nt_state : TelemetryProviderState;
  nt_age_ms : option Z;
  nt_last_error : option TelemetryErrorCategory;
  nt_observation : option HostTelemetry;
}.

(** The [f32] constants [0.0] and [100.0], and [f32::is_finite]. *)
Definition f32_zero : spec_float := S754_zero false.
Definition f32_hundred : spec_float := S754_finite false 13107200 (-17).

Definition is_finite (f : spec_float) : bool :=
  match f with S754_zero _ | S754_finite _ _ _ => true | _ => false end.

Definition validate_percentage (value : spec_float) (field : string) : result ValidationError unit :=
  if negb (is_finite value) || negb (SFleb f32_zero value && SFleb value f32_hundred)
  then Err (OutOfRange field) else Ok tt.

Definition validate_load (value : spec_float) (field : string) : result ValidationError unit :=
  if negb (is_finite value) || SFltb value f32_zero then Err (OutOfRange field) else Ok tt.

(** [HostTelemetry::validate] *)
Definition HostTelemetry_validate (h : HostTelemetry) : result ValidationError unit :=
  (if (observed_at_unix_ms h =? 0)%Z then Err (OutOfRange "telemetry observation timestamp") else Ok tt) ;?
  (if (sample_interval_ms h =? 0)%Z || (MAX_TELEMETRY_SAMPLE_INTERVAL_MS <? sample_interval_ms h)%Z
   then Err (OutOfRange "telemetry sample interval") else Ok tt) ;?
  (match cpu h with
   | Value c =>
       (if (logical_cores c =? 0)%Z then Err (OutOfRange "telemetry cpu logical cores") else Ok tt) ;?
       validate_percentage (usage_pct c) "telemetry cpu usage" ;?
       match iowait_pct c with
       | Some iowait => validate_percentage iowait "telemetry cpu iowait"
       | None => Ok tt
       end
   | _ => Ok tt
   end) ;?
  (match memory h with
   | Value m => if (mem_total_bytes m <? mem_used_bytes m)%Z
                then Err (OutOfRange "telemetry memory used bytes") else Ok tt
   | _ => Ok tt
   end) ;?
  (match load h with
   | Value l =>
       validate_load (one l) "telemetry load one" ;?
       validate_load (five l) "telemetry load five" ;?
       validate_load (fifteen l) "telemetry load fifteen"
   | _ => Ok tt
   end) ;?
  match swap h with
  | Value s => if (swap_total_bytes s <? swap_used_bytes s)%Z
               then Err (OutOfRange "telemetry swap used bytes") else Ok tt
  | _ => Ok tt
  end.

(** [NodeTelemetry::validate] *)
Definition NodeTelemetry_validate (t : NodeTelemetry) : result ValidationError unit :=
  (if negb (nt_schema_version t =? NODE_TELEMETRY_SCHEMA_VERSION)%Z
   then Err (OutOfRange "node telemetry schema version") else Ok tt) ;?
  (match nt_state t with
   | Ready | Stale =>
       if is_some (nt_observation t) then Ok tt else Err (OutOfRange "node telemetry observation")
   | Disabled | Warming =>
       if is_some (nt_observation t) then Err (OutOfRange "node telemetry observation") else Ok tt
   | Unavailable | Invalid => Ok tt
   end) ;?
  (if negb (Bool.eqb (is_some (nt_observation t)) (is_some (nt_age_ms t)))
   then Err (OutOfRange "node telemetry age") else Ok tt) ;?
  match nt_observation t with
  | Some observation => HostTelemetry_validate observation
  | None => Ok tt
  end.

(** ** Configuration *)

(** Durations, in nanoseconds. *)
Definition from_secs (s : Z) : Z := (s * 1000000000)%Z.
Definition as_millis (d : Z) : Z := (d / 1000000)%Z.
Definition DURATION_MAX : Z := (from_secs U64_MAX + 999999999)%Z.

Definition PROVIDER_STATUS_PATH : string := "/v2/status".
Definition MAX_PROVIDER_BODY_BYTES : Z := 256 * 1024.
Definition MAX_CLOCK_SKEW : Z := from_secs 30.
Definition MAX_BACKOFF : Z := from_secs 300.
Definition MIN_REFRESH_SECONDS : Z := 1.
Definition MAX_REFRESH_SECONDS : Z := 3600.
Definition MAX_FRESHNESS_SECONDS : Z := 3600.

Inductive TelemetryConfigError : Type := InvalidEndpoint | InvalidRefreshInterval | InvalidFreshness.

Record HostTelemetryConfig := { endpoint : string; refresh_interval : Z; freshness : Z }.

(** What the accessors of a parsed [url::Url] answer.  An IPv4 address is its
    four octets, an IPv6 address its 128-bit value. *)
Inductive Host : Type :=
| Domain (name : string)
| Ipv4 (a b c d : Z)
| Ipv6 (address : Z).

Record Url := {
  scheme : string;
  cannot_be_a_base : bool;
  username : string;
  password : option string;
  query : option string;
  fragment : option string;
  url_path : string;
  port_or_known_default : option Z;
  host : option Host;
  host_str : option string;
  to_string : string;
}.

(** [Url::parse] *)
Class UrlParser := url_parse : string -> option Url.

(** [str::split_once] with a string pattern. *)
Fixpoint split_once_str (pat s : string) : option (string * string) :=
  match strip_prefix pat s with
  | Some rest => Some (EmptyString, rest)
  | None =>
      match s with
      | EmptyString => None
      | String a s' =>
          match split_once_str pat s' with
          | Some (l, r) => Some (String a l, r)
          | None => None
          end
      end
  end.

(** The first piece of [str::split] with a set of one-byte patterns. *)
Fixpoint until (stop : ascii -> bool) (s : string) : string :=
  match s with
  | EmptyString => EmptyString
  | String a s' => if stop a then EmptyString else String a (until stop s')
  end.

Definition ends_authority (a : ascii) : bool :=
  Ascii.eqb a "/"%char || Ascii.eqb a "?"%char || Ascii.eqb a "#"%char.

Definition names_explicit_port (raw : string) : bool :=
  match split_once_str "://" raw with
  | None => false
  | Some (_, after_scheme) =>
      let authority := until ends_authority after_scheme in
      let authority := match rsplit_once "@"%char authority with Some (_, h) => h | None => authority end in
      match strip_prefix "[" authority with
      | Some rest =>
          match split_once "]"%char rest with
          | Some (_, tail) => starts_with_char ":"%char tail && (1 <? str_len tail)%Z
          | None => false
          end
      | None =>
          match rsplit_once ":"%char authority with
          | Some (_, port) => negb (is_empty port) && all_bytes is_ascii_digit port
          | None => false
          end
      end
  end.

(** [Ipv4Addr]'s [Display]; [Ipv6Addr]'s is needed at the loopback address only. *)
Definition ipv4_string (a b c d : Z) : string :=
  dec a +:+ "." +:+ dec b +:+ "." +:+ dec c +:+ "." +:+ dec d.
Definition ipv6_loopback_string : string := "::1".

Definition validate_endpoint `{UrlParser} (raw : string) : result TelemetryConfigError string :=
  let? parsed := ok_or (url_parse raw) InvalidEndpoint in
  let refuse_if (b : bool) : result TelemetryConfigError unit := if b then Err InvalidEndpoint else Ok tt in
  refuse_if (negb (String.eqb (scheme parsed) "http")) ;?
  refuse_if (cannot_be_a_base parsed) ;?
  refuse_if (negb (is_empty (username parsed)) || is_some (password parsed)) ;?
  refuse_if (is_some (query parsed) || is_some (fragment parsed)) ;?
  refuse_if (negb (String.eqb (url_path parsed) PROVIDER_STATUS_PATH)) ;?
  refuse_if (negb (names_explicit_port raw)) ;?
  let? port := ok_or (port_or_known_default parsed) InvalidEndpoint in
  refuse_if (port =? 0)%Z ;?
  (match host parsed with
   | Some (Ipv4 a b c d) =>
       if (a =? 127)%Z
       then refuse_if (negb (bool_decide (host_str parsed = Some (ipv4_string a b c d))))
       else Err InvalidEndpoint
   | Some (Ipv6 address) =>
       if (address =? 1)%Z
       then refuse_if (negb (bool_decide (host_str parsed = Some ("[" +:+ ipv6_loopback_string +:+ "]"))))
       else Err InvalidEndpoint
   | _ => Err InvalidEndpoint
   end) ;?
  Ok (to_string parsed).

(** [HostTelemetryConfig::new] *)
Definition HostTelemetryConfig_new `{UrlParser} (raw : string) (refresh_seconds freshness_seconds : Z) :
    result TelemetryConfigError HostTelemetryConfig :=
  if negb ((MIN_REFRESH_SECONDS <=? refresh_seconds)%Z && (refresh_seconds <=? MAX_REFRESH_SECONDS)%Z)
  then Err InvalidRefreshInterval
  else if negb ((MIN_REFRESH_SECONDS <=? freshness_seconds)%Z
                && (freshness_seconds <=? MAX_FRESHNESS_SECONDS)%Z)
  then Err InvalidFreshness
  else if (freshness_seconds <? refresh_seconds)%Z then Err InvalidFreshness
  else let? e := validate_endpoint raw in
       Ok {| endpoint := e; refresh_interval := from_secs refresh_seconds;
             freshness := from_secs freshness_seconds |}.

(** ** One provider attempt *)

Inductive TelemetryError : Type :=
| Connection
| Timeout
| HttpStatus
| Malformed
| SchemaVersion
| InvalidResponse
| TooLarge
| ClockSkew.

#[export] Instance TelemetryError_eq_dec : EqDecision TelemetryError.
Proof. solve_decision. Defined.

(** [TelemetryError::category] *)
Definition category (e : TelemetryError) : TelemetryErrorCategory :=
  match e with
  | Connection => CatConnection
  | Timeout => CatTimeout
  | HttpStatus => CatHttpStatus
  | Malformed => CatMalformed
  | SchemaVersion => CatSchemaVersion
  | InvalidResponse => CatInvalid
  | TooLarge => CatTooLarge
  | ClockSkew => CatClockSkew
  end.

Inductive ProviderOutcome : Type :=
| Observed (observation : HostTelemetry)
| ProviderWarming.

(** The variants of [eggfetch_core::Error] the adapter tells apart. *)
Inductive FetchError : Type :=
| FetchTimeout
| TransportIoTimeout
| DecodedBodyTooLarge
| DecompressionRatioExceeded
| FetchBody
| FetchProtocol
| FetchConnect
| CustomTransport
| FetchIo
| FetchHyper
| FetchHyperClient
| FetchOther.

Definition classify_fetch_error (e : FetchError) : TelemetryError :=
  match e with
  | FetchTimeout | TransportIoTimeout => Timeout
  | DecodedBodyTooLarge | DecompressionRatioExceeded => TooLarge
  | FetchBody | FetchProtocol => Malformed
  | FetchConnect | CustomTransport | FetchIo | FetchHyper | FetchHyperClient => Connection
  | FetchOther => Connection
  end.

(** The node's wall clock: milliseconds since the epoch, [None] before it. *)
Definition wall_clock_millis (since_epoch : option Z) : option Z :=
  match since_epoch with
  | Some ms => if (ms <=? U64_MAX)%Z then Some ms else None
  | None => None
  end.

Definition exceeds_clock_skew (clock : option Z) (observed : Z) : bool :=
  match wall_clock_millis clock with
  | None => false
  | Some now => (sat_add now (as_millis MAX_CLOCK_SKEW) <? observed)%Z
  end.

(** The fields of [gregg_protocol]'s status payload the adapter reads. *)
Record Drive := { g_available_bytes : option Z; g_total_bytes : Z }.

Record StatusPayload := {
  g_schema_version : Z;
  g_observed_at_unix_ms : Z;
  g_sample_interval_ms : Z;
  g_logical_cores : Z;
  g_usage_pct : spec_float;
  g_iowait_pct : option spec_float;
  g_memory_total_bytes : Z;
  g_memory_used_bytes : Z;
  g_load : option (spec_float * spec_float * spec_float);
  g_swap : option (Z * Z);
  g_cap_cpu_iowait : bool;
  g_cap_load_average : bool;
  g_cap_swap : bool;
  g_drives : option (list Drive);
  g_disk_io : option (Z * Z);
  g_network : option (Z * Z);
}.

(** The provider protocol: decoding of the status payload and of the health
    envelope (whether it says warming), the payload's own validation and the
    schema version it names. *)
Class GreggProtocol := {
  status_from_slice : bytes -> option StatusPayload;
  payload_validate : StatusPayload -> bool;
  health_is_warming : bytes -> option bool;
  SCHEMA_VERSION_V2 : Z;
}.

Definition U32_MAX : Z := 4294967295.

Definition normalize_disk_io (io : Z * Z) : TelemetryDiskIo :=
  {| read_bytes_per_sec := io.1; write_bytes_per_sec := io.2 |}.
Definition normalize_network (net : Z * Z) : TelemetryNetwork :=
  {| rx_bytes_per_sec := net.1; tx_bytes_per_sec := net.2 |}.

(** The loop over the reported drives: available and total bytes so far. *)
Fixpoint drive_totals (available total : Z) (drives : list Drive) : Z * Z :=
  match drives with
  | [] => (available, total)
  | d :: rest =>
      drive_totals (sat_add available (default 0%Z (g_available_bytes d)))
                   (sat_add total (g_total_bytes d)) rest
  end.

Definition normalize (p : StatusPayload) : HostTelemetry := {|
  observed_at_unix_ms := g_observed_at_unix_ms p;
  sample_interval_ms := g_sample_interval_ms p;
  cpu := Value {| logical_cores := g_logical_cores p;
                  usage_pct := g_usage_pct p;
                  iowait_pct := if g_cap_cpu_iowait p then g_iowait_pct p else None |};
  memory := Value {| mem_available_bytes := sat_sub (g_memory_total_bytes p) (g_memory_used_bytes p);
                     mem_total_bytes := g_memory_total_bytes p;
                     mem_used_bytes := g_memory_used_bytes p |};
  load := match g_cap_load_average p, g_load p with
          | true, Some (o, f, t) => Value {| one := o; five := f; fifteen := t |}
          | true, None => Unknown
          | false, _ => Unsupported
          end;
  swap := match g_cap_swap p, g_swap p with
          | true, Some (used, total) => Value {| swap_used_bytes := used; swap_total_bytes := total |}
          | true, None => Unknown
          | false, _ => Unsupported
          end;
  disk := match g_drives p with
          | Some ((_ :: _) as drives) =>
              let '(available, total) := drive_totals 0 0 drives in
              Value {| disk_available_bytes := available; disk_total_bytes := total;
                       volume_count := Z.min (len drives) U32_MAX |}
          | Some [] => Unknown
          | None => Unsupported
          end;
  disk_io := match g_disk_io p with Some io => Value (normalize_disk_io io) | None => Unsupported end;
  network := match g_network p with Some net => Value (normalize_network net) | None => Unsupported end;
|}.

Definition decode_status `{GreggProtocol} (clock : option Z) (body : bytes) :
    result TelemetryError ProviderOutcome :=
  let? payload := ok_or (status_from_slice body) Malformed in
  if negb (g_schema_version payload =? SCHEMA_VERSION_V2)%Z then Err SchemaVersion
  else if negb (payload_validate payload) then Err InvalidResponse
  else if exceeds_clock_skew clock (g_observed_at_unix_ms payload) then Err ClockSkew
  else
    let observation := normalize payload in
    if is_ok (HostTelemetry_validate observation) then Ok (Observed observation)
    else Err InvalidResponse.

(** One exchange: the request fails, or a status comes back and reading the
    body fails or gives the bytes. *)
Definition exchange : Type := result FetchError (Z * result FetchError bytes).

(** [GreggTelemetryProvider::observe] *)
Definition observe `{GreggProtocol} (clock : option Z) (answer : exchange) :
    result TelemetryError ProviderOutcome :=
  let? response := map_err classify_fetch_error answer in
  let '(status, read) := response in
  if (status =? 200)%Z then
    let? body := map_err classify_fetch_error read in
    if (MAX_PROVIDER_BODY_BYTES <? len body)%Z then Err TooLarge else decode_status clock body
  else if (status =? 503)%Z then
    let? body := map_err classify_fetch_error read in
    match health_is_warming body with
    | Some true => Ok ProviderWarming
    | _ => Err HttpStatus
    end
  else Err HttpStatus.

(** ** The cache and its polling owner *)

Record TelemetrySnapshot := {
  ts_state : TelemetryProviderState;
  ts_observation : option HostTelemetry;
  ts_age_ms : option Z;
  ts_last_error : option TelemetryErrorCategory;
}.

Record CacheEntry := {
  ce_state : TelemetryProviderState;
  ce_observation : option HostTelemetry;
  ce_received_at : option Z;
  ce_provider_stale : bool;
  ce_last_error : option TelemetryErrorCategory;
}.

(** [CacheEntry::disabled] *)
Definition cache_disabled : CacheEntry := {|
  ce_state := Disabled; ce_observation := None; ce_received_at := None;
  ce_provider_stale := false; ce_last_error := None |}.

(** [Instant::elapsed], which saturates at zero, in milliseconds as a [u64]. *)
Definition elapsed_ms (now received : Z) : Z := Z.min (as_millis (sat_sub now received)) U64_MAX.

(** [TelemetryCache::snapshot] at the instant [now] *)
Definition snapshot (fresh now : Z) (e : CacheEntry) : TelemetrySnapshot :=
  let age_ms := elapsed_ms now <$> ce_received_at e in
  {| ts_state :=
       match ce_state e with
       | Ready =>
           let aged_out := match age_ms with Some age => (as_millis fresh <? age)%Z | None => false end in
           if ce_provider_stale e || aged_out then Stale else Ready
       | other => other
       end;
     ts_observation := ce_observation e;
     ts_age_ms := age_ms;
     ts_last_error := ce_last_error e |}.

Definition record_observation (now : Z) (h : HostTelemetry) (provider_stale : bool) (e : CacheEntry) :
    CacheEntry := {|
  ce_state := Ready; ce_observation := Some h; ce_received_at := Some now;
  ce_provider_stale := provider_stale; ce_last_error := None |}.

Definition record_warming (e : CacheEntry) : CacheEntry := {|
  ce_state := Warming; ce_observation := ce_observation e; ce_received_at := ce_received_at e;
  ce_provider_stale := ce_provider_stale e; ce_last_error := None |}.

Definition record_failure (c : TelemetryErrorCategory) (e : CacheEntry) : CacheEntry := {|
  ce_state := Unavailable; ce_observation := ce_observation e; ce_received_at := ce_received_at e;
  ce_provider_stale := ce_provider_stale e; ce_last_error := Some c |}.

Definition record_invalid (e : CacheEntry) : CacheEntry := {|
  ce_state := Invalid; ce_observation := ce_observation e; ce_received_at := ce_received_at e;
  ce_provider_stale := ce_provider_stale e; ce_last_error := Some CatInvalid |}.

Definition is_provider_sample_stale (clock : option Z) (h : HostTelemetry) (fresh : Z) : bool :=
  match wall_clock_millis clock with
  | None => false
  | Some now =>
      if (sat_add now (as_millis MAX_CLOCK_SKEW) <? observed_at_unix_ms h)%Z then true
      else (as_millis fresh <? sat_sub now (observed_at_unix_ms h))%Z
  end.

(** [Duration::saturating_mul] and the delay after a number of failures. *)
Definition duration_saturating_mul (d k : Z) : Z := Z.min (d * k) DURATION_MAX.

Definition backoff (refresh failures : Z) : Z :=
  let exponent := Z.min (sat_sub failures 1) 5 in
  Z.min (duration_saturating_mul refresh (Z.shiftl 1 exponent)) MAX_BACKOFF.

(** One round of the owner: what the provider answered, the wall clock while
    the answer was decoded and when its age was judged, the instant it was
    recorded, and whether shutdown was requested during the delay that
    follows. *)
Record Attempt := {
  at_answer : exchange;
  at_decode_clock : option Z;
  at_stale_clock : option Z;
  at_instant : Z;
  at_cancelled : bool;
}.

(** The [match] of [refresh_loop] on one answer: the cache and the number of
    consecutive failures, a [u32]. *)
Definition record_attempt `{GreggProtocol} (fresh : Z) (a : Attempt) (s : CacheEntry * Z) : CacheEntry * Z :=
  let '(e, failures) := s in
  match observe (at_decode_clock a) (at_answer a) with
  | Ok (Observed h) =>
      (record_observation (at_instant a) h (is_provider_sample_stale (at_stale_clock a) h fresh) e, 0%Z)
  | Ok ProviderWarming => (record_warming e, 0%Z)
  | Err error =>
      (if bool_decide (error = InvalidResponse) then record_invalid e
       else record_failure (category error) e,
       Z.min (failures + 1) U32_MAX)
  end.

Definition next_delay (refresh failures : Z) : Z :=
  if (failures =? 0)%Z then refresh else backoff refresh failures.

(** [refresh_loop]: the cache after the given rounds and the delays slept. *)
Fixpoint refresh_loop `{GreggProtocol} (refresh fresh : Z) (rounds : list Attempt) (s : CacheEntry * Z) :
    CacheEntry * list Z :=
  match rounds with
  | [] => (s.1, [])
  | a :: rest =>
      let s' := record_attempt fresh a s in
      let delay := next_delay refresh s'.2 in
      if at_cancelled a then (s'.1, [delay])
      else let '(e, delays) := refresh_loop refresh fresh rest s' in (e, delay :: delays)
  end.

(** [TelemetryMonitor::start] and its polling owner over the given rounds. *)
Definition monitor_cache `{GreggProtocol} (config : HostTelemetryConfig) (rounds : list Attempt) : CacheEntry :=
  (refresh_loop (refresh_interval config) (freshness config) rounds (cache_disabled, 0%Z)).1.

Definition monitor_delays `{GreggProtocol} (config : HostTelemetryConfig) (rounds : list Attempt) : list Z :=
  (refresh_loop (refresh_interval config) (freshness config) rounds (cache_disabled, 0%Z)).2.

(** [node_telemetry] *)
Definition node_telemetry (node_id : string) (fresh now : Z) (e : CacheEntry) : NodeTelemetry :=
  let s := snapshot fresh now e in {|
    nt_schema_version := NODE_TELEMETRY_SCHEMA_VERSION;
    nt_node_id := node_id;
    nt_source := Gregg;
    nt_state := ts_state s;
    nt_age_ms := ts_age_ms s;
    nt_last_error := ts_last_error s;
    nt_observation := ts_observation s |}.

(** ** Percentages and loads

    Every finite [f32] is a whole number of units of [2^-149]. *)

Definition f32_units (f : spec_float) : Z :=
  match f with
  | S754_finite s m e => (if s then -1 else 1) * Z.pos m * 2 ^ (e + 149)
  | _ => 0
  end.

Definition f32_ok (f : spec_float) : Prop := valid_binary 24 128 f = true.

Lemma digits2_pos_log2 m : Z.pos (digits2_pos m) = (Z.log2 (Z.pos m) + 1)%Z.
Proof.
  induction m as [p IH|p IH|]; cbn [digits2_pos]; [| |done].
  - rewrite Pos2Z.inj_succ, IH, (Pos2Z.inj_xI p), Z.log2_succ_double; lia.
  - rewrite Pos2Z.inj_succ, IH, (Pos2Z.inj_xO p), Z.log2_double; lia.
Qed.

(** A canonical mantissa has 24 bits, unless the exponent is the least one. *)
Lemma f32_ok_bounds s m e :
  f32_ok (S754_finite s m e) ->
  (-149 <= e /\ Z.pos m < 2 ^ 24 /\ (-149 < e -> 2 ^ 23 <= Z.pos m))%Z.
Proof.
  unfold f32_ok, valid_binary, bounded, canonical_mantissa, fexp, emin.
  intros [He _]%andb_prop. apply Z.eqb_eq in He. rewrite digits2_pos_log2 in He.
  destruct (Z.log2_spec (Z.pos m)) as [Hlo Hhi]; [lia|].
  assert (Hle : (Z.log2 (Z.pos m) + 1 <= 24)%Z) by lia.
  split; [lia|]. split.
  - eapply Z.lt_le_trans; [exact Hhi|]. apply Z.pow_le_mono_r; lia.
  - intros Hgt. etransitivity; [|exact Hlo]. apply Z.pow_le_mono_r; lia.
Qed.

(** Comparing a positive number with 100 by exponent first is comparing units. *)
Lemma le_hundred_units m e :
  f32_ok (S754_finite false m e) ->
  SFleb (S754_finite false m e) f32_hundred = true <-> (f32_units (S754_finite false m e) <= 100 * 2 ^ 149)%Z.
Proof.
  intros (Hmin & Hhi & Hlo)%f32_ok_bounds. change (2 ^ 24)%Z with 16777216%Z in Hhi.
  change (2 ^ 23)%Z with 8388608%Z in Hlo.
  unfold SFleb, SFcompare, f32_hundred, f32_units. rewrite Z.mul_1_l.
  assert (Hunit : (100 * 2 ^ 149 = 13107200 * 2 ^ 132)%Z) by reflexivity. rewrite Hunit. clear Hunit.
  assert (exists k, k = 13107200%positive) as [k Hk] by eauto. rewrite <- Hk.
  assert (Hpos : (0 < 2 ^ 132)%Z) by reflexivity.
  destruct (Z.compare_spec e (-17)) as [->|Hlt|Hgt].
  - change (-17 + 149)%Z with 132%Z. rewrite <- Z.mul_le_mono_pos_r by done.
    fold (Pos.compare m k). destruct (Pos.compare_spec m k); split; intros; try done; lia.
  - split; [intros _|done].
    assert (Hexp : (2 ^ (e + 149) <= 2 ^ 131)%Z) by (apply Z.pow_le_mono_r; lia).
    assert (Hdouble : (2 ^ 132 = 2 * 2 ^ 131)%Z) by reflexivity. rewrite Hdouble in *.
    generalize dependent (2 ^ 131)%Z. generalize dependent (2 ^ (e + 149))%Z. intros. nia.
  - split; [done|]. intros Hle. exfalso.
    assert (Hexp : (2 ^ 133 <= 2 ^ (e + 149))%Z) by (apply Z.pow_le_mono_r; lia).
    assert (Hdouble : (2 ^ 133 = 2 * 2 ^ 132)%Z) by reflexivity. rewrite Hdouble in Hexp.
    specialize (Hlo ltac:(lia)). clear Hdouble.
    generalize dependent (2 ^ 132)%Z. generalize dependent (2 ^ (e + 149))%Z. intros. nia.
Qed.

Lemma validate_percentage_ok f field :
  f32_ok f ->
  validate_percentage f field = Ok tt <-> is_finite f = true /\ (0 <= f32_units f <= 100 * 2 ^ 149)%Z.
Proof.
  intros Hf. destruct f as [b|b| |s m e]; unfold validate_percentage; cbn [is_finite negb orb].
  - destruct b; cbn; split; intros; try done; split; done || lia.
  - split; [done|]. intros [[=] _].
  - split; [done|]. intros [[=] _].
  - assert (Hpos : (0 < 2 ^ (e + 149))%Z) by (apply f32_ok_bounds in Hf; apply Z.pow_pos_nonneg; lia).
    destruct s.
    + change (SFleb f32_zero (S754_finite true m e)) with false. cbn. split; [done|]. intros [_ ?]. nia.
    + change (SFleb f32_zero (S754_finite false m e)) with true. cbn [andb].
      rewrite <- le_hundred_units by done.
      destruct (SFleb _ f32_hundred); cbn [negb]; split; try done; [|by intros (_&_&?)].
      intros _. split_and!; try done. cbn. nia.
Qed.

Lemma validate_load_ok f field :
  f32_ok f -> validate_load f field = Ok tt <-> is_finite f = true /\ (0 <= f32_units f)%Z.
Proof.
  intros Hf. destruct f as [b|b| |s m e]; unfold validate_load; cbn [is_finite negb orb].
  - destruct b; cbn; split; intros; try done.
  - split; [done|]. intros [[=] _].
  - split; [done|]. intros [[=] _].
  - assert (Hpos : (0 < 2 ^ (e + 149))%Z) by (apply f32_ok_bounds in Hf; apply Z.pow_pos_nonneg; lia).
    destruct s; cbn; split; try done; [|by intros _; split; [done|nia]]. intros [_ ?]. nia.
Qed.

(** ** What one attempt accepts *)

Definition percentage (f : spec_float) : Prop := is_finite f = true /\ (0 <= f32_units f <= 100 * 2 ^ 149)%Z.
Definition load_average (f : spec_float) : Prop := is_finite f = true /\ (0 <= f32_units f)%Z.

(** The floats a payload carries are [f32] values. *)
Definition payload_floats_ok (p : StatusPayload) : Prop :=
  f32_ok (g_usage_pct p) /\
  (forall f, g_iowait_pct p = Some f -> f32_ok f) /\
  (forall o f t, g_load p = Some (o, f, t) -> f32_ok o /\ f32_ok f /\ f32_ok t).

(** What the normalized observation adds to the provider's own validation. *)
Definition payload_sane (p : StatusPayload) : Prop :=
  g_observed_at_unix_ms p <> 0%Z /\
  (g_sample_interval_ms p <> 0 /\ g_sample_interval_ms p <= 86400000)%Z /\
  g_logical_cores p <> 0%Z /\
  percentage (g_usage_pct p) /\
  (g_cap_cpu_iowait p = true -> forall f, g_iowait_pct p = Some f -> percentage f) /\
  (g_memory_used_bytes p <= g_memory_total_bytes p)%Z /\
  (g_cap_load_average p = true -> forall o f t, g_load p = Some (o, f, t) ->
   load_average o /\ load_average f /\ load_average t) /\
  (g_cap_swap p = true -> forall used total, g_swap p = Some (used, total) -> used <= total)%Z.

Lemma seq_ok {E} (a b : result E unit) : (a ;? b) = Ok tt <-> a = Ok tt /\ b = Ok tt.
Proof. destruct a as [[]|]; cbn; naive_solver. Qed.

Lemma refuse_ok {E} (b : bool) (e : E) : (if b then Err e else Ok tt) = Ok tt <-> b = false.
Proof. destruct b; naive_solver. Qed.

Lemma iowait_valid p :
  payload_floats_ok p ->
  match (if g_cap_cpu_iowait p then g_iowait_pct p else None) with
  | Some f => validate_percentage f "telemetry cpu iowait"
  | None => Ok tt
  end = Ok tt <->
  (g_cap_cpu_iowait p = true -> forall f, g_iowait_pct p = Some f -> percentage f).
Proof.
  intros (_ & Hi & _). destruct (g_cap_cpu_iowait p), (g_iowait_pct p) as [f|]; try (by split).
  rewrite validate_percentage_ok by auto. split; [by intros Hf _ ? [= <-]|by intros Hf; apply Hf].
Qed.

Lemma load_valid p :
  payload_floats_ok p ->
  match load (normalize p) with
  | Value l =>
      validate_load (one l) "telemetry load one" ;?
      validate_load (five l) "telemetry load five" ;?
      validate_load (fifteen l) "telemetry load fifteen"
  | _ => Ok tt
  end = Ok tt <->
  (g_cap_load_average p = true -> forall o f t, g_load p = Some (o, f, t) ->
   load_average o /\ load_average f /\ load_average t).
Proof.
  intros (_ & _ & Hl). cbn -[validate_load].
  destruct (g_cap_load_average p), (g_load p) as [[[o f] t]|]; try (by split).
  destruct (Hl o f t eq_refl) as (?&?&?). rewrite !seq_ok, !validate_load_ok by done.
  split; [by intros Hf _ ? ? ? [= <- <- <-]|by intros Hf; apply Hf].
Qed.

Lemma swap_valid p :
  match swap (normalize p) with
  | Value s => if (swap_total_bytes s <? swap_used_bytes s)%Z
               then Err (OutOfRange "telemetry swap used bytes") else Ok tt
  | _ => Ok tt
  end = Ok tt <->
  (g_cap_swap p = true -> forall used total, g_swap p = Some (used, total) -> used <= total)%Z.
Proof.
  cbn. destruct (g_cap_swap p), (g_swap p) as [[used total]|]; try (by split).
  rewrite refuse_ok, Z.ltb_ge. cbn. split; [by intros Hf _ ? ? [= <- <-]|by intros Hf; apply Hf].
Qed.

Lemma normalize_valid p :
  payload_floats_ok p -> HostTelemetry_validate (normalize p) = Ok tt <-> payload_sane p.
Proof.
  intros Hp. unfold HostTelemetry_validate. rewrite !seq_ok, load_valid, swap_valid by done.
  unfold normalize. cbn [observed_at_unix_ms sample_interval_ms cpu memory logical_cores usage_pct iowait_pct
    mem_total_bytes mem_used_bytes].
  rewrite !seq_ok, iowait_valid, !refuse_ok by done. rewrite validate_percentage_ok by (by destruct Hp).
  rewrite orb_false_iff, !Z.eqb_neq, !Z.ltb_ge. unfold payload_sane.
  fold (percentage (g_usage_pct p)). change MAX_TELEMETRY_SAMPLE_INTERVAL_MS with 86400000%Z. tauto.
Qed.

(** An attempt yields an observation exactly when the provider answered
    200 with at most 256 KiB that decode to a payload of the expected
    version, which passes the provider's own validation, is not stamped more
    than 30 seconds ahead of the node's clock (when that clock is readable),
    and whose translation is in range: a timestamp, a sampling interval of
    at most a day, at least one core, percentages that are real numbers from
    0 to 100, finite loads that are not negative, and used memory and swap
    within their totals.  The observation is then that translation: metrics
    the host does not support are never turned into values. *)
Theorem observe_exact `{GreggProtocol} (clock : option Z) (answer : exchange) (h : HostTelemetry) :
  (forall body p, status_from_slice body = Some p -> payload_floats_ok p) ->
  observe clock answer = Ok (Observed h) <->
  exists body p,
    answer = Ok (200%Z, Ok body) /\ (len body <= 262144)%Z /\ status_from_slice body = Some p /\
    g_schema_version p = SCHEMA_VERSION_V2 /\ payload_validate p = true /\
    (forall now, wall_clock_millis clock = Some now ->
     g_observed_at_unix_ms p <= Z.min (now + 30000) U64_MAX)%Z /\
    payload_sane p /\ h = normalize p.
Proof.
  intros Hfloats. split.
  - unfold observe, decode_status, map_err, ok_or. intros Hobs. cases_in Hobs.
    match goal with Hp : status_from_slice ?b = Some ?q |- _ => exists b, q; pose proof (Hfloats _ _ Hp) end.
    subst. do 5 (split; [done|]). split; [|split; [|done]].
    + intros now Hnow. unfold exceeds_clock_skew in *. rewrite Hnow in *.
      match goal with Hs : (_ <? _)%Z = false |- _ => by apply Z.ltb_ge in Hs end.
    + rewrite <- normalize_valid by done.
      match goal with Hok : is_ok ?r = true |- _ => by destruct r as [[]|] end.
  - intros (body & p & -> & Hlen & Hp & Hversion & Hown & Hskew & Hsane & ->).
    apply normalize_valid in Hsane; [|by eapply Hfloats].
    unfold observe, decode_status, map_err, ok_or. cbn -[len normalize HostTelemetry_validate].
    replace (MAX_PROVIDER_BODY_BYTES <? len body)%Z with false
      by (symmetry; apply Z.ltb_ge; exact Hlen).
    rewrite Hp, Hown, (proj2 (Z.eqb_eq _ _) Hversion), Hsane. cbn -[normalize].
    replace (exceeds_clock_skew clock (g_observed_at_unix_ms p)) with false; [done|].
    symmetry. unfold exceeds_clock_skew. destruct (wall_clock_millis clock) as [now|]; [|done].
    apply Z.ltb_ge. exact (Hskew now eq_refl).
Qed.

(** ** What the polling owner has recorded *)

Section polling.
Context `{GreggProtocol}.

Definition outcome (a : Attempt) : result TelemetryError ProviderOutcome :=
  observe (at_decode_clock a) (at_answer a).

(** The rounds up to the one in whose delay shutdown was requested. *)
Fixpoint performed (rounds : list Attempt) : list Attempt :=
  match rounds with
  | [] => []
  | a :: rest => a :: (if at_cancelled a then [] else performed rest)
  end.

Definition observation_of (a : Attempt) : option (Attempt * HostTelemetry) :=
  match outcome a with Ok (Observed h) => Some (a, h) | _ => None end.

(** The latest round that produced an observation, and the observation. *)
Definition last_observed (l : list Attempt) : option (Attempt * HostTelemetry) :=
  last (omap observation_of l).

(** How many rounds at the end of the list failed in a row. *)
Definition trailing_failures (l : list Attempt) : Z :=
  foldl (fun n a => if is_ok (outcome a) then 0%Z else (n + 1)%Z) 0%Z l.

Lemma observe_valid clock answer h :
  observe clock answer = Ok (Observed h) ->
  HostTelemetry_validate h = Ok tt /\
  (forall now, wall_clock_millis clock = Some now -> observed_at_unix_ms h <= now + 30000)%Z.
Proof.
  unfold observe, decode_status, map_err, ok_or, exceeds_clock_skew. intros Hobs.
  destruct (wall_clock_millis clock) eqn:Hclock; cases_in Hobs.
  all: split; [match goal with Hok : is_ok ?r = true |- _ => by destruct r as [[]|] end|].
  - intros ? [= <-]. unfold sat_add in *. change (as_millis MAX_CLOCK_SKEW) with 30000%Z in *. cbn. lia.
  - intros ? [=].
Qed.

(** The cache as a function of the rounds performed. *)
Definition cache_of (fresh : Z) (l : list Attempt) : CacheEntry := {|
  ce_state := match last l with
              | None => Disabled
              | Some a => match outcome a with
                          | Ok (Observed _) => Ready
                          | Ok ProviderWarming => Warming
                          | Err InvalidResponse => Invalid
                          | Err _ => Unavailable
                          end
              end;
  ce_observation := snd <$> last_observed l;
  ce_received_at := at_instant ∘ fst <$> last_observed l;
  ce_provider_stale := match last_observed l with
                       | Some (a, h) => is_provider_sample_stale (at_stale_clock a) h fresh
                       | None => false
                       end;
  ce_last_error := match last l with
                   | Some a => match outcome a with Err e => Some (category e) | Ok _ => None end
                   | None => None
                   end |}.

Lemma last_observed_snoc l a :
  last_observed (l ++ [a]) =
  match observation_of a with Some o => Some o | None => last_observed l end.
Proof.
  unfold last_observed. rewrite omap_app. cbn.
  destruct (observation_of a); [by rewrite last_snoc|by rewrite app_nil_r].
Qed.

Lemma trailing_failures_nonneg l : (0 <= trailing_failures l)%Z.
Proof.
  unfold trailing_failures. induction l as [|a l IH] using rev_ind; [done|].
  rewrite foldl_app. cbn. destruct (is_ok _); lia.
Qed.

Lemma record_attempts_spec fresh l :
  foldl (fun s a => record_attempt fresh a s) (cache_disabled, 0%Z) l =
  (cache_of fresh l, Z.min (trailing_failures l) U32_MAX).
Proof.
  induction l as [|a l IH] using rev_ind; [done|].
  rewrite foldl_app, IH. cbn [foldl]. unfold trailing_failures. rewrite foldl_app. cbn [foldl].
  fold (trailing_failures l). unfold record_attempt, cache_of. fold (outcome a).
  rewrite last_snoc, last_observed_snoc. unfold observation_of.
  pose proof (trailing_failures_nonneg l).
  destruct (outcome a) as [[h|]|e]; [done|done|].
  cbn [is_ok]. unfold U32_MAX. f_equal; [|lia]. by destruct e.
Qed.

Lemma refresh_loop_cache refresh fresh rounds : forall s,
  (refresh_loop refresh fresh rounds s).1 =
  (foldl (fun s a => record_attempt fresh a s) s (performed rounds)).1.
Proof.
  induction rounds as [|a rounds IH]; intros s; [done|]. cbn.
  destruct (at_cancelled a); [done|]. rewrite <- IH. by destruct refresh_loop.
Qed.

Lemma refresh_loop_delays refresh fresh rounds : forall s k d,
  (refresh_loop refresh fresh rounds s).2 !! k = Some d ->
  d = next_delay refresh (foldl (fun s a => record_attempt fresh a s) s (take (S k) rounds)).2.
Proof.
  induction rounds as [|a rounds IH]; intros s k d; [done|]. cbn.
  destruct (at_cancelled a).
  - destruct k as [|k]; cbn; [|done]. intros [= <-]. by rewrite take_0.
  - destruct refresh_loop as [e delays] eqn:Hrun. destruct k as [|k]; cbn [lookup list_lookup snd].
    + intros [= <-]. by rewrite take_0.
    + intros Hk. apply IH. by rewrite Hrun.
Qed.

Lemma last_observed_valid l a h : last_observed l = Some (a, h) -> outcome a = Ok (Observed h).
Proof.
  unfold last_observed. intros (l' & Hl)%last_Some.
  assert (Hin : (a, h) ∈ omap observation_of l) by (rewrite Hl; set_solver).
  apply list_elem_of_omap in Hin as (b & _ & Hb). unfold observation_of in Hb. by cases_in Hb.
Qed.

Lemma last_observed_last l a h : last l = Some a -> outcome a = Ok (Observed h) -> last_observed l = Some (a, h).
Proof.
  intros (l' & ->)%last_Some Ha. rewrite last_observed_snoc. unfold observation_of. by rewrite Ha.
Qed.


Lemma backoff_factor f : (1 <= f)%Z -> (1 <= 2 ^ Z.min (f - 1) 5 <= 32)%Z.
Proof.
  intros Hf. split; [pose proof (Z.pow_pos_nonneg 2 (Z.min (f - 1) 5)); lia|].
  change 32%Z with (2 ^ 5)%Z. apply Z.pow_le_mono_r; lia.
Qed.

Lemma next_delay_spec r f :
  (1 <= r <= 3600)%Z -> (0 <= f)%Z ->
  next_delay (from_secs r) (Z.min f U32_MAX) =
  (if (f =? 0)%Z then from_secs r else Z.min (from_secs r * 2 ^ Z.min (f - 1) 5) MAX_BACKOFF).
Proof.
  intros Hr Hf. unfold next_delay, U32_MAX.
  destruct (Z.eqb_spec f 0), (Z.eqb_spec (Z.min f 4294967295) 0); try lia.
  unfold backoff, sat_sub, duration_saturating_mul, from_secs. rewrite Z.shiftl_1_l.
  replace (Z.min (Z.max (Z.min f 4294967295 - 1) 0) 5) with (Z.min (f - 1) 5) by lia.
  pose proof (backoff_factor f ltac:(lia)) as Hp. generalize dependent (2 ^ Z.min (f - 1) 5)%Z. intros p Hp.
  assert (Hmax : (115200 * 1000000000 <= DURATION_MAX)%Z) by (vm_compute; discriminate).
  generalize dependent DURATION_MAX. intros m Hmax.
  assert (r * p <= 115200)%Z by nia. f_equal. lia.
Qed.

Lemma delay_bounds r f :
  (1 <= r <= 3600)%Z -> (0 <= f)%Z ->
  let d := (if (f =? 0)%Z then from_secs r else Z.min (from_secs r * 2 ^ Z.min (f - 1) 5) MAX_BACKOFF) in
  (from_secs 1 <= d <= Z.max (from_secs r) MAX_BACKOFF)%Z /\
  (from_secs r <= d <-> f = 0 \/ r <= 300)%Z.
Proof.
  intros Hr Hf. cbv zeta. unfold from_secs, MAX_BACKOFF, from_secs. destruct (Z.eqb_spec f 0); [lia|].
  pose proof (backoff_factor f ltac:(lia)) as Hp. generalize dependent (2 ^ Z.min (f - 1) 5)%Z. intros p Hp.
  assert (r <= r * p)%Z by nia.
  replace (r * 1000000000 * p)%Z with (r * p * 1000000000)%Z by lia. generalize dependent (r * p)%Z. lia.
Qed.

(** C27: with an accepted configuration the delay after the [k]-th attempt is
    the refresh interval when that attempt succeeded, and otherwise the
    interval doubled for each further failure in a row, at most 32 times the
    interval and at most 300 seconds; no multiplication saturates, and the
    loop never spins.  The delay is at least the configured interval exactly
    when the attempt succeeded or the interval is at most 300 seconds: above
    that, an absent provider is polled more often than a live one. *)
Theorem polling_cadence `{UrlParser} (raw : string) (refresh_seconds freshness_seconds : Z)
    (config : HostTelemetryConfig) (rounds : list Attempt) (k : nat) (d : Z) :
  HostTelemetryConfig_new raw refresh_seconds freshness_seconds = Ok config ->
  monitor_delays config rounds !! k = Some d ->
  let f := trailing_failures (take (S k) rounds) in
  d = (if (f =? 0)%Z then from_secs refresh_seconds
       else Z.min (from_secs refresh_seconds * 2 ^ Z.min (f - 1) 5) MAX_BACKOFF)%Z /\
  (from_secs 1 <= d <= Z.max (from_secs refresh_seconds) MAX_BACKOFF)%Z /\
  (from_secs refresh_seconds <= d <-> f = 0 \/ refresh_seconds <= 300)%Z.
Proof.
  intros Hc Hk f. unfold HostTelemetryConfig_new, MIN_REFRESH_SECONDS, MAX_REFRESH_SECONDS in Hc. cases_in Hc.
  assert (Hr : (1 <= refresh_seconds <= 3600)%Z) by lia.
  apply refresh_loop_delays in Hk. rewrite record_attempts_spec in Hk. cbn [snd refresh_interval] in Hk.
  pose proof (trailing_failures_nonneg (take (S k) rounds)) as Hf. fold f in Hk, Hf.
  rewrite next_delay_spec in Hk by done. split; [done|]. subst d. by apply delay_bounds.
Qed.

End polling.

(** ** The endpoint *)

(** What the development uses of the [url] crate: the serialization of a
    parsed plain-HTTP URL without userinfo, query and fragment (the scheme's
    default port is left out), the range of ports and of address octets. *)
Class UrlLaws `{UrlParser} : Prop := {
  url_serialized raw u h p :
    url_parse raw = Some u -> scheme u = "http" -> username u = EmptyString -> password u = None ->
    query u = None -> fragment u = None -> host_str u = Some h -> port_or_known_default u = Some p ->
    to_string u = "http://" +:+ h +:+ (if (p =? 80)%Z then EmptyString else ":" +:+ dec p) +:+ url_path u;
  url_port_range raw u p :
    url_parse raw = Some u -> port_or_known_default u = Some p -> (0 <= p <= 65535)%Z;
  url_octet_range raw u a b c d :
    url_parse raw = Some u -> host u = Some (Ipv4 a b c d) ->
    Forall (fun o => 0 <= o <= 255)%Z [a; b; c; d];
}.

Lemma validate_endpoint_ok `{UrlParser} raw e :
  validate_endpoint raw = Ok e ->
  exists u h p,
    url_parse raw = Some u /\ scheme u = "http" /\ username u = EmptyString /\ password u = None /\
    query u = None /\ fragment u = None /\ url_path u = PROVIDER_STATUS_PATH /\
    names_explicit_port raw = true /\ port_or_known_default u = Some p /\ p <> 0%Z /\
    host_str u = Some h /\ to_string u = e /\
    ((exists b c d, host u = Some (Ipv4 127 b c d) /\ h = ipv4_string 127 b c d) \/ h = "[::1]").
Proof.
  unfold validate_endpoint, ok_or. intros He. cases_in He.
  all: match goal with Hu : url_parse _ = Some ?v |- _ => exists v end.
  all: repeat match goal with
    | Hs : is_some _ = false |- _ => apply is_some_false in Hs
    | Hs : is_empty _ = true |- _ => apply is_empty_spec in Hs
    | Hs : String.eqb _ _ = true |- _ => apply String.eqb_eq in Hs
    | Hs : bool_decide _ = true |- _ => apply bool_decide_eq_true in Hs
    end.
  all: eexists; eexists; repeat split; try eassumption.
  - left. subst. eauto.
  - by right.
Qed.

(** An accepted telemetry endpoint is plain HTTP to a loopback address
    literal, [127.b.c.d] or [[::1]], on a port from 1 to 65535 the operator
    wrote out, with exactly the status path: no user, query, fragment or host
    name gets through, and the intervals satisfy
    1 <= refresh <= freshness <= 3600 seconds. *)
Theorem endpoint_is_loopback `{UrlLaws} (raw : string) (refresh_seconds freshness_seconds : Z)
    (config : HostTelemetryConfig) :
  HostTelemetryConfig_new raw refresh_seconds freshness_seconds = Ok config ->
  names_explicit_port raw = true /\
  (1 <= refresh_seconds /\ refresh_seconds <= freshness_seconds /\ freshness_seconds <= 3600)%Z /\
  refresh_interval config = from_secs refresh_seconds /\
  freshness config = from_secs freshness_seconds /\
  exists h p,
    endpoint config =
      "http://" +:+ h +:+ (if (p =? 80)%Z then EmptyString else ":" +:+ dec p) +:+ "/v2/status" /\
    (1 <= p <= 65535)%Z /\
    (h = "[::1]" \/
     exists b c d, h = ipv4_string 127 b c d /\ Forall (fun o => 0 <= o <= 255)%Z [b; c; d]).
Proof.
  unfold HostTelemetryConfig_new, MIN_REFRESH_SECONDS, MAX_REFRESH_SECONDS, MAX_FRESHNESS_SECONDS.
  intros Hc. cases_in Hc.
  match goal with He : validate_endpoint _ = Ok _ |- _ => apply validate_endpoint_ok in He as
    (u & h & p & Hparse & Hscheme & Huser & Hpass & Hquery & Hfrag & Hpath & Hport & Hp & Hp0 & Hstr & <- & Hhost) end.
  split; [done|]. split; [lia|]. split; [done|]. split; [done|]. exists h, p.
  pose proof (url_port_range _ _ _ Hparse Hp). cbn [endpoint].
  rewrite (url_serialized raw u h p) by done. rewrite Hpath.
  split; [done|]. split; [lia|]. destruct Hhost as [(b & c & d & Hv4 & ->)|Hv6]; [right|by left].
  exists b, c, d. split; [done|]. pose proof (url_octet_range _ _ _ _ _ _ Hparse Hv4) as Hall.
  by apply Forall_cons in Hall as [_ Hall].
Qed.

(** ** Concrete instances *)

(** A parser that knows one endpoint. *)
Definition sample_endpoint : string := "http://127.0.0.1:9137/v2/status".

Definition sample_url : Url := {|
  scheme := "http"; cannot_be_a_base := false; username := EmptyString; password := None;
  query := None; fragment := None; url_path := "/v2/status"; port_or_known_default := Some 9137%Z;
  host := Some (Ipv4 127 0 0 1); host_str := Some "127.0.0.1"; to_string := sample_endpoint |}.

Definition sample_parser : UrlParser :=
  fun raw => if String.eqb raw sample_endpoint then Some sample_url else None.

Lemma sample_parser_laws : @UrlLaws sample_parser.
Proof.
  split; unfold url_parse, sample_parser.
  - intros raw u h p. destruct (String.eqb raw _); [|done]. by intros [= <-] _ _ _ _ _ [= <-] [= <-].
  - intros raw u p. destruct (String.eqb raw _); [|done]. intros [= <-] [= <-]. lia.
  - intros raw u a b c d. destruct (String.eqb raw _); [|done]. intros [= <-] [= <- <- <- <-].
    repeat constructor; lia.
Qed.

Definition sample_config : HostTelemetryConfig := {|
  endpoint := sample_endpoint; refresh_interval := from_secs 600; freshness := from_secs 900 |}.

Lemma sample_config_new : @HostTelemetryConfig_new sample_parser sample_endpoint 600 900 = Ok sample_config.
Proof. by vm_compute. Qed.

Lemma endpoint_is_loopback_witness :
  names_explicit_port sample_endpoint = true /\
  exists h p,
    endpoint sample_config =
      "http://" +:+ h +:+ (if (p =? 80)%Z then EmptyString else ":" +:+ dec p) +:+ "/v2/status" /\
    (1 <= p <= 65535)%Z.
Proof.
  destruct (@endpoint_is_loopback sample_parser sample_parser_laws sample_endpoint 600 900 sample_config
    sample_config_new) as (Hport & _ & _ & _ & h & p & He & Hp & _).
  split; [exact Hport|]. exists h, p. split; [exact He|exact Hp].
Defined.

(** A provider that decodes every body to one payload, half busy. *)
Definition f32_fifty : spec_float := S754_finite false 13107200 (-18).

Definition sample_payload : StatusPayload := {|
  g_schema_version := 2; g_observed_at_unix_ms := 1000000; g_sample_interval_ms := 1000;
  g_logical_cores := 8; g_usage_pct := f32_fifty; g_iowait_pct := None;
  g_memory_total_bytes := 4096; g_memory_used_bytes := 1024; g_load := None; g_swap := Some (0, 512)%Z;
  g_cap_cpu_iowait := false; g_cap_load_average := true; g_cap_swap := true;
  g_drives := Some []; g_disk_io := None; g_network := Some (10, 20)%Z |}.

Definition sample_gregg : GreggProtocol := {|
  status_from_slice := fun _ => Some sample_payload;
  payload_validate := fun _ => true;
  health_is_warming := fun _ => Some true;
  SCHEMA_VERSION_V2 := 2 |}.

Lemma sample_floats_ok : payload_floats_ok sample_payload.
Proof. split; [by vm_compute|]. split; intros; discriminate. Qed.

Lemma observe_exact_witness :
  @observe sample_gregg (Some 1000500%Z) (Ok (200%Z, Ok [])) = Ok (Observed (normalize sample_payload)) /\
  payload_sane sample_payload.
Proof.
  assert (Hobs : @observe sample_gregg (Some 1000500%Z) (Ok (200%Z, Ok [])) =
    Ok (Observed (normalize sample_payload))) by (vm_compute; reflexivity).
  split; [exact Hobs|].
  destruct (proj1 (@observe_exact sample_gregg (Some 1000500%Z) (Ok (200%Z, Ok [])) (normalize sample_payload)
    ltac:(intros ? ? [= <-]; exact sample_floats_ok)) Hobs) as (body & p & _ & _ & Hp & _ & _ & _ & Hsane & _).
  injection Hp as <-. exact Hsane.
Defined.

(** An answer, a refused connection, and a restarted provider. *)
Definition sample_round (answer : exchange) (at_ : Z) : Attempt := {|
  at_answer := answer; at_decode_clock := Some 1000500%Z; at_stale_clock := Some 1000500%Z;
  at_instant := at_; at_cancelled := false |}.

Definition sample_rounds : list Attempt :=
  [sample_round (Ok (200%Z, Ok [])) 0; sample_round (Err FetchConnect) 600;
   sample_round (Ok (503%Z, Ok [])) 900].

Lemma polling_cadence_witness :
  @trailing_failures sample_gregg (take 2 sample_rounds) = 1%Z /\
  (from_secs 300 < from_secs 600)%Z /\
  (from_secs 600 <= from_secs 300 <->
   @trailing_failures sample_gregg (take 2 sample_rounds) = 0 \/ 600 <= 300)%Z.
Proof.
  split; [vm_compute; reflexivity|]. split; [vm_compute; reflexivity|].
  refine (proj2 (proj2 (@polling_cadence sample_gregg sample_parser sample_endpoint 600 900 sample_config
    sample_rounds 1 (from_secs 300) sample_config_new _))).
  vm_compute. reflexivity.
Defined.

(** After these rounds the node serves a response its own contract refuses. *)
Example warming_after_observation_is_rejected :
  NodeTelemetry_validate
    (node_telemetry "node" (freshness sample_config) 1000 (@monitor_cache sample_gregg sample_config sample_rounds)) =
  Err (OutOfRange "node telemetry observation").
Proof. vm_compute. reflexivity. Qed.
