(* ===== verification/Node.v ===== *)
(** * Executions in memory: publishing, running, streaming

    [eggwork-server/src/lib.rs], lines 209-244, 1959-2029 and 2445-2762: the
    in-memory record of an execution, the publication of its events, the task
    that runs it to its terminal state, its lease monitor, and the event
    stream a client follows.

    [publish] holds the record's commit lock across the durable commit and
    then updates the snapshot and broadcasts the event, while readers run
    between the two: it is modelled by the two steps [publish_begin] and
    [publish_end] (the snapshot is replaced and the event sent in one step),
    and a step relation interleaves them with everything else that happens to
    the record and the store.  The broadcast channel of a
    record is the list of all events sent on it; a subscriber sees those sent
    after it subscribed. *)

From Stdlib Require Import Ascii String ZArith Lia.
From stdpp Require Import base gmap strings list relations.
From S2P Require Import Prelude Text Ids Wire Spec Events Store Capture Runner.

(** [is_terminal] *)
Definition is_terminal (s : ExecutionState) : bool :=
  match s with Succeeded | Failed | Cancelled | TimedOut | Interrupted => true | _ => false end.

Record LeaseState := { expires_at : Z; expired : bool }.

Record ExecutionRecord := {
  rec_snapshot : ExecutionSnapshot;
  rec_commit : option (ExecutionSnapshot * ExecutionEvent);
  rec_cancelled : bool;
  rec_events : list ExecutionEvent;
  rec_finished : bool;
  rec_lease_hash : string;
  rec_lease : LeaseState;
}.

(** [new_record]; [now] is the monotonic clock. *)
Definition new_record (snapshot : ExecutionSnapshot) (lease_hash : string) (now lease_ttl : Z) : ExecutionRecord :=
  {| rec_snapshot := snapshot; rec_commit := None; rec_cancelled := false; rec_events := [];
     rec_finished := false; rec_lease_hash := lease_hash;
     rec_lease := {| expires_at := now + lease_ttl; expired := false |} |}.

(** [recovered_record] *)
Definition recovered_record (snapshot : ExecutionSnapshot) (lease_hash : string) (now : Z) : ExecutionRecord :=
  {| rec_snapshot := snapshot; rec_commit := None; rec_cancelled := false; rec_events := [];
     rec_finished := true; rec_lease_hash := lease_hash;
     rec_lease := {| expires_at := now; expired := false |} |}.

Definition set_cancelled (r : ExecutionRecord) : ExecutionRecord :=
  {| rec_snapshot := rec_snapshot r; rec_commit := rec_commit r; rec_cancelled := true;
     rec_events := rec_events r; rec_finished := rec_finished r; rec_lease_hash := rec_lease_hash r;
     rec_lease := rec_lease r |}.

Definition set_rec_lease (l : LeaseState) (r : ExecutionRecord) : ExecutionRecord :=
  {| rec_snapshot := rec_snapshot r; rec_commit := rec_commit r; rec_cancelled := rec_cancelled r;
     rec_events := rec_events r; rec_finished := rec_finished r; rec_lease_hash := rec_lease_hash r;
     rec_lease := l |}.

Definition set_commit (c : option (ExecutionSnapshot * ExecutionEvent)) (r : ExecutionRecord) : ExecutionRecord :=
  {| rec_snapshot := rec_snapshot r; rec_commit := c; rec_cancelled := rec_cancelled r;
     rec_events := rec_events r; rec_finished := rec_finished r; rec_lease_hash := rec_lease_hash r;
     rec_lease := rec_lease r |}.

Definition set_finished (r : ExecutionRecord) : ExecutionRecord :=
  {| rec_snapshot := rec_snapshot r; rec_commit := rec_commit r; rec_cancelled := rec_cancelled r;
     rec_events := rec_events r; rec_finished := true; rec_lease_hash := rec_lease_hash r;
     rec_lease := rec_lease r |}.

(** ** Publishing *)

(** The snapshot [publish] proposes. *)
Definition propose (base : ExecutionSnapshot) (st : ExecutionState) (res : option ExecutionResult) : ExecutionSnapshot :=
  {| snap_schema_version := snap_schema_version base; execution_id := execution_id base;
     generation := generation base; snap_state := st;
     snap_result := match res with Some r => Some r | None => snap_result base end |}.

Section publish.
Context `{Serde ExecutionSnapshot, Serde ExecutionEvent}.

(** [publish] up to and including the durable commit, with the commit lock
    taken: the record, the node's draining flag and the store. *)
Definition publish_begin (fault : option StoreError) (st : ExecutionState) (res : option ExecutionResult)
    (k : ExecutionEventKind) (now : Z) (r : ExecutionRecord) (draining : bool) (db : Db)
    : ExecutionRecord * bool * Db :=
  if is_terminal (snap_state (rec_snapshot r)) then (r, draining, db)
  else
    let proposed := propose (rec_snapshot r) st res in
    match commit_event fault proposed k now db with
    | (Ok (Some event), db) => (set_commit (Some (proposed, event)) r, draining, db)
    | (Ok None, db) => (r, draining, db)
    | (Err _, db) => (set_cancelled r, true, db)
    end.

(** The rest of [publish]: the snapshot is replaced, the event sent, and the
    commit lock released. *)
Definition publish_end (r : ExecutionRecord) : ExecutionRecord :=
  match rec_commit r with
  | Some (proposed, event) =>
      {| rec_snapshot := proposed; rec_commit := None; rec_cancelled := rec_cancelled r;
         rec_events := rec_events r ++ [event]; rec_finished := rec_finished r;
         rec_lease_hash := rec_lease_hash r; rec_lease := rec_lease r |}
  | None => r
  end.

(** [publish] without interference. *)
Definition publish (fault : option StoreError) (st : ExecutionState) (res : option ExecutionResult)
    (k : ExecutionEventKind) (now : Z) (r : ExecutionRecord) (draining : bool) (db : Db)
    : ExecutionRecord * bool * Db :=
  let '(r, draining, db) := publish_begin fault st res k now r draining db in
  (publish_end r, draining, db).
End publish.

(** ** The lease monitor *)

(** Which arm of [monitor_lease]'s [select!] fires; the deadline arm reads the
    clock again. *)
Inductive LeaseWake : Type :=
| WakeCancelled
| WakeNotified
| WakeDeadline (now : Z).

(** One round of [monitor_lease]: the record, and whether the loop goes on. *)
Definition monitor_lease (r : ExecutionRecord) (w : LeaseWake) : ExecutionRecord * bool :=
  if is_terminal (snap_state (rec_snapshot r)) then (r, false)
  else
    match w with
    | WakeCancelled => (r, false)
    | WakeNotified => (r, true)
    | WakeDeadline now =>
        if (expires_at (rec_lease r) <=? now)%Z
        then (set_cancelled (set_rec_lease {| expires_at := expires_at (rec_lease r); expired := true |} r), false)
        else (r, true)
    end.

(** ** Running an execution *)

(** What a round of [run_execution]'s biased [select!] sees: a chunk, the
    closed output channel, or the runner's outcome ([None] when its task
    panicked), with whether the channel is then closed and empty. *)
Inductive Poll : Type :=
| PollOutput (c : OutputChunk)
| PollClosed
| PollJoined (joined : option (result RunnerError RunnerResult)) (drained : bool).

Record LoopState := {
  lp_result : option RunnerResult;
  lp_error : option RunnerError;
  lp_closed : bool;
  lp_output : list OutputChunk;
}.

Definition loop_init : LoopState := {| lp_result := None; lp_error := None; lp_closed := false; lp_output := [] |}.

Inductive LoopOutcome : Type :=
| LoopBreak (s : LoopState)
| LoopWaiting (s : LoopState)
| LoopPanic (s : LoopState)
| LoopImpossible.

Definition output_enabled (s : LoopState) : bool := negb (lp_closed s).
Definition join_enabled (s : LoopState) : bool :=
  match lp_result s, lp_error s with None, None => true | _, _ => false end.

Definition runner_failed : RunnerError := Wait "runner task failed".

(** The loop of [run_execution] on the sequence of what its rounds see.  A
    [select!] whose branches are all disabled panics.  A disabled branch is
    not polled, and a channel that has answered [None] is closed and empty. *)
Fixpoint run_loop (polls : list Poll) (s : LoopState) : LoopOutcome :=
  if negb (output_enabled s) && negb (join_enabled s) then LoopPanic s
  else
    match polls with
    | [] => LoopWaiting s
    | PollOutput c :: polls =>
        if negb (output_enabled s) then LoopImpossible
        else run_loop polls {| lp_result := lp_result s; lp_error := lp_error s; lp_closed := lp_closed s;
                               lp_output := lp_output s ++ [c] |}
    | PollClosed :: polls =>
        if negb (output_enabled s) then LoopImpossible
        else
          let s := {| lp_result := lp_result s; lp_error := lp_error s; lp_closed := true; lp_output := lp_output s |} in
          match lp_result s with
          | Some _ => LoopBreak s
          | None => run_loop polls s
          end
    | PollJoined joined drained :: polls =>
        if negb (join_enabled s) || lp_closed s && negb drained then LoopImpossible
        else
          let s := match joined with
            | Some (Ok value) => {| lp_result := Some value; lp_error := lp_error s; lp_closed := lp_closed s; lp_output := lp_output s |}
            | Some (Err error) => {| lp_result := lp_result s; lp_error := Some error; lp_closed := lp_closed s; lp_output := lp_output s |}
            | None => {| lp_result := lp_result s; lp_error := Some runner_failed; lp_closed := lp_closed s; lp_output := lp_output s |}
            end in
          if drained then LoopBreak s else run_loop polls s
    end.

(** [failure_for_runner_error] *)
Definition failure_for_runner_error (e : option RunnerError) (lease_expired : bool) : ExecutionFailure :=
  match e with
  | Some (Spawn _) => FailSpawn
  | _ => if lease_expired then FailLeaseExpired
         else match e with Some CancelledBeforeSpawn => FailInterrupted | _ => FailInternal end
  end.

Definition requested_dimension {A} (r : Requirement A) : ResourceDimensionResult :=
  match r with
  | NotRequested => DimNotRequested
  | _ => DimNotApplied "requested resource enforcement failed before execution"
  end.

(** [failed_result] *)
Definition failed_result (st : ExecutionState) (f : ExecutionFailure) (sandbox : SandboxRequest)
    (resources : ResourceSetupRequest) : ExecutionResult :=
  {| res_state := st; exit_code := None; failure := Some f; stdout_bytes := 0; stderr_bytes := 0;
     stdout_omitted := 0; stderr_omitted := 0; cleanup_warning := None; finalization_failure := None;
     artifact_count := 0;
     res_sandbox := Some match sandbox with
       | SbNone => SandboxNotRequested
       | SbBestEffort _ => SandboxNotApplied "best-effort sandbox setup was unavailable"
       | SbRequired _ => SandboxFailed "required sandbox setup failed"
       end;
     res_resources := Some {| rr_memory_bytes := requested_dimension (rs_memory_bytes resources);
                              rr_cpu_millis := requested_dimension (rs_cpu_millis resources);
                              rr_pids := requested_dimension (rs_pids resources) |} |}.

(** A result whose state, failure and exit code the lease overrides. *)
Definition lease_override (e : ExecutionResult) : ExecutionResult :=
  {| res_state := Interrupted; exit_code := None; failure := Some FailLeaseExpired;
     stdout_bytes := stdout_bytes e; stderr_bytes := stderr_bytes e; stdout_omitted := stdout_omitted e;
     stderr_omitted := stderr_omitted e; cleanup_warning := cleanup_warning e;
     finalization_failure := finalization_failure e; artifact_count := artifact_count e;
     res_sandbox := res_sandbox e; res_resources := res_resources e |}.

(** The execution's result before finalization. *)
Definition execution_outcome (s : LoopState) (lease_expired : bool) (sandbox : SandboxRequest)
    (resources : ResourceSetupRequest) : ExecutionResult :=
  match lp_result s with
  | Some result =>
      let e := execution_result result in
      if lease_expired then lease_override e else e
  | None =>
      let f := failure_for_runner_error (lp_error s) lease_expired in
      let terminal :=
        if lease_expired then Interrupted
        else match f with FailInterrupted => Cancelled | _ => Failed end in
      failed_result terminal f sandbox resources
  end.

Definition set_artifacts (n : Z) (e : ExecutionResult) : ExecutionResult :=
  {| res_state := res_state e; exit_code := exit_code e; failure := failure e; stdout_bytes := stdout_bytes e;
     stderr_bytes := stderr_bytes e; stdout_omitted := stdout_omitted e; stderr_omitted := stderr_omitted e;
     cleanup_warning := cleanup_warning e; finalization_failure := finalization_failure e;
     artifact_count := n; res_sandbox := res_sandbox e; res_resources := res_resources e |}.

Definition set_finalization (f : ExecutionFinalizationFailure) (e : ExecutionResult) : ExecutionResult :=
  {| res_state := res_state e; exit_code := exit_code e; failure := failure e; stdout_bytes := stdout_bytes e;
     stderr_bytes := stderr_bytes e; stdout_omitted := stdout_omitted e; stderr_omitted := stderr_omitted e;
     cleanup_warning := cleanup_warning e; finalization_failure := Some f;
     artifact_count := artifact_count e; res_sandbox := res_sandbox e; res_resources := res_resources e |}.

(** Whether declared outputs are captured. *)
Definition should_capture (runner_completed : bool) (outputs : list DeclaredOutput) (e : ExecutionResult) : bool :=
  runner_completed && negb (len outputs =? 0)%Z
  && match res_state e with Succeeded | Failed => true | _ => false end
  && match failure e with Some FailOutputLimit => false | _ => true end.

(** Finalization of an execution with a workspace: [capture] answers
    [capture_declared], [retain] answers [mark_terminal]. *)
Definition finalize (workspace : option (list DeclaredOutput)) (capture : option Z) (retain : bool)
    (runner_completed : bool) (e : ExecutionResult) : ExecutionResult :=
  match workspace with
  | None => e
  | Some outputs =>
      let e :=
        if should_capture runner_completed outputs e then
          match capture with
          | Some count => set_artifacts count e
          | None => set_finalization ArtifactCapture e
          end
        else e in
      if retain then e else set_finalization Retention e
  end.

Definition terminal_metric (s : ExecutionState) : option string :=
  match s with
  | Succeeded => Some "terminal_succeeded"
  | Failed => Some "terminal_failed"
  | Cancelled => Some "terminal_cancelled"
  | TimedOut => Some "terminal_timed_out"
  | Interrupted => Some "terminal_interrupted"
  | _ => None
  end.

(** The counters a finished execution adds. *)
Definition terminal_counters (e : ExecutionResult) : list (string * Z) :=
  match terminal_metric (res_state e) with Some name => [(name, 1%Z)] | None => [] end
  ++ [("stdout_bytes", stdout_bytes e); ("stderr_bytes", stderr_bytes e)]
  ++ match cleanup_warning e with Some _ => [("cleanup_failures", 1%Z)] | None => [] end.

Definition chunk_event (c : OutputChunk) : ExecutionEventKind :=
  if oc_stderr c then EvStderr (oc_bytes c) else EvStdout (oc_bytes c).

(** A call of [publish]. *)
Record PublishCall := { pc_state : ExecutionState; pc_result : option ExecutionResult; pc_kind : ExecutionEventKind }.

Definition running (k : ExecutionEventKind) : PublishCall := {| pc_state := Running; pc_result := None; pc_kind := k |}.

(** The calls of [publish] that [run_execution] makes, in order: [rest] is what
    [try_recv] still finds after the loop. *)
Definition run_execution (s : LoopState) (rest : list OutputChunk) (e : ExecutionResult) : list PublishCall :=
  running (EvState Running)
  :: ((fun c => running (chunk_event c)) <$> lp_output s ++ rest)
  ++ [{| pc_state := res_state e; pc_result := Some e; pc_kind := EvState (res_state e) |}].

(** ** Event streams *)

(** Whether an event is the last one of its execution. *)
Definition terminal_event (e : ExecutionEvent) : bool :=
  match kind e with EvState s => is_terminal s | _ => false end.

(** The events the stream's loop delivers from what it reads, replayed or
    received: those after the last delivered one, up to a terminal one. *)
Fixpoint deliver (last_sequence : Z) (l : list ExecutionEvent) : list ExecutionEvent * bool :=
  match l with
  | [] => ([], false)
  | e :: l =>
      if (sequence e <=? last_sequence)%Z then deliver last_sequence l
      else if terminal_event e then ([e], true)
      else let '(out, ended) := deliver (sequence e) l in (e :: out, ended)
  end.

(** What follows the received events: nothing yet, a lag, or a closed channel. *)
Inductive ReceiverTail : Type := TailPending | TailLagged | TailClosed.

Inductive StreamEnd : Type := StreamOpen | StreamEnded | StreamFailed.

(** [event_stream_response]: the events in the response body so far. *)
Definition event_stream_response (after_sequence : Z) (replay live : list ExecutionEvent) (tail : ReceiverTail)
    (initial_terminal : bool) : list ExecutionEvent * StreamEnd :=
  if initial_terminal && (len replay =? 0)%Z then ([], StreamEnded)
  else
    let '(out, ended) := deliver after_sequence (replay ++ live) in
    (out, if ended then StreamEnded
          else match tail with
               | TailPending => StreamOpen
               | TailLagged => StreamFailed
               | TailClosed => StreamEnded
               end).

Inductive EventReply : Type :=
| EventsStream (out : list ExecutionEvent) (e : StreamEnd)
| EventsRefused (status : Z) (code : string)
| EventsUnavailable.

(** [event_response]: [page] is what [load_page] answers once the receiver is
    subscribed, [initial_terminal] the state read after that, [live] and
    [tail] what the receiver yields. *)
Definition event_response (after : Z) (page : result StoreError (option EventPage)) (initial_terminal : bool)
    (live : list ExecutionEvent) (tail : ReceiverTail) : EventReply :=
  match page with
  | Err _ => EventsUnavailable
  | Ok None => EventsRefused 404 "execution_not_found"
  | Ok (Some page) =>
      if (sat_add after 1 <? page_base_sequence page)%Z then EventsRefused 410 "history_expired"
      else if (page_next_sequence page <=? after)%Z then EventsRefused 416 "cursor_ahead"
      else
        let '(out, e) := event_stream_response after (page_events page) live tail initial_terminal in
        EventsStream out e
  end.

(** ** What happens to a record and its store *)

(** The calls of [publish] in the code: a state with its event, or output of a
    running execution; a terminal state comes with the result. *)
Definition call_ok (st : ExecutionState) (res : option ExecutionResult) (k : ExecutionEventKind) : Prop :=
  match k with
  | EvState s => s = st
  | EvStdout _ | EvStderr _ => st = Running
  | EvDiagnostic _ => False
  end /\ (is_terminal st = true <-> is_Some res).

Section invariant.
Context `{Serde ExecutionSnapshot, Serde ExecutionEvent}.

(** The store operations other than publishing to execution [key]: those of
    other executions, lease renewals and counters.  Recovery runs before any
    record exists. *)
Inductive other_step (key : string * Z) (db : Db) : Db -> Prop :=
| os_reserve fault s cv dg pr lh le now :
    u64_range (generation s) -> other_step key db (reserve fault s cv dg pr lh le now db).2
| os_commit fault s k now :
    u64_range (generation s) -> snapshot_key s <> key -> other_step key db (commit_event fault s k now db).2
| os_update_lease fault id g lh rid le now now' : other_step key db (update_lease fault id g lh rid le now now' db).2
| os_metrics fault deltas :
    Forall (fun d : string * Z => 0 <= d.2)%Z deltas -> other_step key db (increment_metrics fault deltas db).2.

Abbreviation config := (ExecutionRecord * bool * Db)%type.

(** The steps that publish nothing new: the end of a publication, a
    cancellation, a lease renewal or expiry, the end of the task, draining,
    and the rest of the node at work on the store. *)
Inductive quiet_step : config -> config -> Prop :=
| qs_end r d db : is_Some (rec_commit r) -> quiet_step (r, d, db) (publish_end r, d, db)
| qs_cancel r d db : quiet_step (r, d, db) (set_cancelled r, d, db)
| qs_lease l r d db : quiet_step (r, d, db) (set_rec_lease l r, d, db)
| qs_finished r d db : quiet_step (r, d, db) (set_finished r, d, db)
| qs_draining d' r d db : quiet_step (r, d, db) (r, d', db)
| qs_other r d db db' : other_step (snapshot_key (rec_snapshot r)) db db' -> quiet_step (r, d, db) (r, d, db').

Inductive node_step : config -> config -> Prop :=
| ns_begin fault st res k now r d db :
    rec_commit r = None -> call_ok st res k ->
    node_step (r, d, db) (publish_begin fault st res k now r d db)
| ns_quiet c c' : quiet_step c c' -> node_step c c'.

(** A record from its creation by [execute], which has just reserved the
    execution, through [n] steps of the store and the record. *)
Inductive tracked : nat -> config -> Prop :=
| tr_created n db db' s cv dg pr lh le now t ttl d :
    reachable n db -> u64_range (generation s) -> snap_state s = Accepted -> snap_result s = None ->
    reserve None s cv dg pr lh le now db = (Ok Created, db') ->
    tracked (S n) (new_record s lh t ttl, d, db')
| tr_step n c c' : tracked n c -> node_step c c' -> tracked (S n) c'.

(** The durable snapshot of a record, and every event committed for it. *)
Definition current (r : ExecutionRecord) : ExecutionSnapshot :=
  match rec_commit r with Some (p, _) => p | None => rec_snapshot r end.
Definition history (r : ExecutionRecord) : list ExecutionEvent :=
  rec_events r ++ match rec_commit r with Some (_, e) => [e] | None => [] end.

(** A terminal event is the last one. *)
Definition terminal_last (h : list ExecutionEvent) : Prop :=
  forall i e, h !! i = Some e -> terminal_event e = true -> S i = length h.

Definition ends_terminal (h : list ExecutionEvent) : bool :=
  match last h with Some e => terminal_event e | None => false end.

Record rec_inv (m : Z) (r : ExecutionRecord) (db : Db) : Prop := {
  ri_db : DbInv m db;
  ri_gen : u64_range (generation (rec_snapshot r));
  ri_key : snapshot_key (current r) = snapshot_key (rec_snapshot r)
           /\ generation (current r) = generation (rec_snapshot r);
  ri_pending : is_Some (rec_commit r) -> is_terminal (snap_state (rec_snapshot r)) = false;
  ri_terminal : terminal_last (history r) /\ ends_terminal (history r) = is_terminal (snap_state (current r));
  ri_result : is_terminal (snap_state (current r)) = true -> is_Some (snap_result (current r));
  ri_row : exists row, executions db !! snapshot_key (rec_snapshot r) = Some row
    /\ to_vec (current r) = Some (snapshot_json row)
    /\ sequence <$> history r = seqZ 1 (next_sequence row - 1)
    /\ let J := journal (execution_id (rec_snapshot r)) (as_i64 (generation (rec_snapshot r))) (execution_events db) in
       Forall2 (fun w e => to_vec e = Some (encoded w)) J (drop (length (history r) - length J) (history r));
}.

(** An undisturbed [publish] and a round of the lease monitor are such steps. *)
Lemma publish_steps fault st res k now r d db :
  rec_commit r = None -> call_ok st res k -> rtc node_step (r, d, db) (publish fault st res k now r d db).
Proof.
  intros Hc Hk. pose proof (ns_begin fault st res k now r d db Hc Hk) as Hb. unfold publish.
  destruct (publish_begin fault st res k now r d db) as [[r' d'] db'].
  eapply rtc_l; [exact Hb|]. unfold publish_end. destruct (rec_commit r') as [[p e]|] eqn:Hc'; [|apply rtc_refl].
  pose proof (qs_end r' d' db' ltac:(rewrite Hc'; by eexists)) as He. unfold publish_end in He. rewrite Hc' in He.
  eapply rtc_l; [by apply ns_quiet|apply rtc_refl].
Qed.

Lemma monitor_lease_steps r w d db : rtc quiet_step (r, d, db) ((monitor_lease r w).1, d, db).
Proof.
  unfold monitor_lease. destruct (is_terminal _); [apply rtc_refl|]. destruct w as [| |now]; [apply rtc_refl..|].
  destruct (_ <=? _)%Z; [|apply rtc_refl]. eapply rtc_l; [apply qs_lease|]. eapply rtc_l; [apply qs_cancel|apply rtc_refl].
Qed.

Lemma other_step_step key db db' : other_step key db db' -> step db db'.
Proof. destruct 1; by constructor. Qed.

Lemma other_step_row m key db db' row :
  DbInv m db -> other_step key db db' -> executions db !! key = Some row ->
  exists row', executions db' !! key = Some row' /\ next_sequence row' = next_sequence row
    /\ snapshot_json row' = snapshot_json row
    /\ journal key.1 key.2 (execution_events db') = journal key.1 key.2 (execution_events db).
Proof.
  intros HI Hs Hrow.
  destruct Hs as [fault s cv dg pr lh le now Hu|fault s k now Hu Hne|fault id g lh rid le now now'|fault ds Hd].
  - exists row. unfold reserve, transaction. destruct fault; [done|].
    destruct (reserve_body _ _ _ _ _ _ _ _) as [[a db']|] eqn:E; [|done]. unfold reserve_body in E.
    destruct (executions db !! (_, _)) as [row0|] eqn:E0; [by cases_in E|]. cases_in E; [done|done|].
    simpl. split_and!; try done. rewrite lookup_insert_ne; [done|]. intros <-. congruence.
  - exists row. unfold commit_event, transaction. destruct fault; [done|].
    destruct (commit_event_body _ _ _ _) as [[a db']|] eqn:E; [|done]. simpl.
    destruct (commit_event_body_cases _ _ _ _ _ _ _ HI E)
      as [(_ & -> & _)|(row0 & snap & enc & Hrow0 & _ & _ & _ & _ & _ & ->)]; [done|].
    rewrite advanced_executions, lookup_alter_ne by (by intros <-).
    split_and!; try done. apply advanced_journal_other. destruct key. by intros [= -> ->].
  - unfold update_lease, transaction. destruct fault; [by exists row|].
    destruct (update_lease_body _ _ _ _ _ _ _ _) as [[a db']|] eqn:E; [|by exists row]. unfold update_lease_body in E.
    destruct (executions db !! (id, as_i64 g)) as [row0|] eqn:E0; [|injection E as <- <-; by exists row].
    case_match; [injection E as <- <-; by exists row|]. case_decide; [injection E as <- <-; by exists row|].
    injection E as <- <-. simpl. destruct (decide ((id, as_i64 g) = key)) as [<-|Hne].
    + rewrite lookup_alter_eq, E0. rewrite E0 in Hrow. injection Hrow as ->. by eexists.
    + rewrite lookup_alter_ne by done. by exists row.
  - exists row. unfold increment_metrics. case_match; [done|]. destruct ds as [|d ds]; [done|]. by destruct fault.
Qed.

Context `{!SerdeRoundTrip ExecutionSnapshot, !SerdeRoundTrip ExecutionEvent}.

Lemma row_state m r db row :
  rec_inv m r db -> executions db !! snapshot_key (rec_snapshot r) = Some row ->
  to_vec (current r) = Some (snapshot_json row) -> is_terminal_name (state row) = is_terminal (snap_state (current r)).
Proof.
  intros HI Hrow Hv. destruct (i_snapshot _ _ (ri_db _ _ _ HI) _ _ Hrow) as (s & Hs & _ & _ & _ & ->).
  rewrite (to_vec_inj _ _ _ Hv Hs). by destruct (snap_state s).
Qed.

Lemma terminal_last_snoc h e : terminal_last h -> ends_terminal h = false -> terminal_last (h ++ [e]).
Proof.
  intros Hl He i x Hi Hx. apply lookup_app_Some in Hi as [Hi|[Hge Hi]]; rewrite length_app; simpl.
  - pose proof (Hl i x Hi Hx) as Hlen. unfold ends_terminal in He.
    destruct (last h) as [y|] eqn:Ey; [|apply last_None in Ey as ->; by rewrite lookup_nil in Hi].
    rewrite last_lookup in Ey. replace (pred (length h)) with i in Ey by lia. congruence.
  - destruct (i - length h) as [|n] eqn:En; [|by destruct n]. lia.
Qed.

Lemma ends_terminal_snoc h e : ends_terminal (h ++ [e]) = terminal_event e.
Proof. unfold ends_terminal. by rewrite last_snoc. Qed.

Lemma Forall2_drop_snoc {A B} (P : A -> B -> Prop) (J : list A) (h : list B) w e j :
  length J <= length h -> j <= S (length J) -> P w e -> Forall2 P J (drop (length h - length J) h) ->
  Forall2 P (drop j (J ++ [w])) (drop (length (h ++ [e]) - length (drop j (J ++ [w]))) (h ++ [e])).
Proof.
  intros Hl Hj Hp HF.
  assert (Forall2 P (J ++ [w]) (drop (length h - length J) (h ++ [e]))) as HF'.
  { rewrite drop_app_le by lia. apply Forall2_app; [done|]. by constructor. }
  apply (Forall2_drop _ _ _ j) in HF'. rewrite drop_drop in HF'.
  rewrite length_drop, !length_app. simpl. by replace (length h + 1 - (length J + 1 - j)) with (length h - length J + j) by lia.
Qed.

Lemma history_length m r db row J :
  rec_inv m r db -> executions db !! snapshot_key (rec_snapshot r) = Some row ->
  sequence <$> history r = seqZ 1 (next_sequence row - 1) ->
  J = journal (execution_id (rec_snapshot r)) (as_i64 (generation (rec_snapshot r))) (execution_events db) ->
  Z.of_nat (length (history r)) = (next_sequence row - 1)%Z /\ length J <= length (history r).
Proof.
  intros HI Hrow Hs ->. pose proof (i_sequence _ _ (ri_db _ _ _ HI) _ _ Hrow).
  apply (f_equal length) in Hs. rewrite length_fmap, length_seqZ in Hs.
  destruct (i_journal _ _ (ri_db _ _ _ HI) _ _ Hrow) as [_ Hp _ _]. simpl in Hp. unfold len in Hp. lia.
Qed.

(** The invariant reads the snapshot, the pending commit and the events only. *)
Lemma rec_inv_same m m' r r' db :
  rec_inv m r db -> (m <= m')%Z -> rec_snapshot r' = rec_snapshot r -> rec_commit r' = rec_commit r ->
  rec_events r' = rec_events r -> rec_inv m' r' db.
Proof.
  intros [H1 H2 H3 H4 H5 H6 H7] Hm E1 E2 E3.
  split; unfold current, history in *; rewrite ?E1, ?E2, ?E3; try done. by eapply DbInv_mono.
Qed.

Lemma propose_key base st res :
  snapshot_key (propose base st res) = snapshot_key base /\ generation (propose base st res) = generation base
  /\ execution_id (propose base st res) = execution_id base.
Proof. done. Qed.

Lemma call_event_terminal st res k seq md :
  call_ok st res k -> terminal_event {| sequence := seq; kind := k; ev_metadata := md |} = is_terminal st.
Proof. unfold call_ok, terminal_event. destruct k; simpl; intros [Hk _]; subst; done. Qed.

Lemma committed_inv m st res k now r db e db' :
  rec_inv m r db -> (m + 1 <= I64_MAX)%Z -> rec_commit r = None -> call_ok st res k ->
  is_terminal (snap_state (rec_snapshot r)) = false ->
  commit_event_body (propose (rec_snapshot r) st res) k now db = Ok (Some e, db') ->
  rec_inv (m + 1) (set_commit (Some (propose (rec_snapshot r) st res, e)) r) db'.
Proof.
  intros HI Hm Hc Hk Ht E. destruct HI as [Hdb Hg Hkey Hpend Hterm Hres Hrow].
  pose proof (commit_event_body_inv _ _ (propose (rec_snapshot r) st res) _ _ _ _ Hdb Hm Hg E) as Hdb'.
  destruct (commit_event_body_cases _ _ _ _ _ _ _ Hdb E)
    as [(? & _)|(row & snap & enc & Hr & Hl & Hsnap & Henc & Hlen & [= ->] & ->)]; [done|].
  destruct Hrow as (row' & Hr' & Hv & Hs & HJ). unfold current, history in *. rewrite Hc in *. rewrite app_nil_r in *.
  assert (row' = row) as -> by (cbn in Hr; unfold snapshot_key in Hr'; congruence).
  pose proof (i_sequence _ _ Hdb _ _ Hr) as Hseq. cbn [execution_id generation propose] in Hr.
  assert (Z.of_nat (length (rec_events r)) = (next_sequence row - 1)%Z) as Hlenh.
  { apply (f_equal length) in Hs. rewrite length_fmap, length_seqZ in Hs. lia. }
  split; unfold current, history; cbn [rec_commit set_commit rec_snapshot rec_events]; try done.
  - cbn [snap_state propose]. rewrite <- (call_event_terminal st res k (next_sequence row) {| fields := [] |} Hk). destruct Hterm as [Htl Het].
    split; [apply terminal_last_snoc; [done|congruence]|by rewrite ends_terminal_snoc].
  - cbn [snap_state propose snap_result]. intros Hst. apply Hk in Hst as [x ->]. by eexists.
  - eexists. split; [rewrite advanced_executions; unfold snapshot_key; cbn [execution_id generation propose];
      rewrite lookup_alter_eq, Hr; reflexivity|].
    cbn [snapshot_json set_progress next_sequence]. rewrite i64_succ_small by lia. split_and!; [done| |].
    + rewrite fmap_app, Hs. simpl. replace (next_sequence row + 1 - 1)%Z with ((next_sequence row - 1) + 1)%Z by lia.
      rewrite seqZ_app by lia. f_equal. replace (1 + (next_sequence row - 1))%Z with (next_sequence row) by lia.
      by rewrite seqZ_cons, seqZ_nil by lia.
    + destruct (advanced_journal m db (execution_id (rec_snapshot r)) (as_i64 (generation (rec_snapshot r))) row
        (state_name st) snap enc now Hdb Hr) as (j & HJ' & Hj & _).
      cbn [execution_id generation propose snap_state]. rewrite HJ'. apply Forall2_drop_snoc; [|by rewrite length_app in Hj; simpl in Hj; lia|done|done].
      destruct (i_journal _ _ Hdb _ _ Hr) as [_ Hp _ _]. simpl in Hp. unfold len in Hp. lia.
Qed.

(** A record only grows. *)
Record grows (r r' : ExecutionRecord) : Prop := {
  g_id : execution_id (rec_snapshot r') = execution_id (rec_snapshot r);
  g_generation : generation (rec_snapshot r') = generation (rec_snapshot r);
  g_events : rec_events r `prefix_of` rec_events r';
  g_history : history r `prefix_of` history r';
}.

#[export] Instance grows_preorder : PreOrder grows.
Proof.
  split; [by intros r|]. intros r1 r2 r3 [A1 A2 A3 A4] [B1 B2 B3 B4]. split; [congruence..| |]; by etrans.
Qed.

Lemma grows_same r r' :
  rec_snapshot r' = rec_snapshot r -> rec_commit r' = rec_commit r -> rec_events r' = rec_events r -> grows r r'.
Proof. intros E1 E2 E3. split; unfold history; by rewrite ?E1, ?E2, ?E3. Qed.

Lemma publish_begin_inv m fault st res k now r d db :
  rec_inv m r db -> (m + 1 <= I64_MAX)%Z -> rec_commit r = None -> call_ok st res k ->
  let out := publish_begin fault st res k now r d db in
  rec_inv (m + 1) out.1.1 out.2 /\ grows r out.1.1.
Proof.
  intros HI Hm Hc Hk. unfold publish_begin.
  assert (rec_inv (m + 1) r db) as Hr by (eapply rec_inv_same; [done|lia|done..]).
  assert (rec_inv (m + 1) (set_cancelled r) db /\ grows r (set_cancelled r)) as Hcan.
  { split; [by eapply rec_inv_same; [exact HI|lia|..]|by apply grows_same]. }
  destruct (is_terminal (snap_state (rec_snapshot r))) eqn:Ht; [by split|].
  unfold commit_event, transaction. destruct fault; [done|].
  destruct (commit_event_body _ k now db) as [[[e|] db']|] eqn:E; [..|done]; simpl.
  - split; [by eapply committed_inv|]. split; try done.
    unfold history. rewrite Hc. simpl. rewrite app_nil_r. by eexists.
  - destruct (commit_event_body_cases _ _ _ _ _ _ _ (ri_db _ _ _ HI) E) as [(_ & -> & _)|(?&?&?&?&?&?&?&?&?&?)]; [|done].
    by split.
Qed.

Lemma publish_end_inv m r db :
  rec_inv m r db -> rec_inv m (publish_end r) db /\ grows r (publish_end r).
Proof.
  intros HI. unfold publish_end. destruct (rec_commit r) as [[p e]|] eqn:Hc; [|by split].
  destruct HI as [H1 H2 [H3 H3'] H4 H5 H6 H7].
  assert (history (publish_end r) = history r) as Hh
    by (unfold publish_end, history; rewrite Hc; simpl; by rewrite app_nil_r).
  unfold publish_end in Hh. rewrite Hc in Hh. unfold current in *. rewrite Hc in *.
  assert (execution_id p = execution_id (rec_snapshot r)) as Hid by (by injection H3). split.
  - split; unfold current; cbn [rec_commit rec_snapshot]; rewrite ?Hh; try done.
    + congruence.
    + rewrite H3. destruct H7 as (row & Hrow & Hv & Hs & HJ). exists row. rewrite Hid, H3'. done.
  - split; cbn [rec_snapshot rec_events]; rewrite ?Hh; try done. by eexists.
Qed.

Lemma quiet_step_inv m r d db r' d' db' :
  rec_inv m r db -> (1 <= m)%Z -> (m + 1 <= I64_MAX)%Z -> quiet_step (r, d, db) (r', d', db') ->
  rec_inv (m + 1) r' db' /\ grows r r' /\ history r' = history r /\ current r' = current r.
Proof.
  intros HI Hm1 Hm Hs.
  assert (forall r', rec_snapshot r' = rec_snapshot r -> rec_commit r' = rec_commit r -> rec_events r' = rec_events r ->
    rec_inv (m + 1) r' db /\ grows r r' /\ history r' = history r /\ current r' = current r) as Hsame.
  { intros r'' E1 E2 E3. split_and!; [by eapply rec_inv_same; [exact HI|lia|..]|by apply grows_same|..];
      unfold history, current; by rewrite ?E1, ?E2, ?E3. }
  inversion Hs as [? ? ? Hc| | | | |? ? ? ? Ho]; subst; try by apply Hsame.
  - destruct (publish_end_inv m r db' HI) as [Hi Hg]. split_and!; [eapply rec_inv_same; [exact Hi|lia|done..]|done|..];
      unfold publish_end, history, current; destruct (rec_commit r) as [[p e]|]; simpl; by rewrite ?app_nil_r.
  - split; [|done]. pose proof (step_inv _ _ _ (ri_db _ _ _ HI) Hm1 Hm (other_step_step _ _ _ Ho)) as Hdb'.
    destruct HI as [H1 H2 H3 H4 H5 H6 (row & Hrow & Hv & Hsq & HJ)]. split; try done.
    destruct (other_step_row _ _ _ _ _ H1 Ho Hrow) as (row' & Hrow' & En & Ev & Ej).
    exists row'. rewrite En, Ev. cbn [snapshot_key fst snd] in Ej. by rewrite Ej.
Qed.

Lemma node_step_inv m r d db r' d' db' :
  rec_inv m r db -> (1 <= m)%Z -> (m + 1 <= I64_MAX)%Z -> node_step (r, d, db) (r', d', db') ->
  rec_inv (m + 1) r' db' /\ grows r r'.
Proof.
  intros HI Hm1 Hm Hs. inversion Hs as [fault st res k now r0 d0 db0 Hc Hk E1 E2|? ? Hq]; subst.
  - pose proof (publish_begin_inv m fault st res k now r d db HI Hm Hc Hk) as Hb. by rewrite E2 in Hb.
  - by destruct (quiet_step_inv m _ _ _ _ _ _ HI Hm1 Hm Hq) as (? & ? & _).
Qed.

Lemma created_inv n s cv dg pr lh le now t ttl db db' :
  reachable n db -> (Z.of_nat n < I64_MAX)%Z -> u64_range (generation s) -> snap_state s = Accepted ->
  reserve None s cv dg pr lh le now db = (Ok Created, db') ->
  rec_inv (Z.of_nat n + 1) (new_record s lh t ttl) db'.
Proof.
  intros Hr Hn Hu Hs Hres. pose proof (reachable_inv n db Hr Hn) as HI.
  unfold reserve, transaction in Hres. destruct (reserve_body _ _ _ _ _ _ _ db) as [[a d]|] eqn:E; [|done].
  injection Hres as -> ->. pose proof (reserve_body_inv _ _ _ _ _ _ _ _ _ _ _ HI ltac:(lia) Hu E) as HI'.
  unfold reserve_body in E. destruct (executions db !! (_, _)) as [row|] eqn:E0; [by cases_in E|].
  destruct (stale_generation _ _ _); [done|]. destruct (MAX_EXECUTION_IDENTITIES <=? _)%Z; [done|].
  unfold encode_snapshot, ok_or in E. destruct (to_vec s) as [enc|] eqn:Ev; [|done]. injection E as <-.
  assert (journal (execution_id s) (as_i64 (generation s)) (execution_events db) = []) as HJ.
  { destruct (journal _ _ _) as [|w J] eqn:EJ; [done|exfalso].
    assert (w ∈ journal (execution_id s) (as_i64 (generation s)) (execution_events db)) as Hw by (rewrite EJ; left).
    apply elem_of_journal in Hw as (Hin & Hid & Hg). apply (i_foreign _ _ HI) in Hin as [row Hrow]. congruence. }
  split; try done; unfold current, history; cbn [rec_commit new_record rec_snapshot rec_events].
  - by intros [? ?].
  - split; [by intros i e Hi|by rewrite Hs].
  - by rewrite Hs.
  - eexists. split; [apply lookup_insert_eq|].
    cbn [set_executions execution_events snapshot_json next_sequence]. rewrite HJ. split_and!; [done|done|constructor].
Qed.

Lemma tracked_inv n r d db : tracked n (r, d, db) -> (Z.of_nat n < I64_MAX)%Z -> rec_inv (Z.of_nat n + 1) r db.
Proof.
  intros Ht. remember (r, d, db) as c eqn:Hc. revert r d db Hc.
  induction Ht as [n db0 db' s cv dg pr lh le now t ttl d0 Hr Hu Hs _ Hres|n [[r0 d0] db0] c' Ht IH Hstep];
    intros r d db Hc Hn; subst.
  - injection Hc as <- <- <-. eapply rec_inv_same; [eapply created_inv; [done|lia|done..]|lia|done..].
  - pose proof (IH _ _ _ eq_refl ltac:(lia)) as HI.
    replace (Z.of_nat (S n) + 1)%Z with (Z.of_nat n + 1 + 1)%Z by lia.
    by apply (node_step_inv _ _ _ _ _ _ _ HI ltac:(lia) ltac:(lia)) in Hstep as [? _].
Qed.

Lemma tracked_steps n j c c' : tracked n c -> nsteps node_step j c c' -> tracked (n + j) c'.
Proof.
  intros Ht Hs. revert n Ht. induction Hs as [c|j c1 c2 c3 H1 _ IH]; intros n Ht; [by rewrite Nat.add_0_r|].
  rewrite Nat.add_succ_r. apply (IH (S n)). by eapply tr_step.
Qed.

Lemma tracked_grows n j r d db r' d' db' :
  tracked n (r, d, db) -> (Z.of_nat (n + j) < I64_MAX)%Z -> nsteps node_step j (r, d, db) (r', d', db') -> grows r r'.
Proof.
  intros Ht Hn Hs. remember (r, d, db) as c eqn:Hc. remember (r', d', db') as c' eqn:Hc'.
  revert n r d db Hc Hn Ht Hc'. induction Hs as [c|j c1 [[r1 d1] db1] c3 H1 _ IH]; intros n r d db -> Hn Ht Hc'.
  - by injection Hc' as -> _ _.
  - pose proof (tracked_inv _ _ _ _ Ht ltac:(lia)) as HI. pose proof (tr_step _ _ _ Ht H1) as Ht1.
    apply (node_step_inv _ _ _ _ _ _ _ HI ltac:(lia) ltac:(lia)) in H1 as [_ Hg].
    etrans; [exact Hg|]. by eapply (IH (S n)); [done|lia|..].
Qed.

(** What a reader of the store finds: the history after its cursor. *)
Lemma page_history m r db after :
  rec_inv m r db -> (0 <= after <= I64_MAX)%Z ->
  exists p, load_page (execution_id (rec_snapshot r)) (generation (rec_snapshot r)) after db = Ok (Some p)
    /\ (1 <= page_base_sequence p <= page_next_sequence p)%Z
    /\ page_next_sequence p = (Z.of_nat (length (history r)) + 1)%Z
    /\ ((page_base_sequence p <= after + 1)%Z -> page_events p = drop (Z.to_nat after) (history r)).
Proof.
  intros HI Ha. destruct (ri_row _ _ _ HI) as (row & Hrow & _ & Hs & HJ).
  destruct (history_length _ _ _ _ _ HI Hrow Hs eq_refl) as [Hlen HlJ].
  destruct (load_page_spec _ db _ _ after row (ri_db _ _ _ HI) Hrow Ha) as (es & Hp & HF & _).
  set (J := journal _ _ _) in *. eexists. split; [exact Hp|]. cbn [page_base_sequence page_next_sequence page_events].
  unfold len in *. split_and!; [lia|lia|lia|]. intros Hb. rewrite (proj2 (Z.ltb_ge _ _)) in HF by lia.
  apply (Forall2_drop _ _ _ (Z.to_nat (after + 1 - (next_sequence row - Z.of_nat (length J))))) in HJ.
  rewrite drop_drop in HJ.
  replace (length (history r) - length J + _) with (Z.to_nat after) in HJ by lia.
  clear -HF HJ SerdeRoundTrip1. revert HJ. generalize (drop (Z.to_nat after) (history r)) as h.
  induction HF as [|w e ws es He _ IH]; intros h HJ; inversion HJ; subst; [done|]. f_equal; [by eapply to_vec_inj|auto].
Qed.

(** C3: publication keeps the three views of an execution in step.  At every
    moment of a record's life, whatever interleaves: the store holds the
    record's snapshot, or the one a publication in progress has just committed
    and is about to show; the events ever committed are numbered 1, 2, 3, ...
    without gap, and a page of the journal is the part of them after its
    cursor; a terminal event is the last one, present exactly when the
    snapshot is terminal, and then the result is there. *)
Theorem publication_consistent (n : nat) (r : ExecutionRecord) (d : bool) (db : Db) (after : Z) :
  tracked n (r, d, db) -> (Z.of_nat n < I64_MAX)%Z -> (0 <= after <= I64_MAX)%Z ->
  let id := execution_id (rec_snapshot r) in let g := generation (rec_snapshot r) in
  load_snapshot id (Some g) db = Ok (Some (current r))
  /\ sequence <$> history r = seqZ 1 (Z.of_nat (length (history r)))
  /\ terminal_last (history r) /\ ends_terminal (history r) = is_terminal (snap_state (current r))
  /\ (is_terminal (snap_state (current r)) = true -> is_Some (snap_result (current r)))
  /\ exists p, load_page id g after db = Ok (Some p)
       /\ page_next_sequence p = (Z.of_nat (length (history r)) + 1)%Z
       /\ ((page_base_sequence p <= after + 1)%Z -> page_events p = drop (Z.to_nat after) (history r)).
Proof.
  intros Ht Hn Ha id g. pose proof (tracked_inv _ _ _ _ Ht Hn) as HI.
  destruct (page_history _ _ _ _ HI Ha) as (p & Hp & _ & Hnext & Hev).
  destruct (ri_row _ _ _ HI) as (row & Hrow & Hv & Hs & _).
  destruct (history_length _ _ _ _ _ HI Hrow Hs eq_refl) as [Hlen _].
  split_and!; [| |apply (ri_terminal _ _ _ HI)..|apply (ri_result _ _ _ HI)|by exists p].
  - unfold load_snapshot. unfold snapshot_key in Hrow. fold id g in Hrow. rewrite Hrow. simpl. unfold decode_snapshot, ok_or.
    by rewrite (from_slice_to_vec _ _ Hv).
  - by rewrite Hs, Hlen.
Qed.

(** A terminal execution is final.  Once the terminal event is committed,
    no later publication, whoever makes it, changes the snapshot or adds an
    event. *)
Theorem terminal_is_final (n j : nat) (r r' : ExecutionRecord) (d d' : bool) (db db' : Db) :
  tracked n (r, d, db) -> (Z.of_nat (n + j) < I64_MAX)%Z -> nsteps node_step j (r, d, db) (r', d', db') ->
  is_terminal (snap_state (current r)) = true ->
  current r' = current r /\ history r' = history r.
Proof.
  intros Ht Hn Hs Hterm. remember (r, d, db) as c eqn:Hc. remember (r', d', db') as c' eqn:Hc'.
  revert n r d db Hc Hn Ht Hterm Hc'.
  induction Hs as [c|j c1 [[r1 d1] db1] c3 H1 _ IH]; intros n r d db -> Hn Ht Hterm Hc'.
  - by injection Hc' as -> _ _.
  - pose proof (tracked_inv _ _ _ _ Ht ltac:(lia)) as HI. pose proof (tr_step _ _ _ Ht H1) as Ht1.
    assert (current r1 = current r /\ history r1 = history r) as [Ec Eh].
    { inversion H1 as [fault st res k now r0 d0 db0 Hcm Hk E1 E2|? ? Hq]; subst.
      - unfold current in Hterm. rewrite Hcm in Hterm. unfold publish_begin in E2. rewrite Hterm in E2. by injection E2 as -> _ _.
      - by destruct (quiet_step_inv _ _ _ _ _ _ _ HI ltac:(lia) ltac:(lia) Hq) as (_ & _ & ? & ?). }
    rewrite <- Ec, <- Eh. eapply (IH (S n)); [done|lia|done|congruence|done].
Qed.

(** *** Streams *)

Lemma deliver_skip a s l : Forall (fun e => sequence e <= a)%Z s -> deliver a (s ++ l) = deliver a l.
Proof. induction 1 as [|e s He _ IH]; simpl; [done|]. by rewrite (proj2 (Z.leb_le _ _)). Qed.

Lemma ends_terminal_cons e s : terminal_event e = false -> ends_terminal (e :: s) = ends_terminal s.
Proof. intros He. destruct s; [done|]. done. Qed.

Lemma ends_terminal_drop a h : a < length h -> ends_terminal (drop a h) = ends_terminal h.
Proof.
  intros Ha. unfold ends_terminal. rewrite !last_lookup, lookup_drop, length_drop.
  by replace (a + pred (length h - a)) with (pred (length h)) by lia.
Qed.

Lemma deliver_run s a l :
  sequence <$> s = seqZ (a + 1) (Z.of_nat (length s)) -> terminal_last s ->
  deliver a (s ++ l) =
  if ends_terminal s then (s, true)
  else let '(out, ended) := deliver (a + Z.of_nat (length s)) l in (s ++ out, ended).
Proof.
  revert a. induction s as [|e s IH]; intros a Hs Ht.
  { simpl. rewrite Z.add_0_r. by destruct (deliver a l). }
  cbn [length fmap list_fmap] in Hs. rewrite seqZ_cons in Hs by lia. injection Hs as He Hs. simpl.
  rewrite (proj2 (Z.leb_gt _ _)) by lia. destruct (terminal_event e) eqn:Ee.
  - pose proof (Ht 0 e eq_refl Ee) as Hl. destruct s; [|done]. unfold ends_terminal. simpl. by rewrite Ee.
  - rewrite IH.
    + rewrite (ends_terminal_cons _ _ Ee).
      replace (a + Z.of_nat (S (length s)))%Z with (sequence e + Z.of_nat (length s))%Z by lia.
      destruct (ends_terminal s); [done|]. by destruct (deliver _ _).
    + rewrite He, Hs. f_equal; lia.
    + intros i x Hi Hx. pose proof (Ht (S i) x Hi Hx) as Hl. simpl in Hl. lia.
Qed.

(** A stretch of a history is numbered consecutively, and only its last event
    can be terminal. *)
Definition numbered (h : list ExecutionEvent) : Prop := sequence <$> h = seqZ 1 (Z.of_nat (length h)).

Lemma drop_seqZ m k a : (0 <= k)%Z -> drop a (seqZ m k) = seqZ (m + Z.of_nat a) (k - Z.of_nat a).
Proof.
  intros Hk. destruct (decide (Z.of_nat a <= k)%Z).
  - replace k with (Z.of_nat a + (k - Z.of_nat a))%Z at 1 by lia. rewrite seqZ_app by lia.
    apply drop_app_length'. rewrite length_seqZ. lia.
  - rewrite (seqZ_nil _ (k - _)) by lia. apply drop_ge. rewrite length_seqZ. lia.
Qed.

Lemma numbered_take h b : numbered h -> b <= length h -> numbered (take b h).
Proof.
  unfold numbered. intros Hh Hb. rewrite fmap_take, Hh, length_take, Nat.min_l by done.
  replace (Z.of_nat (length h)) with (Z.of_nat b + Z.of_nat (length h - b))%Z by lia. rewrite seqZ_app by lia.
  apply take_app_length'. rewrite length_seqZ. lia.
Qed.

Lemma numbered_drop h a :
  numbered h -> a <= length h -> sequence <$> drop a h = seqZ (Z.of_nat a + 1) (Z.of_nat (length (drop a h))).
Proof. unfold numbered. intros Hh Ha. rewrite fmap_drop, Hh, drop_seqZ, length_drop by lia. f_equal; lia. Qed.

Lemma numbered_below h : numbered h -> Forall (fun e => sequence e <= Z.of_nat (length h))%Z h.
Proof.
  intros Hh. apply Forall_forall. intros e He. apply (list_elem_of_fmap_2 sequence) in He.
  rewrite Hh in He. apply elem_of_seqZ in He. lia.
Qed.

Lemma terminal_last_slice h a b : terminal_last h -> terminal_last (drop a (take b h)).
Proof.
  intros Ht i e Hi He. rewrite lookup_drop in Hi.
  pose proof (lookup_lt_Some _ _ _ Hi) as Hlt. rewrite length_take in Hlt.
  rewrite lookup_take_lt in Hi by lia. pose proof (Ht _ _ Hi He). rewrite length_drop, length_take. lia.
Qed.

(** The stream's loop on a replayed stretch followed by an overlapping
    received one. *)
Lemma deliver_exact h a n0 n1 n' :
  numbered h -> terminal_last h -> a <= n1 -> n0 <= n1 -> n1 <= length h -> n0 <= n' -> n' <= length h ->
  deliver (Z.of_nat a) (drop a (take n1 h) ++ drop n0 (take n' h)) =
  (drop a (take (Nat.max n1 n') h), ends_terminal (drop a (take (Nat.max n1 n') h))).
Proof.
  intros Hn Ht Ha H01 H1 H0' H'.
  assert (forall b, b <= length h -> sequence <$> drop a (take b h) = seqZ (Z.of_nat a + 1) (Z.of_nat (length (drop a (take b h))))) as Hslice.
  { intros b Hb. destruct (decide (a <= b)).
    - apply numbered_drop; [by apply numbered_take|]. rewrite length_take. lia.
    - rewrite drop_ge by (rewrite length_take; lia). done. }
  destruct (decide (n' <= n1)) as [Hle|Hgt].
  - rewrite Nat.max_l by done. rewrite deliver_run; [|by apply Hslice|by apply terminal_last_slice].
    rewrite <- (app_nil_r (drop n0 (take n' h))), deliver_skip.
    + simpl. rewrite app_nil_r. by destruct (ends_terminal _).
    + apply Forall_drop. eapply Forall_impl; [by apply numbered_below, numbered_take|].
      intros e. rewrite length_drop, !length_take. simpl. lia.
  - rewrite Nat.max_r by lia.
    assert (drop n0 (take n' h) = drop n0 (take n1 h) ++ drop n1 (take n' h)) as ->.
    { rewrite <- (take_drop n1 (take n' h)) at 1. rewrite take_take, Nat.min_l by lia.
      rewrite drop_app_le; [done|]. rewrite length_take. lia. }
    rewrite deliver_run; [|by apply Hslice|by apply terminal_last_slice].
    replace (Z.of_nat a + _)%Z with (Z.of_nat n1) by (rewrite length_drop, length_take; lia).
    rewrite deliver_skip.
    2:{ apply Forall_drop. eapply Forall_impl; [by apply numbered_below, numbered_take|].
        intros e. rewrite length_take. simpl. lia. }
    destruct (ends_terminal (drop a (take n1 h))) eqn:Ee.
    { exfalso. unfold ends_terminal in Ee. destruct (last _) as [x|] eqn:Ex; [|done].
      rewrite last_lookup, lookup_drop in Ex. pose proof (lookup_lt_Some _ _ _ Ex) as Hlt. rewrite length_take in Hlt.
      rewrite lookup_take_lt in Ex by lia. pose proof (Ht _ _ Ex Ee). lia. }
    rewrite <- (app_nil_r (drop n1 (take n' h))), deliver_run; simpl;
      [|rewrite numbered_drop; [done|by apply numbered_take|rewrite length_take; lia]|by apply terminal_last_slice].
    assert (drop a (take n1 h) ++ drop n1 (take n' h) = drop a (take n' h)) as Happ.
    { rewrite <- (take_drop n1 (take n' h)) at 2. rewrite take_take, Nat.min_l by lia.
      rewrite drop_app_le; [done|]. rewrite length_take. lia. }
    assert (ends_terminal (drop a (take n' h)) = ends_terminal (drop n1 (take n' h))) as ->.
    { rewrite !ends_terminal_drop; [done|rewrite length_take; lia..]. }
    rewrite <- Happ, app_nil_r. by destruct (ends_terminal (drop n1 _)).
Qed.

Lemma prefix_is_take {A} (k h : list A) : k `prefix_of` h -> k = take (length k) h /\ length k <= length h.
Proof. intros [l ->]. rewrite take_app_length, length_app. split; [done|lia]. Qed.

Lemma prefix_drop {A} a (k h : list A) : k `prefix_of` h -> drop a k `prefix_of` drop a h.
Proof. intros [l ->]. rewrite skipn_app. by eexists. Qed.

Lemma terminal_prefix h1 h : terminal_last h -> h1 `prefix_of` h -> ends_terminal h1 = true -> h1 = h.
Proof.
  intros Ht Hp He. pose proof (prefix_is_take _ _ Hp) as [E Hl]. unfold ends_terminal in He.
  destruct (last h1) as [x|] eqn:Ex; [|done]. rewrite last_lookup in Ex.
  pose proof (lookup_lt_Some _ _ _ Ex). pose proof (Ht _ _ (prefix_lookup_Some _ _ _ _ Ex Hp) He).
  rewrite E. apply take_ge. lia.
Qed.

(** What a stream at cursor [a] delivers out of the history [h]: [h1] is the
    part committed when the journal was read, [live] what the subscription
    yields.  The stream has missed the end of the execution when it finds the
    execution terminal and nothing to replay, but the journal was read before
    the terminal event. *)
Definition missed_end (initial : bool) (a : nat) (h1 : list ExecutionEvent) : bool :=
  initial && (length h1 =? a) && negb (ends_terminal h1).

Definition stream_spec (a : nat) (h1 live h : list ExecutionEvent) (subscribed : nat) (tail : ReceiverTail)
    (initial : bool) (out : list ExecutionEvent) (e : StreamEnd) : Prop :=
  out `prefix_of` drop a h
  /\ if missed_end initial a h1 then out = [] /\ e = StreamEnded
     else drop a h1 `prefix_of` out /\ drop a (take (subscribed + length live) h) `prefix_of` out
          /\ (ends_terminal out = true -> e = StreamEnded) /\ (e = StreamFailed -> tail = TailLagged)
          /\ (e = StreamEnded -> tail <> TailClosed -> out = drop a h /\ ends_terminal h = true).

Lemma stream_lists a h1 live sent h n0 tail initial :
  numbered h -> terminal_last h -> h1 `prefix_of` h -> sent `prefix_of` h -> live `prefix_of` drop n0 sent ->
  n0 <= length h1 -> n0 <= length sent -> a <= length h1 ->
  let '(out, e) := event_stream_response (Z.of_nat a) (drop a h1) live tail initial in
  stream_spec a h1 live h n0 tail initial out e.
Proof.
  intros Hn Ht H1 Hsent Hlive H01 H0s Ha. unfold event_stream_response, stream_spec, missed_end.
  destruct (prefix_is_take _ _ H1) as [E1 L1], (prefix_is_take _ _ Hsent) as [Es Ls].
  assert (live = drop n0 (take (n0 + length live) h) /\ n0 + length live <= length h) as [El Ll].
  { destruct (prefix_is_take _ _ Hlive) as [E L]. rewrite length_drop in L. split; [|lia].
    rewrite E at 1. rewrite Es, skipn_firstn_comm, !take_take, skipn_firstn_comm. f_equal. lia. }
  assert (ends_terminal h1 = true -> h1 = h) as Hend by (by apply terminal_prefix).
  destruct (initial && (len (drop a h1) =? 0)%Z) eqn:Ei.
  - apply andb_true_iff in Ei as [-> Ez]. apply Z.eqb_eq in Ez. unfold len in Ez. rewrite length_drop in Ez.
    assert (length h1 = a) as Hla by lia. rewrite (proj2 (Nat.eqb_eq _ _) Hla). split; [by apply prefix_nil|].
    destruct (ends_terminal h1) eqn:Ee; simpl; [|done]. pose proof (Hend eq_refl) as ->. split_and!.
    + rewrite drop_ge by lia. done.
    + rewrite drop_ge; [done|]. rewrite length_take. lia.
    + done.
    + done.
    + intros _ _. split; [|done]. rewrite drop_ge by lia. done.
  - pose proof (deliver_exact h a n0 (length h1) (n0 + length live) Hn Ht Ha H01 L1 ltac:(lia) Ll) as Hd.
    rewrite <- E1, <- El in Hd. rewrite Hd. clear Hd. set (M := Nat.max _ _).
    replace (initial && (length h1 =? a) && negb (ends_terminal h1)) with false.
    2:{ destruct initial; [|done]. simpl in Ei |- *. apply Z.eqb_neq in Ei. unfold len in Ei. rewrite length_drop in Ei.
        destruct (Nat.eqb_spec (length h1) a); [lia|done]. }
    assert (forall b, b <= M -> drop a (take b h) `prefix_of` drop a (take M h)) as Hpre.
    { intros b Hb. apply prefix_drop. replace b with (Nat.min b M) by lia. rewrite <- take_take. apply prefix_take. }
    assert (ends_terminal (drop a (take M h)) = true -> drop a (take M h) = drop a h /\ ends_terminal h = true) as Hfull.
    { intros He. assert (a < length (take M h)) as Hlt.
      { destruct (decide (a < length (take M h))); [done|]. rewrite drop_ge in He by lia. done. }
      rewrite ends_terminal_drop in He by done.
      by rewrite <- (terminal_prefix (take M h) h Ht (prefix_take _ _) He) at 2 3. }
    split_and!.
    + apply prefix_drop, prefix_take.
    + rewrite E1. apply Hpre. lia.
    + apply Hpre. lia.
    + by intros ->.
    + by destruct (ends_terminal (drop a (take M h))), tail.
    + destruct (ends_terminal (drop a (take M h))); [intros _ _; by apply Hfull|by destruct tail].
Qed.

(** C16: an event stream delivers the history without gap, duplicate or
    reordering.  A client that follows an execution from cursor [after]
    subscribes, then the journal is read, then the state, and then the
    subscription is drained, with the node free to publish in between.  It is
    refused only for a cursor past the history (416) or one whose events the
    journal has dropped (410).  Otherwise it gets a contiguous part of the
    history from its cursor on, holding everything the journal and the
    subscription had, and when the stream ends by itself it is the whole history up to
    the terminal event; only a stream that reads the journal just before
    the terminal event, with nothing to replay, and the state just after it
    ends early, without that event. *)
Theorem stream_exact (n n1 n2 n3 : nat) (r0 r1 r2 r3 : ExecutionRecord) (d0 d1 d2 d3 : bool) (db0 db1 db2 db3 : Db)
    (after : Z) (live : list ExecutionEvent) (tail : ReceiverTail) :
  tracked n (r0, d0, db0) -> nsteps node_step n1 (r0, d0, db0) (r1, d1, db1) ->
  nsteps node_step n2 (r1, d1, db1) (r2, d2, db2) -> nsteps node_step n3 (r2, d2, db2) (r3, d3, db3) ->
  (Z.of_nat (n + n1 + n2 + n3) < I64_MAX)%Z -> (0 <= after <= I64_MAX)%Z ->
  live `prefix_of` drop (length (rec_events r0)) (rec_events r3) ->
  let page := load_page (execution_id (rec_snapshot r0)) (generation (rec_snapshot r0)) after db1 in
  let initial := is_terminal (snap_state (rec_snapshot r2)) in
  match event_response after page initial live tail with
  | EventsStream out e =>
      stream_spec (Z.to_nat after) (history r1) live (history r3) (length (rec_events r0)) tail initial out e
  | EventsRefused status _ =>
      status = 410%Z /\ (exists p, page = Ok (Some p) /\ (after + 1 < page_base_sequence p)%Z)
      \/ status = 416%Z /\ (Z.of_nat (length (history r1)) < after)%Z
  | EventsUnavailable => False
  end.
Proof.
  intros Ht H1 H2 H3 Hn Ha Hlive page initial.
  pose proof (tracked_grows n n1 _ _ _ _ _ _ Ht ltac:(lia) H1) as G1.
  pose proof (tracked_steps _ _ _ _ Ht H1) as Ht1. pose proof (tracked_grows (n + n1) n2 _ _ _ _ _ _ Ht1 ltac:(lia) H2) as G2.
  pose proof (tracked_steps _ _ _ _ Ht1 H2) as Ht2. pose proof (tracked_grows (n + n1 + n2) n3 _ _ _ _ _ _ Ht2 ltac:(lia) H3) as G3.
  pose proof (tracked_steps _ _ _ _ Ht2 H3) as Ht3.
  pose proof (tracked_inv _ _ _ _ Ht1 ltac:(lia)) as I1. pose proof (tracked_inv _ _ _ _ Ht3 ltac:(lia)) as I3.
  destruct (page_history _ _ _ _ I1 Ha) as (p & Hp & Hb & Hnext & Hev).
  rewrite (g_id _ _ G1), (g_generation _ _ G1) in Hp. fold page in Hp. rewrite Hp. unfold event_response.
  rewrite sat_add_small by (unfold U64_MAX, I64_MAX in *; lia).
  destruct (_ <? _)%Z eqn:Eb; [left; split; [done|]; apply Z.ltb_lt in Eb; by exists p|].
  destruct (_ <=? _)%Z eqn:En; [right; split; [done|]; apply Z.leb_le in En; lia|].
  apply Z.ltb_ge in Eb. apply Z.leb_gt in En. rewrite Hev by lia.
  assert (rec_events r0 `prefix_of` history r1) as Hpre
    by (etrans; [apply (g_events _ _ G1)|unfold history; by eexists]).
  assert (rec_events r0 `prefix_of` rec_events r3) as Hpre3
    by (etrans; [apply (g_events _ _ G1)|etrans; [apply (g_events _ _ G2)|apply (g_events _ _ G3)]]).
  pose proof (stream_lists (Z.to_nat after) (history r1) live (rec_events r3) (history r3)
    (length (rec_events r0)) tail initial) as Hs.
  rewrite Z2Nat.id in Hs by lia.
  destruct (event_stream_response after _ _ _ _) as [out e]. apply Hs.
  - destruct (ri_row _ _ _ I3) as (row & Hrow & _ & Hsq & _).
    destruct (history_length _ _ _ _ _ I3 Hrow Hsq eq_refl) as [Hlen _]. unfold numbered. by rewrite Hsq, Hlen.
  - apply (ri_terminal _ _ _ I3).
  - etrans; [apply (g_history _ _ G2)|apply (g_history _ _ G3)].
  - unfold history. by eexists.
  - done.
  - by apply prefix_length.
  - by apply prefix_length.
  - lia.
Qed.

(** *** The task of an execution *)

(** [run_execution] works through its calls of [publish], with the store
    accepting each of them, while a cancellation may publish a non-terminal state
    and the rest of the node goes on. *)
Inductive task_step : list PublishCall * config -> list PublishCall * config -> Prop :=
| tk_publish c calls fault now r d db a :
    rec_commit r = None ->
    (commit_event fault (propose (rec_snapshot r) (pc_state c) (pc_result c)) (pc_kind c) now db).1 = Ok a ->
    task_step (c :: calls, (r, d, db)) (calls, publish_begin fault (pc_state c) (pc_result c) (pc_kind c) now r d db)
| tk_control calls fault st now r d db :
    rec_commit r = None -> is_terminal st = false ->
    task_step (calls, (r, d, db)) (calls, publish_begin fault st None (EvState st) now r d db)
| tk_quiet calls c c' : quiet_step c c' -> task_step (calls, c) (calls, c').

Definition is_output (k : ExecutionEventKind) : bool :=
  match k with EvStdout _ | EvStderr _ => true | _ => false end.
Definition outputs (ks : list ExecutionEventKind) : list ExecutionEventKind := filter (fun k => is_output k = true) ks.

Lemma publish_begin_cases fault st res k now r d db r' d' db' :
  rec_commit r = None -> publish_begin fault st res k now r d db = (r', d', db') ->
  (history r' = history r /\ current r' = current r)
  \/ (exists e, kind e = k /\ history r' = history r ++ [e] /\ current r' = propose (rec_snapshot r) st res).
Proof.
  intros Hc Hp. unfold publish_begin in Hp. destruct (is_terminal _); [by left; injection Hp as <- _ _|].
  destruct (commit_event _ _ _ _ _) as [[[e|]|] db1] eqn:E; injection Hp as <- _ _; [right|left..]; [|done|done].
  exists e. split_and!; [|unfold history; simpl; by rewrite Hc, app_nil_r|done].
  unfold commit_event, transaction in E. destruct fault; [done|].
  destruct (commit_event_body _ _ _ _) as [[a db2]|] eqn:Eb; [|done]. injection E as -> _.
  unfold commit_event_body in Eb. cases_in Eb; done.
Qed.

Lemma publish_accepted m fault st res k now r d db a :
  rec_inv m r db -> rec_commit r = None -> is_terminal (snap_state (current r)) = false ->
  (commit_event fault (propose (rec_snapshot r) st res) k now db).1 = Ok a ->
  let out := publish_begin fault st res k now r d db in
  exists e, kind e = k /\ history out.1.1 = history r ++ [e] /\ current out.1.1 = propose (rec_snapshot r) st res.
Proof.
  intros HI Hc Ht Ha. destruct (ri_row _ _ _ HI) as (row & Hrow & Hv & _).
  pose proof (row_state _ _ _ _ HI Hrow Hv) as Hst. rewrite Ht in Hst.
  assert (is_terminal (snap_state (rec_snapshot r)) = false) as Ht' by (unfold current in Ht; by rewrite Hc in Ht).
  unfold publish_begin. rewrite Ht'. unfold commit_event, transaction in *. destruct fault; [done|].
  destruct (commit_event_body _ _ _ _) as [[a' db2]|] eqn:Eb; [|done].
  destruct (commit_event_body_cases _ _ _ _ _ _ _ (ri_db _ _ _ HI) Eb)
    as [(_ & _ & Hn)|(row0 & snap & enc & _ & _ & _ & _ & _ & -> & ->)].
  - cbn [execution_id generation propose] in Hn. specialize (Hn row Hrow). congruence.
  - eexists. split_and!; [|unfold history; simpl; by rewrite Hc, app_nil_r|done]. done.
Qed.

Definition final_call (e : ExecutionResult) : PublishCall :=
  {| pc_state := res_state e; pc_result := Some e; pc_kind := EvState (res_state e) |}.

Definition running_kind (k : ExecutionEventKind) : Prop := k = EvState Running \/ is_output k = true.

(** The task has published everything, or is still working through its calls
    with the execution not terminal. *)
Definition settling (e : ExecutionResult) (total : list ExecutionEventKind) (calls : list PublishCall) (r : ExecutionRecord) : Prop :=
  (calls = [] /\ snap_state (current r) = res_state e /\ snap_result (current r) = Some e
   /\ outputs (kind <$> history r) = total)
  \/ exists ks, calls = (running <$> ks) ++ [final_call e] /\ Forall running_kind ks
       /\ is_terminal (snap_state (current r)) = false /\ outputs (kind <$> history r) ++ outputs ks = total.

Lemma outputs_snoc h e : outputs (kind <$> (h ++ [e])) = outputs (kind <$> h) ++ outputs [kind e].
Proof. unfold outputs. by rewrite fmap_app, filter_app. Qed.

Lemma running_call k : running_kind k -> call_ok Running None k.
Proof. intros [-> |Hk]; [|destruct k; try done]; (split; [done|]); (split; [done|by intros [? ?]]). Qed.

Lemma control_call st : is_terminal st = false -> call_ok st None (EvState st).
Proof. intros Ht. split; [done|]. rewrite Ht. split; [done|by intros [? ?]]. Qed.

Lemma settling_node e total calls r d db calls' c' :
  settling e total calls r -> is_terminal (res_state e) = true -> task_step (calls, (r, d, db)) (calls', c') ->
  node_step (r, d, db) c'.
Proof.
  intros Hset He Hs. inversion Hs as [c cs fault now r0 d0 db0 a Hc Ha|? fault st now r0 d0 db0 Hc Hst|? ? ? Hq]; subst.
  - apply ns_begin; [done|]. destruct Hset as [[? _]|(ks & Hks & Hk & _)]; [done|].
    destruct ks as [|k ks]; simpl in Hks; injection Hks as -> _; [|apply running_call; by inversion Hk].
    split; [done|]. simpl. by rewrite He.
  - by apply ns_begin, control_call.
  - by apply ns_quiet.
Qed.

Lemma settling_step m e total calls r d db calls' r' d' db' :
  rec_inv m r db -> (1 <= m)%Z -> (m + 1 <= I64_MAX)%Z -> is_terminal (res_state e) = true ->
  settling e total calls r -> task_step (calls, (r, d, db)) (calls', (r', d', db')) -> settling e total calls' r'.
Proof.
  intros HI Hm1 Hm He Hset Hs.
  inversion Hs as [c cs fault now r0 d0 db0 a Hc Ha E1 [E3 E2]|? fault st now r0 d0 db0 Hc Hst E1 [E3 E2]|? ? ? Hq]; subst.
  - destruct Hset as [[? _]|(ks & Hks & Hk & Ht & Ho)]; [done|].
    destruct (publish_accepted m fault _ _ _ now r d db a HI Hc Ht Ha) as (ev & Hkind & Hh & Hcur). rewrite E2 in Hh, Hcur.
    simpl in Hh, Hcur. unfold settling. rewrite Hh, Hcur, outputs_snoc, Hkind.
    destruct ks as [|k ks]; simpl in Hks; injection Hks as -> ->; [left|right].
    + split_and!; [done|done|done|]. simpl. rewrite <- Ho. done.
    + inversion Hk as [|? ? _ Hk']; subst. exists ks. split_and!; [done|done|done|].
      unfold outputs. by rewrite <- app_assoc, <- filter_app.
  - destruct (publish_begin_cases _ _ _ _ _ _ _ _ _ _ _ Hc E2) as [[Eh Ec]|(ev & Hkind & Hh & Hcur)].
    { unfold settling. by rewrite Eh, Ec. }
    destruct Hset as [(-> & Hst' & _)|(ks & Hks & Hk & Ht & Ho)].
    { unfold publish_begin in E2. assert (is_terminal (snap_state (rec_snapshot r)) = true) as Hterm.
      { unfold current in Hst'. rewrite Hc in Hst'. by rewrite Hst'. }
      rewrite Hterm in E2. injection E2 as <- _ _. apply (f_equal length) in Hh. rewrite length_app in Hh. simpl in Hh. lia. }
    right. exists ks. rewrite Hh, Hcur, outputs_snoc, Hkind. split_and!; [done|done|done|].
    change (outputs [EvState st]) with (@nil ExecutionEventKind). by rewrite app_nil_r.
  - destruct (quiet_step_inv m _ _ _ _ _ _ HI Hm1 Hm Hq) as (_ & _ & Eh & Ec). unfold settling. by rewrite Eh, Ec.
Qed.

Lemma chunk_outputs cs : Forall running_kind (chunk_event <$> cs) /\ outputs (chunk_event <$> cs) = chunk_event <$> cs.
Proof.
  assert (Forall (fun k => is_output k = true) (chunk_event <$> cs)) as Hf.
  { apply Forall_fmap, Forall_forall. intros c _. unfold chunk_event. simpl. by destruct (oc_stderr c). }
  split; [by eapply Forall_impl; [exact Hf|right]|].
  unfold outputs. induction Hf as [|k ks Hk _ IH]; [done|]. by rewrite filter_cons_True, IH.
Qed.

Lemma settling_steps e total n j calls r d db calls' r' d' db' :
  tracked n (r, d, db) -> (Z.of_nat (n + j) < I64_MAX)%Z -> is_terminal (res_state e) = true ->
  settling e total calls r -> nsteps task_step j (calls, (r, d, db)) (calls', (r', d', db')) -> settling e total calls' r'.
Proof.
  intros Ht Hn He Hset Hs. revert n calls r d db Ht Hn Hset Hs.
  induction j as [|j IH]; intros n calls r d db Ht Hn Hset Hs; [by inversion Hs; subst|].
  inversion Hs as [|? ? [calls1 [[r1 d1] db1]] ? H1 H2]; subst.
  pose proof (tracked_inv _ _ _ _ Ht ltac:(lia)) as HI.
  pose proof (tr_step _ _ _ Ht (settling_node _ _ _ _ _ _ _ _ Hset He H1)) as Ht1.
  eapply (IH (S n)); [exact Ht1|lia| |exact H2]. eapply settling_step; [exact HI|lia|lia|done..].
Qed.

End invariant.

(** ** The loop and the outcome of a run *)

(** The chunks among what the loop has seen. *)
Definition chunks_of (polls : list Poll) : list OutputChunk :=
  omap (fun p => match p with PollOutput c => Some c | _ => None end) polls.

Definition loop_output (o : LoopOutcome) : option LoopState :=
  match o with LoopBreak s | LoopWaiting s | LoopPanic s => Some s | LoopImpossible => None end.

Lemma run_loop_seen polls s :
  match loop_output (run_loop polls s) with
  | None => True
  | Some s' => exists used, used `prefix_of` polls /\ lp_output s' = lp_output s ++ chunks_of used
  end.
Proof.
  revert s. induction polls as [|p polls IH]; intros s; simpl.
  { destruct (_ && _); simpl; exists []; by rewrite app_nil_r. }
  assert (forall s' (Hs' : lp_output s' = lp_output s ++ chunks_of [p]),
    match loop_output (run_loop polls s') with
    | None => True
    | Some s'' => exists used, used `prefix_of` p :: polls /\ lp_output s'' = lp_output s ++ chunks_of used
    end) as Hnext.
  { intros s' Hs'. specialize (IH s'). destruct (loop_output _) as [s''|]; [|done].
    destruct IH as (used & Hp & Ho). exists (p :: used). split; [by apply prefix_cons|].
    rewrite Ho, Hs', <- app_assoc. unfold chunks_of. f_equal. by destruct p. }
  assert (forall s', lp_output s' = lp_output s -> exists used, used `prefix_of` p :: polls /\ lp_output s' = lp_output s ++ chunks_of used) as Hstop.
  { intros s' ->. exists []. split; [apply prefix_nil|by rewrite app_nil_r]. }
  destruct (_ && _); [by apply Hstop|].
  destruct p as [c| |joined drained]; [destruct (negb _); [done|]..|destruct (_ || _); [done|]].
  - by apply Hnext.
  - destruct (lp_result s); [by apply Hstop|]. apply Hnext. by rewrite app_nil_r.
  - destruct drained; [apply Hstop|apply Hnext; rewrite app_nil_r]; by destruct joined as [[]|].
Qed.

(** Between two rounds the loop knows at most one of a result and an error, and
    with a result it still reads output. *)
Definition loop_inv (s : LoopState) : Prop :=
  (lp_result s = None \/ lp_error s = None) /\ (is_Some (lp_result s) -> lp_closed s = false).

Lemma run_loop_inv polls s :
  loop_inv s ->
  match run_loop polls s with
  | LoopBreak s' => (lp_result s' = None \/ lp_error s' = None) /\ join_enabled s' = false
  | LoopPanic s' => lp_result s' = None /\ is_Some (lp_error s') /\ lp_closed s' = true
  | _ => True
  end.
Proof.
  revert s. induction polls as [|p polls IH]; intros s [Hs Hc]; simpl; destruct (_ && _) eqn:E; try done;
    try (apply andb_true_iff in E as [E1%negb_true_iff E2%negb_true_iff]; unfold output_enabled, join_enabled in E1, E2;
         apply negb_false_iff in E1; destruct (lp_result s); [rewrite Hc in E1; [done|by eexists]|];
         destruct (lp_error s); [by eauto|done]).
  destruct p as [c| |joined drained].
  - destruct (negb _); [done|]. by apply IH.
  - destruct (negb _); [done|]. destruct (lp_result s) eqn:Er; simpl.
    + split; [|done]. destruct Hs as [Hs|Hs]; [congruence|by right].
    + apply IH. split; [by left|by intros [? ?]].
  - destruct (_ || _) eqn:Ej; [done|]. apply orb_false_iff in Ej as [Ej Ed]. unfold join_enabled in Ej.
    destruct (lp_result s) eqn:Er; [done|]. destruct (lp_error s) eqn:Ee; [done|].
    destruct drained; [unfold join_enabled; destruct joined as [[]|]; simpl; rewrite ?Er, ?Ee; auto|].
    rewrite andb_true_r in Ed. apply IH. split; [destruct joined as [[]|]; simpl; rewrite ?Er, ?Ee; auto|].
    by destruct joined as [[]|].
Qed.

(** The loop that follows a runner loses no output.  What it has published
    is what it has read, in order, with nothing skipped; when it ends it has
    exactly one of a result and an error; and a run whose runner delivers a
    result never ends in a panic. *)
Theorem run_loop_sound (polls : list Poll) :
  match run_loop polls loop_init with
  | LoopImpossible => True
  | LoopWaiting s => exists used, used `prefix_of` polls /\ lp_output s = chunks_of used
  | LoopBreak s =>
      (exists used, used `prefix_of` polls /\ lp_output s = chunks_of used)
      /\ ((is_Some (lp_result s) /\ lp_error s = None) \/ (lp_result s = None /\ is_Some (lp_error s)))
  | LoopPanic s =>
      (exists used, used `prefix_of` polls /\ lp_output s = chunks_of used)
      /\ lp_result s = None /\ is_Some (lp_error s)
  end.
Proof.
  pose proof (run_loop_seen polls loop_init) as Hseen.
  pose proof (run_loop_inv polls loop_init ltac:(split; [by left|by intros [? ?]])) as Hinv.
  destruct (run_loop polls loop_init) as [s|s|s|]; simpl in Hseen; [|done|by destruct Hinv as (? & ? & _)|done].
  split; [done|]. destruct Hinv as [Ho Hj]. unfold join_enabled in Hj.
  destruct (lp_result s), (lp_error s); [naive_solver|left|right|]; by eauto.
Qed.

(** C38: a runner that fails while its output channel is open, or still holds a
    chunk, takes the execution's task down: once the channel is drained and
    closed both branches of the [select!] are disabled, so the task panics
    before it publishes a terminal state.  The same run with a result ends
    normally. *)
Theorem runner_error_panics (joined : option (result RunnerError RunnerResult)) (chunks : list OutputChunk) :
  run_loop (PollJoined joined false :: (PollOutput <$> chunks) ++ [PollClosed]) loop_init =
  match joined with
  | Some (Ok v) => LoopBreak {| lp_result := Some v; lp_error := None; lp_closed := true; lp_output := chunks |}
  | Some (Err e) => LoopPanic {| lp_result := None; lp_error := Some e; lp_closed := true; lp_output := chunks |}
  | None => LoopPanic {| lp_result := None; lp_error := Some runner_failed; lp_closed := true; lp_output := chunks |}
  end.
Proof.
  simpl. assert (forall s, output_enabled s = true ->
    run_loop ((PollOutput <$> chunks) ++ [PollClosed]) s =
    run_loop [PollClosed] {| lp_result := lp_result s; lp_error := lp_error s; lp_closed := lp_closed s;
                             lp_output := lp_output s ++ chunks |}) as Hrun.
  { induction chunks as [|c chunks IH]; intros s Hs; [rewrite app_nil_r; by destruct s|].
    cbn [fmap list_fmap app]. cbn [run_loop]. rewrite Hs. simpl negb. cbn iota. rewrite IH by done. simpl.
    by rewrite <- app_assoc. }
  by destruct joined as [[v|e]|]; simpl; rewrite Hrun.
Qed.

(** Finalization only adds artifacts and its own failures. *)
Lemma finalize_keeps workspace capture retain completed e :
  let e' := finalize workspace capture retain completed e in
  res_state e' = res_state e /\ exit_code e' = exit_code e /\ failure e' = failure e
  /\ (artifact_count e' = artifact_count e
      \/ exists outputs, workspace = Some outputs /\ capture = Some (artifact_count e')
           /\ should_capture completed outputs e = true).
Proof.
  unfold finalize. destruct workspace as [outputs|]; [|by auto].
  destruct (should_capture completed outputs e) eqn:Es, capture as [count|], retain; simpl; split_and!; eauto.
Qed.

Lemma should_capture_true completed outputs e :
  should_capture completed outputs e = true -> outputs <> [] /\ (res_state e = Succeeded \/ res_state e = Failed).
Proof.
  unfold should_capture. intros [[[_ Ho]%andb_true_iff Hs]%andb_true_iff _]%andb_true_iff. split; [by destruct outputs|].
  by destruct (res_state e); auto.
Qed.

Lemma execution_outcome_spec s lease_expired sandbox resources :
  let e := execution_outcome s lease_expired sandbox resources in
  is_terminal (res_state e) = true /\ artifact_count e = 0%Z
  /\ (lease_expired = true -> res_state e = Interrupted /\ exit_code e = None
        /\ (failure e = Some FailLeaseExpired \/ exists why, lp_error s = Some (Spawn why) /\ failure e = Some FailSpawn))
  /\ (res_state e = Succeeded -> lease_expired = false
        /\ exists v, lp_result s = Some v /\ rr_termination v = TExited /\ rr_exit_code v = Some 0%Z).
Proof.
  unfold execution_outcome. destruct (lp_result s) as [v|].
  - destruct lease_expired; [by split_and!; auto|]. unfold execution_result. cbn [res_state artifact_count].
    destruct (rr_resource_limits_exceeded v); [|by split_and!].
    destruct (rr_termination v) eqn:Et; [|by split_and!..].
    case_decide; split_and!; try done. eauto.
  - unfold failed_result, failure_for_runner_error. cbn [res_state exit_code failure artifact_count].
    destruct lease_expired; [|by destruct (lp_error s) as [[]|]]. split_and!; [done|done| |done].
    intros _. split_and!; [done|done|]. destruct (lp_error s) as [[]|]; eauto.
Qed.

(** The outcome of a run is settled and honest.  Whatever the loop ended
    with, whatever the lease, the workspace and the capture of outputs did,
    the result's state is terminal; an expired lease always shows as an
    interrupted execution without exit code; success is reported only for a
    runner's own success under a live lease; and artifacts are counted only for a
    finished run with declared outputs. *)
Theorem outcome_settled (s : LoopState) (lease_expired : bool) (sandbox : SandboxRequest)
    (resources : ResourceSetupRequest) (workspace : option (list DeclaredOutput)) (capture : option Z) (retain : bool) :
  let completed := match lp_result s with Some _ => true | None => false end in
  let e := finalize workspace capture retain completed (execution_outcome s lease_expired sandbox resources) in
  is_terminal (res_state e) = true
  /\ (lease_expired = true -> res_state e = Interrupted /\ exit_code e = None
        /\ (failure e = Some FailLeaseExpired \/ exists why, lp_error s = Some (Spawn why) /\ failure e = Some FailSpawn))
  /\ (res_state e = Succeeded -> lease_expired = false
        /\ exists v, lp_result s = Some v /\ rr_termination v = TExited /\ rr_exit_code v = Some 0%Z)
  /\ (artifact_count e <> 0%Z -> capture = Some (artifact_count e)
        /\ (res_state e = Succeeded \/ res_state e = Failed)
        /\ exists outputs, workspace = Some outputs /\ outputs <> []).
Proof.
  intros completed e. destruct (execution_outcome_spec s lease_expired sandbox resources) as (Ht & Ha & Hl & Hs).
  destruct (finalize_keeps workspace capture retain completed (execution_outcome s lease_expired sandbox resources))
    as (Es & Ec & Ef & Hart). fold e in Es, Ec, Ef, Hart. rewrite Es, Ec, Ef. split_and!; try done.
  intros Hn. destruct Hart as [Hart|(outputs & Hw & Hcap & Hsc)]; [congruence|].
  apply should_capture_true in Hsc as [? ?]. eauto.
Qed.

(** ** Concrete runs *)

Module NodeRun.
Import Run.

Abbreviation conf := (ExecutionRecord * bool * Db)%type.

Definition begin (st : ExecutionState) (res : option ExecutionResult) (k : ExecutionEventKind) (now : Z) (c : conf) : conf :=
  publish_begin None st res k now c.1.1 c.1.2 c.2.
Definition finish (c : conf) : conf := (publish_end c.1.1, c.1.2, c.2).

Definition chunk : OutputChunk := {| oc_stderr := false; oc_bytes := [Byte.x68; Byte.x69] |}.
Definition interrupted_by_client : ExecutionResult :=
  failed_result Cancelled FailInterrupted SbNone
    {| rs_memory_bytes := NotRequested; rs_cpu_millis := NotRequested; rs_pids := NotRequested |}.

(** An execution that starts, writes once, is cancelled, and ends. *)
Definition c0 : conf := (new_record (snap 1 Accepted) "hash" 0 60000, false, db_reserved).
Definition c1 : conf := begin Running None (EvState Running) 11 c0.
Definition c2 : conf := finish c1.
Definition c3 : conf := begin Running None (chunk_event chunk) 12 c2.
Definition c4 : conf := finish c3.
Definition c5 : conf := begin Cancelling None (EvState Cancelling) 13 c4.
Definition c6 : conf := finish c5.
Definition c7 : conf := begin Cancelled (Some interrupted_by_client) (EvState Cancelled) 14 c6.
Definition c8 : conf := finish c7.

Definition looped : LoopState := {| lp_result := None; lp_error := None; lp_closed := true; lp_output := [chunk] |}.
Definition calls : list PublishCall := run_execution looped [] interrupted_by_client.

Lemma begin_step st res k now (c : conf) : rec_commit c.1.1 = None -> call_ok st res k -> node_step c (begin st res k now c).
Proof. destruct c as [[r d] db]. intros Hc Hk. by apply ns_begin. Qed.
Lemma finish_quiet (c : conf) : is_Some (rec_commit c.1.1) -> quiet_step c (finish c).
Proof. destruct c as [[r d] db]. intros Hc. by apply qs_end. Qed.

Lemma commit_some (c : conf) : match rec_commit c.1.1 with Some _ => true | None => false end = true -> is_Some (rec_commit c.1.1).
Proof. destruct (rec_commit c.1.1); [by eexists|done]. Qed.

Ltac node_begin := apply begin_step; [vm_compute; reflexivity|split; [reflexivity|split; [try done; by eexists|by intros [? [=]]]]].
Ltac node_finish := apply ns_quiet, finish_quiet, commit_some; vm_compute; reflexivity.

Lemma step1 : node_step c0 c1. Proof. node_begin. Qed.
Lemma step2 : node_step c1 c2. Proof. node_finish. Qed.
Lemma step3 : node_step c2 c3. Proof. node_begin. Qed.
Lemma step4 : node_step c3 c4. Proof. node_finish. Qed.
Lemma step5 : node_step c4 c5. Proof. node_begin. Qed.
Lemma step6 : node_step c5 c6. Proof. node_finish. Qed.
Lemma step7 : node_step c6 c7. Proof. node_begin. Qed.
Lemma step8 : node_step c7 c8. Proof. node_finish. Qed.

Lemma track0 : tracked 1 c0.
Proof.
  eapply (tr_created 0 empty_db db_reserved (snap 1 Accepted) 2 zeros "alice" "hash" 5000 10 0 60000 false).
  - apply reach_empty.
  - apply snap_range. lia.
  - reflexivity.
  - reflexivity.
  - vm_compute. reflexivity.
Qed.
Lemma track2 : tracked 3 c2. Proof. eauto using tr_step, track0, step1, step2. Qed.
Lemma track6 : tracked 7 c6. Proof. eauto 6 using tr_step, track2, step3, step4, step5, step6. Qed.
Lemma track8 : tracked 9 c8. Proof. eauto using tr_step, track6, step7, step8. Qed.

Lemma publish_at (c : PublishCall) (cs : list PublishCall) (now : Z) (x : conf) :
  rec_commit x.1.1 = None ->
  match (commit_event None (propose (rec_snapshot x.1.1) (pc_state c) (pc_result c)) (pc_kind c) now x.2).1 with
  | Ok _ => true | Err _ => false end = true ->
  task_step (c :: cs, x) (cs, begin (pc_state c) (pc_result c) (pc_kind c) now x).
Proof.
  destruct x as [[r d] db]. cbn [fst snd]. intros Hc Ha.
  destruct ((commit_event None (propose (rec_snapshot r) (pc_state c) (pc_result c)) (pc_kind c) now db).1) as [a|] eqn:E;
    [|done]. by eapply tk_publish.
Qed.

Lemma control_at (st : ExecutionState) (cs : list PublishCall) (now : Z) (x : conf) :
  rec_commit x.1.1 = None -> is_terminal st = false -> task_step (cs, x) (cs, begin st None (EvState st) now x).
Proof. destruct x as [[r d] db]. intros Hc Ht. by apply tk_control. Qed.

Lemma finish_at (cs : list PublishCall) (x : conf) :
  match rec_commit x.1.1 with Some _ => true | None => false end = true -> task_step (cs, x) (cs, finish x).
Proof. intros Hc. by apply tk_quiet, finish_quiet, commit_some. Qed.
End NodeRun.
Import Run NodeRun.

Lemma conf_eta (c : conf) : (c.1.1, c.1.2, c.2) = c.
Proof. by destruct c as [[r d] db]. Qed.

Lemma publication_consistent_witness :
  load_snapshot "exec-1" (Some 1%Z) c7.2 = Ok (Some (current c7.1.1))
  /\ exists p, load_page "exec-1" 1 2 c7.2 = Ok (Some p) /\ page_events p = drop 2 (history c7.1.1).
Proof.
  pose proof (publication_consistent 8 c7.1.1 c7.1.2 c7.2 2) as H. rewrite conf_eta in H.
  destruct (H (tr_step _ _ _ track6 step7) eq_refl ltac:(unfold I64_MAX; lia)) as (Hs & _ & _ & _ & _ & p & Hp & _ & Hev).
  split; [exact Hs|]. exists p. split; [exact Hp|]. apply Hev. vm_compute in Hp. injection Hp as <-. vm_compute. discriminate.
Defined.

Lemma terminal_is_final_witness :
  is_terminal (snap_state (current c8.1.1)) = true /\ history (begin Running None (EvState Running) 20 c8).1.1 = history c8.1.1.
Proof.
  assert (is_terminal (snap_state (current c8.1.1)) = true) as Ht by (vm_compute; reflexivity).
  split; [exact Ht|]. set (c' := begin Running None (EvState Running) 20 c8).
  pose proof (terminal_is_final 9 1 c8.1.1 c'.1.1 c8.1.2 c'.1.2 c8.2 c'.2) as H. rewrite !conf_eta in H.
  apply (H track8 eq_refl); [|exact Ht]. eapply nsteps_l; [|apply nsteps_O]. unfold c'. node_begin.
Defined.

(** The client subscribes after the start, reads the journal while the chunk is
    being published, and drains the subscription at the end. *)
Lemma stream_exact_witness :
  event_response 0 (load_page "exec-1" 1 0 c3.2) (is_terminal (snap_state (rec_snapshot c4.1.1)))
    (drop 1 (rec_events c8.1.1)) TailPending = EventsStream (history c8.1.1) StreamEnded
  /\ stream_spec 0 (history c3.1.1) (drop 1 (rec_events c8.1.1)) (history c8.1.1) 1 TailPending false (history c8.1.1) StreamEnded.
Proof.
  assert (event_response 0 (load_page "exec-1" 1 0 c3.2) (is_terminal (snap_state (rec_snapshot c4.1.1)))
    (drop 1 (rec_events c8.1.1)) TailPending = EventsStream (history c8.1.1) StreamEnded) as E by (vm_compute; reflexivity).
  split; [exact E|].
  pose proof (stream_exact 3 1 1 4 c2.1.1 c3.1.1 c4.1.1 c8.1.1 c2.1.2 c3.1.2 c4.1.2 c8.1.2 c2.2 c3.2 c4.2 c8.2 0
    (drop 1 (rec_events c8.1.1)) TailPending) as H. rewrite !conf_eta in H.
  specialize (H track2 (nsteps_l _ _ _ _ _ step3 (nsteps_O _ _)) (nsteps_l _ _ _ _ _ step4 (nsteps_O _ _))
    (nsteps_l _ _ _ _ _ step5 (nsteps_l _ _ _ _ _ step6 (nsteps_l _ _ _ _ _ step7 (nsteps_l _ _ _ _ _ step8 (nsteps_O _ _)))))
    eq_refl ltac:(unfold I64_MAX; lia) ltac:(reflexivity)).
  cbv zeta in H. change (execution_id (rec_snapshot c2.1.1)) with "exec-1" in H.
  change (generation (rec_snapshot c2.1.1)) with 1%Z in H. rewrite E in H. exact H.
Defined.

(** A stream that reads the journal at its end and then finds the execution
    terminal closes without the terminal event. *)
Example stream_misses_end :
  event_response 3 (load_page "exec-1" 1 3 c6.2) (is_terminal (snap_state (rec_snapshot c8.1.1)))
    (drop 3 (rec_events c8.1.1)) TailPending = EventsStream [] StreamEnded
  /\ ends_terminal (drop 3 (rec_events c8.1.1)) = true
  /\ missed_end true 3 (history c6.1.1) = true.
Proof. vm_compute. done. Qed.

