(* ===== verification/Blob.v ===== *)
(** * The blob store

    [eggwork-server/src/blob.rs]: content-addressed files with a metadata
    database of rows and references, a storage quota, garbage collection and
    reconciliation of the two layers when the store is opened.

    The store is the two SQL tables and the files below the store's root, a
    map from relative paths to contents.  Every system call and every SQL
    statement can fail: an operation takes a predicate that says which of its
    steps do.  A transaction that fails leaves the tables as they were but not
    the files.  Rows that SQLite may return in any order are an argument, the
    order of the scan. *)

From Stdlib Require Import Ascii String ZArith Lia.
From stdpp Require Import base gmap strings list sorting relations.
From S2P Require Import Prelude Ids.

Definition MAX_BLOB_BYTES : Z := 256 * 1024 * 1024.
Definition MAX_FIND_DIGESTS : Z := 512.
Definition FIND_CHUNK : nat := 256.

Record GcReport := {
  expired_references : Z;
  expired_references_removed : Z;
  candidate_blobs : Z;
  candidate_bytes : Z;
  removed_blobs : Z;
  removed_bytes : Z;
}.

Inductive BlobError : Type :=
| BeTooLarge
| BeQuotaExceeded
| BeLengthMismatch
| BeDigestMismatch
| BeCorruptExisting
| BeNotFound
| BeTooManyDigests
| BeIo
| BeMetadata
| BeBody
| BeWorker.

(** A row of [blobs]. *)
Record BlobRow := { size_bytes : Z; reference_count : Z; last_used_unix_ms : Z }.

(** The key of [blob_references]: owner kind, owner and digest. *)
Record RefKey := { owner_kind : string; owner_id : string; ref_digest : string }.

#[export] Instance RefKey_eq_dec : EqDecision RefKey.
Proof. solve_decision. Defined.

#[export] Instance RefKey_countable : Countable RefKey :=
  inj_countable' (fun k => (owner_kind k, owner_id k, ref_digest k))
    (fun t => {| owner_kind := t.1.1; owner_id := t.1.2; ref_digest := t.2 |}) (fun k => match k with Build_RefKey _ _ _ => eq_refl end).

(** A path below the store's root, by its components. *)
Abbreviation file_path := (list string).

Record BlobStore := {
  blobs : gmap string BlobRow;
  blob_references : gmap RefKey (option Z);
  files : gmap file_path bytes;
}.

Definition set_blobs (f : gmap string BlobRow -> gmap string BlobRow) (s : BlobStore) : BlobStore :=
  {| blobs := f (blobs s); blob_references := blob_references s; files := files s |}.
Definition set_references (f : gmap RefKey (option Z) -> gmap RefKey (option Z)) (s : BlobStore) : BlobStore :=
  {| blobs := blobs s; blob_references := f (blob_references s); files := files s |}.
Definition set_files (f : gmap file_path bytes -> gmap file_path bytes) (s : BlobStore) : BlobStore :=
  {| blobs := blobs s; blob_references := blob_references s; files := f (files s) |}.

(** The store after a transaction that did not commit: [before]'s tables,
    [after]'s files. *)
Definition rolled_back (before after : BlobStore) : BlobStore :=
  {| blobs := blobs before; blob_references := blob_references before; files := files after |}.

(** [BlobStore::path_for] *)
Definition path_for (digest : string) : file_path := [str_take 2 digest; digest].

(** ** Rows and references *)

Definition add_reference_count (f : Z -> Z) (r : BlobRow) : BlobRow :=
  {| size_bytes := size_bytes r; reference_count := f (reference_count r); last_used_unix_ms := last_used_unix_ms r |}.

(** [INSERT INTO blob_references], with the trigger [blob_reference_insert]. *)
Definition insert_reference (k : RefKey) (expires : option Z) (s : BlobStore) : BlobStore :=
  set_blobs (alter (add_reference_count (Z.add 1)) (ref_digest k)) (set_references <[k := expires]> s).

(** [DELETE FROM blob_references], one row, with the trigger
    [blob_reference_delete]. *)
Definition delete_reference (s : BlobStore) (k : RefKey) : BlobStore :=
  set_blobs (alter (add_reference_count (fun c => Z.max 0 (c - 1))) (ref_digest k)) (set_references (delete k) s).

Definition delete_references (ks : list RefKey) (s : BlobStore) : BlobStore := foldl delete_reference s ks.

(** [DELETE FROM blobs]: references to the row go with it ([ON DELETE CASCADE]). *)
Definition delete_blob (digest : string) (s : BlobStore) : BlobStore :=
  set_blobs (delete digest) (set_references (filter (fun kv => ref_digest kv.1 <> digest)) s).

Definition owned_by (kind id : string) (k : RefKey) : Prop := owner_kind k = kind /\ owner_id k = id.

#[export] Instance owned_by_dec kind id k : Decision (owned_by kind id k).
Proof. unfold owned_by. apply _. Defined.

Definition referenced (digest : string) (s : BlobStore) : bool :=
  existsb (fun kv => String.eqb (ref_digest kv.1) digest) (map_to_list (blob_references s)).

(** [SELECT COALESCE(SUM(size_bytes), 0) FROM blobs]; SQLite's sum of integers
    fails on overflow. *)
Definition used_bytes (s : BlobStore) : Z := sum_Z ((fun kv => size_bytes kv.2) <$> map_to_list (blobs s)).

Definition query_used (fails : bool) (s : BlobStore) : result BlobError Z :=
  if fails || (I64_MAX <? used_bytes s)%Z then Err BeMetadata else Ok (used_bytes s).

(** The quota check of [prepare_upload] and [put_stream]. *)
Definition over_quota (quota_bytes used declared_length : Z) : bool :=
  (quota_bytes <? sat_add (Z.max used 0) declared_length)%Z.

(** [BlobStore::find_missing] *)
Fixpoint chunks_of {A} (fuel n : nat) (l : list A) : list (list A) :=
  match fuel, l with
  | _, [] => []
  | O, _ => []
  | S fuel, _ => take n l :: chunks_of fuel n (drop n l)
  end.

Definition find_missing (digests : list string) (s : BlobStore) : result BlobError (list string) :=
  if (MAX_FIND_DIGESTS <? len digests)%Z then Err BeTooManyDigests
  else
    let present := foldl (fun (present : gset string) chunk => present ∪ filter (.∈ chunk) (dom (blobs s))) ∅
                     (chunks_of (length digests) FIND_CHUNK digests) in
    Ok (filter (fun d => d ∉ present) digests).

(** [BlobStore::stored_size] *)
Definition stored_size (digest : string) (s : BlobStore) : result BlobError Z :=
  ok_or ((fun r => Z.max (size_bytes r) 0) <$> blobs s !! digest) BeNotFound.

(** [BlobStore::retain_one] *)
Definition retain_one (kind id digest : string) (expires_unix_ms : option Z) (s : BlobStore) : result BlobError BlobStore :=
  match blobs s !! digest with
  | None => Err BeNotFound
  | Some _ =>
      let k := {| owner_kind := kind; owner_id := id; ref_digest := digest |} in
      let expires := as_i64 <$> expires_unix_ms in
      Ok match blob_references s !! k with
         | Some _ => set_references <[k := expires]> s
         | None => insert_reference k expires s
         end
  end.

(** [BlobStore::retain] and [BlobStore::retain_per_owner]; [fails] is a failure
    of SQLite. *)
Definition retain (fails : bool) (kind id : string) (digests : list string) (expires_unix_ms : option Z) (s : BlobStore)
    : result BlobError unit * BlobStore :=
  match try_fold (fun s d => retain_one kind id d expires_unix_ms s) s digests with
  | Ok s' => if fails then (Err BeMetadata, s) else (Ok tt, s')
  | Err e => (Err e, s)
  end.

Definition retain_per_owner (fails : bool) (kind : string) (entries : list (string * string))
    (expires_unix_ms : option Z) (s : BlobStore) : result BlobError unit * BlobStore :=
  match entries with
  | [] => (Ok tt, s)
  | _ =>
      match try_fold (fun s (e : string * string) => retain_one kind e.1 e.2 expires_unix_ms s) s entries with
      | Ok s' => if fails then (Err BeMetadata, s) else (Ok tt, s')
      | Err e => (Err e, s)
      end
  end.

Definition update_expiry (kind id : string) (expires : option Z) (s : BlobStore) : BlobStore :=
  set_references (map_imap (fun k e => Some (if decide (owned_by kind id k) then expires else e))) s.

(** [BlobStore::set_reference_expiry] *)
Definition set_reference_expiry (fails : bool) (kind id : string) (expires_unix_ms : Z) (s : BlobStore)
    : result BlobError unit * BlobStore :=
  if fails then (Err BeMetadata, s) else (Ok tt, update_expiry kind id (Some (as_i64 expires_unix_ms)) s).

(** [BlobStore::clear_reference_expiry] *)
Definition clear_reference_expiry (fails : bool) (kind id : string) (s : BlobStore) : result BlobError unit * BlobStore :=
  if fails then (Err BeMetadata, s) else (Ok tt, update_expiry kind id None s).

Definition owned_references (kind id : string) (s : BlobStore) : list RefKey :=
  filter (owned_by kind id) (map_to_list (blob_references s)).*1.

(** [BlobStore::release_references] *)
Definition release_references (fails : bool) (kind id : string) (s : BlobStore) : result BlobError unit * BlobStore :=
  if fails then (Err BeMetadata, s) else (Ok tt, delete_references (owned_references kind id s) s).

Definition past (after : option string) (owner : string) : bool :=
  match after with
  | None => true
  | Some a => match str_cmp a owner with Lt => true | _ => false end
  end.

(** [BlobStore::reference_owners] *)
Definition reference_owners (kind : string) (after : option string) (limit : nat) (s : BlobStore) : list string :=
  let owners : gset string :=
    list_to_set (owner_id <$> filter (fun k => owner_kind k = kind) (map_to_list (blob_references s)).*1) in
  take limit (filter (fun o => past after o = true) (sort_by str_cmp (elements owners))).

(** ** Reading *)

Inductive VerifyStep : Type := VsQuery | VsRead | VsQuarantine | VsDelete | VsTouch.

Section verify.
Context `{Sha256}.

(** The hash and length test of [verify_existing]. *)
Definition corrupt (digest : string) (expected_size : Z) (content : bytes) : bool :=
  negb (len content =? as_u64 expected_size)%Z || negb (String.eqb (sha256_hex content) digest).

(** [BlobStore::verify_existing]; [uuid] names the quarantined file. *)
Definition verify_existing (fails : VerifyStep -> bool) (uuid : string) (now : Z) (digest : string) (s : BlobStore)
    : result BlobError unit * BlobStore :=
  if fails VsQuery then (Err BeMetadata, s)
  else
    match blobs s !! digest with
    | None => (Err BeNotFound, s)
    | Some row =>
        match files s !! path_for digest with
        | None => (Err BeIo, s)
        | Some content =>
            if fails VsRead then (Err BeIo, s)
            else if corrupt digest (size_bytes row) content then
              if fails VsQuarantine then (Err BeIo, s)
              else
                let s := set_files (fun f => <["quarantine" :: [digest +:+ "-" +:+ uuid] := content]> (delete (path_for digest) f)) s in
                if fails VsDelete then (Err BeMetadata, s) else (Err BeCorruptExisting, delete_blob digest s)
            else if fails VsTouch then (Err BeMetadata, s)
            else (Ok tt, set_blobs (alter (fun r => {| size_bytes := size_bytes r; reference_count := reference_count r;
                                                       last_used_unix_ms := now |}) digest) s)
        end
    end.

(** [BlobStore::open_verified], with what reading the opened file yields. *)
Definition open_verified (fails : VerifyStep -> bool) (uuid : string) (now : Z) (digest : string) (s : BlobStore)
    : result BlobError bytes * BlobStore :=
  match verify_existing fails uuid now digest s with
  | (Ok _, s) => (ok_or (files s !! path_for digest) BeIo, s)
  | (Err e, s) => (Err e, s)
  end.

(** [BlobStore::prepare_upload] *)
Definition prepare_upload (fails : VerifyStep -> bool) (query_fails : bool) (quota_bytes : Z) (uuid : string) (now : Z)
    (digest : string) (declared_length : Z) (s : BlobStore) : result BlobError bool * BlobStore :=
  if (MAX_BLOB_BYTES <? declared_length)%Z then (Err BeTooLarge, s)
  else
    match files s !! path_for digest with
    | Some _ =>
        match verify_existing fails uuid now digest s with
        | (Ok _, s) => (Ok false, s)
        | (Err e, s) => (Err e, s)
        end
    | None =>
        match query_used query_fails s with
        | Err e => (Err e, s)
        | Ok used => (if over_quota quota_bytes used declared_length then Err BeQuotaExceeded else Ok true, s)
        end
    end.

(** ** Writing *)

Inductive PutStep : Type :=
| PsUsed | PsDirectory | PsCreate | PsWrite (chunk : nat) | PsSync | PsRename | PsSyncDirectory | PsInsert
| PsRemovePart | PsCheckRow | PsRemoveTarget.

(** The loop of [put_stream] over the body: what was written to the part file,
    and how the loop ended.  A [None] is a failing body stream. *)
Fixpoint receive (fails : nat -> bool) (i : nat) (declared_length : Z) (written : bytes) (input : list (option bytes))
    : bytes * result BlobError unit :=
  match input with
  | [] => (written, Ok tt)
  | None :: _ => (written, Err BeBody)
  | Some chunk :: input =>
      let size := (len written + len chunk)%Z in
      if (U64_MAX <? size)%Z then (written, Err BeTooLarge)
      else if (MAX_BLOB_BYTES <? size)%Z || (declared_length <? size)%Z then (written, Err BeTooLarge)
      else if fails i then (written, Err BeIo)
      else receive fails (S i) declared_length (written ++ chunk) input
  end.

Definition part_path (uuid : string) : file_path := [".part-" +:+ uuid].

(** The inner [async] block of [put_stream], on an existing part file. *)
Definition put_body (fails : PutStep -> bool) (uuid : string) (now : Z) (digest : string) (declared_length : Z)
    (input : list (option bytes)) (s : BlobStore) : result BlobError unit * BlobStore :=
  let '(content, received) := receive (fun i => fails (PsWrite i)) 0 declared_length [] input in
  let s := set_files <[part_path uuid := content]> s in
  match received with
  | Err e => (Err e, s)
  | Ok _ =>
      if negb (len content =? declared_length)%Z then (Err BeLengthMismatch, s)
      else if negb (String.eqb (sha256_hex content) digest) then (Err BeDigestMismatch, s)
      else if fails PsSync then (Err BeIo, s)
      else if fails PsRename then (Err BeIo, s)
      else
        let s := set_files (fun f => <[path_for digest := content]> (delete (part_path uuid) f)) s in
        if fails PsSyncDirectory then (Err BeIo, s)
        else
          match blobs s !! digest with
          | Some _ => (Err BeMetadata, s)
          | None =>
              if fails PsInsert then (Err BeMetadata, s)
              else (Ok tt, set_blobs <[digest := {| size_bytes := len content; reference_count := 0;
                                                    last_used_unix_ms := now |}]> s)
          end
  end.

(** What [put_stream] does when the inner block fails. *)
Definition put_cleanup (fails : PutStep -> bool) (uuid digest : string) (s : BlobStore) : BlobStore :=
  let s := if fails PsRemovePart then s else set_files (delete (part_path uuid)) s in
  match files s !! path_for digest with
  | None => s
  | Some _ =>
      let row := if fails PsCheckRow then None else blobs s !! digest in
      match row with
      | Some _ => s
      | None => if fails PsRemoveTarget then s else set_files (delete (path_for digest)) s
      end
  end.

(** [BlobStore::put_stream] *)
Definition put_stream (verify_fails : VerifyStep -> bool) (fails : PutStep -> bool) (quota_bytes : Z) (uuid : string) (now : Z)
    (digest : string) (declared_length : Z) (input : list (option bytes)) (s : BlobStore)
    : result BlobError unit * BlobStore :=
  if (MAX_BLOB_BYTES <? declared_length)%Z then (Err BeTooLarge, s)
  else
    match files s !! path_for digest with
    | Some _ => verify_existing verify_fails uuid now digest s
    | None =>
        match query_used (fails PsUsed) s with
        | Err e => (Err e, s)
        | Ok used =>
            if over_quota quota_bytes used declared_length then (Err BeQuotaExceeded, s)
            else if fails PsDirectory then (Err BeIo, s)
            else if fails PsCreate || is_some (files s !! part_path uuid) then (Err BeIo, s)
            else
              match put_body fails uuid now digest declared_length input s with
              | (Ok a, s) => (Ok a, s)
              | (Err e, s) => (Err e, put_cleanup fails uuid digest s)
              end
        end
    end.
End verify.

(** ** Garbage collection *)

Definition expired (now : Z) (e : option Z) : bool :=
  match e with Some t => (t <=? as_i64 now)%Z | None => false end.

(** [BlobStore::unreferenced_candidates], for a scan of the table. *)
Definition unreferenced_candidates (scan : list (string * BlobRow)) (limit : nat) (s : BlobStore) : list (string * Z) :=
  (fun kv => (kv.1, Z.max (size_bytes kv.2) 0)) <$>
    take limit (sort_by (cmp_on (fun kv => last_used_unix_ms kv.2) Z.compare)
                  (filter (fun kv => referenced kv.1 s = false) scan)).

Inductive GcStep : Type := GsQuery | GsUnlink (digest : string) | GsDelete (digest : string) | GsCommit.

Record GcLoop := { gl_store : BlobStore; gl_blobs : Z; gl_bytes : Z }.

(** How the loop over the candidates ended: at its end, at a file that could
    not be removed, or at a failing statement. *)
Inductive GcEnd : Type := GcDone | GcUnlinkError | GcSqlError.

Fixpoint gc_candidates (fails : GcStep -> bool) (candidates : list (string * Z)) (l : GcLoop) : GcLoop * GcEnd :=
  match candidates with
  | [] => (l, GcDone)
  | (encoded, size) :: candidates =>
      match BlobDigest_parse encoded with
      | Err _ => gc_candidates fails candidates l
      | Ok digest =>
          if fails (GsUnlink digest) then (l, GcUnlinkError)
          else
            let present := is_some (files (gl_store l) !! path_for digest) in
            let s := set_files (delete (path_for digest)) (gl_store l) in
            if fails (GsDelete digest) then ({| gl_store := s; gl_blobs := gl_blobs l; gl_bytes := gl_bytes l |}, GcSqlError)
            else
              let s := if referenced digest s then s else delete_blob digest s in
              gc_candidates fails candidates
                {| gl_store := s;
                   gl_blobs := if present then (gl_blobs l + 1)%Z else gl_blobs l;
                   gl_bytes := if present then sat_add (gl_bytes l) size else gl_bytes l |}
      end
  end.

Definition candidate_report (candidates : list (string * Z)) : Z := foldl (fun sum c => sat_add sum c.2) 0%Z candidates.

(** [BlobStore::garbage_collect]: [ref_scan] and [scan] are the orders in which
    SQLite returns references and rows. *)
Definition garbage_collect (fails : GcStep -> bool) (ref_scan : list (RefKey * option Z))
    (scan : list (string * BlobRow)) (now_unix_ms : Z) (limit : nat) (dry_run : bool) (s : BlobStore)
    : result BlobError GcReport * BlobStore :=
  if fails GsQuery then (Err BeMetadata, s)
  else
    let expired_refs := filter (fun kv => expired now_unix_ms kv.2 = true) ref_scan in
    let report candidates removed l :=
      {| expired_references := len expired_refs; expired_references_removed := removed;
         candidate_blobs := len candidates; candidate_bytes := candidate_report candidates;
         removed_blobs := gl_blobs l; removed_bytes := gl_bytes l |} in
    if dry_run then
      if fails GsCommit then (Err BeMetadata, s)
      else (Ok (report (unreferenced_candidates scan limit s) 0%Z {| gl_store := s; gl_blobs := 0; gl_bytes := 0 |}), s)
    else
      let dropped := (take limit expired_refs).*1 in
      let s1 := delete_references dropped s in
      let candidates := unreferenced_candidates scan limit s1 in
      let '(l, ending) := gc_candidates fails candidates {| gl_store := s1; gl_blobs := 0; gl_bytes := 0 |} in
      match ending with
      | GcSqlError => (Err BeMetadata, rolled_back s (gl_store l))
      | _ =>
          if fails GsCommit then (Err BeMetadata, rolled_back s (gl_store l))
          else
            match ending with
            | GcUnlinkError => (Err BeIo, gl_store l)
            | _ => (Ok (report candidates (len dropped) l), gl_store l)
            end
      end.

(** ** Opening *)

(** A part file left by an interrupted upload. *)
Definition stale_part (p : file_path) : bool :=
  match p with [name] => starts_with ".part-" name | _ => false end.

Definition row_dangles (f : gmap file_path bytes) (digest : string) : bool :=
  negb (is_ok (BlobDigest_parse digest)) || negb (is_some (f !! path_for digest)).

(** A content file that no row names. *)
Definition stray_file (known : gset string) (p : file_path) : bool :=
  match p with
  | [directory; name] =>
      negb (String.eqb directory "quarantine") && is_ok (BlobDigest_parse name) && bool_decide (name ∉ known)
  | _ => false
  end.

(** [BlobStore::remove_stale_parts] *)
Definition remove_stale_parts (s : BlobStore) : BlobStore :=
  let s := set_files (filter (fun kv => stale_part kv.1 = false)) s in
  let known := dom (blobs s) in
  let s := foldl (fun s d => if row_dangles (files s) d then delete_blob d s else s) s (elements known) in
  set_files (filter (fun kv => stray_file known kv.1 = false)) s.

(** ** The invariant of the tables *)

(** How many references name a digest. *)
Definition count (digest : string) (refs : gmap RefKey (option Z)) : Z :=
  Z.of_nat (size (filter (fun k => ref_digest k = digest) (dom refs))).

Record BlobInv (quota_bytes : Z) (s : BlobStore) : Prop := {
  bi_rows d row : blobs s !! d = Some row ->
    valid_digest d /\ (0 <= size_bytes row <= MAX_BLOB_BYTES)%Z
    /\ reference_count row = count d (blob_references s);
  bi_refs k : k ∈ dom (blob_references s) -> is_Some (blobs s !! ref_digest k);
  bi_quota : (used_bytes s <= quota_bytes)%Z;
}.

Definition empty_store : BlobStore := {| blobs := ∅; blob_references := ∅; files := ∅ |}.

Lemma count_dom d refs refs' : dom refs = dom refs' -> count d refs = count d refs'.
Proof. unfold count. by intros ->. Qed.

Lemma count_insert d k e refs :
  k ∉ dom refs -> count d (<[k := e]> refs) = (count d refs + if decide (ref_digest k = d) then 1 else 0)%Z.
Proof.
  intros Hk. unfold count. rewrite dom_insert_L, filter_union_L, filter_singleton_L by apply _. case_decide as Hd.
  - rewrite size_union by (apply disjoint_singleton_l; rewrite elem_of_filter; naive_solver). rewrite size_singleton. lia.
  - rewrite union_empty_l_L by apply _. lia.
Qed.

Lemma count_delete d k refs :
  k ∈ dom refs -> count d (delete k refs) = (count d refs - if decide (ref_digest k = d) then 1 else 0)%Z.
Proof.
  intros [e Hk]%elem_of_dom. rewrite <- (insert_delete_id refs k e Hk) at 2.
  rewrite count_insert by (rewrite dom_delete; set_solver). case_decide; lia.
Qed.

Lemma count_nonneg d refs : (0 <= count d refs)%Z.
Proof. unfold count. lia. Qed.

Lemma used_insert d r s :
  blobs s !! d = None -> used_bytes (set_blobs <[d := r]> s) = (size_bytes r + used_bytes s)%Z.
Proof.
  intros Hd. unfold used_bytes. simpl. rewrite (sum_Z_perm _ ((fun kv => size_bytes kv.2) <$> (d, r) :: map_to_list (blobs s))).
  - done.
  - by rewrite map_to_list_insert.
Qed.

Lemma used_row d r s : blobs s !! d = Some r -> used_bytes s = (size_bytes r + used_bytes (set_blobs (delete d) s))%Z.
Proof.
  intros Hd. rewrite <- (used_insert d r (set_blobs (delete d) s)) by apply lookup_delete_eq.
  unfold used_bytes. simpl. by rewrite insert_delete_id.
Qed.

Lemma used_alter f d s :
  (forall r, size_bytes (f r) = size_bytes r) -> used_bytes (set_blobs (alter f d) s) = used_bytes s.
Proof.
  intros Hf. destruct (blobs s !! d) as [r|] eqn:Hd.
  - rewrite (used_row d r s Hd), (used_row d (f r) (set_blobs (alter f d) s)), Hf.
    + unfold used_bytes. simpl. by rewrite delete_alter_eq.
    + simpl. by rewrite lookup_alter_eq, Hd.
  - unfold used_bytes. simpl. rewrite alter_id by congruence. done.
Qed.

Lemma used_delete quota d s :
  BlobInv quota s -> (used_bytes (set_blobs (delete d) s) <= used_bytes s)%Z.
Proof.
  intros HI. destruct (blobs s !! d) as [r|] eqn:Hd.
  - rewrite (used_row d r s Hd). apply (bi_rows _ _ HI) in Hd as (_ & ? & _). lia.
  - unfold used_bytes. simpl. by rewrite delete_id.
Qed.

(** The invariant is about the tables. *)
Lemma BlobInv_tables quota s s' :
  BlobInv quota s -> blobs s' = blobs s -> blob_references s' = blob_references s -> BlobInv quota s'.
Proof. intros [H1 H2 H3] E1 E2. split; unfold used_bytes in *; by rewrite ?E1, ?E2. Qed.

Lemma set_files_inv quota f s : BlobInv quota s -> BlobInv quota (set_files f s).
Proof. intros HI. exact (BlobInv_tables quota s (set_files f s) HI eq_refl eq_refl). Qed.

Lemma insert_reference_inv quota k e s :
  BlobInv quota s -> blob_references s !! k = None -> is_Some (blobs s !! ref_digest k) ->
  BlobInv quota (insert_reference k e s).
Proof.
  intros HI Hk Hd. split; unfold insert_reference; simpl.
  - intros d row Hrow. rewrite count_insert by (by apply not_elem_of_dom).
    apply lookup_alter_Some in Hrow as [(<- & r & Hr & ->)|[Hne Hr]]; apply (bi_rows _ _ HI) in Hr as (? & ? & Hc); simpl.
    + rewrite decide_True by done. split_and!; [done|lia..].
    + rewrite decide_False by done. split_and!; [done|lia..].
  - intros k' Hk'. rewrite lookup_alter_is_Some. rewrite dom_insert in Hk'.
    apply elem_of_union in Hk' as [->%elem_of_singleton|Hk']; [done|by apply (bi_refs _ _ HI)].
  - etrans; [|apply (bi_quota _ _ HI)]. rewrite used_alter by done. done.
Qed.

Lemma delete_reference_inv quota k s :
  BlobInv quota s -> k ∈ dom (blob_references s) -> BlobInv quota (delete_reference s k).
Proof.
  intros HI Hk. split; unfold delete_reference; simpl.
  - intros d row Hrow. rewrite count_delete by done.
    apply lookup_alter_Some in Hrow as [(<- & r & Hr & ->)|[Hne Hr]]; apply (bi_rows _ _ HI) in Hr as (? & ? & Hc); simpl.
    + pose proof (count_nonneg (ref_digest k) (delete k (blob_references s))) as Hn. rewrite count_delete in Hn by done.
      rewrite decide_True in * by done. split_and!; [done|lia..].
    + rewrite decide_False by done. split_and!; [done|lia..].
  - intros k' Hk'. rewrite lookup_alter_is_Some. apply (bi_refs _ _ HI). rewrite dom_delete in Hk'. set_solver.
  - etrans; [|apply (bi_quota _ _ HI)]. rewrite used_alter by done. done.
Qed.

Lemma delete_references_inv quota ks s :
  BlobInv quota s -> NoDup ks -> Forall (.∈ dom (blob_references s)) ks -> BlobInv quota (delete_references ks s).
Proof.
  intros HI Hnd. revert s HI. induction Hnd as [|k ks Hk _ IH]; intros s HI Hall; [done|].
  apply Forall_cons in Hall as [Hin Hall]. apply IH; [by apply delete_reference_inv|].
  rewrite Forall_forall in *. intros k' Hk'. simpl. rewrite dom_delete. set_solver.
Qed.

Lemma delete_references_lookup ks s k :
  blob_references (delete_references ks s) !! k = if decide (k ∈ ks) then None else blob_references s !! k.
Proof.
  revert s. induction ks as [|k' ks IH]; intros s; [done|]. simpl. rewrite IH. simpl.
  destruct (decide (k ∈ ks)), (decide (k ∈ k' :: ks)) as [Hin|Hin]; try done.
  - exfalso. apply Hin. by right.
  - apply elem_of_cons in Hin as [->|]; [apply lookup_delete_eq|done].
  - rewrite lookup_delete_ne; [done|]. intros ->. apply Hin. by left.
Qed.

Lemma delete_references_rows ks s d :
  (forall r, blobs s !! d = Some r -> exists r', blobs (delete_references ks s) !! d = Some r'
     /\ size_bytes r' = size_bytes r /\ last_used_unix_ms r' = last_used_unix_ms r)
  /\ (blobs s !! d = None -> blobs (delete_references ks s) !! d = None)
  /\ files (delete_references ks s) = files s.
Proof.
  revert s. induction ks as [|k ks IH]; intros s; simpl; [by naive_solver|].
  destruct (IH (delete_reference s k)) as (H1 & H2 & H3). simpl in *. split_and!; [| |done].
  - intros r Hr. destruct (decide (ref_digest k = d)) as [<-|Hne].
    + destruct (H1 (add_reference_count (fun c => Z.max 0 (c - 1)) r)) as (r' & ? & ? & ?); [by rewrite lookup_alter_eq, Hr|].
      by exists r'.
    + destruct (H1 r) as (r' & ? & ? & ?); [by rewrite lookup_alter_ne|]. by exists r'.
  - intros Hd. apply H2. destruct (decide (ref_digest k = d)) as [<-|Hne]; [|by rewrite lookup_alter_ne].
    by rewrite lookup_alter_eq, Hd.
Qed.

Lemma delete_blob_inv quota d s : BlobInv quota s -> BlobInv quota (delete_blob d s).
Proof.
  intros HI. split; unfold delete_blob; simpl.
  - intros d' row [Hne Hr]%lookup_delete_Some. apply (bi_rows _ _ HI) in Hr as (? & ? & Hc). split_and!; [done|lia|lia|].
    rewrite Hc. unfold count. do 2 f_equal. apply set_eq. intros k. rewrite !elem_of_filter, !elem_of_dom.
    split; intros [Hd [e He]]; (split; [done|]); exists e.
    + apply map_lookup_filter_Some. split; [done|]. simpl. congruence.
    + by apply map_lookup_filter_Some in He as [? _].
  - intros k [e [Hk Hd]%map_lookup_filter_Some]%elem_of_dom. simpl in Hd. rewrite lookup_delete_ne by done.
    apply (bi_refs _ _ HI), elem_of_dom. eauto.
  - etrans; [exact (used_delete quota d s HI)|apply (bi_quota _ _ HI)].
Qed.

Lemma insert_blob_inv quota d r s :
  BlobInv quota s -> blobs s !! d = None -> valid_digest d -> (0 <= size_bytes r <= MAX_BLOB_BYTES)%Z ->
  reference_count r = 0%Z -> (used_bytes s + size_bytes r <= quota)%Z -> BlobInv quota (set_blobs <[d := r]> s).
Proof.
  intros HI Hd Hv Hsz Hc Hq. split; simpl.
  - intros d' row [[<- <-]|[Hne Hr]]%lookup_insert_Some; [|by apply (bi_rows _ _ HI)]. split_and!; [done|lia|lia|].
    rewrite Hc. unfold count. symmetry.
    assert (filter (fun k => ref_digest k = d) (dom (blob_references s)) = ∅) as ->; [|done].
    apply set_eq. intros k. rewrite elem_of_filter. split; [|set_solver]. intros [<- Hk]. apply (bi_refs _ _ HI) in Hk as [? ?].
    congruence.
  - intros k Hk. apply (bi_refs _ _ HI) in Hk. rewrite lookup_insert_is_Some. by destruct (decide (d = ref_digest k)); [left|right].
  - rewrite used_insert by done. lia.
Qed.

Lemma touch_inv quota d now s :
  BlobInv quota s ->
  BlobInv quota (set_blobs (alter (fun r => {| size_bytes := size_bytes r; reference_count := reference_count r;
                                               last_used_unix_ms := now |}) d) s).
Proof.
  intros HI. split; simpl.
  - intros d' row [(<- & r & Hr & ->)|[Hne Hr]]%lookup_alter_Some; by apply (bi_rows _ _ HI) in Hr.
  - intros k Hk. rewrite lookup_alter_is_Some. by apply (bi_refs _ _ HI).
  - rewrite used_alter by done. apply (bi_quota _ _ HI).
Qed.

Lemma retain_one_inv quota kind id d e s s' :
  BlobInv quota s -> retain_one kind id d e s = Ok s' -> BlobInv quota s'.
Proof.
  intros HI Hr. unfold retain_one in Hr. destruct (blobs s !! d) as [row|] eqn:Hd; [|done]. injection Hr as <-.
  destruct (blob_references s !! _) as [x|] eqn:Hk.
  - set (k := Build_RefKey kind id d) in *.
    assert (forall v, dom (<[k := v]> (blob_references s)) = dom (blob_references s)) as Hdom.
    { intros v. apply dom_insert_lookup_L. by rewrite Hk. }
    destruct HI as [H1 H2 H3]. split; simpl; [|by rewrite Hdom|done].
    intros d' row' Hrow. destruct (H1 d' row' Hrow) as (? & ? & Hc). split; [done|]. split; [done|]. rewrite Hc. by apply count_dom.
  - apply insert_reference_inv; [done|done|]. simpl. by rewrite Hd.
Qed.

Lemma try_fold_inv {E S A} (P : S -> Prop) (f : S -> A -> result E S) s l s' :
  (forall s a s', P s -> f s a = Ok s' -> P s') -> P s -> try_fold f s l = Ok s' -> P s'.
Proof.
  intros Hf. revert s. induction l as [|a l IH]; intros s Hs Hl; simpl in Hl; [by injection Hl as <-|].
  destruct (f s a) as [s1|] eqn:E1; [|done]. eauto.
Qed.

Lemma update_expiry_dom kind id e s : dom (blob_references (update_expiry kind id e s)) = dom (blob_references s).
Proof.
  apply set_eq. intros k. rewrite !elem_of_dom. simpl. rewrite map_lookup_imap.
  destruct (blob_references s !! k); simpl; [by split; eexists|done].
Qed.

Lemma update_expiry_inv quota kind id e s : BlobInv quota s -> BlobInv quota (update_expiry kind id e s).
Proof.
  intros [H1 H2 H3]. split; [|rewrite update_expiry_dom; exact H2|exact H3].
  intros d row Hrow. destruct (H1 d row Hrow) as (? & ? & Hc). split; [done|]. split; [done|]. rewrite Hc. apply count_dom.
  by rewrite update_expiry_dom.
Qed.

Lemma owned_references_ok kind id s :
  NoDup (owned_references kind id s) /\ Forall (.∈ dom (blob_references s)) (owned_references kind id s).
Proof.
  unfold owned_references. split; [apply NoDup_filter, NoDup_fst_map_to_list|].
  apply Forall_forall. intros k [_ Hk]%list_elem_of_filter. apply list_elem_of_fmap in Hk as ([k' e] & -> & Hk).
  apply elem_of_map_to_list in Hk. apply elem_of_dom. by eexists.
Qed.

Lemma used_nonneg quota s : BlobInv quota s -> (0 <= used_bytes s)%Z.
Proof.
  intros HI. apply sum_Z_nonneg, Forall_fmap, Forall_forall. intros [d r] Hr%elem_of_map_to_list. simpl.
  apply (bi_rows _ _ HI) in Hr as (_ & ? & _). lia.
Qed.

Section steps.
Context `{Sha256}.

Lemma verify_existing_inv quota fails uuid now d s : BlobInv quota s -> BlobInv quota (verify_existing fails uuid now d s).2.
Proof.
  intros HI. unfold verify_existing. destruct (fails VsQuery); [done|]. destruct (blobs s !! d) as [row|]; [|done].
  destruct (files s !! path_for d) as [c|]; [|done]. destruct (fails VsRead); [done|]. destruct (corrupt d _ c).
  - destruct (fails VsQuarantine); [done|]. destruct (fails VsDelete); simpl; [|apply delete_blob_inv];
      by eapply BlobInv_tables.
  - destruct (fails VsTouch); [done|]. by apply touch_inv.
Qed.

Lemma receive_bound fails i n w input w' r :
  (len w <= MAX_BLOB_BYTES)%Z -> receive fails i n w input = (w', r) -> (len w' <= MAX_BLOB_BYTES)%Z.
Proof.
  revert i w. induction input as [|[c|] input IH]; intros i w Hw Hr; simpl in Hr; [by injection Hr as <- _| |by injection Hr as <- _].
  destruct (U64_MAX <? _)%Z; [by injection Hr as <- _|]. destruct (_ || _) eqn:E; [by injection Hr as <- _|].
  destruct (fails i); [by injection Hr as <- _|]. eapply IH; [|exact Hr]. bool_hyps. unfold len in *. rewrite length_app. lia.
Qed.

(** What the inner block of [put_stream] leaves. *)
Lemma put_body_cases fails uuid now d n input s r s' :
  put_body fails uuid now d n input s = (r, s') ->
  (blobs s' = blobs s /\ blob_references s' = blob_references s)
  \/ (exists content, r = Ok tt /\ blobs s !! d = None /\ len content = n /\ (len content <= MAX_BLOB_BYTES)%Z
       /\ sha256_hex content = d
       /\ s' = set_blobs <[d := {| size_bytes := len content; reference_count := 0; last_used_unix_ms := now |}]>
                 (set_files (fun f => <[path_for d := content]> (delete (part_path uuid) (<[part_path uuid := content]> f))) s)).
Proof.
  unfold put_body. destruct (receive _ 0 n [] input) as [w e] eqn:Er. intros Hp.
  pose proof (receive_bound _ _ n [] _ _ _ ltac:(unfold len, MAX_BLOB_BYTES; simpl; lia) Er) as Hw.
  destruct e as [[]|e]; [|left; by injection Hp as _ <-]. destruct (negb _) eqn:El; [left; by injection Hp as _ <-|].
  destruct (negb (String.eqb _ _)) eqn:Eh; [left; by injection Hp as _ <-|].
  destruct (fails PsSync); [left; by injection Hp as _ <-|]. destruct (fails PsRename); [left; by injection Hp as _ <-|].
  destruct (fails PsSyncDirectory); [left; by injection Hp as _ <-|]. simpl in Hp.
  destruct (blobs s !! d) eqn:Ed; [left; by injection Hp as _ <-|].
  destruct (fails PsInsert); [left; by injection Hp as _ <-|]. injection Hp as <- <-. right. exists w.
  bool_hyps. by split_and!.
Qed.

Lemma put_cleanup_tables fails uuid d s :
  blobs (put_cleanup fails uuid d s) = blobs s /\ blob_references (put_cleanup fails uuid d s) = blob_references s.
Proof. unfold put_cleanup. by destruct (fails PsRemovePart); simpl; cases. Qed.

Lemma query_used_ok fails s u : query_used fails s = Ok u -> u = used_bytes s /\ (u <= I64_MAX)%Z.
Proof. unfold query_used. destruct (_ || _) eqn:E; [done|]. intros [= <-]. bool_hyps. split; [done|lia]. Qed.

Lemma put_stream_inv quota vfails fails uuid now d n input s :
  BlobInv quota s -> valid_digest d -> BlobInv quota (put_stream vfails fails quota uuid now d n input s).2.
Proof.
  intros HI Hv. unfold put_stream. destruct (_ <? n)%Z eqn:En; [done|].
  destruct (files s !! path_for d) as [c|]; [by apply verify_existing_inv|].
  destruct (query_used _ s) as [used|] eqn:Eu; [|done]. destruct (over_quota _ _ _) eqn:Eq; [done|].
  destruct (fails PsDirectory); [done|]. destruct (_ || _); [done|].
  destruct (put_body _ _ _ _ _ _ _) as [r s1] eqn:Ep.
  assert (BlobInv quota s1) as HI1.
  { apply put_body_cases in Ep as [[E1 E2]|(content & -> & Hd & <- & Hl & Hh & ->)]; [by eapply BlobInv_tables|].
    apply query_used_ok in Eu as [-> Hu]. pose proof (used_nonneg _ _ HI). bool_hyps. unfold over_quota, MAX_BLOB_BYTES in *.
    rewrite sat_add_small in Eq by (unfold U64_MAX, I64_MAX in *; lia). apply Z.ltb_ge in Eq.
    apply insert_blob_inv; try done; [by eapply BlobInv_tables|unfold MAX_BLOB_BYTES; simpl; unfold len in *; lia|].
    change (used_bytes s + len content <= quota)%Z. lia. }
  destruct r; [done|]. simpl. destruct (put_cleanup_tables fails uuid d s1). by eapply BlobInv_tables.
Qed.

Lemma gc_candidates_inv quota fails cs l :
  BlobInv quota (gl_store l) -> BlobInv quota (gl_store (gc_candidates fails cs l).1).
Proof.
  revert l. induction cs as [|[enc sz] cs IH]; intros l HI; simpl; [done|].
  destruct (BlobDigest_parse enc) as [d|]; [|by apply IH]. destruct (fails (GsUnlink d)); [done|].
  assert (BlobInv quota (set_files (delete (path_for d)) (gl_store l))) as HI' by (by eapply BlobInv_tables).
  destruct (fails (GsDelete d)); [done|]. apply IH. simpl. destruct (referenced d _); [done|by apply delete_blob_inv].
Qed.

Lemma dropped_ok now limit refs (scan : list (RefKey * option Z)) :
  scan ≡ₚ map_to_list refs ->
  let ks := (take limit (filter (fun kv => expired now kv.2 = true) scan)).*1 in
  NoDup ks /\ Forall (.∈ dom refs) ks
  /\ forall k e, refs !! k = Some e -> k ∈ ks -> expired now e = true.
Proof.
  intros Hp ks.
  assert (NoDup scan.*1) as Hnd by (rewrite Hp; apply NoDup_fst_map_to_list).
  assert (forall k, k ∈ ks -> exists e, refs !! k = Some e /\ expired now e = true) as Hin.
  { intros k Hk. apply list_elem_of_fmap in Hk as ([k' e] & -> & Hk). apply elem_of_take in Hk as (i & Hi & _).
    apply list_elem_of_lookup_2, list_elem_of_filter in Hi as [He Hi]. rewrite Hp in Hi.
    apply elem_of_map_to_list in Hi. eauto. }
  split_and!.
  - eapply sublist_NoDup; [exact Hnd|]. apply fmap_sublist. etrans; [apply sublist_take|apply sublist_filter].
  - apply Forall_forall. intros k Hk. apply Hin in Hk as (e & He & _). apply elem_of_dom. by eexists.
  - intros k e Hk Hin'. apply Hin in Hin' as (e' & He' & ?). congruence.
Qed.

Lemma garbage_collect_inv quota fails ref_scan scan now limit dry s :
  BlobInv quota s -> ref_scan ≡ₚ map_to_list (blob_references s) ->
  BlobInv quota (garbage_collect fails ref_scan scan now limit dry s).2.
Proof.
  intros HI Hr. unfold garbage_collect. destruct (fails GsQuery); [done|]. destruct dry; [by destruct (fails GsCommit)|].
  destruct (dropped_ok now limit _ _ Hr) as (Hnd & Hall & _).
  set (s1 := delete_references _ s). pose proof (delete_references_inv quota _ s HI Hnd Hall) as HI1. fold s1 in HI1.
  pose proof (gc_candidates_inv quota fails (unreferenced_candidates scan limit s1)
    {| gl_store := s1; gl_blobs := 0; gl_bytes := 0 |} HI1) as HI2.
  destruct (gc_candidates _ _ _) as [l ending]. simpl in HI2.
  assert (BlobInv quota (rolled_back s (gl_store l))) as HI3 by exact (BlobInv_tables quota s (rolled_back s (gl_store l)) HI eq_refl eq_refl).
  by destruct ending, (fails GsCommit).
Qed.

Lemma remove_stale_parts_inv quota s : BlobInv quota s -> BlobInv quota (remove_stale_parts s).
Proof.
  intros HI. unfold remove_stale_parts. set (s1 := set_files _ s).
  assert (BlobInv quota s1) as HI1 by (by eapply BlobInv_tables). generalize (dom (blobs s1)) as known.
  intros known. apply set_files_inv. generalize (elements known) as ds. intros ds. revert HI1. generalize s1. clear s1 HI s.
  induction ds as [|d ds IH]; intros s HI; simpl; [done|]. apply IH. destruct (row_dangles _ d); [by apply delete_blob_inv|done].
Qed.

(** *** Contents *)

Lemma path_for_inj d d' : path_for d = path_for d' -> d = d'.
Proof. by intros [= _ ->]. Qed.

Lemma path_for_part d uuid : path_for d <> part_path uuid.
Proof. done. Qed.

Lemma path_for_quarantine d name : valid_digest d -> path_for d <> ["quarantine"; name].
Proof.
  intros [Hl _] Hq. apply (f_equal head) in Hq. unfold path_for in Hq. cbn [head] in Hq.
  apply (f_equal (fun o => String.length (default EmptyString o))) in Hq. unfold default, id in Hq.
  rewrite str_take_length in Hq; [done|]. unfold str_len in Hl. lia.
Qed.

(** Every content file of [s'] was in [s] or has the digest it is named by. *)
Definition contents_kept (s s' : BlobStore) : Prop :=
  forall d c, valid_digest d -> files s' !! path_for d = Some c -> files s !! path_for d = Some c \/ sha256_hex c = d.

Lemma contents_kept_files s s' : files s' ⊆ files s -> contents_kept s s'.
Proof. intros Hs d c _ Hc. left. by eapply lookup_weaken. Qed.

Lemma verify_existing_contents fails uuid now d s :
  contents_kept s (verify_existing fails uuid now d s).2.
Proof.
  unfold verify_existing. destruct (fails VsQuery); [by apply contents_kept_files|].
  destruct (blobs s !! d) as [row|]; [|by apply contents_kept_files].
  destruct (files s !! path_for d) as [c|]; [|by apply contents_kept_files].
  destruct (fails VsRead); [by apply contents_kept_files|]. destruct (corrupt d _ c).
  - destruct (fails VsQuarantine); [by apply contents_kept_files|].
    destruct (fails VsDelete); simpl; intros d' c' Hv Hc'; simpl in Hc';
      rewrite lookup_insert_ne in Hc' by (by intros Hq; eapply path_for_quarantine; [exact Hv|exact (eq_sym Hq)]);
      apply lookup_delete_Some in Hc' as [_ ?]; by left.
  - destruct (fails VsTouch); by apply contents_kept_files.
Qed.

Lemma put_body_contents fails uuid now d n input s :
  contents_kept s (put_body fails uuid now d n input s).2.
Proof.
  unfold put_body. destruct (receive _ 0 n [] input) as [w e].
  assert (forall f, f = <[part_path uuid := w]> -> contents_kept s (set_files f s)) as Hpart.
  { intros f -> d' c _ Hc. left. simpl in Hc. by rewrite lookup_insert_ne in Hc by done. }
  destruct e as [[]|e]; [|by apply Hpart]. destruct (negb _) eqn:El; [by apply Hpart|].
  destruct (negb (String.eqb _ _)) eqn:Eh; [by apply Hpart|].
  destruct (fails PsSync); [by apply Hpart|]. destruct (fails PsRename); [by apply Hpart|]. bool_hyps.
  assert (contents_kept s (set_files (fun f => <[path_for d := w]> (delete (part_path uuid) f)) (set_files <[part_path uuid := w]> s))) as Hin.
  { intros d' c _ Hc. simpl in Hc. apply lookup_insert_Some in Hc as [[->%path_for_inj ->]|[_ Hc]]; [by right|left].
    by rewrite lookup_delete_ne, lookup_insert_ne in Hc by done. }
  destruct (fails PsSyncDirectory); [done|]. simpl. destruct (blobs s !! d); [done|]. by destruct (fails PsInsert).
Qed.

Lemma contents_kept_trans s1 s2 s3 : contents_kept s1 s2 -> contents_kept s2 s3 -> contents_kept s1 s3.
Proof. intros H1 H2 d c Hv Hc. destruct (H2 d c Hv Hc) as [Hc2|]; [|by right]. by apply H1. Qed.

Lemma put_cleanup_contents fails uuid d s : contents_kept s (put_cleanup fails uuid d s).
Proof.
  apply contents_kept_files. unfold put_cleanup.
  destruct (fails PsRemovePart); simpl; cases; simpl; try done; try apply delete_subseteq;
    (etrans; [apply delete_subseteq|apply delete_subseteq]).
Qed.

Lemma put_stream_contents quota vfails fails uuid now d n input s :
  contents_kept s (put_stream vfails fails quota uuid now d n input s).2.
Proof.
  unfold put_stream. destruct (_ <? n)%Z; [by apply contents_kept_files|].
  destruct (files s !! path_for d); [apply verify_existing_contents|].
  destruct (query_used _ s); [|by apply contents_kept_files]. destruct (over_quota _ _ _); [by apply contents_kept_files|].
  destruct (fails PsDirectory); [by apply contents_kept_files|]. destruct (_ || _); [by apply contents_kept_files|].
  pose proof (put_body_contents fails uuid now d n input s) as Hb.
  destruct (put_body _ _ _ _ _ _ _) as [[[]|e] s1]; [done|]. simpl in *.
  eapply contents_kept_trans; [done|apply put_cleanup_contents].
Qed.

(** *** What collection and opening remove *)

Lemma referenced_spec d s : referenced d s = true <-> exists k e, blob_references s !! k = Some e /\ ref_digest k = d.
Proof.
  unfold referenced. rewrite existsb_exists. split.
  - intros ([k e] & Hin & Hd). apply String.eqb_eq in Hd. apply list_elem_of_In, elem_of_map_to_list in Hin. eauto.
  - intros (k & e & Hk & Hd). exists (k, e). split; [|by apply String.eqb_eq]. by apply list_elem_of_In, elem_of_map_to_list.
Qed.

Lemma delete_unreferenced d s : referenced d s = false -> blob_references (delete_blob d s) = blob_references s.
Proof.
  intros Hr. simpl. apply map_filter_id. intros k e Hk Hd. simpl in Hd.
  enough (referenced d s = true) by congruence. apply referenced_spec. eauto.
Qed.

Lemma gc_candidates_spec fails cs l :
  Forall (fun c => referenced c.1 (gl_store l) = false) cs ->
  let s := gl_store l in let s' := gl_store (gc_candidates fails cs l).1 in
  blob_references s' = blob_references s /\ files s' ⊆ files s
  /\ (forall d, d ∉ cs.*1 -> blobs s' !! d = blobs s !! d)
  /\ (forall p, (forall d, d ∈ cs.*1 -> p <> path_for d) -> files s' !! p = files s !! p).
Proof.
  revert l. induction cs as [|[enc sz] cs IH]; intros l Hall; [done|]. apply Forall_cons in Hall as [Hd Hall]. simpl in Hd |- *.
  assert (forall l', blob_references (gl_store l') = blob_references (gl_store l) ->
    Forall (fun c => referenced c.1 (gl_store l') = false) cs) as Hnext.
  { intros l' E. eapply Forall_impl; [exact Hall|]. intros c. unfold referenced. by rewrite E. }
  destruct (BlobDigest_parse enc) as [d|] eqn:Ep.
  2:{ destruct (IH l (Hnext l eq_refl)) as (H1 & H2 & H3 & H4). split_and!; [done|done|..].
      - intros d Hd'. apply H3. set_solver.
      - intros p Hp. apply H4. set_solver. }
  apply BlobDigest_parse_ok in Ep as [-> Hv]. destruct (fails (GsUnlink enc)); [done|].
  assert (forall p, (forall d, d ∈ enc :: cs.*1 -> p <> path_for d) -> delete (path_for enc) (files (gl_store l)) !! p = files (gl_store l) !! p) as Hdel.
  { intros p Hp. apply lookup_delete_ne. intros <-. eapply Hp; [by left|done]. }
  destruct (fails (GsDelete enc)); simpl.
  { split_and!; [done|apply delete_subseteq|done|done]. }
  assert (referenced enc (set_files (delete (path_for enc)) (gl_store l)) = false) as Hd1 by exact Hd. rewrite Hd1.
  match goal with |- context [gc_candidates fails cs ?x] => set (l' := x) end.
  pose proof (delete_unreferenced enc (set_files (delete (path_for enc)) (gl_store l)) Hd) as Er.
  destruct (IH l' (Hnext l' Er)) as (H1 & H2 & H3 & H4). split_and!.
  - rewrite H1. exact Er.
  - etrans; [exact H2|]. simpl. apply delete_subseteq.
  - intros d Hd'. rewrite H3 by set_solver. simpl. apply lookup_delete_ne. set_solver.
  - intros p Hp. rewrite H4 by set_solver. by apply Hdel.
Qed.

Lemma candidates_unreferenced scan limit s :
  Forall (fun c => referenced c.1 s = false) (unreferenced_candidates scan limit s).
Proof.
  unfold unreferenced_candidates. apply Forall_fmap, Forall_take, Forall_forall. intros kv Hkv.
  rewrite sort_by_perm in Hkv. by apply list_elem_of_filter in Hkv as [? _].
Qed.

Lemma remove_dangling_lookup (f : gmap file_path bytes) ds s :
  files s = f ->
  let s' := foldl (fun s d => if row_dangles (files s) d then delete_blob d s else s) s ds in
  files s' = f
  /\ (forall d, blobs s' !! d = if decide (d ∈ ds /\ row_dangles f d = true) then None else blobs s !! d)
  /\ (forall k, blob_references s' !! k = if decide (ref_digest k ∈ ds /\ row_dangles f (ref_digest k) = true) then None
                                          else blob_references s !! k).
Proof.
  revert s. induction ds as [|d ds IH]; intros s Hf.
  { split_and!; [done|..]; intros ?; by rewrite decide_False by (by intros [?%not_elem_of_nil _]). }
  cbn [foldl]. rewrite Hf. destruct (row_dangles f d) eqn:Ed.
  - destruct (IH (delete_blob d s) Hf) as (H1 & H2 & H3). cbv zeta. split_and!; [done|..].
    + intros d'. rewrite H2. simpl. destruct (decide (d' = d)) as [->|Hne].
      * rewrite lookup_delete_eq. rewrite (decide_True (P := d ∈ d :: ds /\ _)) by (split; [by left|done]). by case_decide.
      * rewrite lookup_delete_ne by done. apply decide_ext. set_solver.
    + intros k. rewrite H3. simpl. destruct (decide (ref_digest k = d)) as [Ek|Hne].
      * rewrite (decide_True (P := _ ∈ d :: ds /\ _)) by (rewrite Ek; split; [by left|done]). case_decide; [done|].
        apply map_lookup_filter_None. right. intros e _ Hk. simpl in Hk. done.
      * rewrite (decide_ext (ref_digest k ∈ ds /\ _) (ref_digest k ∈ d :: ds /\ row_dangles f (ref_digest k) = true)) by set_solver.
        case_decide; [done|]. destruct (blob_references s !! k) as [e|] eqn:Ek.
        -- by apply map_lookup_filter_Some.
        -- apply map_lookup_filter_None. by left.
  - destruct (IH s Hf) as (H1 & H2 & H3). cbv zeta. split_and!; [done|..].
    + intros d'. rewrite H2. apply decide_ext. split; [set_solver|]. intros [[->|?]%elem_of_cons ?]; [congruence|done].
    + intros k. rewrite H3. apply decide_ext. split; [set_solver|]. intros [[Ek|?]%elem_of_cons ?]; [congruence|done].
Qed.

(** ** The store under every operation *)

(** One operation, with any of its steps failing. *)
Inductive blob_step (quota : Z) (s : BlobStore) : BlobStore -> Prop :=
| st_retain fails kind id ds e : blob_step quota s (retain fails kind id ds e s).2
| st_retain_per_owner fails kind es e : blob_step quota s (retain_per_owner fails kind es e s).2
| st_set_expiry fails kind id e : blob_step quota s (set_reference_expiry fails kind id e s).2
| st_clear_expiry fails kind id : blob_step quota s (clear_reference_expiry fails kind id s).2
| st_release fails kind id : blob_step quota s (release_references fails kind id s).2
| st_open_verified fails uuid now d : blob_step quota s (open_verified fails uuid now d s).2
| st_prepare fails qf uuid now d n : blob_step quota s (prepare_upload fails qf quota uuid now d n s).2
| st_put vf fails uuid now d n input :
    valid_digest d -> blob_step quota s (put_stream vf fails quota uuid now d n input s).2
| st_collect fails ref_scan scan now limit dry :
    ref_scan ≡ₚ map_to_list (blob_references s) -> scan ≡ₚ map_to_list (blobs s) ->
    blob_step quota s (garbage_collect fails ref_scan scan now limit dry s).2
| st_open : blob_step quota s (remove_stale_parts s).

(** The states of a store; [damage] says whether files may be lost or
    overwritten behind its back. *)
Inductive blob_reachable (quota : Z) (damage : bool) : BlobStore -> Prop :=
| br_empty : blob_reachable quota damage empty_store
| br_step s s' : blob_reachable quota damage s -> blob_step quota s s' -> blob_reachable quota damage s'
| br_damage s f : damage = true -> blob_reachable quota damage s -> blob_reachable quota damage (set_files f s).

Lemma retain_inv quota fails kind id ds e s : BlobInv quota s -> BlobInv quota (retain fails kind id ds e s).2.
Proof.
  intros HI. unfold retain. destruct (try_fold _ s ds) as [s'|] eqn:E; [|done]. destruct fails; [done|]. simpl.
  eapply (try_fold_inv (BlobInv quota)); [|exact HI|exact E]. intros s1 d s2 H1 H2. eapply retain_one_inv; [exact H1|exact H2].
Qed.

Lemma retain_per_owner_inv quota fails kind es e s : BlobInv quota s -> BlobInv quota (retain_per_owner fails kind es e s).2.
Proof.
  intros HI. unfold retain_per_owner. destruct es as [|x es]; [done|].
  destruct (try_fold _ s (x :: es)) as [s'|] eqn:E; [|done]. destruct fails; [done|]. simpl.
  eapply (try_fold_inv (BlobInv quota)); [|exact HI|exact E]. intros s1 d s2 H1 H2. eapply retain_one_inv; [exact H1|exact H2].
Qed.

Lemma blob_step_inv quota s s' : BlobInv quota s -> blob_step quota s s' -> BlobInv quota s'.
Proof.
  intros HI [fails kind id ds e|fails kind es e|fails kind id e|fails kind id|fails kind id|fails uuid now d|fails qf uuid now d n
    |vf fails uuid now d n input Hv|fails rs sc now limit dry Hr Hs|].
  - by apply retain_inv.
  - by apply retain_per_owner_inv.
  - destruct fails; [done|]. by apply update_expiry_inv.
  - destruct fails; [done|]. by apply update_expiry_inv.
  - destruct fails; [done|]. destruct (owned_references_ok kind id s). by apply delete_references_inv.
  - unfold open_verified. pose proof (verify_existing_inv quota fails uuid now d s HI) as Hv.
    by destruct (verify_existing _ _ _ _ _) as [[]].
  - unfold prepare_upload. destruct (_ <? n)%Z; [done|]. destruct (files s !! _).
    + pose proof (verify_existing_inv quota fails uuid now d s HI) as Hv. by destruct (verify_existing _ _ _ _ _) as [[]].
    + by destruct (query_used qf s).
  - by apply put_stream_inv.
  - by apply garbage_collect_inv.
  - by apply remove_stale_parts_inv.
Qed.

Lemma blob_reachable_inv (quota : Z) (damage : bool) (s : BlobStore) :
  (0 <= quota)%Z -> blob_reachable quota damage s -> BlobInv quota s.
Proof.
  intros Hq. induction 1 as [|s s' _ IH Hs|s f _ _ IH].
  - split; simpl; [intros d row Hd; by rewrite lookup_empty in Hd|intros k Hk; rewrite dom_empty in Hk; set_solver|done].
  - by eapply blob_step_inv.
  - by apply set_files_inv.
Qed.

(** C23: the metadata of the blob store stays consistent.  Whatever sequence of
    operations ran, whichever of their system calls and statements failed, and
    even if files were damaged or lost: every row has a well-formed digest, a
    size within the blob limit and a reference count equal to the number of
    its references, every reference names a row, and the recorded sizes stay
    within the quota. *)
Theorem blob_metadata_invariant (quota : Z) (damage : bool) (s : BlobStore) :
  (0 <= quota)%Z -> blob_reachable quota damage s -> BlobInv quota s.
Proof. apply blob_reachable_inv. Qed.

(** What is read back is what was stored under that digest.  Opening a
    blob answers contents only if they hash to the digest and have the
    recorded length, in any state of the files; contents that do not are moved
    to quarantine, their row and references are dropped and the reader is
    told; no other blob is touched. *)
Theorem open_verified_authentic (fails : VerifyStep -> bool) (uuid : string) (now : Z) (d : string) (s : BlobStore) :
  valid_digest d ->
  let '(r, s') := open_verified fails uuid now d s in
  match r with
  | Ok c => sha256_hex c = d /\ files s' = files s /\ files s !! path_for d = Some c
            /\ exists row, blobs s !! d = Some row /\ len c = as_u64 (size_bytes row)
  | Err BeCorruptExisting =>
      (exists c, files s !! path_for d = Some c /\ files s' !! ["quarantine"; d +:+ "-" +:+ uuid] = Some c)
      /\ files s' !! path_for d = None /\ blobs s' !! d = None /\ referenced d s' = false
  | Err _ => blob_references s' = blob_references s /\ blobs s' = blobs s
  end
  /\ forall d', d' <> d -> valid_digest d' -> files s' !! path_for d' = files s !! path_for d' /\ blobs s' !! d' = blobs s !! d'.
Proof.
  intros Hv. unfold open_verified, verify_existing. destruct (fails VsQuery); [done|].
  destruct (blobs s !! d) as [row|] eqn:Hrow; [|done]. destruct (files s !! path_for d) as [c|] eqn:Hc; [|done].
  destruct (fails VsRead); [done|]. destruct (corrupt d _ c) eqn:Ek.
  - destruct (fails VsQuarantine); [done|].
    assert (forall d', d' <> d -> valid_digest d' ->
      <["quarantine" :: [d +:+ "-" +:+ uuid] := c]> (delete (path_for d) (files s)) !! path_for d' = files s !! path_for d') as Hother.
    { intros d' Hne Hv'. rewrite lookup_insert_ne by (intros Hq; by eapply path_for_quarantine; [exact Hv'|rewrite <- Hq]).
      apply lookup_delete_ne. by intros ->%path_for_inj. }
    destruct (fails VsDelete); [split; [done|]; intros; split; [by apply Hother|done]|].
    split_and!.
    + exists c. split; [done|]. apply lookup_insert_eq.
    + simpl. rewrite lookup_insert_ne by (intros Hq; by eapply path_for_quarantine; [exact Hv|rewrite <- Hq]). apply lookup_delete_eq.
    + apply lookup_delete_eq.
    + apply not_true_iff_false. rewrite referenced_spec. intros (k & e & Hk & Hd). simpl in Hk.
      by apply map_lookup_filter_Some in Hk as [_ ?].
    + intros d' Hne Hv'. split; [by apply Hother|]. simpl. by rewrite lookup_delete_ne.
  - destruct (fails VsTouch); [done|]. simpl. rewrite Hc. simpl. unfold corrupt in Ek. bool_hyps.
    split; [by eauto 10|]. intros d' Hne _. by rewrite lookup_alter_ne.
Qed.

(** What a collection may do to a store: it keeps blobs with a live reference,
    takes at most [limit] rows, and unlinks content files of rows only. *)
Record collected (now : Z) (limit : nat) (s s' : BlobStore) : Prop := {
  co_live k e : blob_references s !! k = Some e -> expired now e = false ->
    blob_references s' !! k = Some e /\ files s' !! path_for (ref_digest k) = files s !! path_for (ref_digest k)
    /\ forall row, blobs s !! ref_digest k = Some row ->
         exists row', blobs s' !! ref_digest k = Some row' /\ size_bytes row' = size_bytes row;
  co_gone : exists gone : list string, length gone <= limit
    /\ forall d, d ∉ gone -> is_Some (blobs s !! d) -> is_Some (blobs s' !! d);
  co_files : files s' ⊆ files s;
  co_paths p : (forall d, is_Some (blobs s !! d) -> p <> path_for d) -> files s' !! p = files s !! p;
}.

Lemma collected_refl now limit s : collected now limit s s.
Proof. split; [by eauto 10| |done|done]. exists []. split; [simpl; lia|done]. Qed.

Lemma collected_rolled_back now limit s s' : collected now limit s s' -> collected now limit s (rolled_back s s').
Proof.
  intros [H1 H2 H3 H4]. split; simpl; [|exists []; split; [simpl; lia|done]|done|done].
  intros k e Hk He. destruct (H1 k e Hk He) as (_ & Hf & _). split_and!; [done|done|]. eauto.
Qed.

Lemma candidates_spec scan limit s :
  length (unreferenced_candidates scan limit s) <= limit
  /\ forall d, d ∈ (unreferenced_candidates scan limit s).*1 -> referenced d s = false /\ d ∈ scan.*1.
Proof.
  split; [unfold unreferenced_candidates; rewrite length_fmap, length_take; lia|].
  intros d Hd. apply list_elem_of_fmap in Hd as (c & -> & Hc). split.
  - pose proof (candidates_unreferenced scan limit s) as Hu. rewrite Forall_forall in Hu. by apply Hu.
  - unfold unreferenced_candidates in Hc. apply list_elem_of_fmap in Hc as (kv & -> & Hkv).
    apply elem_of_take in Hkv as (i & Hi & _). apply list_elem_of_lookup_2 in Hi. rewrite sort_by_perm in Hi.
    apply list_elem_of_filter in Hi as [_ Hi]. apply list_elem_of_fmap. by exists kv.
Qed.

Lemma gc_collected fails ref_scan scan now limit s :
  ref_scan ≡ₚ map_to_list (blob_references s) -> scan ≡ₚ map_to_list (blobs s) ->
  let s1 := delete_references (take limit (filter (fun kv => expired now kv.2 = true) ref_scan)).*1 s in
  collected now limit s
    (gl_store (gc_candidates fails (unreferenced_candidates scan limit s1) {| gl_store := s1; gl_blobs := 0; gl_bytes := 0 |}).1).
Proof.
  intros Hr Hs s1. destruct (dropped_ok now limit _ _ Hr) as (_ & _ & Hexp).
  set (l := {| gl_store := s1; gl_blobs := 0; gl_bytes := 0 |}). set (cs := unreferenced_candidates scan limit s1).
  destruct (gc_candidates_spec fails cs l (candidates_unreferenced scan limit s1)) as (Erefs & Hf & Hrow & Hp).
  destruct (candidates_spec scan limit s1) as [Hlen Hcs]. fold cs in Hlen, Hcs. simpl in Erefs, Hf, Hrow, Hp.
  pose proof (delete_references_rows (take limit (filter (fun kv => expired now kv.2 = true) ref_scan)).*1 s) as Hrows.
  fold s1 in Hrows. assert (files s1 = files s) as Ef by apply (Hrows EmptyString).
  split.
  - intros k e Hk He.
    assert (blob_references s1 !! k = Some e) as Hk1.
    { unfold s1. rewrite delete_references_lookup, decide_False; [done|]. intros Hin. by rewrite (Hexp k e Hk Hin) in He. }
    assert (ref_digest k ∉ cs.*1) as Hnc.
    { intros Hin. apply Hcs in Hin as [Hin _]. enough (referenced (ref_digest k) s1 = true) by congruence.
      apply referenced_spec. eauto. }
    split_and!; [congruence| |].
    + rewrite Hp, Ef; [done|]. by intros d Hd <-%path_for_inj.
    + intros row Hk'. rewrite Hrow by done. destruct (proj1 (Hrows (ref_digest k)) row Hk') as (r' & ? & ? & _). eauto.
  - exists cs.*1. rewrite length_fmap. split; [done|]. intros d Hd [row Hd']. rewrite Hrow by done.
    destruct (proj1 (Hrows d) row Hd') as (r' & ? & _). by eexists.
  - by rewrite <- Ef.
  - intros p Hp'. rewrite Hp, Ef; [done|]. intros d Hd. apply Hp'. apply Hcs in Hd as [_ Hd].
    rewrite Hs in Hd. apply list_elem_of_fmap in Hd as ([d' row] & -> & Hd). apply elem_of_map_to_list in Hd. by eexists.
Qed.

Lemma garbage_collect_collected (fails : GcStep -> bool) (ref_scan : list (RefKey * option Z))
    (scan : list (string * BlobRow)) (now : Z) (limit : nat) (dry : bool) (s : BlobStore) :
  ref_scan ≡ₚ map_to_list (blob_references s) -> scan ≡ₚ map_to_list (blobs s) ->
  let s' := (garbage_collect fails ref_scan scan now limit dry s).2 in
  collected now limit s s' /\ (dry = true -> s' = s).
Proof.
  intros Hr Hs. unfold garbage_collect. cbv zeta. destruct (fails GsQuery); [by split; [apply collected_refl|]|].
  destruct dry; [destruct (fails GsCommit); by split; [apply collected_refl|]|]. split; [|done].
  pose proof (gc_collected fails ref_scan scan now limit s Hr Hs) as Hc. cbv zeta in Hc.
  destruct (gc_candidates _ _ _) as [l ending]. cbn [fst] in Hc.
  pose proof (collected_rolled_back _ _ _ _ Hc). by destruct ending, (fails GsCommit).
Qed.

(** C8: collection never takes a blob that is still referenced.  Whatever the
    order SQLite returns rows in and whatever fails, a blob with a reference
    that has not expired keeps its file, its row and that reference; a dry
    run changes nothing; at most [limit] rows go; and only content files of
    rows are unlinked. *)
Theorem collect_keeps_referenced (fails : GcStep -> bool) (ref_scan : list (RefKey * option Z))
    (scan : list (string * BlobRow)) (now : Z) (limit : nat) (dry : bool) (s : BlobStore) :
  ref_scan ≡ₚ map_to_list (blob_references s) -> scan ≡ₚ map_to_list (blobs s) ->
  let s' := (garbage_collect fails ref_scan scan now limit dry s).2 in
  collected now limit s s' /\ (dry = true -> s' = s).
Proof. apply garbage_collect_collected. Qed.

(** A blob collection at a time before [e]. *)
Inductive collects_before (e : Z) (b : BlobStore) : BlobStore -> Prop :=
| cb_collect gc_fails ref_scan scan now limit dry :
    (as_i64 now < e)%Z -> ref_scan ≡ₚ map_to_list (blob_references b) -> scan ≡ₚ map_to_list (blobs b) ->
    collects_before e b (garbage_collect gc_fails ref_scan scan now limit dry b).2.

(** A pinned blob keeps its pin, its size and its content. *)
Lemma collects_before_pinned e k b b' :
  rtc (collects_before e) b b' -> blob_references b !! k = Some (Some e) -> is_Some (blobs b !! ref_digest k) ->
  blob_references b' !! k = Some (Some e) /\ size_bytes <$> blobs b' !! ref_digest k = size_bytes <$> blobs b !! ref_digest k
  /\ files b' !! path_for (ref_digest k) = files b !! path_for (ref_digest k).
Proof.
  induction 1 as [b|b b1 b2 Hs _ IH]; intros Hk Hr; [done|]. destruct Hs as [gf rs sc now limit dry Hn Hrs Hsc].
  destruct (garbage_collect_collected gf rs sc now limit dry b Hrs Hsc) as [[Hlive _ _ _] _].
  set (b1 := (garbage_collect gf rs sc now limit dry b).2) in *.
  destruct (Hlive k (Some e) Hk) as (Hk1 & Hf1 & Hs1); [simpl; apply Z.leb_gt; lia|].
  destruct Hr as [row Hrow]. destruct (Hs1 row Hrow) as (row1 & Hrow1 & Hsz).
  destruct IH as (Hk2 & Hs2 & Hf2); [done|by eexists|]. split; [done|]. rewrite Hs2, Hf2, Hrow, Hrow1. simpl. by rewrite Hsz.
Qed.

Lemma retain_one_files kind id d e s s' : retain_one kind id d e s = Ok s' -> files s' = files s.
Proof.
  unfold retain_one. intros Hr. destruct (blobs s !! d); [|done]. injection Hr as <-. by destruct (blob_references s !! _).
Qed.

Lemma try_fold_files {A} (f : BlobStore -> A -> result BlobError BlobStore) s l s' :
  (forall s a s', f s a = Ok s' -> files s' = files s) -> try_fold f s l = Ok s' -> files s' = files s.
Proof. intros Hf. apply (try_fold_inv (fun s1 => files s1 = files s)); [|done]. intros s1 a s2 H1 H2. apply Hf in H2. congruence. Qed.

Lemma remove_stale_parts_files s : files (remove_stale_parts s) ⊆ files s.
Proof.
  unfold remove_stale_parts. set (s1 := set_files _ s).
  destruct (remove_dangling_lookup (files s1) (elements (dom (blobs s1))) s1 eq_refl) as (Ef & _).
  cbn [set_files files]. rewrite Ef. etrans; apply map_filter_subseteq.
Qed.

Lemma blob_step_contents quota s s' : blob_step quota s s' -> contents_kept s s'.
Proof.
  intros [fails kind id ds e|fails kind es e|fails kind id e|fails kind id|fails kind id|fails uuid now d|fails qf uuid now d n
    |vf fails uuid now d n input Hv|fails rs sc now limit dry Hr Hs|].
  - apply contents_kept_files. unfold retain. destruct (try_fold _ s ds) as [s2|] eqn:E; [|done]. destruct fails; [done|]. simpl.
    rewrite (try_fold_files _ _ _ _ (fun s1 d s2 => retain_one_files kind id d e s1 s2) E). done.
  - apply contents_kept_files. unfold retain_per_owner. destruct es as [|x es]; [done|].
    destruct (try_fold _ s (x :: es)) as [s2|] eqn:E; [|done]. destruct fails; [done|]. simpl.
    rewrite (try_fold_files _ _ _ _ (fun s1 (p : string * string) s2 => retain_one_files kind p.1 p.2 e s1 s2) E). done.
  - apply contents_kept_files. by destruct fails.
  - apply contents_kept_files. by destruct fails.
  - apply contents_kept_files. unfold release_references. destruct fails; [done|]. cbn [snd].
    by rewrite (proj2 (proj2 (delete_references_rows (owned_references kind id s) s EmptyString))).
  - unfold open_verified. pose proof (verify_existing_contents fails uuid now d s) as Hv. by destruct (verify_existing _ _ _ _ _) as [[]].
  - unfold prepare_upload. destruct (_ <? n)%Z; [by apply contents_kept_files|]. destruct (files s !! _).
    + pose proof (verify_existing_contents fails uuid now d s) as Hv. by destruct (verify_existing _ _ _ _ _) as [[]].
    + by destruct (query_used qf s); apply contents_kept_files.
  - apply put_stream_contents.
  - apply contents_kept_files, (co_files now limit). by apply garbage_collect_collected.
  - apply contents_kept_files, remove_stale_parts_files.
Qed.

Lemma reachable_contents quota s :
  blob_reachable quota false s -> forall d c, valid_digest d -> files s !! path_for d = Some c -> sha256_hex c = d.
Proof.
  intros Hr. remember false as damage eqn:Hd. induction Hr as [|s s' _ IH Hs|s f Hdam _ _]; intros d c Hv Hc.
  - simpl in Hc. by rewrite lookup_empty in Hc.
  - destruct (blob_step_contents _ _ _ Hs d c Hv Hc) as [Hc'|]; [|done]. by apply IH.
  - congruence.
Qed.

(** Opening, one path and one row at a time. *)
Lemma remove_stale_parts_spec s :
  let s' := remove_stale_parts s in
  (forall p, files s' !! p = if stale_part p || stray_file (dom (blobs s)) p then None else files s !! p)
  /\ (forall d, blobs s' !! d = if row_dangles (files s) d then None else blobs s !! d)
  /\ (forall k, ref_digest k ∈ dom (blobs s) -> row_dangles (files s) (ref_digest k) = false ->
        blob_references s' !! k = blob_references s !! k).
Proof.
  intros s'. unfold s', remove_stale_parts. clear s'. set (s1 := set_files _ s).
  destruct (remove_dangling_lookup (files s1) (elements (dom (blobs s1))) s1 eq_refl) as (Ef & Hb & Hk).
  assert (forall d, row_dangles (files s1) d = row_dangles (files s) d) as Edang.
  { intros d. unfold row_dangles. do 3 f_equal. unfold s1. simpl. destruct (files s !! path_for d) as [c|] eqn:Ec.
    - by eapply map_lookup_filter_Some.
    - apply map_lookup_filter_None. by left. }
  set (s2 := foldl _ s1 _) in *. split_and!.
  - intros p. cbn [set_files files]. rewrite Ef. change (blobs s1) with (blobs s).
    change (files s1) with (filter (fun kv => stale_part kv.1 = false) (files s)). rewrite map_filter_filter. destruct (stale_part p || _) eqn:E.
    + apply map_lookup_filter_None. right. intros c _ [H1 H2]. simpl in *. by rewrite H1, H2 in E.
    + apply orb_false_iff in E as [E1 E2]. destruct (files s !! p) as [c|] eqn:Ec.
      * by apply map_lookup_filter_Some.
      * apply map_lookup_filter_None. by left.
  - intros d. cbn [set_files blobs]. rewrite Hb, Edang. destruct (row_dangles _ d) eqn:E.
    + case_decide as Hd; [done|]. destruct (blobs s1 !! d) eqn:Ed; [|done]. exfalso. apply Hd. split; [|done].
      apply elem_of_elements, elem_of_dom. by eexists.
    + by rewrite decide_False by (by intros [_ ?]).
  - intros k Hin Hd. cbn [set_files blob_references]. rewrite Hk, Edang, Hd. by rewrite decide_False by (by intros [_ ?]).
Qed.

Lemma stray_digest known d : valid_digest d -> stray_file known (path_for d) = bool_decide (d ∉ known).
Proof.
  intros Hv. unfold stray_file, path_for. rewrite (proj2 (BlobDigest_parse_ok d d) (conj eq_refl Hv)).
  destruct (String.eqb_spec (str_take 2 d) "quarantine") as [Hq|_]; [|done].
  exfalso. apply (path_for_quarantine d d Hv). unfold path_for. by rewrite Hq.
Qed.

Lemma row_dangles_valid f d : row_dangles f d = false <-> valid_digest d /\ is_Some (f !! path_for d).
Proof.
  unfold row_dangles. rewrite orb_false_iff, !negb_false_iff, is_some_spec. rewrite is_ok_spec. split.
  - intros [[a Ha%BlobDigest_parse_ok] ?]. naive_solver.
  - intros [Hv ?]. split; [|done]. exists d. by apply BlobDigest_parse_ok.
Qed.

(** Reopening repairs the store after a crash.  From any state operations
    can leave behind, interrupted at any of their steps, opening the store
    makes rows and content files agree exactly, every content file hashes to
    its name, no partial upload is left, and no blob that had both its row and
    its file is lost, with its references. *)
Theorem open_reconciles (quota : Z) (s : BlobStore) :
  blob_reachable quota false s ->
  let s' := remove_stale_parts s in
  (forall d, is_Some (blobs s' !! d) <-> valid_digest d /\ is_Some (files s' !! path_for d))
  /\ (forall d c, valid_digest d -> files s' !! path_for d = Some c -> sha256_hex c = d)
  /\ (forall name, starts_with ".part-" name = true -> files s' !! [name] = None)
  /\ (forall d row c, valid_digest d -> blobs s !! d = Some row -> files s !! path_for d = Some c ->
        blobs s' !! d = Some row /\ files s' !! path_for d = Some c
        /\ forall k, ref_digest k = d -> blob_references s' !! k = blob_references s !! k).
Proof.
  intros Hr s'. destruct (remove_stale_parts_spec s) as (Hf & Hb & Hk). fold s' in Hf, Hb, Hk.
  assert (forall d, valid_digest d -> files s' !! path_for d = if bool_decide (d ∉ dom (blobs s)) then None else files s !! path_for d) as Hf'.
  { intros d Hv. by rewrite Hf, stray_digest. }
  split_and!.
  - intros d. rewrite Hb. destruct (row_dangles (files s) d) eqn:E.
    + split; [by intros [? ?]|]. intros [Hv Hd]. rewrite Hf' in Hd by done. case_bool_decide; [by destruct Hd|].
      enough (row_dangles (files s) d = false) by congruence. by apply row_dangles_valid.
    + apply row_dangles_valid in E as [Hv Hd]. split.
      * intros Hrow. split; [done|]. rewrite Hf' by done. rewrite bool_decide_eq_false_2; [done|].
        intros Hn. by apply Hn, elem_of_dom.
      * intros [_ Hd']. rewrite Hf' in Hd' by done. case_bool_decide as Hn; [by destruct Hd'|]. by apply elem_of_dom.
  - intros d c Hv Hc. rewrite Hf' in Hc by done. case_bool_decide; [done|]. by eapply reachable_contents.
  - intros name Hn. rewrite Hf. simpl. by rewrite Hn.
  - intros d row c Hv Hrow Hc. assert (row_dangles (files s) d = false) as E by (by apply row_dangles_valid; eauto).
    assert (d ∈ dom (blobs s)) as Hd by (by apply elem_of_dom). split_and!.
    + by rewrite Hb, E.
    + rewrite Hf' by done. by rewrite bool_decide_eq_false_2 by (by intros ?).
    + intros k <-. by apply Hk.
Qed.
(** The loop over the body: it ends well exactly when every chunk came and
    their sum is within the declared length. *)
Lemma receive_complete n input : (n <= MAX_BLOB_BYTES)%Z -> forall fails i written content,
  receive fails i n written input = (content, Ok tt) ->
  exists chunks, input = map Some chunks /\ content = written ++ concat chunks.
Proof.
  intros Hn. induction input as [|[chunk|] input IH]; intros fails i written content; cbn [receive].
  - intros [= <-]. exists []. by rewrite app_nil_r.
  - destruct (_ <? _)%Z; [done|]. destruct (_ || _); [done|]. destruct (fails i); [done|].
    intros (chunks & -> & ->)%IH. exists (chunk :: chunks). by rewrite <- app_assoc.
  - done.
Qed.

Lemma receive_all n chunks : (n <= MAX_BLOB_BYTES)%Z -> forall i written, (len (written ++ concat chunks) <= n)%Z ->
  receive (fun _ => false) i n written (map Some chunks) = (written ++ concat chunks, Ok tt).
Proof.
  intros Hn. induction chunks as [|chunk chunks IH]; intros i written Hl; cbn [receive map].
  - by rewrite app_nil_r.
  - simpl in Hl. unfold len in *. rewrite !length_app in Hl. unfold MAX_BLOB_BYTES, U64_MAX in *.
    rewrite (proj2 (Z.ltb_ge _ _)) by lia. rewrite !(proj2 (Z.ltb_ge _ _)) by lia. simpl.
    rewrite IH; [by rewrite <- app_assoc|]. rewrite !length_app. lia.
Qed.

(** A store that holds one more blob. *)
Definition stored (now : Z) (digest : string) (content : bytes) (s : BlobStore) : BlobStore :=
  {| blobs := <[digest := {| size_bytes := len content; reference_count := 0; last_used_unix_ms := now |}]> (blobs s);
     blob_references := blob_references s; files := <[path_for digest := content]> (files s) |}.

Lemma put_cleanup_restores fails uuid d p c s :
  fails PsRemovePart = false -> fails PsCheckRow = false -> fails PsRemoveTarget = false ->
  files s !! path_for d = None -> files s !! part_path uuid = None -> blobs s !! d = None ->
  p = part_path uuid \/ p = path_for d -> put_cleanup fails uuid d (set_files <[p := c]> s) = s.
Proof.
  intros Fp Fc Ft Hf Hp Hb Hor. unfold put_cleanup. rewrite Fp, Fc, Ft. destruct s as [b r f]. unfold set_files. cbn [files blobs blob_references] in *.
  destruct Hor as [->| ->].
  - rewrite delete_insert_id by done. by rewrite Hf.
  - rewrite lookup_delete_ne by done. rewrite lookup_insert_eq, Hb. cbn [files blobs blob_references]. rewrite delete_delete, delete_insert_id by done.
    by rewrite delete_id.
Qed.

Lemma moved_part d uuid content s : files s !! part_path uuid = None ->
  set_files (fun f => <[path_for d := content]> (delete (part_path uuid) f)) (set_files <[part_path uuid := content]> s)
  = set_files <[path_for d := content]> s.
Proof. intros Hp. destruct s. unfold set_files. simpl in *. by rewrite delete_insert_id. Qed.

Lemma put_stream_accepts quota uuid now d n chunks s :
  files s !! path_for d = None -> files s !! part_path uuid = None -> blobs s !! d = None ->
  (n <= MAX_BLOB_BYTES)%Z -> (used_bytes s <= I64_MAX)%Z -> over_quota quota (used_bytes s) n = false ->
  len (concat chunks) = n -> sha256_hex (concat chunks) = d ->
  put_stream (fun _ => false) (fun _ => false) quota uuid now d n (map Some chunks) s = (Ok tt, stored now d (concat chunks) s).
Proof.
  intros Hf Hp Hb Hn Hu Hq Hl Hh. unfold put_stream, query_used. rewrite !(proj2 (Z.ltb_ge _ _)) by done. rewrite Hf, Hp. simpl.
  rewrite Hq. unfold put_body. rewrite receive_all by (simpl; lia). cbn [app].
  rewrite Hl, Z.eqb_refl, Hh, String.eqb_refl. cbn [negb]. rewrite moved_part by done. simpl. rewrite Hb. unfold stored. by rewrite Hl.
Qed.

(** C22: an upload is all or nothing.  For a digest that is not stored, under
    any body and any failures outside the cleanup, [put_stream] either leaves
    the store as it was, or every chunk of the body arrived, the body has the
    declared length and the digest, and the store holds exactly that blob
    more.  Without failures it does accept such a body, however it is cut into
    chunks, and [open_verified] then returns it. *)
Theorem upload_all_or_nothing (quota : Z) (uuid : string) (now : Z) (d : string) (n : Z) (s : BlobStore) :
  files s !! path_for d = None -> files s !! part_path uuid = None -> blobs s !! d = None ->
  (forall vfails fails input, fails PsRemovePart = false -> fails PsCheckRow = false -> fails PsRemoveTarget = false ->
     match put_stream vfails fails quota uuid now d n input s with
     | (Ok _, s') => exists chunks, input = map Some chunks /\ len (concat chunks) = n /\ sha256_hex (concat chunks) = d
                                  /\ s' = stored now d (concat chunks) s
     | (Err _, s') => s' = s
     end)
  /\ (forall chunks, (n <= MAX_BLOB_BYTES)%Z -> (used_bytes s <= I64_MAX)%Z -> over_quota quota (used_bytes s) n = false ->
       len (concat chunks) = n -> sha256_hex (concat chunks) = d ->
       let '(r, s') := put_stream (fun _ => false) (fun _ => false) quota uuid now d n (map Some chunks) s in
       r = Ok tt /\ (open_verified (fun _ => false) uuid now d s').1 = Ok (concat chunks)).
Proof.
  intros Hf Hp Hb. split.
  - intros vfails fails input Fp Fc Ft. unfold put_stream. destruct (_ <? n)%Z eqn:En; [done|]. rewrite Hf, Hp.
    apply Z.ltb_ge in En. destruct (query_used _ s) as [used|]; [|done]. destruct (over_quota _ _ _); [done|].
    destruct (fails PsDirectory); [done|]. destruct (fails PsCreate); [done|]. simpl. unfold put_body.
    destruct (receive _ 0 n [] input) as [content [[]|e]] eqn:Er; [|by apply put_cleanup_restores; auto].
    destruct (Z.eqb_spec (len content) n) as [El|]; [simpl|by apply put_cleanup_restores; auto].
    destruct (String.eqb_spec (sha256_hex content) d) as [Eh|]; [simpl|by apply put_cleanup_restores; auto].
    destruct (fails PsSync); [by apply put_cleanup_restores; auto|].
    destruct (fails PsRename); [by apply put_cleanup_restores; auto|].
    rewrite moved_part by done. destruct (fails PsSyncDirectory); [by apply put_cleanup_restores; auto|].
    cbn [set_files blobs]. rewrite Hb. destruct (fails PsInsert); [by apply put_cleanup_restores; auto|].
    apply receive_complete in Er as (chunks & -> & ->); [|done]. by exists chunks.
  - intros chunks Hn Hu Hq Hl Hh. rewrite put_stream_accepts by done. split; [done|]. unfold open_verified, verify_existing. simpl.
    rewrite !lookup_insert_eq. unfold corrupt. simpl. rewrite as_u64_nonneg by (unfold len; lia).
    rewrite Z.eqb_refl, Hh, String.eqb_refl. simpl. by rewrite lookup_insert_eq.
Qed.
(** ** What callers rely on *)

(** The changes of a successful verification: only last uses move. *)
Record touched (b b' : BlobStore) : Prop := {
  tch_files : files b' = files b;
  tch_references : blob_references b' = blob_references b;
  tch_sizes d : size_bytes <$> blobs b' !! d = size_bytes <$> blobs b !! d;
}.

#[export] Instance touched_preorder : PreOrder touched.
Proof.
  split; [by split|]. intros b1 b2 b3 [F1 R1 S1] [F2 R2 S2]. split; [congruence..|]. intros d. by rewrite S2.
Qed.

Lemma verify_existing_Ok fails uuid now d b b' :
  verify_existing fails uuid now d b = (Ok tt, b') ->
  touched b b' /\ exists row content, blobs b !! d = Some row /\ files b !! path_for d = Some content
                    /\ corrupt d (size_bytes row) content = false.
Proof.
  unfold verify_existing. destruct (fails VsQuery); [done|]. destruct (blobs b !! d) as [row|] eqn:Er; [|done].
  destruct (files b !! path_for d) as [c|] eqn:Ec; [|done]. destruct (fails VsRead); [done|].
  destruct (corrupt _ _ _) eqn:Eq; [by destruct (fails VsQuarantine), (fails VsDelete)|].
  destruct (fails VsTouch); [done|]. intros [= <-]. split; [|by eauto]. split; simpl; [done..|].
  intros d'. destruct (decide (d = d')) as [<-|]; [by rewrite lookup_alter_eq, Er|by rewrite lookup_alter_ne].
Qed.

(** What [retain] promises. *)
Record retained (kind id : string) (ds : list string) (expires : option Z) (b b' : BlobStore) : Prop := {
  ret_files : files b' = files b;
  ret_sizes d : size_bytes <$> blobs b' !! d = size_bytes <$> blobs b !! d;
  ret_rows d : d ∈ ds -> is_Some (blobs b !! d);
  ret_pins d : d ∈ ds -> blob_references b' !! {| owner_kind := kind; owner_id := id; ref_digest := d |} = Some (as_i64 <$> expires);
  ret_others k : ~ (owned_by kind id k /\ ref_digest k ∈ ds) -> blob_references b' !! k = blob_references b !! k;
}.

Lemma retain_one_sizes kind id d e b b' :
  retain_one kind id d e b = Ok b' -> retained kind id [d] e b b'.
Proof.
  unfold retain_one. destruct (blobs b !! d) as [row|] eqn:Ed; [|done]. intros [= <-]. set (k := {| owner_kind := kind |}).
  assert (forall k', ~ (owned_by kind id k' /\ ref_digest k' ∈ [d]) -> k <> k') as Hne.
  { intros k' Hk' <-. apply Hk'. unfold k, owned_by. simpl. set_solver. }
  destruct (blob_references b !! k) eqn:Ek; split; try done; simpl.
  - intros d' ->%list_elem_of_singleton. by eexists.
  - intros d' ->%list_elem_of_singleton. apply lookup_insert_eq.
  - intros k' Hk'. by rewrite lookup_insert_ne by auto.
  - intros d'. destruct (decide (d = d')) as [<-|]; [rewrite lookup_alter_eq, Ed; done|by rewrite lookup_alter_ne].
  - intros d' ->%list_elem_of_singleton. by eexists.
  - intros d' ->%list_elem_of_singleton. apply lookup_insert_eq.
  - intros k' Hk'. by rewrite lookup_insert_ne by auto.
Qed.

Lemma retain_fold kind id ds e b b' :
  try_fold (fun b d => retain_one kind id d e b) b ds = Ok b' -> retained kind id ds e b b'.
Proof.
  revert b. induction ds as [|d ds IH]; intros b; simpl.
  - intros [= <-]. split; try done; by intros d ?%not_elem_of_nil.
  - destruct (retain_one kind id d e b) as [b1|] eqn:E1; [|done]. intros [F2 S2 W2 P2 O2]%IH.
    apply retain_one_sizes in E1 as [F1 S1 W1 P1 O1]. split.
    + congruence.
    + intros d'. by rewrite S2.
    + intros d' [->|Hd]%elem_of_cons; [apply W1; set_solver|]. apply W2 in Hd. specialize (S1 d').
      destruct Hd as [r Hr]. rewrite Hr in S1. destruct (blobs b !! d'); [by eexists|done].
    + intros d' Hd. destruct (decide (d' ∈ ds)) as [Hin|Hin]; [by apply P2|].
      apply elem_of_cons in Hd as [->|?]; [|done]. rewrite O2; [apply P1; set_solver|]. by intros [_ ?].
    + intros k Hk. rewrite O2, O1; [done|..]; intros [??]; apply Hk; set_solver.
Qed.

Lemma retain_retained fails kind id ds e b b' : retain fails kind id ds e b = (Ok tt, b') -> retained kind id ds e b b'.
Proof. unfold retain. destruct (try_fold _ b ds) eqn:E; [|done]. destruct fails; [done|]. intros [= <-]. by apply retain_fold. Qed.

Lemma retain_Err fails kind id ds e b x b' : retain fails kind id ds e b = (Err x, b') -> b' = b.
Proof. unfold retain. destruct (try_fold _ b ds); [destruct fails|]; by intros [= _ <-]. Qed.

Lemma retain_files fails kind id ds e b : files (retain fails kind id ds e b).2 = files b.
Proof.
  unfold retain. destruct (try_fold _ b ds) eqn:E; [|done]. destruct fails; [done|]. by apply retain_fold in E as [].
Qed.

(** [retain] fails only for a digest without a row. *)
Lemma retain_total kind id ds e b : (forall d, d ∈ ds -> is_Some (blobs b !! d)) -> exists b', retain false kind id ds e b = (Ok tt, b').
Proof.
  intros Hd. unfold retain. enough (exists b', try_fold (fun b d => retain_one kind id d e b) b ds = Ok b') as [b' ->] by eauto.
  revert b Hd. induction ds as [|d ds IH]; intros b Hd; simpl; [by eexists|].
  destruct (retain_one kind id d e b) as [b1|] eqn:E1.
  - apply IH. intros d' Hd'. apply retain_one_sizes in E1 as [_ S1 _ _ _]. specialize (S1 d').
    destruct (Hd d' ltac:(set_solver)) as [r Hr]. rewrite Hr in S1. destruct (blobs b1 !! d'); [by eexists|done].
  - unfold retain_one in E1. destruct (Hd d ltac:(set_solver)) as [r Hr]. by rewrite Hr in E1.
Qed.

Lemma release_files fails kind id b : files (release_references fails kind id b).2 = files b.
Proof. unfold release_references. destruct fails; [done|]. apply (delete_references_rows _ _ EmptyString). Qed.

(** A blob whose content is there and authentic. *)
Definition holds (s : BlobStore) (d : string) : Prop :=
  exists content row, files s !! path_for d = Some content /\ sha256_hex content = d
    /\ blobs s !! d = Some row /\ len content = as_u64 (size_bytes row).

Lemma holds_not_corrupt s d content row :
  files s !! path_for d = Some content -> blobs s !! d = Some row -> corrupt d (size_bytes row) content = false -> holds s d.
Proof.
  intros Hf Hr Hc. unfold corrupt in Hc. apply orb_false_iff in Hc as [Hl Hh]. apply negb_false_iff in Hl, Hh.
  exists content, row. split; [done|]. split; [by apply String.eqb_eq|]. split; [done|by apply Z.eqb_eq].
Qed.

Lemma holds_touched s s' d : touched s s' -> holds s d -> holds s' d.
Proof.
  intros [F _ S] (c & row & Hc & Hh & Hr & Hl). specialize (S d). rewrite Hr in S. destruct (blobs s' !! d) as [row'|] eqn:E; [|done].
  injection S as S. exists c, row'. rewrite F. by rewrite S.
Qed.

Lemma put_body_Ok fails uuid now d n input s s' :
  put_body fails uuid now d n input s = (Ok tt, s') -> holds s' d /\ forall d', d' <> d -> holds s d' -> holds s' d'.
Proof.
  unfold put_body. destruct (receive _ _ _ _ _) as [content [[]|]]; [|done].
  destruct (len content =? n)%Z; [cbn [negb]|done]. destruct (String.eqb_spec (sha256_hex content) d) as [Hh|]; [cbn [negb]|done].
  destruct (fails PsSync); [done|]. destruct (fails PsRename); [done|]. destruct (fails PsSyncDirectory); [done|].
  destruct (blobs _ !! d) eqn:Eb; [done|]. destruct (fails PsInsert); [done|]. intros [= <-]. split.
  - exists content. eexists. cbn [set_blobs set_files files blobs]. rewrite !lookup_insert_eq. split; [done|]. split; [done|]. split; [done|].
    simpl. rewrite as_u64_nonneg; [done|]. unfold len. lia.
  - intros d' Hne (c & row & Hc & Hh' & Hr & Hl). exists c, row. cbn [set_blobs set_files files blobs].
    rewrite lookup_insert_ne by (intros E%path_for_inj; congruence). rewrite lookup_delete_ne, lookup_insert_ne by (by intros E%eq_sym%path_for_part).
    by rewrite lookup_insert_ne by done.
Qed.

(** A successful upload holds its blob and loses no other. *)
Lemma put_stream_Ok vfails fails quota uuid now d n input s s' :
  put_stream vfails fails quota uuid now d n input s = (Ok tt, s') -> holds s' d /\ forall d', holds s d' -> holds s' d'.
Proof.
  unfold put_stream. destruct (_ <? n)%Z; [done|]. destruct (files s !! path_for d) as [c|] eqn:Ef.
  - intros (Ht & row & content & Hr & Hc & Hq)%verify_existing_Ok. split; [|intros d'; by apply holds_touched].
    eapply holds_touched; [done|]. by eapply holds_not_corrupt.
  - destruct (query_used _ s); [|done]. destruct (over_quota _ _ _); [done|]. destruct (fails PsDirectory); [done|]. destruct (_ || _); [done|].
    destruct (put_body _ _ _ _ _ _ _) as [[[]|] s1] eqn:Eb; [|done]. intros [= <-]. apply put_body_Ok in Eb as [Hd Ho]. split; [done|].
    intros d' Hd'. destruct (decide (d' = d)) as [->|]; [done|auto].
Qed.

(** A held blob can be opened. *)
Lemma holds_opens s d uuid now : holds s d -> exists content, (open_verified (fun _ => false) uuid now d s).1 = Ok content /\ sha256_hex content = d.
Proof.
  intros (c & row & Hc & Hh & Hr & Hl). exists c. split; [|done]. unfold open_verified, verify_existing, corrupt. simpl.
  rewrite Hr, Hc, Hl, Z.eqb_refl, Hh, String.eqb_refl. simpl. by rewrite Hc.
Qed.

(** A pinned blob that is held stays held through collections before its pin
    expires. *)
Lemma collects_before_holds e k s s' :
  rtc (collects_before e) s s' -> blob_references s !! k = Some (Some e) -> holds s (ref_digest k) -> holds s' (ref_digest k).
Proof.
  intros Hgc Hk (c & row & Hc & Hh & Hr & Hl). destruct (collects_before_pinned e k s s' Hgc Hk) as (_ & Hs & Hf); [by eexists|].
  rewrite Hr in Hs. destruct (blobs s' !! ref_digest k) as [row'|] eqn:E; [|done]. injection Hs as Hs. exists c, row'. rewrite Hf. by rewrite Hs.
Qed.

Lemma holds_sizes s s' d :
  files s' = files s -> size_bytes <$> blobs s' !! d = size_bytes <$> blobs s !! d -> holds s d -> holds s' d.
Proof.
  intros F S (c & row & Hc & Hh & Hr & Hl). rewrite Hr in S. destruct (blobs s' !! d) as [row'|] eqn:E; [|done]. injection S as S.
  exists c, row'. rewrite F. by rewrite S.
Qed.

Lemma retain_entries_keep kind es e s s' k :
  try_fold (fun s (p : string * string) => retain_one kind p.1 p.2 e s) s es = Ok s' ->
  blob_references s !! k = Some (as_i64 <$> e) -> owner_kind k = kind -> blob_references s' !! k = Some (as_i64 <$> e).
Proof.
  revert s. induction es as [|[j d'] es IH]; intros s; cbn [try_fold]; [by intros [= <-]|]. cbn [fst snd].
  destruct (retain_one kind j d' e s) as [s2|] eqn:E2; [|done]. intros Hf Hk Hkind. apply (IH s2 Hf); [|done].
  apply retain_one_sizes in E2 as [_ _ _ P2 O2]. destruct (decide (owned_by kind j k /\ ref_digest k ∈ [d'])) as [[[_ Ej] Ed%list_elem_of_singleton]|Hn].
  - destruct k as [k1 k2 k3]. simpl in *. subst. apply P2. set_solver.
  - by rewrite O2.
Qed.

(** What [retain_per_owner] promises. *)
Lemma retain_per_owner_Ok fails kind es e s s' :
  retain_per_owner fails kind es e s = (Ok tt, s') ->
  (forall id d, (id, d) ∈ es -> blob_references s' !! {| owner_kind := kind; owner_id := id; ref_digest := d |} = Some (as_i64 <$> e))
  /\ (forall d, holds s d -> holds s' d).
Proof.
  unfold retain_per_owner. intros E. assert (try_fold (fun s (p : string * string) => retain_one kind p.1 p.2 e s) s es = Ok s') as Hf.
  { destruct es as [|p es]; [by injection E as <-|]. destruct (try_fold _ s (p :: es)); [|done]. destruct fails; [done|]. by injection E as <-. }
  clear E. revert s Hf. induction es as [|[i d] es IH]; intros s; cbn [try_fold].
  - intros [= <-]. split; [by intros i d ?%not_elem_of_nil|done].
  - cbn [fst snd]. destruct (retain_one kind i d e s) as [s1|] eqn:E1; [|done]. intros Hf. apply retain_one_sizes in E1 as [F1 S1 _ P1 _].
    destruct (IH s1 Hf) as [P H']. split.
    + intros i' d' [[= -> ->]|Hin]%elem_of_cons; [|by apply P]. eapply retain_entries_keep; [done| |done].
      apply P1. set_solver.
    + intros d' Hd'. apply H'. by eapply holds_sizes.
Qed.

(** ** A pinned blob among everything else *)

(** Nothing about a digest changes. *)
Record same_blob (d : string) (b b' : BlobStore) : Prop := {
  sb_row : blobs b' !! d = blobs b !! d;
  sb_file : files b' !! path_for d = files b !! path_for d;
  sb_references k : ref_digest k = d -> blob_references b' !! k = blob_references b !! k;
}.

#[export] Instance same_blob_preorder d : PreOrder (same_blob d).
Proof.
  split; [by split|]. intros b1 b2 b3 [R1 F1 K1] [R2 F2 K2]. split; [congruence..|]. intros k Hk. by rewrite K2, K1.
Qed.

(** An operation on the store by anyone but the owner of a reference that
    expires at [e]. *)
Inductive bystander_step (quota : Z) (kind id : string) (e : Z) (b : BlobStore) : BlobStore -> Prop :=
| by_retain fails kind' id' ds x : (kind', id') <> (kind, id) -> bystander_step quota kind id e b (retain fails kind' id' ds x b).2
| by_retain_per_owner fails kind' es x : kind' <> kind -> bystander_step quota kind id e b (retain_per_owner fails kind' es x b).2
| by_set_expiry fails kind' id' x :
    (kind', id') <> (kind, id) -> bystander_step quota kind id e b (set_reference_expiry fails kind' id' x b).2
| by_clear_expiry fails kind' id' :
    (kind', id') <> (kind, id) -> bystander_step quota kind id e b (clear_reference_expiry fails kind' id' b).2
| by_release fails kind' id' :
    (kind', id') <> (kind, id) -> bystander_step quota kind id e b (release_references fails kind' id' b).2
| by_open_verified fails uuid now d : bystander_step quota kind id e b (open_verified fails uuid now d b).2
| by_prepare fails qf uuid now d n : bystander_step quota kind id e b (prepare_upload fails qf quota uuid now d n b).2
| by_put vf fails uuid now d n input :
    valid_digest d -> bystander_step quota kind id e b (put_stream vf fails quota uuid now d n input b).2
| by_collect b' : collects_before e b b' -> bystander_step quota kind id e b b'.

Lemma holds_same d b b' : same_blob d b b' -> holds b d -> holds b' d.
Proof. intros [R F _] (c & row & Hc & Hh & Hr & Hl). exists c, row. by rewrite R, F. Qed.

Lemma holds_verified d fails uuid now d' b :
  valid_digest d -> holds b d -> same_blob d b (verify_existing fails uuid now d' b).2 \/ touched b (verify_existing fails uuid now d' b).2.
Proof.
  intros Hv Hd. destruct (verify_existing fails uuid now d' b) as [[[]|x] b'] eqn:E; [right; by apply verify_existing_Ok in E as [? _]|].
  left. unfold verify_existing in E. destruct (fails VsQuery); [by injection E as <- <-|].
  destruct (blobs b !! d') as [row'|] eqn:Er; [|by injection E as <- <-].
  destruct (files b !! path_for d') as [c'|] eqn:Ec; [|by injection E as <- <-]. destruct (fails VsRead); [by injection E as <- <-|].
  destruct (corrupt d' _ c') eqn:Eq; [|destruct (fails VsTouch); [by injection E as <- <-|done]].
  destruct (fails VsQuarantine); [by injection E as <- <-|]. assert (d' <> d) as Hne.
  { intros ->. destruct Hd as (c & row & Hc & Hh & Hr & Hl). rewrite Hc in Ec. rewrite Hr in Er.
    injection Ec as <-. injection Er as <-. unfold corrupt in Eq.
    by rewrite Hl, Z.eqb_refl, Hh, String.eqb_refl in Eq. }
  assert (same_blob d b (set_files (fun f => <["quarantine" :: [d' +:+ "-" +:+ uuid] := c']> (delete (path_for d') f)) b)) as Hs.
  { split; [done| |done]. simpl. rewrite lookup_insert_ne by (intros Eq'; symmetry in Eq'; by apply (path_for_quarantine d) in Eq').
    apply lookup_delete_ne. by intros ?%path_for_inj. }
  destruct (fails VsDelete); injection E as <- <-; [done|]. etrans; [exact Hs|]. split; simpl; [by apply lookup_delete_ne|done|].
  intros k <-. apply option_eq. intros y. rewrite map_lookup_filter_Some. naive_solver.
Qed.

Lemma verified_pinned d fails uuid now d' b k :
  valid_digest d -> holds b d -> ref_digest k = d ->
  let b' := (verify_existing fails uuid now d' b).2 in blob_references b' !! k = blob_references b !! k /\ holds b' d.
Proof.
  intros Hv Hd Hk. destruct (holds_verified d fails uuid now d' b Hv Hd) as [Hs|Ht].
  - split; [by apply Hs|by eapply holds_same].
  - split; [by rewrite (tch_references _ _ Ht)|by eapply holds_touched].
Qed.

(** An upload of a blob that has no file touches no other blob. *)
Lemma put_other d vf fails quota uuid now d' n input b :
  files b !! path_for d' = None -> d' <> d -> same_blob d b (put_stream vf fails quota uuid now d' n input b).2.
Proof.
  intros Hf Hne. unfold put_stream. destruct (_ <? n)%Z; [done|]. rewrite Hf. destruct (query_used _ _); [|done].
  destruct (over_quota _ _ _); [done|]. destruct (fails PsDirectory); [done|]. destruct (_ || _); [done|].
  assert (path_for d' <> path_for d) as Hp by (by intros ?%path_for_inj).
  assert (same_blob d b (put_body fails uuid now d' n input b).2) as Hb.
  { unfold put_body. destruct (receive _ _ _ _ _) as [c [[]|]]; [|by split; simpl; rewrite ?lookup_insert_ne].
    repeat (case_match; simpl); split; simpl; rewrite ?lookup_insert_ne, ?lookup_delete_ne, ?lookup_insert_ne; done. }
  destruct (put_body _ _ _ _ _ _ _) as [[|] b1]; [done|]. simpl in *. etrans; [exact Hb|]. unfold put_cleanup.
  destruct (fails PsRemovePart); simpl; repeat (case_match; simpl); split; simpl; rewrite ?lookup_delete_ne; done.
Qed.

Lemma retain_entries_others kind es x s s' k :
  try_fold (fun s (p : string * string) => retain_one kind p.1 p.2 x s) s es = Ok s' -> owner_kind k <> kind ->
  blob_references s' !! k = blob_references s !! k.
Proof.
  revert s. induction es as [|[j d'] es IH]; intros s; cbn [try_fold]; [by intros [= <-]|]. cbn [fst snd].
  destruct (retain_one kind j d' x s) as [s2|] eqn:E2; [|done]. intros Hf Hk. rewrite (IH s2 Hf Hk).
  apply retain_one_sizes in E2 as [_ _ _ _ O2]. apply O2. by intros [[? _] _].
Qed.

Lemma update_expiry_pinned kind id x b k e :
  (kind, id) <> (owner_kind k, owner_id k) -> blob_references b !! k = Some (Some e) -> holds b (ref_digest k) ->
  blob_references (update_expiry kind id x b) !! k = Some (Some e) /\ holds (update_expiry kind id x b) (ref_digest k).
Proof.
  intros Hne Hk Hd. split; [|exact Hd]. simpl. rewrite map_lookup_imap, Hk. simpl. rewrite decide_False; [done|].
  intros [? ?]. apply Hne. congruence.
Qed.

Lemma release_pinned kind id b k e :
  (kind, id) <> (owner_kind k, owner_id k) -> blob_references b !! k = Some (Some e) -> holds b (ref_digest k) ->
  let b' := delete_references (owned_references kind id b) b in
  blob_references b' !! k = Some (Some e) /\ holds b' (ref_digest k).
Proof.
  intros Hne Hk (c & row & Hc & Hh & Hr & Hl). destruct (delete_references_rows (owned_references kind id b) b (ref_digest k)) as (Hrow & _ & Hf).
  split.
  - rewrite delete_references_lookup, decide_False; [done|]. unfold owned_references.
    intros [[? ?] _]%list_elem_of_filter. apply Hne. congruence.
  - destruct (Hrow row Hr) as (row' & Hr' & Hs & _). exists c, row'. rewrite Hf. by rewrite Hs.
Qed.

(** A pinned blob keeps its pin and stays readable whatever the others do. *)
Lemma bystander_pinned quota k e b b' :
  bystander_step quota (owner_kind k) (owner_id k) e b b' -> valid_digest (ref_digest k) ->
  blob_references b !! k = Some (Some e) -> holds b (ref_digest k) ->
  blob_references b' !! k = Some (Some e) /\ holds b' (ref_digest k).
Proof.
  intros Hstep Hv Hk Hd. destruct Hstep as [fails kind' id' ds x Hne|fails kind' es x Hne|fails kind' id' x Hne|fails kind' id' Hne
    |fails kind' id' Hne|fails uuid now d|fails qf uuid now d n|vf fails uuid now d n input Hvd|b' Hc].
  - destruct (retain fails kind' id' ds x b) as [[[]|] b'] eqn:E; simpl.
    + apply retain_retained in E as [F S _ _ O]. split; [|by eapply holds_sizes].
      rewrite O; [done|]. intros [[? ?] _]. apply Hne. congruence.
    + apply retain_Err in E. by subst.
  - destruct (retain_per_owner fails kind' es x b) as [[[]|] b'] eqn:E; simpl.
    + split; [|by eapply retain_per_owner_Ok]. unfold retain_per_owner in E. destruct es as [|p es]; [by injection E as <-|].
      destruct (try_fold _ b (p :: es)) as [b1|] eqn:Ef; [|done]. destruct fails; [done|]. injection E as <-.
      by rewrite (retain_entries_others _ _ _ _ _ k Ef).
    + unfold retain_per_owner in E. destruct es as [|p es]; [done|].
      destruct (try_fold _ b (p :: es)); [destruct fails; [|done]|]; by injection E as <- <-.
  - unfold set_reference_expiry. destruct fails; [done|]. by apply update_expiry_pinned.
  - unfold clear_reference_expiry. destruct fails; [done|]. by apply update_expiry_pinned.
  - unfold release_references. destruct fails; [done|]. by apply release_pinned.
  - pose proof (verified_pinned _ fails uuid now d b k Hv Hd eq_refl) as Hp. unfold open_verified.
    destruct (verify_existing _ _ _ _ _) as [[|] b1]; by rewrite <- Hk.
  - pose proof (verified_pinned _ fails uuid now d b k Hv Hd eq_refl) as Hp. unfold prepare_upload. destruct (_ <? n)%Z; [done|].
    destruct (files b !! path_for d); [|by destruct (query_used _ _)]. destruct (verify_existing _ _ _ _ _) as [[|] b1]; by rewrite <- Hk.
  - destruct (files b !! path_for d) as [c|] eqn:Ef.
    + unfold put_stream. destruct (_ <? n)%Z; [done|]. rewrite Ef, <- Hk. by apply verified_pinned.
    + assert (same_blob (ref_digest k) b (put_stream vf fails quota uuid now d n input b).2) as Hs.
      { apply put_other; [done|]. intros ->. destruct Hd as (c & ? & Hc & _). by rewrite Hc in Ef. }
      split; [by rewrite (sb_references _ _ _ Hs)|by eapply holds_same].
  - split; [|by eapply collects_before_holds; [apply rtc_once|..]].
    destruct Hd as (c & row & _ & _ & Hr & _). by eapply collects_before_pinned; [apply rtc_once|..].
Qed.
End steps.

(** ** Witnesses *)

(** An upload of three bytes in two chunks, under a digest function whose
    values are zeros. *)
Definition w_input : list bytes := [[Byte.x01]; [Byte.x02; Byte.x03]].
Definition w_uploaded : BlobStore := stored 7 zeros (concat w_input) empty_store.
Definition w_held : BlobStore := insert_reference {| owner_kind := "workspace"; owner_id := "w"; ref_digest := zeros |} None w_uploaded.

Lemma zeros_valid : valid_digest zeros.
Proof. by apply (BlobDigest_parse_ok zeros zeros). Qed.

Lemma w_upload_reachable : blob_reachable (H := zero_sha256) 10 false w_uploaded.
Proof.
  pose proof (put_stream_accepts (H := zero_sha256) 10 "u" 7 zeros 3 w_input empty_store) as E.
  replace w_uploaded with (put_stream (H := zero_sha256) (fun _ => false) (fun _ => false) 10 "u" 7 zeros 3 (map Some w_input) empty_store).2
    by (by rewrite E).
  eapply br_step; [apply br_empty|]. apply st_put, zeros_valid.
Defined.

Lemma blob_metadata_invariant_witness : BlobInv 10 w_uploaded.
Proof. apply (blob_metadata_invariant (H := zero_sha256) 10 false); [lia|apply w_upload_reachable]. Defined.

Lemma open_verified_authentic_witness :
  let '(r, s) := open_verified (H := zero_sha256) (fun _ => false) "u" 8 zeros w_uploaded in
  match r with Ok c => c = concat w_input /\ zero_sha256 c = zeros | Err _ => False end.
Proof.
  split; [done|].
  apply (open_verified_authentic (H := zero_sha256) (fun _ => false) "u" 8 zeros w_uploaded), zeros_valid.
Defined.

(** A collection long after every expiry takes the unreferenced blob but not
    the referenced one. *)
Lemma collect_keeps_referenced_witness :
  collected 1000 10 w_held (garbage_collect (fun _ => false) (map_to_list (blob_references w_held)) (map_to_list (blobs w_held)) 1000 10 false w_held).2
  /\ (garbage_collect (fun _ => false) [] (map_to_list (blobs w_uploaded)) 1000 10 false w_uploaded).2 = empty_store.
Proof. split; [|by vm_compute]. by apply collect_keeps_referenced. Defined.

Lemma open_reconciles_witness : blobs (remove_stale_parts w_uploaded) !! zeros = blobs w_uploaded !! zeros.
Proof.
  by apply (open_reconciles (H := zero_sha256) 10 w_uploaded w_upload_reachable) with (c := concat w_input); [apply zeros_valid|..].
Defined.

Lemma upload_all_or_nothing_witness :
  let '(r, s) := put_stream (H := zero_sha256) (fun _ => false) (fun _ => false) 10 "u" 7 zeros 3 (map Some w_input) empty_store in
  r = Ok tt /\ (open_verified (H := zero_sha256) (fun _ => false) "u" 7 zeros s).1 = Ok (concat w_input).
Proof. by apply (upload_all_or_nothing (H := zero_sha256) 10 "u" 7 zeros 3 empty_store). Defined.
