(* ===== verification/Workspace.v ===== *)
(** * Workspaces

    [eggwork-server/src/workspace.rs]: execution-owned file trees built from
    manifests and the blob store, the cache of manifests that patches start
    from, retention, garbage collection and reconciliation at start.

    The manager is its two SQL tables, the directories below its root and the
    cursor of the orphan sweep; an operation acts on the manager and the blob
    store together.  Everything outside the code's control (which system call
    or SQL statement fails, what the clock says, the random names, the order a
    [HashSet] or a directory is iterated in) is one record, [Outside].  The
    metadata mutex is never poisoned: nothing panics while it is held.  Only
    the executable bit of the file modes is kept. *)

From Stdlib Require Import Ascii String ZArith Lia.
From stdpp Require Import base gmap strings list sorting relations.
From S2P Require Import Prelude Ids Wire Spec Manifest Blob.
Open Scope act_scope.

(** [artifact::DEFAULT_RETENTION_MILLIS] *)
Definition DEFAULT_RETENTION_MILLIS : Z := 30 * 24 * 60 * 60 * 1000.

Inductive WorkspaceError : Type :=
| WeInvalidManifest
| WeInvalidPatch
| WeBaseMissing
| WeInvalidBlob
| WeBlobSizeMismatch
| WeQuotaExceeded
| WeConflict
| WeNotFound
| WeMetadata
| WeBlob (error : BlobError)
| WeIo
| WeJson
| WeWorker.

(** A row of [workspaces]. *)
Record WorkspaceRow := {
  wr_execution_id : string;
  wr_generation : Z;
  wr_principal_id : string;
  wr_manifest_digest : string;
  wr_storage_key : string;
  wr_logical_bytes : Z;
  wr_state : string;
  wr_created_unix_ms : Z;
  wr_expires_unix_ms : option Z;
}.

(** A row of [retained_manifests], whose key is the principal and the digest. *)
Record ManifestRow := {
  manifest_json : bytes;
  mr_logical_bytes : Z;
  mr_created_unix_ms : Z;
  mr_expires_unix_ms : option Z;
}.

(** A directory below the manager's root, by the relative paths of what it
    holds. *)
Inductive TreeNode : Type :=
| TnDirectory
| TnFile (content : bytes) (executable : bool).

Abbreviation dir_tree := (gmap string TreeNode).

Record WorkspaceManager := {
  workspaces : gmap string WorkspaceRow;
  retained_manifests : gmap (string * string) ManifestRow;
  directories : gmap string dir_tree;
  manifest_sweep_cursor : option string;
}.

Record ReadyWorkspace := {
  rw_root : string;
  rw_logical_bytes : Z;
  rw_manifest_digest : string;
}.

Record WorkspaceRecord := {
  execution_id : string;
  generation : Z;
  principal_id : string;
  manifest_digest : string;
  storage_key : string;
  rec_logical_bytes : Z;
  state : string;
  expires_unix_ms : option Z;
}.

(** The fallible steps of [materialize_tree]; a number is an entry's position. *)
Inductive TreeStep : Type :=
| TsCreateStage | TsStagePermissions
| TsOpen (i : nat) | TsCreate (i : nat) | TsCopy (i : nat) | TsSync (i : nat) | TsPermissions (i : nat)
| TsSyncDirectory (i : nat).

(** The fallible steps of the manager. *)
Inductive WsStep : Type :=
| WsLookup | WsUsed | WsStoredSize (i : nat) | WsVerify (i : nat) (step : VerifyStep) | WsRetain
| WsManifestQuery | WsManifestInsert | WsManifestRetain | WsManifestDelete (i : nat) | WsManifestRelease (i : nat)
| WsTree (step : TreeStep) | WsJoin | WsRename | WsSyncRoot | WsInsert | WsRemoveStage | WsRemoveTarget | WsRelease
| WsUpdate | WsExpiry | WsStat | WsRemoveDirectory (i : nat) | WsDelete (i : nat) | WsCommit
| WsOwnerExpiry (i : nat) | WsDeleteMissing (i : nat) | WsReadDirectory | WsOwners | WsSweep (i : nat) | WsRetainedQuery (i : nat).

Record Outside := {
  fails : WsStep -> bool;
  clock : WsStep -> Z;
  uuid : WsStep -> string;
  hash_order : gset string -> list string;
  copied : nat -> nat;
}.

(** [uuid::Uuid::parse_str(value).is_ok()], of the [uuid] crate. *)
Class UuidParse := uuid_parses : string -> bool.

Abbreviation World := (WorkspaceManager * BlobStore)%type.
Abbreviation ws A := (act World WorkspaceError A).

Definition set_workspaces (f : gmap string WorkspaceRow -> gmap string WorkspaceRow) (w : World) : World :=
  ({| workspaces := f (workspaces w.1); retained_manifests := retained_manifests w.1; directories := directories w.1;
      manifest_sweep_cursor := manifest_sweep_cursor w.1 |}, w.2).
Definition set_manifests (f : gmap (string * string) ManifestRow -> gmap (string * string) ManifestRow) (w : World) : World :=
  ({| workspaces := workspaces w.1; retained_manifests := f (retained_manifests w.1); directories := directories w.1;
      manifest_sweep_cursor := manifest_sweep_cursor w.1 |}, w.2).
Definition set_directories (f : gmap string dir_tree -> gmap string dir_tree) (w : World) : World :=
  ({| workspaces := workspaces w.1; retained_manifests := retained_manifests w.1; directories := f (directories w.1);
      manifest_sweep_cursor := manifest_sweep_cursor w.1 |}, w.2).
Definition set_cursor (cursor : option string) (w : World) : World :=
  ({| workspaces := workspaces w.1; retained_manifests := retained_manifests w.1; directories := directories w.1;
      manifest_sweep_cursor := cursor |}, w.2).

(** A call of the blob store, with the conversion of its errors. *)
Definition on_blobs {A} (convert : BlobError -> WorkspaceError) (f : BlobStore -> result BlobError A * BlobStore) : ws A :=
  fun w => let '(r, b) := f w.2 in (map_err convert r, (w.1, b)).

(** [manifest_owner_id] *)
Definition manifest_owner_id (principal digest : string) : string := principal +:+ ":" +:+ digest.

(** The digests a manifest's files name, as the [HashSet] they are collected in. *)
Definition file_digest (e : WorkspaceEntry) : option string :=
  match e with File _ digest _ _ => Some digest | _ => None end.
Definition file_digests (m : WorkspaceManifest) : gset string := list_to_set (omap file_digest (wm_entries m)).

Section manager.
Context `{Sha256, Serde WorkspaceManifest, UuidParse}.

(** [valid_storage_key] *)
Definition valid_storage_key (key : string) : bool :=
  match strip_prefix "workspace-" key with Some value => uuid_parses value | None => false end.

Definition record_of (r : WorkspaceRow) : WorkspaceRecord :=
  {| execution_id := wr_execution_id r; generation := as_u64 (wr_generation r); principal_id := wr_principal_id r;
     manifest_digest := wr_manifest_digest r; storage_key := wr_storage_key r;
     rec_logical_bytes := Z.max (wr_logical_bytes r) 0; state := wr_state r;
     expires_unix_ms := as_u64 <$> wr_expires_unix_ms r |}.

(** [WorkspaceManager::lookup] *)
Definition lookup (o : Outside) (workspace_id : string) : ws (option WorkspaceRecord) :=
  guard_err (fails o WsLookup) WeMetadata ;!
  gets (fun w => record_of <$> workspaces w.1 !! workspace_id).

(** [expires.is_some_and(|expires| expires <= now)] *)
Definition is_expired (now : Z) (expires : option Z) : bool :=
  match expires with Some expires => (expires <=? now)%Z | None => false end.

(** ** Building a tree *)

(** Whether a path can be created: it is free and its parent is a directory. *)
Definition vacant (t : dir_tree) (path : string) : bool :=
  negb (is_some (t !! path))
  && match last (parents path) with
     | None => true
     | Some parent => match t !! parent with Some TnDirectory => true | _ => false end
     end.

(** One round of the loop of [materialize_tree]. *)
Definition materialize_entry (fails : TreeStep -> bool) (copied : nat -> nat) (sources : gmap file_path bytes) (i : nat)
    (e : WorkspaceEntry) (t : dir_tree) : result WorkspaceError unit * dir_tree :=
  match e with
  | Directory path =>
      if fails (TsCreate i) || negb (vacant t path) then (Err WeIo, t)
      else
        let t := <[path := TnDirectory]> t in
        if fails (TsPermissions i) then (Err WeIo, t) else (Ok tt, t)
  | File path digest size_bytes executable =>
      match sources !! path_for digest with
      | None => (Err WeIo, t)
      | Some content =>
          if fails (TsOpen i) then (Err WeIo, t)
          else if fails (TsCreate i) || negb (vacant t path) then (Err WeIo, t)
          else if fails (TsCopy i) then (Err WeIo, <[path := TnFile (take (copied i) content) executable]> t)
          else
            let t := <[path := TnFile content executable]> t in
            if negb (len content =? size_bytes)%Z then (Err WeBlobSizeMismatch, t)
            else if fails (TsSync i) || fails (TsPermissions i) then (Err WeIo, t)
            else (Ok tt, t)
      end
  | Symlink _ _ => (Err WeInvalidManifest, t)
  end.

Fixpoint materialize_entries (fails : TreeStep -> bool) (copied : nat -> nat) (sources : gmap file_path bytes) (i : nat)
    (l : list WorkspaceEntry) (t : dir_tree) : result WorkspaceError unit * dir_tree :=
  match l with
  | [] => (Ok tt, t)
  | e :: l =>
      match materialize_entry fails copied sources i e t with
      | (Ok _, t) => materialize_entries fails copied sources (S i) l t
      | (Err e, t) => (Err e, t)
      end
  end.

(** The [fsync] of the stage and of every directory of the manifest. *)
Definition sync_fails (fails : TreeStep -> bool) (m : WorkspaceManifest) : bool :=
  existsb (fun i => fails (TsSyncDirectory i)) (seq 0 (S (length (List.filter is_directory (wm_entries m))))).

(** [materialize_tree] *)
Definition materialize_tree (fails : TreeStep -> bool) (copied : nat -> nat) (stage : string) (m : WorkspaceManifest)
    (sources : gmap file_path bytes) (dirs : gmap string dir_tree) : result WorkspaceError unit * gmap string dir_tree :=
  if fails TsCreateStage || is_some (dirs !! stage) then (Err WeIo, dirs)
  else if fails TsStagePermissions then (Err WeIo, <[stage := ∅]> dirs)
  else
    let '(r, t) := materialize_entries fails copied sources 0 (sort_by cmp_entry (wm_entries m)) ∅ in
    let dirs := <[stage := t]> dirs in
    match r with
    | Err e => (Err e, dirs)
    | Ok _ => if sync_fails fails m then (Err WeIo, dirs) else (Ok tt, dirs)
    end.

(** ** The manifest cache *)

(** [WorkspaceManager::store_manifest] *)
Definition store_manifest (o : Outside) (principal : string) (m : WorkspaceManifest) (digest : string) : ws unit :=
  of_result (map_err (fun _ => WeInvalidManifest) (WorkspaceManifest_validate m)) ;!
  of_result (map_err (fun _ => WeInvalidManifest) (BlobDigest_parse digest)) ;!
  let! encoded := of_result (ok_or (to_vec m) WeJson) in
  let now := clock o WsManifestQuery in
  let fresh_expiry := sat_add now DEFAULT_RETENTION_MILLIS in
  guard_err (fails o WsManifestQuery) WeMetadata ;!
  let! existing := gets (fun w => retained_manifests w.1 !! (principal, digest)) in
  let expires := match existing ≫= mr_expires_unix_ms with
                 | Some value => Z.max (Z.max value 0) fresh_expiry
                 | None => fresh_expiry
                 end in
  let created := match existing with Some r => mr_created_unix_ms r | None => as_i64 now end in
  guard_err (fails o WsManifestInsert) WeMetadata ;!
  modify (set_manifests <[(principal, digest) :=
    {| manifest_json := encoded; mr_logical_bytes := as_i64 (logical_bytes m); mr_created_unix_ms := created;
       mr_expires_unix_ms := Some (as_i64 expires) |}]>) ;!
  on_blobs WeBlob (retain (fails o WsManifestRetain) "manifest" (manifest_owner_id principal digest)
                     (hash_order o (file_digests m)) (Some expires)).

(** [WorkspaceManager::drop_manifest], also the row deletion of
    [reconcile_manifests]; [i] tells its calls apart. *)
Definition drop_manifest (o : Outside) (i : nat) (principal digest : string) : ws unit :=
  (if fails o (WsManifestDelete i) then ret tt else modify (set_manifests (delete (principal, digest)))) ;!
  ignore (on_blobs WeBlob (release_references (fails o (WsManifestRelease i)) "manifest" (manifest_owner_id principal digest))).

(** [blobs.stored_size(digest)], for a call that may fail. *)
Definition query_size (o : Outside) (i : nat) (digest : string) (b : BlobStore) : result BlobError Z :=
  if fails o (WsStoredSize i) then Err BeMetadata else stored_size digest b.

Definition has_size (o : Outside) (i : nat) (e : WorkspaceEntry) (b : BlobStore) : bool :=
  match e with
  | File _ digest size_bytes _ =>
      match query_size o i digest b with Ok size => (size =? size_bytes)%Z | Err _ => false end
  | _ => true
  end.

(** [WorkspaceManager::lookup_manifest] *)
Definition lookup_manifest (o : Outside) (principal digest : string) : ws (option WorkspaceManifest) :=
  guard_err (fails o WsManifestQuery) WeMetadata ;!
  let! row := gets (fun w => retained_manifests w.1 !! (principal, digest)) in
  match row with
  | None => ret None
  | Some row =>
      if is_expired (clock o WsManifestQuery) (Z.max 0 <$> mr_expires_unix_ms row) then ret None
      else
        let! m := of_result (ok_or (from_slice (manifest_json row)) WeInvalidManifest) in
        if negb (is_ok (WorkspaceManifest_validate m)) then drop_manifest o 0 principal digest ;! ret None
        else
          let! b := gets snd in
          if forallb (fun p => has_size o p.1 p.2 b) (imap pair (wm_entries m)) then ret (Some m)
          else drop_manifest o 0 principal digest ;! ret None
  end.

(** ** Materialization *)

(** The early return of [materialize] when the workspace exists. *)
Definition replay (o : Outside) (exec : string) (gen : Z) (principal digest : string) (existing : WorkspaceRecord)
    : ws ReadyWorkspace :=
  if negb (String.eqb (execution_id existing) exec) || negb (generation existing =? gen)%Z
     || negb (String.eqb (principal_id existing) principal) || negb (String.eqb (manifest_digest existing) digest)
     || is_expired (clock o WsLookup) (expires_unix_ms existing)
  then throw WeConflict
  else
    let! present := gets (fun w => is_some (directories w.1 !! storage_key existing)) in
    if negb (valid_storage_key (storage_key existing)) || negb present then throw WeNotFound
    else ret {| rw_root := storage_key existing; rw_logical_bytes := rec_logical_bytes existing; rw_manifest_digest := digest |}.

(** [SELECT COALESCE(SUM(logical_bytes), 0) FROM workspaces WHERE state = 'Ready'] *)
Definition used_logical_bytes (rows : gmap string WorkspaceRow) : Z :=
  sum_Z ((fun kv => wr_logical_bytes kv.2) <$> filter (fun kv => wr_state kv.2 = "Ready") (map_to_list rows)).

(** One round of the loop that validates every referenced object. *)
Definition check_entry (o : Outside) (p : nat * WorkspaceEntry) : ws unit :=
  match p.2 with
  | File _ digest size_bytes _ =>
      if (MAX_BLOB_BYTES <? size_bytes)%Z then throw WeBlobSizeMismatch
      else
        let! size := gets (fun w => query_size o p.1 digest w.2) in
        match size with
        | Ok size =>
            if (size =? size_bytes)%Z then
              on_blobs (fun _ => WeInvalidBlob)
                (verify_existing (fun v => fails o (WsVerify p.1 v)) (uuid o (WsVerify p.1 VsQuarantine))
                   (clock o (WsVerify p.1 VsTouch)) digest)
            else throw WeBlobSizeMismatch
        | Err _ => throw WeInvalidBlob
        end
  | _ => ret tt
  end.

(** [let _ = fs::remove_dir_all(dir)] and
    [let _ = blobs.release_references("workspace", id)] before an error. *)
Definition undo {A} (o : Outside) (step : WsStep) (dir workspace_id : string) (e : WorkspaceError) : ws A :=
  (if fails o step then ret tt else modify (set_directories (delete dir))) ;!
  ignore (on_blobs WeBlob (release_references (fails o WsRelease) "workspace" workspace_id)) ;!
  throw e.

(** [fs::rename(stage, target)]: a directory replaces only an empty one. *)
Definition rename_fails (o : Outside) (target : string) (dirs : gmap string dir_tree) : bool :=
  fails o WsRename || match dirs !! target with Some t => negb (bool_decide (t = ∅)) | None => false end.

Definition rename (stage target : string) (dirs : gmap string dir_tree) : gmap string dir_tree :=
  match dirs !! stage with Some t => <[target := t]> (delete stage dirs) | None => dirs end.

(** The [INSERT INTO workspaces], under the table's two uniqueness constraints. *)
Definition insert_workspace (o : Outside) (workspace_id : string) (row : WorkspaceRow) : ws unit :=
  fun w =>
    if fails o WsInsert || is_some (workspaces w.1 !! workspace_id)
       || existsb (fun kv => String.eqb (wr_storage_key kv.2) (wr_storage_key row)) (map_to_list (workspaces w.1))
    then (Err WeMetadata, w)
    else (Ok tt, set_workspaces <[workspace_id := row]> w).

(** The blocking task of [materialize]. *)
Definition build_stage (o : Outside) (stage : string) (m : WorkspaceManifest) : ws unit :=
  fun w =>
    let '(r, dirs) := materialize_tree (fun t => fails o (WsTree t)) (copied o) stage m (files w.2) (directories w.1) in
    (r, set_directories (fun _ => dirs) w).

(** The row of a new workspace. *)
Definition ready_row (o : Outside) (exec : string) (gen : Z) (principal : string) (m : WorkspaceManifest) (digest : string)
    (initial_expiry : Z) : WorkspaceRow :=
  {| wr_execution_id := exec; wr_generation := as_i64 gen; wr_principal_id := principal; wr_manifest_digest := digest;
     wr_storage_key := "workspace-" +:+ uuid o WsRename; wr_logical_bytes := as_i64 (logical_bytes m); wr_state := "Ready";
     wr_created_unix_ms := clock o WsInsert; wr_expires_unix_ms := Some (as_i64 initial_expiry) |}.

(** [materialize] from the staging directory on: the tree, its move to its
    place and the row that makes it visible. *)
Definition publish (o : Outside) (workspace_id exec : string) (gen : Z) (principal : string) (m : WorkspaceManifest)
    (digest : string) (initial_expiry : Z) : ws ReadyWorkspace :=
  let nonce := uuid o WsRename in
  let stage := ".staging-" +:+ nonce in
  let target := "workspace-" +:+ nonce in
  let! built := attempt (build_stage o stage m) in
  if fails o WsJoin then undo o WsRemoveStage stage workspace_id WeWorker
  else
    match built with
    | Err e => undo o WsRemoveStage stage workspace_id e
    | Ok _ =>
        let! dirs := gets (fun w => directories w.1) in
        if rename_fails o target dirs then undo o WsRemoveStage stage workspace_id WeIo
        else
          modify (set_directories (rename stage target)) ;!
          if fails o WsSyncRoot then undo o WsRemoveTarget target workspace_id WeIo
          else
            let! inserted := attempt (insert_workspace o workspace_id (ready_row o exec gen principal m digest initial_expiry)) in
            match inserted with
            | Err e => undo o WsRemoveTarget target workspace_id e
            | Ok _ => ret {| rw_root := target; rw_logical_bytes := logical_bytes m; rw_manifest_digest := digest |}
            end
    end.

(** [materialize] of a new workspace up to its staging directory: the quota,
    the checks, the pins and the registration of the manifest. *)
Definition prepare (o : Outside) (quota_bytes : Z) (workspace_id principal : string) (m : WorkspaceManifest) (digest : string)
    : ws Z :=
  let! used := gets (fun w => used_logical_bytes (workspaces w.1)) in
  guard_err (fails o WsUsed || (I64_MAX <? used)%Z) WeMetadata ;!
  guard_err (quota_bytes <? sat_add (Z.max used 0) (logical_bytes m))%Z WeQuotaExceeded ;!
  act_each (check_entry o) (imap pair (wm_entries m)) ;!
  let initial_expiry := sat_add (clock o WsRetain) DEFAULT_RETENTION_MILLIS in
  on_blobs WeBlob (retain (fails o WsRetain) "workspace" workspace_id (hash_order o (file_digests m)) (Some initial_expiry)) ;!
  store_manifest o principal m digest ;!
  ret initial_expiry.

(** [materialize] of a new workspace. *)
Definition materialize_new (o : Outside) (quota_bytes : Z) (workspace_id exec : string) (gen : Z) (principal : string)
    (m : WorkspaceManifest) (digest : string) : ws ReadyWorkspace :=
  let! initial_expiry := prepare o quota_bytes workspace_id principal m digest in
  publish o workspace_id exec gen principal m digest initial_expiry.

(** [WorkspaceManager::materialize] *)
Definition materialize (o : Outside) (quota_bytes : Z) (workspace_id exec : string) (gen : Z) (principal : string)
    (m : WorkspaceManifest) : ws ReadyWorkspace :=
  of_result (map_err (fun _ => WeInvalidManifest) (WorkspaceManifest_validate m)) ;!
  guard_err (quota_bytes <? logical_bytes m)%Z WeQuotaExceeded ;!
  let! digest := of_result (ok_or (WorkspaceManifest_digest m) WeJson) in
  let! existing := lookup o workspace_id in
  match existing with
  | Some existing => replay o exec gen principal digest existing
  | None => materialize_new o quota_bytes workspace_id exec gen principal m digest
  end.

(** [WorkspaceManager::materialize_derived] *)
Definition materialize_derived (o : Outside) (quota_bytes : Z) (workspace_id exec : string) (gen : Z) (principal : string)
    (patch : WorkspaceManifestPatch) : ws ReadyWorkspace :=
  of_result (map_err (fun _ => WeInvalidPatch) (WorkspaceManifestPatch_validate patch)) ;!
  let! base := lookup_manifest o principal (base_manifest_digest patch) in
  match base with
  | None => throw WeBaseMissing
  | Some base =>
      let! final_manifest := of_result (map_err (fun _ => WeInvalidManifest) (apply_to patch base)) in
      materialize o quota_bytes workspace_id exec gen principal final_manifest
  end.

(** ** Retention *)

Definition set_expiry (expires : option Z) (r : WorkspaceRow) : WorkspaceRow :=
  {| wr_execution_id := wr_execution_id r; wr_generation := wr_generation r; wr_principal_id := wr_principal_id r;
     wr_manifest_digest := wr_manifest_digest r; wr_storage_key := wr_storage_key r; wr_logical_bytes := wr_logical_bytes r;
     wr_state := wr_state r; wr_created_unix_ms := wr_created_unix_ms r; wr_expires_unix_ms := expires |}.

(** [WorkspaceManager::mark_terminal] *)
Definition mark_terminal (o : Outside) (workspace_id : string) (expires : Z) : ws unit :=
  guard_err (fails o WsUpdate) WeMetadata ;!
  modify (set_workspaces (alter (set_expiry (Some (as_i64 expires))) workspace_id)) ;!
  on_blobs WeBlob (set_reference_expiry (fails o WsExpiry) "workspace" workspace_id expires).

(** The first half of [mark_active]: the key of a live workspace, and a look
    at its directory. *)
Definition active_key (o : Outside) (workspace_id : string) : ws string :=
  guard_err (fails o WsLookup) WeMetadata ;!
  let! row := gets (fun w => workspaces w.1 !! workspace_id) in
  match row with
  | Some row =>
      if String.eqb (wr_state row) "Ready" && negb (is_expired (as_i64 (clock o WsLookup)) (wr_expires_unix_ms row))
         && valid_storage_key (wr_storage_key row)
      then
        let! present := gets (fun w => is_some (directories w.1 !! wr_storage_key row)) in
        guard_err (fails o WsStat || negb present) WeIo ;!
        ret (wr_storage_key row)
      else throw WeNotFound
  | None => throw WeNotFound
  end.

(** Its second half: the update under the write transaction. *)
Definition activate (o : Outside) (workspace_id key : string) : ws unit :=
  guard_err (fails o WsUpdate || fails o WsCommit) WeMetadata ;!
  let! row := gets (fun w => workspaces w.1 !! workspace_id) in
  match row with
  | Some row =>
      if String.eqb (wr_storage_key row) key && String.eqb (wr_state row) "Ready"
      then
        modify (set_workspaces (alter (set_expiry None) workspace_id)) ;!
        on_blobs WeBlob (clear_reference_expiry (fails o WsExpiry) "workspace" workspace_id)
      else throw WeNotFound
  | None => throw WeNotFound
  end.

(** [WorkspaceManager::mark_active] *)
Definition mark_active (o : Outside) (workspace_id : string) : ws unit :=
  let! key := active_key o workspace_id in
  activate o workspace_id key.

(** [WorkspaceManager::recover_retention] *)
Definition recover_retention (o : Outside) (expires : Z) : ws unit :=
  guard_err (fails o WsLookup) WeMetadata ;!
  let! ids := gets (fun w => (filter (fun kv => wr_expires_unix_ms kv.2 = None) (map_to_list (workspaces w.1))).*1) in
  guard_err (fails o WsUpdate) WeMetadata ;!
  modify (set_workspaces (fmap (fun r => match wr_expires_unix_ms r with
                                          | None => set_expiry (Some (as_i64 expires)) r
                                          | Some _ => r
                                          end))) ;!
  act_each (fun p => on_blobs WeBlob (set_reference_expiry (fails o (WsOwnerExpiry p.1)) "workspace" p.2 expires)) (imap pair ids).

(** [WorkspaceManager::resolve] *)
Definition resolve (o : Outside) (workspace_id exec : string) (gen : Z) (principal : string) : ws ReadyWorkspace :=
  let! record := lookup o workspace_id in
  match record with
  | None => throw WeNotFound
  | Some record =>
      if negb (String.eqb (state record) "Ready") || negb (String.eqb (execution_id record) exec)
         || negb (generation record =? gen)%Z || negb (String.eqb (principal_id record) principal)
         || is_expired (clock o WsLookup) (expires_unix_ms record)
      then throw WeNotFound
      else if negb (valid_storage_key (storage_key record)) then throw WeNotFound
      else
        let! present := gets (fun w => is_some (directories w.1 !! storage_key record)) in
        guard_err (fails o WsStat || negb present) WeIo ;!
        ret {| rw_root := storage_key record; rw_logical_bytes := rec_logical_bytes record;
               rw_manifest_digest := manifest_digest record |}
  end.

(** ** Garbage collection *)

(** [expires_unix_ms IS NOT NULL AND expires_unix_ms <= ?], on a [u64] clock. *)
Definition due (now : Z) (expires : option Z) : Prop :=
  match expires with Some expires => (expires <= as_i64 now)%Z | None => False end.

#[export] Instance due_dec now expires : Decision (due now expires).
Proof. destruct expires; simpl; apply _. Defined.

(** [SELECT ... ORDER BY expires_unix_ms ASC LIMIT ?] over the rows in the order
    they are scanned. *)
Definition due_rows {K R} (expires : R -> option Z) (now : Z) (limit : nat) (scan : list (K * R)) : list (K * R) :=
  take limit (sort_by (cmp_on (fun kv => default 0%Z (expires kv.2)) Z.compare) (filter (fun kv => due now (expires kv.2)) scan)).

(** A transaction on [workspaces]: when it fails, the table is as it was, the
    directories are not. *)
Definition workspace_transaction {A} (o : Outside) (c : ws A) : ws A :=
  fun w =>
    match c w with
    | (Ok a, w') => if fails o WsCommit then (Err WeMetadata, set_workspaces (fun _ => workspaces w.1) w') else (Ok a, w')
    | (Err e, w') => (Err e, set_workspaces (fun _ => workspaces w.1) w')
    end.

(** One round of the loop of [garbage_collect]. *)
Definition collect_workspace (o : Outside) (now : Z) (p : nat * (string * WorkspaceRow)) : ws unit :=
  let '(i, (workspace_id, row)) := p in
  if negb (valid_storage_key (wr_storage_key row)) then ret tt
  else
    guard_err (fails o (WsRemoveDirectory i)) WeIo ;!
    modify (set_directories (delete (wr_storage_key row))) ;!
    guard_err (fails o (WsDelete i)) WeMetadata ;!
    modify (set_workspaces (fun rows => match rows !! workspace_id with
                                        | Some r => if decide (due now (wr_expires_unix_ms r)) then delete workspace_id rows else rows
                                        | None => rows
                                        end)).

(** [WorkspaceManager::garbage_collect]: candidates, their bytes, deletions. *)
Definition garbage_collect (o : Outside) (scan : list (string * WorkspaceRow)) (now : Z) (limit : nat) (dry_run : bool)
    : ws (Z * Z * Z) :=
  workspace_transaction o (
    guard_err (fails o WsLookup) WeMetadata ;!
    let candidates := due_rows wr_expires_unix_ms now limit scan in
    let bytes := foldl sat_add 0%Z ((fun kv => Z.max (wr_logical_bytes kv.2) 0) <$> candidates) in
    (if dry_run then ret tt else act_each (collect_workspace o now) (imap pair candidates)) ;!
    let deleted := if dry_run then 0%Z
                   else len (List.filter (fun kv => valid_storage_key (wr_storage_key kv.2)) candidates) in
    ret (len candidates, bytes, deleted)).

(** One round of the loop of [manifest_garbage_collect]: whether the row went. *)
Definition collect_manifest (o : Outside) (now : Z) (i : nat) (key : string * string) : ws bool :=
  guard_err (fails o (WsManifestDelete i)) WeMetadata ;!
  let! row := gets (fun w => retained_manifests w.1 !! key) in
  if decide (due now (row ≫= mr_expires_unix_ms)) then
    modify (set_manifests (delete key)) ;!
    ignore (on_blobs WeBlob (release_references (fails o (WsManifestRelease i)) "manifest" (manifest_owner_id key.1 key.2))) ;!
    ret true
  else ret false.

Fixpoint collect_manifests (o : Outside) (now : Z) (i : nat) (deleted : Z) (keys : list (string * string)) : ws Z :=
  match keys with
  | [] => ret deleted
  | key :: keys =>
      let! removed := collect_manifest o now i key in
      collect_manifests o now (S i) (if removed then deleted + 1 else deleted)%Z keys
  end.

(** [WorkspaceManager::manifest_garbage_collect] *)
Definition manifest_garbage_collect (o : Outside) (scan : list ((string * string) * ManifestRow)) (now : Z) (limit : nat)
    (dry_run : bool) : ws (Z * Z) :=
  guard_err (fails o WsManifestQuery) WeMetadata ;!
  let expired := (due_rows mr_expires_unix_ms now limit scan).*1 in
  if dry_run then ret (len expired, 0%Z)
  else
    let! deleted := collect_manifests o now 0 0 expired in
    ret (len expired, deleted).

(** [WorkspaceManager::recover_manifest_retention] *)
Definition recover_manifest_retention (o : Outside) (expires : Z) : ws unit :=
  guard_err (fails o WsUpdate) WeMetadata ;!
  modify (set_manifests (fmap (fun r => match mr_expires_unix_ms r with
                                        | None => {| manifest_json := manifest_json r; mr_logical_bytes := mr_logical_bytes r;
                                                     mr_created_unix_ms := mr_created_unix_ms r;
                                                     mr_expires_unix_ms := Some (as_i64 expires) |}
                                        | Some _ => r
                                        end))).

(** ** Reconciliation *)

Definition cmp_key (a b : string * string) : comparison := then_with (str_cmp a.1 b.1) (str_cmp a.2 b.2).

(** Whether a cached row can be used: a principal, a digest and a manifest. *)
Definition cache_row_valid (key : string * string) (row : ManifestRow) : bool :=
  is_ok (BlobDigest_parse key.2) && is_ok (PrincipalId_new key.1)
  && match from_slice (manifest_json row) with Some m => is_ok (WorkspaceManifest_validate m) | None => false end.

(** The first loop of [reconcile_manifests]. *)
Definition drop_invalid (o : Outside) (p : nat * ((string * string) * ManifestRow)) : ws unit :=
  let '(i, (key, row)) := p in
  if cache_row_valid key row then ret tt else drop_manifest o (S i) key.1 key.2.

(** [WorkspaceManager::is_retained_manifest] *)
Definition is_retained_manifest (o : Outside) (i : nat) (principal digest : string) (w : World) : bool :=
  negb (fails o (WsRetainedQuery i)) && is_some (retained_manifests w.1 !! (principal, digest)).

(** Its last loop, over one page of owners. *)
Definition sweep_owner (o : Outside) (p : nat * string) : ws unit :=
  let '(i, owner) := p in
  let! retained := gets (fun w => match rsplit_once ":" owner with
                                  | Some (principal, digest) => is_retained_manifest o i principal digest w
                                  | None => false
                                  end) in
  if retained then ret tt
  else ignore (on_blobs WeBlob (release_references (fails o (WsSweep i)) "manifest" owner)).

Definition sweep (o : Outside) (limit : nat) : ws unit :=
  guard_err (fails o WsOwners) (WeBlob BeMetadata) ;!
  let! orphans := gets (fun w => reference_owners "manifest" (manifest_sweep_cursor w.1) limit w.2) in
  act_each (sweep_owner o) (imap pair orphans) ;!
  modify (set_cursor (if decide (limit <= length orphans) then last orphans else None)).

(** [WorkspaceManager::reconcile_manifests] *)
Definition reconcile_manifests (o : Outside) (scan : World -> list ((string * string) * ManifestRow)) (now : Z) (limit : nat)
    : ws unit :=
  let limit := Nat.max 1 (Nat.min limit 1024) in
  guard_err (fails o WsLookup) WeMetadata ;!
  let! rows := gets (fun w => take limit (sort_by (cmp_on fst cmp_key) (map_to_list (retained_manifests w.1)))) in
  act_each (drop_invalid o) (imap pair rows) ;!
  let! scanned := gets scan in
  manifest_garbage_collect o scanned now limit false ;!
  sweep o limit.

Definition known_keys (rows : gmap string WorkspaceRow) : gset string :=
  list_to_set ((fun kv => wr_storage_key kv.2) <$> map_to_list rows).

Definition delete_key (key : string) (w : World) : World :=
  set_workspaces (filter (fun kv => wr_storage_key kv.2 <> key)) w.

(** [WorkspaceManager::reconcile], which [open] ends with. *)
Definition reconcile (o : Outside) : ws unit :=
  guard_err (fails o WsLookup) WeMetadata ;!
  let! all := gets (fun w => known_keys (workspaces w.1)) in
  act_each (fun p => if valid_storage_key p.2 then ret tt
                     else guard_err (fails o (WsDelete p.1)) WeMetadata ;! modify (delete_key p.2))
    (imap pair (hash_order o all)) ;!
  let known := filter (fun key => valid_storage_key key = true) all in
  guard_err (fails o WsReadDirectory) WeIo ;!
  let! names := gets (fun w => dom (directories w.1)) in
  act_each (fun p => if starts_with ".staging-" p.2 || negb (bool_decide (p.2 ∈ known))
                     then guard_err (fails o (WsRemoveDirectory p.1)) WeIo ;! modify (set_directories (delete p.2))
                     else ret tt)
    (imap pair (hash_order o names)) ;!
  act_each (fun p => let! present := gets (fun w => is_some (directories w.1 !! p.2)) in
                     if present then ret tt
                     else guard_err (fails o (WsDeleteMissing p.1)) WeMetadata ;! modify (delete_key p.2))
    (imap pair (hash_order o known)).
End manager.

(** ** What a tree should be *)

(** The node an entry stands for, given the blobs' contents. *)
Definition node_of (sources : gmap file_path bytes) (e : WorkspaceEntry) : option TreeNode :=
  match e with
  | Directory _ => Some TnDirectory
  | File _ digest _ executable => (fun content => TnFile content executable) <$> sources !! path_for digest
  | Symlink _ _ => None
  end.

(** The tree of a manifest. *)
Definition built_tree (sources : gmap file_path bytes) (m : WorkspaceManifest) : dir_tree :=
  omap (node_of sources) (tree_of (wm_entries m)).

(** An entry whose content is available and has the declared size. *)
Definition sourced (sources : gmap file_path bytes) (e : WorkspaceEntry) : Prop :=
  match e with
  | Directory _ => True
  | File _ digest size_bytes _ => exists content, sources !! path_for digest = Some content /\ len content = size_bytes
  | Symlink _ _ => False
  end.

Definition place (sources : gmap file_path bytes) (t : dir_tree) (e : WorkspaceEntry) : dir_tree :=
  match node_of sources e with Some n => <[entry_path e := n]> t | None => t end.

Lemma materialize_entries_ok fails copied sources l i t t' :
  materialize_entries fails copied sources i l t = (Ok tt, t') -> t' = foldl (place sources) t l /\ Forall (sourced sources) l.
Proof.
  revert i t. induction l as [|e l IH]; intros i t; simpl; [by intros [= <-]|].
  destruct (materialize_entry fails copied sources i e t) as [[[]|err] t1] eqn:E; [|done]. intros Hl.
  enough (t1 = place sources t e /\ sourced sources e) as [-> He] by (destruct (IH _ _ Hl); auto).
  unfold materialize_entry, place in *. destruct e as [path|path d z x|path target]; simpl; [..|done].
  - destruct (_ || _); [done|]. destruct (fails _); [done|]. by injection E as <-.
  - destruct (sources !! path_for d) as [c|] eqn:Hc; [|done]. destruct (fails (TsOpen i)); [done|].
    destruct (_ || _); [done|]. destruct (fails (TsCopy i)); [done|]. destruct (Z.eqb_spec (len c) z); simpl in E; [|done].
    destruct (_ || _); [done|]. injection E as <-. split; [done|]. by exists c.
Qed.

Lemma place_lookup sources l t path :
  NoDup (entry_path <$> l) -> (forall e, e ∈ l -> is_Some (node_of sources e)) ->
  foldl (place sources) t l !! path = match tree_of l !! path with Some e => node_of sources e | None => t !! path end.
Proof.
  intros Hd Hs. induction l as [|e l IH] using rev_ind; [by unfold tree_of; simpl; rewrite lookup_empty|].
  rewrite fmap_app in Hd. apply NoDup_app in Hd as (Hd & _).
  unfold tree_of in *. rewrite !foldl_snoc. unfold place at 1, tree_insert at 1. destruct (Hs e ltac:(set_solver)) as [n Hn]. rewrite Hn.
  destruct (decide (entry_path e = path)) as [<-|Hne]; [by rewrite !lookup_insert_eq|].
  rewrite !lookup_insert_ne by done. apply IH; [done|]. intros e' He'. apply Hs. set_solver.
Qed.

Lemma sourced_node sources e : sourced sources e -> is_Some (node_of sources e).
Proof. destruct e; simpl; [by eexists| |done]. intros (c & -> & _). by eexists. Qed.

Lemma place_built sources m l :
  l ≡ₚ wm_entries m -> NoDup (entry_path <$> wm_entries m) -> Forall (sourced sources) l ->
  foldl (place sources) ∅ l = built_tree sources m.
Proof.
  intros Hp Hd Hs. rewrite Forall_forall in Hs. apply map_eq. intros path. unfold built_tree.
  rewrite place_lookup; [|by rewrite Hp|intros e He; apply sourced_node; auto]. rewrite lookup_omap, lookup_empty.
  assert (tree_of l = tree_of (wm_entries m)) as ->; [|by destruct (_ !! path)]. 
  apply map_eq. intros k. apply option_eq. intros e. rewrite !tree_of_lookup by (by rewrite ?Hp). by rewrite Hp.
Qed.

Lemma str_cmp_extend p suffix : suffix <> EmptyString -> str_cmp p (p +:+ suffix) = Lt.
Proof.
  intros Hs. induction p as [|a p IH]; [by destruct suffix|]. rewrite str_app_cons. unfold str_cmp in *. simpl.
  rewrite ascii_cmp_code, Z.compare_refl. done.
Qed.

Lemma place_done sources l path :
  NoDup (entry_path <$> l) -> Forall (sourced sources) l ->
  foldl (place sources) ∅ l !! path = match tree_of l !! path with Some e => node_of sources e | None => None end.
Proof.
  intros Hd Hs. rewrite place_lookup; [by rewrite lookup_empty|done|]. rewrite Forall_forall in Hs. auto using sourced_node.
Qed.

(** Sorted by path, a directory comes before what it holds: a path is vacant
    when what sorts before it has been built. *)
Lemma sorted_vacant sources before e after :
  NoDup (entry_path <$> before ++ e :: after) -> Forall (sourced sources) (before ++ e :: after) ->
  Forall (fun x => cmp_entry e x <> Gt) after ->
  (forall p suffix, entry_path e = p +:+ String "/" suffix -> Directory p ∈ before ++ e :: after) ->
  vacant (foldl (place sources) ∅ before) (entry_path e) = true.
Proof.
  intros Hd Hs Hle Hp. rewrite fmap_app in Hd. apply NoDup_app in Hd as (Hd & Hdisj & _). apply Forall_app in Hs as [Hs _].
  unfold vacant. rewrite place_done by done. destruct (tree_of before !! entry_path e) as [e'|] eqn:Ee.
  { apply tree_of_lookup in Ee as [Hin E]; [|done]. exfalso. apply (Hdisj (entry_path e)); [|by left].
    rewrite <- E. by apply list_elem_of_fmap_2. }
  simpl. destruct (last (parents (entry_path e))) as [parent|] eqn:El; [|done].
  apply last_Some_elem_of, elem_of_parents in El as [suffix El].
  assert (str_cmp parent (entry_path e) = Lt) as Hlt by (rewrite El; by apply str_cmp_extend).
  assert (Directory parent ∈ before) as Hin.
  { pose proof (Hp _ _ El) as Hin. rewrite elem_of_app, elem_of_cons in Hin. destruct Hin as [?|[<-|Hin]]; [done|..].
    - simpl in Hlt. by rewrite (cmp_refl str_cmp) in Hlt.
    - rewrite Forall_forall in Hle. destruct (Hle _ Hin). unfold cmp_entry, cmp_on. simpl. by rewrite (cmp_flip (cmp := str_cmp)), Hlt. }
  rewrite place_done by done. by rewrite (proj2 (tree_of_lookup before parent (Directory parent) Hd) (conj Hin eq_refl)).
Qed.

(** So building the tree of a valid manifest whose contents are available
    never fails by itself. *)
Lemma materialize_entries_total fails copied sources l before i :
  (forall s, fails s = false) -> StronglySorted (fun a b => cmp_entry a b <> Gt) l -> NoDup (entry_path <$> before ++ l) ->
  (forall e p suffix, e ∈ before ++ l -> entry_path e = p +:+ String "/" suffix -> Directory p ∈ before ++ l) ->
  Forall (sourced sources) (before ++ l) ->
  materialize_entries fails copied sources i l (foldl (place sources) ∅ before)
  = (Ok tt, foldl (place sources) ∅ (before ++ l)).
Proof.
  intros Hno Hsort. revert before i. induction Hsort as [|e l Hl IH He]; intros before i Hd Hp Hs; [by rewrite app_nil_r|].
  pose proof (sorted_vacant sources before e l Hd Hs He (fun p suffix => Hp e p suffix ltac:(set_solver))) as Hv.
  assert (sourced sources e) as He' by (rewrite Forall_forall in Hs; apply Hs; set_solver).
  assert (materialize_entry fails copied sources i e (foldl (place sources) ∅ before)
          = (Ok tt, foldl (place sources) ∅ (before ++ [e]))) as E.
  { rewrite foldl_snoc. unfold materialize_entry. destruct e as [path|path d z x|]; simpl in *; [..|done].
    - by rewrite Hv, !Hno.
    - destruct He' as (c & Hc & <-). rewrite Hc, Hv, !Hno. simpl. rewrite Z.eqb_refl. simpl. unfold place at 2. simpl. by rewrite Hc. }
  simpl. rewrite E, IH; rewrite <- ?app_assoc; done.
Qed.

(** ** The blob store under the manager *)

(** The relation on worlds that leaves the manager alone. *)
Definition blobs_touched (w w' : World) : Prop := w'.1 = w.1 /\ touched w.2 w'.2.

#[export] Instance blobs_touched_preorder : PreOrder blobs_touched.
Proof. split; [done|]. intros w1 w2 w3 [E1 T1] [E2 T2]. split; [congruence|by etrans]. Qed.

Section proofs.
Context `{Sha256, Serde WorkspaceManifest, UuidParse}.

(** An entry whose blob the checks of [materialize] accept. *)
Definition available (b : BlobStore) (e : WorkspaceEntry) : Prop :=
  match e with
  | File _ digest size _ =>
      (size <= MAX_BLOB_BYTES)%Z
      /\ exists row content, blobs b !! digest = Some row /\ Z.max (size_bytes row) 0 = size
           /\ files b !! path_for digest = Some content /\ corrupt digest (size_bytes row) content = false
  | _ => True
  end.

Lemma available_touched b b' e : touched b b' -> available b e <-> available b' e.
Proof.
  intros [F _ S]. destruct e as [|path d z x|]; simpl; [done| |done]. rewrite F. specialize (S d). split.
  - intros (Hz & row & c & Hr & ?). rewrite Hr in S. destruct (blobs b' !! d) as [row'|] eqn:E; [|done]. injection S as S.
    split; [done|]. exists row', c. by rewrite S.
  - intros (Hz & row & c & Hr & ?). rewrite Hr in S. destruct (blobs b !! d) as [row'|] eqn:E; [|done]. injection S as S.
    split; [done|]. exists row', c. by rewrite <- S.
Qed.

Lemma check_entry_Ok o p w w' : check_entry o p w = (Ok tt, w') -> available w.2 p.2 /\ blobs_touched w w'.
Proof.
  unfold check_entry. destruct (p.2) as [|path d z x|]; [by intros [= <-]| |by intros [= <-]]. simpl.
  destruct (Z.ltb_spec MAX_BLOB_BYTES z) as [|Hz]; [done|]. unfold act_bind, gets. simpl. unfold query_size.
  destruct (fails o _); [done|]. unfold stored_size. destruct (blobs w.2 !! d) as [row|] eqn:Er; simpl; [|done].
  destruct (Z.eqb_spec (Z.max (size_bytes row) 0) z) as [E|]; [|done]. unfold on_blobs.
  destruct (verify_existing _ _ _ _ _) as [[[]|] b'] eqn:Ev; [|done]. intros [= <-].
  apply verify_existing_Ok in Ev as (Ht & row' & c & Hr & Hc & Hq). split; [|done]. split; [done|]. exists row, c.
  assert (row' = row) as -> by congruence. done.
Qed.

(** The checks pass only on available blobs, and change nothing else. *)
Lemma check_entries_Ok o l w w' :
  act_each (check_entry o) (imap pair l) w = (Ok tt, w') -> blobs_touched w w' /\ Forall (available w.2) l.
Proof.
  intros Hc. eapply (act_each_Ok _ _ (fun p w => available w.2 p.2) blobs_touched) in Hc as [Ht Ha].
  - split; [done|]. apply Forall_forall. intros e [i Hi]%elem_of_imap_pair. apply (Ha _ Hi).
  - intros p w1 w2 _. apply check_entry_Ok.
  - intros p w1 w2 [_ Ht]. by rewrite <- available_touched.
Qed.

(** They do pass when nothing fails. *)
Lemma check_entry_passes o p w : (forall s, fails o s = false) -> available w.2 p.2 -> exists w', check_entry o p w = (Ok tt, w').
Proof.
  intros Hf. unfold check_entry. destruct (p.2) as [|path d z x|]; [by eexists| |by eexists]. simpl.
  intros (Hz & row & c & Hr & Hs & Hc & Hq). rewrite (proj2 (Z.ltb_ge _ _)) by done. unfold act_bind, gets, query_size. simpl.
  rewrite Hf. unfold stored_size. rewrite Hr. simpl. rewrite Hs, Z.eqb_refl. unfold on_blobs, verify_existing.
  rewrite Hf, Hr, Hc, Hf, Hq, Hf. by eexists.
Qed.

Lemma check_entries_pass o l w :
  (forall s, fails o s = false) -> Forall (available w.2) l -> exists w', act_each (check_entry o) (imap pair l) w = (Ok tt, w').
Proof.
  intros Hf Ha. assert (forall p, p ∈ imap pair l -> available w.2 p.2) as Ha'.
  { intros p Hp%elem_of_imap_snd. rewrite Forall_forall in Ha. auto. }
  clear Ha. revert w Ha'. induction (imap pair l) as [|p ps IH]; intros w Ha; simpl; [by eexists|].
  destruct (check_entry_passes o p w Hf) as [w1 E1]; [apply Ha; by left|].
  pose proof (check_entry_Ok _ _ _ _ E1) as [_ [_ Ht]]. unfold act_bind. rewrite E1. apply IH. intros p' Hp'.
  apply (available_touched _ _ _ Ht), Ha. by right.
Qed.

(** ** Publishing a tree *)

Lemma materialize_tree_cases fails copied stage m sources dirs :
  wf_manifest m -> dirs !! stage = None ->
  let '(r, dirs') := materialize_tree fails copied stage m sources dirs in
  delete stage dirs' = dirs
  /\ (is_ok r = true -> dirs' = <[stage := built_tree sources m]> dirs /\ Forall (sourced sources) (wm_entries m)).
Proof.
  intros Hm Hs. unfold materialize_tree. destruct (_ || _); [by rewrite delete_id|]. destruct (fails _).
  { by rewrite delete_insert_id. }
  destruct (materialize_entries _ _ _ _ _ _) as [[[]|e] t] eqn:E; [|by rewrite delete_insert_id].
  apply materialize_entries_ok in E as [-> Hf].
  rewrite (place_built sources m (sort_by cmp_entry (wm_entries m))); [|apply sort_by_perm|by apply wf_manifest_paths|done].
  rewrite sort_by_perm in Hf. by destruct (sync_fails _ _); rewrite delete_insert_id.
Qed.

Lemma materialize_tree_total fails copied stage m sources dirs :
  (forall s, fails s = false) -> wf_manifest m -> dirs !! stage = None -> Forall (sourced sources) (wm_entries m) ->
  materialize_tree fails copied stage m sources dirs = (Ok tt, <[stage := built_tree sources m]> dirs).
Proof.
  intros Hno Hm Hs Hf. unfold materialize_tree. rewrite Hs, !Hno. simpl. pose proof (sort_by_perm cmp_entry (wm_entries m)) as Hp.
  change (∅ : dir_tree) with (foldl (place sources) ∅ []).
  rewrite (materialize_entries_total fails copied sources (sort_by cmp_entry (wm_entries m)) [] 0).
  - simpl. rewrite (place_built sources m); [|done|by apply wf_manifest_paths|by rewrite Hp].
    unfold sync_fails. replace (existsb _ _) with false; [done|]. induction (seq _ _) as [|i l IH]; [done|]. simpl. by rewrite Hno.
  - done.
  - apply sort_by_sorted, _.
  - simpl. rewrite Hp. by apply wf_manifest_paths.
  - simpl. intros e p suffix. rewrite !Hp. apply (wfm_parents m Hm).
  - simpl. by rewrite Hp.
Qed.

Lemma undo_outcome {A} o step dir id e w :
  exists w', (undo o step dir id e : ws A) w = (Err e, w') /\ workspaces w'.1 = workspaces w.1
    /\ (fails o step = false -> directories w'.1 = delete dir (directories w.1)).
Proof.
  unfold undo, act_bind, ignore, on_blobs, modify, ret, throw. destruct (fails o step); simpl;
    destruct (release_references _ _ _ _) as [r b]; simpl; eexists; (split; [done|]); by split.
Qed.

Lemma rename_built stage target t dirs :
  stage <> target -> dirs !! stage = None -> rename stage target (<[stage := t]> dirs) = <[target := t]> dirs.
Proof. intros Hne Hs. unfold rename. by rewrite lookup_insert_eq, delete_insert_id. Qed.

Lemma stage_not_target nonce nonce' : ".staging-" +:+ nonce <> "workspace-" +:+ nonce'.
Proof. done. Qed.

(** What [publish] may answer: the whole workspace, or nothing visible. *)
Definition published (o : Outside) (id : string) (row : WorkspaceRow) (m : WorkspaceManifest) (w : World)
    (x : result WorkspaceError ReadyWorkspace * World) : Prop :=
  match x with
  | (Ok ready, w') =>
      ready = {| rw_root := wr_storage_key row; rw_logical_bytes := logical_bytes m; rw_manifest_digest := wr_manifest_digest row |}
      /\ w' = set_workspaces <[id := row]> (set_directories <[wr_storage_key row := built_tree (files w.2) m]> w)
      /\ Forall (sourced (files w.2)) (wm_entries m)
  | (Err _, w') => workspaces w'.1 = workspaces w.1
      /\ (fails o WsRemoveStage = false -> fails o WsRemoveTarget = false -> directories w'.1 = directories w.1)
  end.

Lemma undo_published o row m step dir id e w w1 :
  (step = WsRemoveStage \/ step = WsRemoveTarget) -> workspaces w1.1 = workspaces w.1 ->
  delete dir (directories w1.1) = directories w.1 -> published o id row m w (undo o step dir id e w1).
Proof.
  intros Hstep Ew Ed. destruct (undo_outcome (A := ReadyWorkspace) o step dir id e w1) as (w' & -> & E1 & E2).
  split; [congruence|]. intros Fs Ft. rewrite E2; [done|]. by destruct Hstep as [->| ->].
Qed.

Lemma publish_cases o id exec gen principal m digest expiry w :
  wf_manifest m -> directories w.1 !! (".staging-" +:+ uuid o WsRename) = None ->
  directories w.1 !! ("workspace-" +:+ uuid o WsRename) = None ->
  published o id (ready_row o exec gen principal m digest expiry) m w (publish o id exec gen principal m digest expiry w).
Proof.
  intros Hm Hs Ht. unfold publish. cbv zeta. set (stage := ".staging-" +:+ uuid o WsRename) in *.
  set (target := "workspace-" +:+ uuid o WsRename) in *. unfold act_bind at 1, attempt at 1, build_stage.
  pose proof (materialize_tree_cases (fun t => fails o (WsTree t)) (copied o) stage m (files w.2) (directories w.1) Hm Hs) as Hb.
  destruct (materialize_tree _ _ _ _ _ _) as [r dirs']. destruct Hb as [Hdel Hok]. simpl. set (w1 := set_directories (fun _ => dirs') w).
  destruct (fails o WsJoin); [by apply undo_published; auto|]. destruct r as [[]|e]; [|by apply undo_published; auto].
  destruct (Hok eq_refl) as [-> Hsrc]. unfold act_bind at 1, gets at 1.
  destruct (rename_fails _ _ _); [by apply undo_published; auto|]. unfold act_bind at 1, modify at 1.
  assert (set_directories (rename stage target) w1 = set_directories <[target := built_tree (files w.2) m]> w) as ->.
  { unfold w1, set_directories. simpl. by rewrite rename_built. }
  set (w2 := set_directories <[target := _]> w).
  assert (delete target (directories w2.1) = directories w.1) as Hdel' by (by apply delete_insert_id).
  destruct (fails o WsSyncRoot); [by apply undo_published; auto|].
  unfold act_bind at 1, attempt, insert_workspace. by destruct (_ || _); [apply undo_published; auto|].
Qed.

(** ** Before publishing *)

(** No workspace appears, disappears or changes. *)
Definition same_workspaces (w w' : World) : Prop := workspaces w'.1 = workspaces w.1 /\ directories w'.1 = directories w.1.

#[export] Instance same_workspaces_preorder : PreOrder same_workspaces.
Proof. split; [done|]. intros w1 w2 w3 [E1 F1] [E2 F2]. split; congruence. Qed.

Lemma keeps_on_blobs {A} convert (f : BlobStore -> result BlobError A * BlobStore) : keeps same_workspaces (on_blobs convert f).
Proof. intros w. unfold on_blobs. by destruct (f w.2) as [r b]. Qed.

Lemma keeps_store_manifest o principal m digest : keeps same_workspaces (store_manifest o principal m digest).
Proof. unfold store_manifest. keeps_tac; [by apply keeps_modify|apply keeps_on_blobs]. Qed.

Lemma keeps_check_entry o p : keeps same_workspaces (check_entry o p).
Proof. unfold check_entry. keeps_tac. apply keeps_on_blobs. Qed.

Lemma keeps_drop_manifest o i principal digest : keeps same_workspaces (drop_manifest o i principal digest).
Proof. unfold drop_manifest. keeps_tac; [by apply keeps_modify|apply keeps_on_blobs]. Qed.

(** The expiry [store_manifest] gives a row. *)
Definition manifest_expiry (o : Outside) (principal digest : string) (w : World) : Z :=
  let fresh_expiry := sat_add (clock o WsManifestQuery) DEFAULT_RETENTION_MILLIS in
  match (retained_manifests w.1 !! (principal, digest)) ≫= mr_expires_unix_ms with
  | Some value => Z.max (Z.max value 0) fresh_expiry
  | None => fresh_expiry
  end.

Lemma store_manifest_Ok o principal m digest w w' :
  store_manifest o principal m digest w = (Ok tt, w') ->
  let expires := manifest_expiry o principal digest w in
  WorkspaceManifest_validate m = Ok tt /\ valid_digest digest
  /\ (exists row, to_vec m = Some (manifest_json row) /\ mr_expires_unix_ms row = Some (as_i64 expires)
       /\ w'.1 = (set_manifests <[(principal, digest) := row]> w).1)
  /\ retained "manifest" (manifest_owner_id principal digest) (hash_order o (file_digests m)) (Some expires) w.2 w'.2.
Proof.
  unfold store_manifest. intros E. apply act_bind_Ok in E as (a1 & s1 & E1 & E). injection E1 as E1 <-.
  destruct (WorkspaceManifest_validate m) as [[]|]; [|done]. apply act_bind_Ok in E as (a2 & s2 & E2 & E). injection E2 as E2 <-.
  destruct (BlobDigest_parse digest) as [d'|] eqn:Ed; [|done]. apply BlobDigest_parse_ok in Ed as [_ Hd].
  apply act_bind_Ok in E as (encoded & s3 & E3 & E). injection E3 as E3 <-.
  destruct (to_vec m) as [enc|] eqn:Et; [|done]. injection E3 as ->.
  apply act_bind_Ok in E as (a4 & s4 & E4 & E). destruct (fails o WsManifestQuery); [done|]. injection E4 as <- <-.
  apply act_bind_Ok in E as (existing & s5 & E5 & E). injection E5 as <- <-.
  apply act_bind_Ok in E as (a6 & s6 & E6 & E). destruct (fails o WsManifestInsert); [done|]. injection E6 as <- <-.
  apply act_bind_Ok in E as (a7 & s7 & E7 & E). injection E7 as <- <-.
  unfold on_blobs in E. fold (manifest_expiry o principal digest w) in E.
  destruct (retain _ _ _ _ _ _) as [[[]|] b'] eqn:Er; [|done]. injection E as <-. apply retain_retained in Er.
  split; [done|]. split; [done|]. split; [|done].
  by refine (ex_intro _ _ (conj _ (conj _ eq_refl))).
Qed.

Lemma keeps_prepare o quota id principal m digest : keeps same_workspaces (prepare o quota id principal m digest).
Proof. unfold prepare. keeps_tac; [apply keeps_check_entry|apply keeps_on_blobs|apply keeps_store_manifest]. Qed.

Lemma hash_order_digests o m d :
  (forall X, hash_order o X ≡ₚ elements X) -> d ∈ hash_order o (file_digests m) <-> exists path z x, File path d z x ∈ wm_entries m.
Proof.
  intros Ho. rewrite Ho. unfold file_digests. rewrite elem_of_elements, elem_of_list_to_set, list_elem_of_omap. split.
  - intros (e & He & Hd). destruct e as [|path d' z x|]; simpl in Hd; [done| |done]. injection Hd as ->. eauto.
  - intros (path & z & x & Hin). by exists (File path d z x).
Qed.

(** What [prepare] has established when it succeeds. *)
Record prepared (o : Outside) (quota : Z) (id principal : string) (m : WorkspaceManifest) (digest : string) (w w' : World) : Prop := {
  prep_quota : (used_logical_bytes (workspaces w.1) <= I64_MAX)%Z
    /\ (sat_add (Z.max (used_logical_bytes (workspaces w.1)) 0) (logical_bytes m) <= quota)%Z;
  prep_available : Forall (available w.2) (wm_entries m);
  prep_same : same_workspaces w w';
  prep_files : files w'.2 = files w.2;
  prep_pins d : d ∈ hash_order o (file_digests m) ->
    blob_references w'.2 !! {| owner_kind := "workspace"; owner_id := id; ref_digest := d |}
    = Some (Some (as_i64 (sat_add (clock o WsRetain) DEFAULT_RETENTION_MILLIS)));
}.

Lemma prepare_Ok o quota id principal m digest w e w' :
  prepare o quota id principal m digest w = (Ok e, w') ->
  e = sat_add (clock o WsRetain) DEFAULT_RETENTION_MILLIS /\ prepared o quota id principal m digest w w'.
Proof.
  intros E. pose proof (keeps_prepare o quota id principal m digest w) as Hsame. rewrite E in Hsame. simpl in Hsame.
  unfold prepare in E. apply act_bind_Ok in E as (used & s1 & E1 & E). injection E1 as <- <-.
  apply act_bind_Ok in E as ([] & s2 & E2 & E). destruct (fails o WsUsed); [done|]. simpl in E2.
  destruct (Z.ltb_spec I64_MAX (used_logical_bytes (workspaces w.1))) as [|Hu]; [done|]. injection E2 as <-.
  apply act_bind_Ok in E as ([] & s3 & E3 & E). destruct (Z.ltb_spec quota (sat_add (Z.max (used_logical_bytes (workspaces w.1)) 0) (logical_bytes m)))
    as [|Hq]; [done|]. injection E3 as <-.
  apply act_bind_Ok in E as ([] & w1 & E4 & E). apply check_entries_Ok in E4 as [[_ Ht] Ha].
  apply act_bind_Ok in E as ([] & w2 & E5 & E). unfold on_blobs in E5.
  destruct (retain _ _ _ _ _ _) as [[[]|] b2] eqn:Er; [|done]. injection E5 as <-. apply retain_retained in Er.
  apply act_bind_Ok in E as ([] & w3 & E6 & E). injection E as <- <-.
  apply store_manifest_Ok in E6 as (_ & _ & _ & Er'). split; [done|]. split; [done..| |].
  - rewrite (ret_files _ _ _ _ _ _ Er'). simpl. rewrite (ret_files _ _ _ _ _ _ Er). apply Ht.
  - intros d Hd. rewrite (ret_others _ _ _ _ _ _ Er'); [by apply Er|]. by intros [[? _] _].
Qed.

Lemma logical_bytes_bounded m :
  wf_manifest m -> Forall typed_entry (wm_entries m) -> (0 <= logical_bytes m <= MAX_WORKSPACE_LOGICAL_BYTES)%Z.
Proof.
  intros Hm Hty. pose proof (sum_entry_bytes_nonneg _ Hty) as Hn. pose proof (wfm_logical m Hm) as Hl. unfold logical_bytes.
  rewrite fold_sat_add; [unfold MAX_WORKSPACE_LOGICAL_BYTES, U64_MAX in *; lia| |unfold U64_MAX; lia].
  apply Forall_fmap. eapply Forall_impl; [done|]. by intros e [? _].
Qed.

(** A successful publication reads back as it was written. *)
Lemma record_of_ready o exec gen principal m digest :
  wf_manifest m -> Forall typed_entry (wm_entries m) -> u64_range gen -> u64_range (clock o WsRetain) ->
  let expiry := sat_add (clock o WsRetain) DEFAULT_RETENTION_MILLIS in
  record_of (ready_row o exec gen principal m digest expiry)
  = {| execution_id := exec; generation := gen; principal_id := principal; manifest_digest := digest;
       storage_key := "workspace-" +:+ uuid o WsRename; rec_logical_bytes := logical_bytes m; state := "Ready";
       expires_unix_ms := Some expiry |}.
Proof.
  intros Hm Hty Hg Hc expiry. pose proof (logical_bytes_bounded m Hm Hty) as Hl. unfold record_of. simpl.
  rewrite !as_u64_as_i64; [|unfold expiry, sat_add, DEFAULT_RETENTION_MILLIS, u64_range, U64_MAX in *; lia|done].
  f_equal. rewrite as_i64_small by (unfold MAX_WORKSPACE_LOGICAL_BYTES, I64_MAX in *; lia). lia.
Qed.

Lemma available_hash b e path d z x content :
  available b e -> e = File path d z x -> files b !! path_for d = Some content -> sha256_hex content = d.
Proof.
  intros Ha -> Hc. destruct Ha as (_ & row & c & _ & _ & Hc' & Hq). assert (c = content) as -> by congruence.
  unfold corrupt in Hq. apply orb_false_iff in Hq as [_ Hq]. apply negb_false_iff in Hq. by apply String.eqb_eq.
Qed.

Lemma used_logical_insert rows id row :
  rows !! id = None -> wr_state row = "Ready" ->
  used_logical_bytes (<[id := row]> rows) = (wr_logical_bytes row + used_logical_bytes rows)%Z.
Proof.
  intros Hid Hr. unfold used_logical_bytes. rewrite (sum_Z_perm _ ((fun kv => wr_logical_bytes kv.2) <$>
    filter (fun kv => wr_state kv.2 = "Ready") ((id, row) :: map_to_list rows))).
  - rewrite filter_cons_True by done. done.
  - by rewrite map_to_list_insert.
Qed.

(** C7: a workspace appears whole or not at all.  Whatever fails, a
    [materialize] of a new workspace that answers has added exactly one row,
    owned by this execution, and one directory, the manifest's tree with
    every file's bytes hashing to the digest and of the size the manifest
    declares; the blobs it was built from are pinned and the quota holds.  One
    that fails has added no row, and no directory unless the removal of its
    leftovers failed too. *)
Theorem materialize_all_or_nothing (o : Outside) (quota : Z) (id exec : string) (gen : Z) (principal : string)
    (m : WorkspaceManifest) (w : World) :
  (forall X, hash_order o X ≡ₚ elements X) -> Forall typed_entry (wm_entries m) -> u64_range gen ->
  u64_range (clock o WsRetain) -> workspaces w.1 !! id = None ->
  directories w.1 !! (".staging-" +:+ uuid o WsRename) = None ->
  directories w.1 !! ("workspace-" +:+ uuid o WsRename) = None ->
  let target := "workspace-" +:+ uuid o WsRename in
  let expiry := sat_add (clock o WsRetain) DEFAULT_RETENTION_MILLIS in
  match materialize o quota id exec gen principal m w with
  | (Ok ready, w') =>
      exists digest row,
        WorkspaceManifest_digest m = Some digest
        /\ ready = {| rw_root := target; rw_logical_bytes := logical_bytes m; rw_manifest_digest := digest |}
        /\ workspaces w'.1 = <[id := row]> (workspaces w.1)
        /\ record_of row = {| execution_id := exec; generation := gen; principal_id := principal; manifest_digest := digest;
                              storage_key := target; rec_logical_bytes := logical_bytes m; state := "Ready";
                              expires_unix_ms := Some expiry |}
        /\ directories w'.1 = <[target := built_tree (files w.2) m]> (directories w.1)
        /\ (forall path d z x, File path d z x ∈ wm_entries m ->
              (exists content, files w.2 !! path_for d = Some content /\ sha256_hex content = d /\ len content = z)
              /\ blob_references w'.2 !! {| owner_kind := "workspace"; owner_id := id; ref_digest := d |}
                 = Some (Some (as_i64 expiry)))
        /\ (used_logical_bytes (workspaces w'.1) <= quota)%Z
  | (Err _, w') =>
      workspaces w'.1 = workspaces w.1
      /\ (fails o WsRemoveStage = false -> fails o WsRemoveTarget = false -> directories w'.1 = directories w.1)
  end.
Proof.
  intros Ho Hty Hgen Hclock Hid Hs Ht target expiry. unfold materialize, act_bind at 1, of_result at 1.
  destruct (WorkspaceManifest_validate m) as [[]|] eqn:Ev; [|done]. apply WorkspaceManifest_validate_ok in Ev as Hm; [|done]. simpl.
  unfold act_bind at 1, guard_err. destruct (quota <? logical_bytes m)%Z; [done|]. simpl.
  unfold act_bind at 1, of_result. destruct (WorkspaceManifest_digest m) as [digest|] eqn:Ed; [|done]. simpl.
  unfold act_bind at 1, lookup, act_bind at 1, guard_err. destruct (fails o WsLookup); [done|]. simpl. rewrite Hid. simpl.
  unfold materialize_new, act_bind at 1. pose proof (keeps_prepare o quota id principal m digest w) as [Kw Kd].
  destruct (prepare o quota id principal m digest w) as [[e|err] w1] eqn:Ep; [|done].
  apply prepare_Ok in Ep as [-> [Hq Ha _ Hf Hp]]. simpl in Kw, Kd.
  pose proof (publish_cases o id exec gen principal m digest expiry w1 Hm) as Hc. rewrite Kd in Hc.
  specialize (Hc Hs Ht). fold expiry. destruct (publish _ _ _ _ _ _ _ _ _) as [[ready|err] w2]; simpl in Hc.
  - destruct Hc as (-> & -> & Hsrc). exists digest, (ready_row o exec gen principal m digest expiry). simpl.
    rewrite Kw, Kd, Hf in *. split_and!; [done..| |done| |].
    + by apply record_of_ready.
    + intros path d z x Hin. rewrite Forall_forall in Ha, Hsrc. destruct (Hsrc _ Hin) as (c & Hc & Hz). split.
      * exists c. split; [done|]. split; [|done]. by eapply available_hash; [apply (Ha _ Hin)| |].
      * apply Hp, hash_order_digests; eauto.
    + rewrite used_logical_insert by done. simpl. pose proof (logical_bytes_bounded m Hm Hty) as Hl.
      rewrite as_i64_small by (unfold MAX_WORKSPACE_LOGICAL_BYTES, I64_MAX in *; lia).
      rewrite sat_add_small in Hq; unfold MAX_WORKSPACE_LOGICAL_BYTES, I64_MAX, U64_MAX in *; lia.
  - destruct Hc as [-> Hc]. split; [done|]. intros F1 F2. by rewrite Hc, Kd.
Qed.

(** ** Runs without failures *)

(** What a new workspace needs when no system call or statement fails. *)
Record acceptable (quota : Z) (m : WorkspaceManifest) (digest : string) (w : World) : Prop := {
  acc_used : (used_logical_bytes (workspaces w.1) <= I64_MAX)%Z;
  acc_quota : (sat_add (Z.max (used_logical_bytes (workspaces w.1)) 0) (logical_bytes m) <= quota)%Z;
  acc_available : Forall (available w.2) (wm_entries m);
  acc_digest : valid_digest digest;
}.

Section clean.
Context `{!SerdeTotal WorkspaceManifest} (o : Outside) (Hf : forall s, fails o s = false)
  (Ho : forall X, hash_order o X ≡ₚ elements X).

Lemma available_row b m d :
  Forall (available b) (wm_entries m) -> d ∈ hash_order o (file_digests m) -> is_Some (blobs b !! d).
Proof.
  intros Ha (path & z & x & Hin)%hash_order_digests; [|done]. rewrite Forall_forall in Ha.
  destruct (Ha _ Hin) as (_ & row & c & Hr & _). by eexists.
Qed.

Lemma retained_row kind id ds e b b' d : retained kind id ds e b b' -> is_Some (blobs b !! d) -> is_Some (blobs b' !! d).
Proof. intros [_ S _ _ _] [r Hr]. specialize (S d). rewrite Hr in S. destruct (blobs b' !! d); [by eexists|done]. Qed.

Lemma store_manifest_total principal m digest w :
  WorkspaceManifest_validate m = Ok tt -> valid_digest digest ->
  (forall d, d ∈ hash_order o (file_digests m) -> is_Some (blobs w.2 !! d)) ->
  exists w', store_manifest o principal m digest w = (Ok tt, w').
Proof.
  intros Hv Hd Hr. unfold store_manifest, act_bind, of_result, guard_err, gets, modify, on_blobs, ret. rewrite Hv. simpl.
  rewrite (proj2 (BlobDigest_parse_ok digest digest) (conj eq_refl Hd)). simpl.
  destruct (to_vec_total m) as [enc ->]. simpl. rewrite !Hf. simpl.
  match goal with |- context [retain false ?k ?i ?ds ?e ?b] => destruct (retain_total k i ds e b) as [b3 ->]; [done|by eexists] end.
Qed.

Lemma prepare_total quota id principal m digest w :
  WorkspaceManifest_validate m = Ok tt -> acceptable quota m digest w ->
  exists w', prepare o quota id principal m digest w = (Ok (sat_add (clock o WsRetain) DEFAULT_RETENTION_MILLIS), w').
Proof.
  intros Hv [Hu Hq Ha Hd]. unfold prepare, act_bind at 1, gets. unfold act_bind at 1, guard_err at 1. rewrite Hf.
  rewrite (proj2 (Z.ltb_ge _ _) Hu). simpl. unfold act_bind at 1, guard_err. rewrite (proj2 (Z.ltb_ge _ _) Hq). simpl.
  destruct (check_entries_pass o (wm_entries m) w Hf Ha) as [w1 E1].
  pose proof (check_entries_Ok _ _ _ _ E1) as [[_ Ht] _]. unfold act_bind at 1. rewrite E1.
  assert (Forall (available w1.2) (wm_entries m)) as Ha1 by (eapply Forall_impl; [exact Ha|]; intros e; apply (available_touched _ _ e Ht)).
  unfold act_bind at 1, on_blobs at 1. rewrite Hf.
  destruct (retain_total "workspace" id (hash_order o (file_digests m)) (Some (sat_add (clock o WsRetain) DEFAULT_RETENTION_MILLIS)) w1.2)
    as [b2 E2]; [intros d; by apply available_row|]. rewrite E2. simpl. apply retain_retained in E2.
  unfold act_bind. destruct (store_manifest_total principal m digest (w1.1, b2) Hv Hd) as [w3 ->]; [|by eexists].
  intros d Hin. eapply retained_row; [done|]. by eapply available_row.
Qed.

Lemma prepare_accepts quota id principal m digest w e w' :
  prepare o quota id principal m digest w = (Ok e, w') -> valid_digest digest -> acceptable quota m digest w.
Proof. intros [_ [[??] ? _ _ _]]%prepare_Ok ?. by split. Qed.

Lemma prepare_digest quota id principal m digest w e w' :
  prepare o quota id principal m digest w = (Ok e, w') -> valid_digest digest.
Proof.
  intros E. unfold prepare in E. apply act_bind_Ok in E as (? & ? & _ & E). apply act_bind_Ok in E as (? & ? & _ & E).
  apply act_bind_Ok in E as (? & ? & _ & E). apply act_bind_Ok in E as (? & ? & _ & E).
  apply act_bind_Ok in E as (? & ? & _ & E). apply act_bind_Ok in E as ([] & ? & E & _).
  by apply store_manifest_Ok in E as (_ & ? & _).
Qed.

Lemma available_sourced q b e : BlobInv q b -> is_symlink e = false -> available b e -> sourced (files b) e.
Proof.
  intros HI Hs. destruct e as [|path d z x|]; simpl; [done| |done]. intros (_ & row & c & Hr & Hz & Hc & Hq).
  exists c. split; [done|]. unfold corrupt in Hq. apply orb_false_iff in Hq as [Hq _].
  apply negb_false_iff, Z.eqb_eq in Hq. destruct (bi_rows _ _ HI d row Hr) as (_ & Hn & _).
  rewrite as_u64_nonneg in Hq by lia. lia.
Qed.

Lemma publish_total id exec gen principal m digest expiry w :
  wf_manifest m -> directories w.1 !! (".staging-" +:+ uuid o WsRename) = None ->
  directories w.1 !! ("workspace-" +:+ uuid o WsRename) = None -> workspaces w.1 !! id = None ->
  (forall id' row, workspaces w.1 !! id' = Some row -> wr_storage_key row <> "workspace-" +:+ uuid o WsRename) ->
  Forall (sourced (files w.2)) (wm_entries m) ->
  is_ok (publish o id exec gen principal m digest expiry w).1 = true.
Proof.
  intros Hm Hs Ht Hid Hkey Hsrc. unfold publish. cbv zeta. unfold act_bind at 1, attempt at 1, build_stage.
  rewrite (materialize_tree_total (fun t => fails o (WsTree t))) by (done || intros; apply Hf). simpl. rewrite Hf.
  unfold act_bind at 1, gets at 1, rename_fails. rewrite Hf. simpl. rewrite lookup_insert_ne, Ht by apply stage_not_target.
  unfold act_bind at 1, modify at 1. rewrite Hf. unfold act_bind at 1, attempt, insert_workspace. rewrite Hf. simpl. rewrite Hid. simpl.
  replace (existsb _ _) with false; [done|]. symmetry. apply not_true_iff_false. rewrite existsb_exists.
  intros ([id' row] & Hin%list_elem_of_In%elem_of_map_to_list & E%String.eqb_eq). by apply (Hkey id' row).
Qed.

(** The nonce of a run names nothing yet. *)
Record fresh_nonce (w : World) : Prop := {
  fn_stage : directories w.1 !! (".staging-" +:+ uuid o WsRename) = None;
  fn_target : directories w.1 !! ("workspace-" +:+ uuid o WsRename) = None;
  fn_row id row : workspaces w.1 !! id = Some row -> wr_storage_key row <> "workspace-" +:+ uuid o WsRename;
}.

(** A run without failures answers exactly when the manifest is acceptable. *)
Lemma materialize_clean q quota id exec gen principal m digest w :
  WorkspaceManifest_validate m = Ok tt -> wf_manifest m -> WorkspaceManifest_digest m = Some digest -> BlobInv q w.2 ->
  fresh_nonce w -> workspaces w.1 !! id = None ->
  let expiry := sat_add (clock o WsRetain) DEFAULT_RETENTION_MILLIS in
  let target := "workspace-" +:+ uuid o WsRename in
  match materialize o quota id exec gen principal m w with
  | (Ok ready, w') =>
      (logical_bytes m <= quota)%Z /\ acceptable quota m digest w
      /\ ready = {| rw_root := target; rw_logical_bytes := logical_bytes m; rw_manifest_digest := digest |}
      /\ workspaces w'.1 = <[id := ready_row o exec gen principal m digest expiry]> (workspaces w.1)
      /\ directories w'.1 = <[target := built_tree (files w.2) m]> (directories w.1)
  | (Err _, w') => ~ ((logical_bytes m <= quota)%Z /\ acceptable quota m digest w) /\ same_workspaces w w'
  end.
Proof.
  intros Hv Hm Hd HI [Hs Ht Hk] Hid expiry target. unfold materialize, act_bind at 1, of_result at 1. rewrite Hv. simpl.
  unfold act_bind at 1, guard_err. destruct (Z.ltb_spec quota (logical_bytes m)) as [Hl|Hl]; [by split; [lia|]|]. simpl.
  unfold act_bind at 1, of_result. rewrite Hd. simpl. unfold act_bind at 1, lookup, act_bind at 1, guard_err. rewrite Hf. simpl.
  rewrite Hid. simpl. unfold materialize_new, act_bind at 1. pose proof (keeps_prepare o quota id principal m digest w) as Hsame.
  destruct (prepare o quota id principal m digest w) as [[e|err] w1] eqn:Ep.
  2:{ split; [|done]. intros [_ Hacc]. destruct (prepare_total quota id principal m digest w Hv Hacc) as [w2 E2]. congruence. }
  pose proof (prepare_accepts _ _ _ _ _ _ _ _ Ep (prepare_digest _ _ _ _ _ _ _ _ Ep)) as Hacc.
  apply prepare_Ok in Ep as [-> [_ Ha [Kw Kd] Hfiles _]]. fold expiry.
  pose proof (publish_cases o id exec gen principal m digest expiry w1 Hm) as Hc.
  assert (Forall (sourced (files w.2)) (wm_entries m)) as Hsrc.
  { apply Forall_forall. intros e He. pose proof (wfm_symlink m Hm) as Hsym. rewrite Forall_forall in Ha, Hsym.
    by apply (available_sourced q); auto. }
  pose proof (publish_total id exec gen principal m digest expiry w1 Hm) as Hok.
  rewrite Kd, Kw, Hfiles in Hok. rewrite Kd in Hc. specialize (Hok Hs Ht Hid Hk Hsrc). specialize (Hc Hs Ht).
  destruct (publish _ _ _ _ _ _ _ _ _) as [[ready|err] w2]; [|done]. destruct Hc as (-> & -> & _). simpl.
  by rewrite Kw, Kd, Hfiles.
Qed.

(** Two manifests of one tree are interchangeable. *)
Lemma same_tree_perm m n : wf_manifest m -> wf_manifest n -> tree_of (wm_entries m) = tree_of (wm_entries n) -> wm_entries m ≡ₚ wm_entries n.
Proof. intros Hm Hn. apply tree_of_perm; by apply wf_manifest_paths. Qed.

Lemma same_tree_digest m n :
  wf_manifest m -> wf_manifest n -> wm_entries m ≡ₚ wm_entries n -> WorkspaceManifest_digest m = WorkspaceManifest_digest n.
Proof.
  intros Hm Hn Hp. unfold WorkspaceManifest_digest. rewrite (normalize_manifest_perm m n); [done|by apply wf_manifest_paths| |done].
  by rewrite (wfm_schema m Hm), (wfm_schema n Hn).
Qed.

Lemma same_tree_bytes m n :
  Forall typed_entry (wm_entries m) -> wm_entries m ≡ₚ wm_entries n -> logical_bytes m = logical_bytes n.
Proof.
  intros Hty Hp. assert (Forall typed_entry (wm_entries n)) as Hty' by (by rewrite <- Hp). unfold logical_bytes.
  assert (forall l, Forall typed_entry l -> Forall (fun z => 0 <= z)%Z (entry_bytes <$> l)) as Hn.
  { intros l Hl. apply Forall_fmap. eapply Forall_impl; [done|]. by intros e [? _]. }
  rewrite !fold_sat_add by (by auto || (unfold U64_MAX; lia)). by rewrite (sum_Z_perm _ _ (fmap_Permutation entry_bytes _ _ Hp)).
Qed.

Lemma acceptable_perm quota m n digest w :
  wm_entries m ≡ₚ wm_entries n -> logical_bytes m = logical_bytes n -> acceptable quota m digest w -> acceptable quota n digest w.
Proof. intros Hp El [H1' H2' H3' H4']. split; [done|by rewrite <- El|by rewrite <- Hp|done]. Qed.

Lemma digest_total m : is_Some (WorkspaceManifest_digest m).
Proof. unfold WorkspaceManifest_digest. destruct (to_vec_total (normalize_manifest m)) as [enc ->]. by eexists. Qed.
End clean.

(** For a workspace that exists only the digest of the manifest counts. *)
Lemma materialize_replays o quota id exec gen principal m n digest w :
  WorkspaceManifest_validate m = Ok tt -> WorkspaceManifest_validate n = Ok tt -> logical_bytes n = logical_bytes m ->
  WorkspaceManifest_digest m = Some digest -> WorkspaceManifest_digest n = Some digest -> is_Some (workspaces w.1 !! id) ->
  materialize o quota id exec gen principal m w = materialize o quota id exec gen principal n w.
Proof.
  intros Hm Hn Hb Hd Hd' [row Hid]. unfold materialize, act_bind, of_result, guard_err, lookup, act_bind, guard_err, gets.
  rewrite Hm, Hn, Hb, Hd, Hd'. simpl. destruct (_ <? _)%Z; [done|]. simpl. destruct (fails o WsLookup); [done|]. simpl. by rewrite Hid.
Qed.

(** Two runs with the same visible outcome: the same answer with the same rows
    and directories, or both an error. *)
Definition same_outcome (x y : result WorkspaceError ReadyWorkspace * World) : Prop :=
  match x, y with
  | (Ok a, w1), (Ok b, w2) => a = b /\ same_workspaces w1 w2
  | (Err _, w1), (Err _, w2) => same_workspaces w1 w2
  | _, _ => False
  end.

Lemma lookup_manifest_Some o principal digest w m :
  (lookup_manifest o principal digest w).1 = Ok (Some m) -> lookup_manifest o principal digest w = (Ok (Some m), w).
Proof.
  unfold lookup_manifest, act_bind, guard_err, gets, of_result, drop_manifest, ignore, on_blobs, modify, ret.
  destruct (fails o WsManifestQuery); [done|]. destruct (retained_manifests w.1 !! (principal, digest)) as [row|]; [|done].
  destruct (is_expired _ _); [done|]. destruct (from_slice (manifest_json row)) as [m'|]; [|done]. simpl.
  destruct (negb (is_ok _)); [by destruct (fails o (WsManifestDelete 0))|].
  destruct (forallb _ _); [|by destruct (fails o (WsManifestDelete 0))]. by intros [= ->].
Qed.

(** C19: a derived workspace is the full one.  For a retained base and a patch
    that applies to it, [materialize_derived] has the outcome of submitting any
    full manifest of the patched tree: the same identity and digest, byte for
    byte the same directory, or an error from both. *)
Theorem derived_equals_full `{!SerdeTotal WorkspaceManifest} (o : Outside) (quota q : Z) (id exec : string) (gen : Z) (principal : string)
    (patch : WorkspaceManifestPatch) (base derived full : WorkspaceManifest) (w : World) :
  (forall s, fails o s = false) -> (forall X, hash_order o X ≡ₚ elements X) -> fresh_nonce o w -> BlobInv q w.2 ->
  (lookup_manifest o principal (base_manifest_digest patch) w).1 = Ok (Some base) ->
  apply_to patch base = Ok derived -> Forall typed_entry (wm_entries derived) ->
  WorkspaceManifest_validate full = Ok tt -> Forall typed_entry (wm_entries full) ->
  tree_of (wm_entries full) = tree_of (wm_entries derived) ->
  same_outcome (materialize_derived o quota id exec gen principal patch w) (materialize o quota id exec gen principal full w).
Proof.
  intros Hf Ho Hfr HI Hbase%lookup_manifest_Some Hap Hty Hv Htyf Htree.
  assert (WorkspaceManifestPatch_validate patch = Ok tt /\ WorkspaceManifest_validate derived = Ok tt) as [Hp Hvd].
  { unfold apply_to in Hap. destruct (WorkspaceManifestPatch_validate patch) as [[]|]; [|done].
    destruct (WorkspaceManifest_validate _) as [[]|] eqn:E; [|done]. by injection Hap as <-. }
  unfold materialize_derived, act_bind at 1, of_result. rewrite Hp. simpl. unfold act_bind at 1. rewrite Hbase.
  unfold act_bind at 1. rewrite Hap. simpl.
  pose proof (proj1 (WorkspaceManifest_validate_ok _ Htyf) Hv) as Hm. pose proof (proj1 (WorkspaceManifest_validate_ok _ Hty) Hvd) as Hmd.
  pose proof (same_tree_perm _ _ Hm Hmd Htree) as Hperm. pose proof (same_tree_bytes _ _ Htyf Hperm) as Hb.
  destruct (digest_total full) as [digest Hd]. pose proof (same_tree_digest _ _ Hm Hmd Hperm) as Hdd. rewrite Hd in Hdd. symmetry in Hdd.
  destruct (workspaces w.1 !! id) as [row|] eqn:Hid.
  - rewrite (materialize_replays o quota id exec gen principal derived full digest w) by (done || by eexists).
    by destruct (materialize _ _ _ _ _ _ _ _) as [[] ?].
  - pose proof (materialize_clean o Hf Ho q quota id exec gen principal full digest w Hv Hm Hd HI Hfr Hid) as Hfull.
    pose proof (materialize_clean o Hf Ho q quota id exec gen principal derived digest w Hvd Hmd Hdd HI Hfr Hid) as Hder.
    destruct (materialize _ _ _ _ _ _ derived w) as [[a|e] w1], (materialize _ _ _ _ _ _ full w) as [[a'|e'] w2]; simpl.
    + destruct Hfull as (_ & _ & -> & Ew & Ed), Hder as (_ & _ & -> & Ew' & Ed'). unfold ready_row, built_tree in *.
      rewrite Hb, Htree in *. split; [done|]. split; congruence.
    + destruct Hder as (Hq & Hacc & _). destruct Hfull as [Hn _]. destruct Hn. rewrite Hb. split; [done|]. by eapply acceptable_perm.
    + destruct Hfull as (Hq & Hacc & _). destruct Hder as [Hn _]. destruct Hn. rewrite <- Hb. split; [done|]. by eapply acceptable_perm.
    + destruct Hfull as [_ [Ew Ed]], Hder as [_ [Ew' Ed']]. split; congruence.
Qed.

(** ** The manifest cache and the blob collector *)

Lemma forallb_has_size o l b :
  (forall s, fails o s = false) -> (forall path d z x, File path d z x ∈ l -> stored_size d b = Ok z) ->
  forallb (fun p => has_size o p.1 p.2 b) (imap pair l) = true.
Proof.
  intros Hf Hs. apply forallb_forall. intros [i e] Hin%list_elem_of_In%elem_of_imap_snd. simpl in *.
  destruct e as [|path d z x|]; [done| |done]. simpl. unfold query_size. rewrite Hf, (Hs path d z x) by done. apply Z.eqb_refl.
Qed.

(** A retained base stays usable.  Once [store_manifest] has answered for
    a manifest whose blobs are there, no sequence of blob collections before
    its expiry, whatever fails in them, takes any of its blobs: until then the
    principal that stored it gets the very manifest back, and one that has
    not stored it gets nothing. *)
Theorem retained_base_survives `{!SerdeRoundTrip WorkspaceManifest} (o o' : Outside) (principal digest : string)
    (m : WorkspaceManifest) (w w1 : World) (b : BlobStore) :
  let e := manifest_expiry o principal digest w in
  store_manifest o principal m digest w = (Ok tt, w1) -> (forall X, hash_order o X ≡ₚ elements X) ->
  Forall (available w.2) (wm_entries m) -> (0 <= e <= I64_MAX)%Z -> rtc (collects_before e) w1.2 b ->
  (forall s, fails o' s = false) -> (clock o' WsManifestQuery < e)%Z ->
  lookup_manifest o' principal digest (w1.1, b) = (Ok (Some m), (w1.1, b))
  /\ forall other, retained_manifests w.1 !! (other, digest) = None -> other <> principal ->
       lookup_manifest o' other digest (w1.1, b) = (Ok None, (w1.1, b)).
Proof.
  intros e Hst Ho Ha He Hgc Hf Hclock. apply store_manifest_Ok in Hst as (Hv & _ & (row & Henc & Hexp & Ew) & Hret). fold e in Hexp, Hret.
  split.
  - unfold lookup_manifest, act_bind, guard_err, gets, of_result, ret. rewrite Hf. simpl. rewrite Ew. simpl.
    rewrite lookup_insert_eq, Hexp. simpl. rewrite as_i64_small by lia.
    rewrite (proj2 (Z.leb_gt _ _)) by lia. apply from_slice_to_vec in Henc. rewrite Henc. simpl. rewrite Hv. simpl.
    rewrite forallb_has_size; [done|done|]. intros path d z x Hin. rewrite Forall_forall in Ha.
    assert (d ∈ hash_order o (file_digests m)) as Hd by (apply hash_order_digests; eauto).
    destruct (Ha _ Hin) as (_ & r & c & Hr & Hz & _).
    pose proof (ret_pins _ _ _ _ _ _ Hret d Hd) as Hpin. simpl in Hpin. rewrite as_i64_small in Hpin by lia.
    pose proof (ret_sizes _ _ _ _ _ _ Hret d) as Hsz. rewrite Hr in Hsz.
    destruct (collects_before_pinned _ _ _ _ Hgc Hpin) as (_ & Hsz' & _).
    { simpl. destruct (blobs w1.2 !! d); [by eexists|done]. }
    simpl in Hsz'. rewrite Hsz in Hsz'. unfold stored_size. destruct (blobs b !! d) as [rb|]; [|done]. simpl in *. injection Hsz' as ->. by rewrite Hz.
  - intros other Hn Hne. unfold lookup_manifest, act_bind, guard_err, gets. rewrite Hf. simpl. rewrite Ew. simpl.
    rewrite lookup_insert_ne by congruence. by rewrite Hn.
Qed.

Lemma keeps_collect_manifests o now i n keys : keeps same_workspaces (collect_manifests o now i n keys).
Proof.
  revert i n. induction keys as [|key keys IH]; intros i n; simpl; [apply keeps_ret, _|]. apply keeps_bind; [apply _| |intros; apply IH].
  unfold collect_manifest. keeps_tac; [by apply keeps_modify|apply keeps_on_blobs].
Qed.

(** ** The table of workspaces *)

Record WsInv (w : World) : Prop := {
  wi_keys id id' row row' : workspaces w.1 !! id = Some row -> workspaces w.1 !! id' = Some row' ->
    wr_storage_key row = wr_storage_key row' -> id = id';
  wi_rows id row : workspaces w.1 !! id = Some row ->
    wr_state row = "Ready" /\ forall e, wr_expires_unix_ms row = Some e -> (0 <= e)%Z;
}.

(** Clock readings that leave room for the retention period in an [i64]. *)
Definition time_ok (o : Outside) : Prop := forall s, (0 <= clock o s <= I64_MAX - DEFAULT_RETENTION_MILLIS)%Z.
Definition expiry_ok (e : Z) : Prop := (0 <= e <= I64_MAX)%Z.

Definition inv_kept (w w' : World) : Prop := WsInv w -> WsInv w'.

#[export] Instance inv_kept_preorder : PreOrder inv_kept.
Proof. split; [by intros w Hw|]. intros w1 w2 w3 E1 E2 Hw. by apply E2, E1. Qed.

(** Rows that go or only get another expiry. *)
Lemma inv_kept_rows w w' :
  (forall id row', workspaces w'.1 !! id = Some row' -> exists row, workspaces w.1 !! id = Some row
     /\ wr_storage_key row' = wr_storage_key row /\ wr_state row' = wr_state row
     /\ forall e, wr_expires_unix_ms row' = Some e -> wr_expires_unix_ms row = Some e \/ (0 <= e)%Z) -> inv_kept w w'.
Proof.
  intros Hrow [Hk Hr]. split.
  - intros id id' row row' (r & Hid & E & _)%Hrow (r' & Hid' & E' & _)%Hrow Ekey. eapply Hk; [exact Hid|exact Hid'|congruence].
  - intros id row (r & Hid & _ & Es & He)%Hrow. destruct (Hr id r Hid) as [Hs He']. split; [congruence|].
    intros e [?|?]%He; [by apply He'|done].
Qed.

Lemma inv_kept_same w w' : workspaces w'.1 = workspaces w.1 -> inv_kept w w'.
Proof. intros E. apply inv_kept_rows. intros id row' Hid. rewrite E in Hid. exists row'. split_and!; auto. Qed.

Lemma inv_kept_subset w w' : workspaces w'.1 ⊆ workspaces w.1 -> inv_kept w w'.
Proof. intros E. apply inv_kept_rows. intros id row' Hid. eapply lookup_weaken in Hid; [|exact E]. exists row'. split_and!; auto. Qed.

Lemma keeps_same_inv {A} (c : ws A) : keeps same_workspaces c -> keeps inv_kept c.
Proof. intros Hc w. apply inv_kept_same, Hc. Qed.

Lemma keeps_blobs_inv {A} convert (f : BlobStore -> result BlobError A * BlobStore) : keeps inv_kept (on_blobs convert f).
Proof. apply keeps_same_inv, keeps_on_blobs. Qed.

Lemma keeps_insert_inv o id row :
  wr_state row = "Ready" -> (forall e, wr_expires_unix_ms row = Some e -> (0 <= e)%Z) -> keeps inv_kept (insert_workspace o id row).
Proof.
  intros Hs He w. unfold insert_workspace. destruct (_ || _) eqn:E; [done|]. apply orb_false_iff in E as [E Hkey].
  apply orb_false_iff in E as [_ Hid]. apply is_some_false in Hid.
  assert (forall id' row', workspaces w.1 !! id' = Some row' -> wr_storage_key row' <> wr_storage_key row) as Hne.
  { intros id' row' Hid' E. apply not_true_iff_false in Hkey. apply Hkey, existsb_exists. exists (id', row').
    split; [by apply list_elem_of_In, elem_of_map_to_list|]. by apply String.eqb_eq. }
  intros [Hk Hr]. simpl. split; simpl.
  - intros i j r r' Hi Hj Ekey. apply lookup_insert_Some in Hi as [[<- <-]|[? Hi]], Hj as [[<- <-]|[? Hj]]; [done|..|by eapply Hk].
    + exfalso. by apply (Hne _ _ Hj).
    + exfalso. by apply (Hne _ _ Hi).
  - intros i r [[<- <-]|[? Hi]]%lookup_insert_Some; [done|by apply (Hr i)].
Qed.

Lemma keeps_undo_inv {A} o step dir id e : keeps inv_kept (undo o step dir id e : ws A).
Proof. unfold undo. keeps_tac; [by apply keeps_modify; intros; apply inv_kept_same|apply keeps_blobs_inv]. Qed.

Lemma initial_expiry_ok o : time_ok o -> (0 <= as_i64 (sat_add (clock o WsRetain) DEFAULT_RETENTION_MILLIS))%Z.
Proof.
  intros Ht. specialize (Ht WsRetain). unfold sat_add, DEFAULT_RETENTION_MILLIS, I64_MAX, U64_MAX in *.
  rewrite as_i64_small; unfold I64_MAX; lia.
Qed.

Lemma keeps_publish_inv o id exec gen principal m digest e :
  (0 <= as_i64 e)%Z -> keeps inv_kept (publish o id exec gen principal m digest e).
Proof.
  intros He. unfold publish. cbv zeta. keeps_tac; try apply keeps_undo_inv.
  - intros w. unfold build_stage. destruct (materialize_tree _ _ _ _ _ _). by apply inv_kept_same.
  - apply keeps_modify. intros w. by apply inv_kept_same.
  - apply keeps_insert_inv; [done|]. by intros ? [= <-].
Qed.

Lemma prepare_expiry o quota id principal m digest w e w' :
  prepare o quota id principal m digest w = (Ok e, w') -> e = sat_add (clock o WsRetain) DEFAULT_RETENTION_MILLIS.
Proof. by intros [-> _]%prepare_Ok. Qed.

Lemma keeps_new_inv o quota id exec gen principal m digest :
  time_ok o -> keeps inv_kept (materialize_new o quota id exec gen principal m digest).
Proof.
  intros Ht w. unfold materialize_new, act_bind. pose proof (keeps_same_inv _ (keeps_prepare o quota id principal m digest) w) as Hp.
  destruct (prepare _ _ _ _ _ _ _) as [[e|e] w1] eqn:E; [|done]. apply prepare_expiry in E as ->. etrans; [done|].
  apply keeps_publish_inv. by apply initial_expiry_ok.
Qed.

Lemma keeps_materialize_inv o quota id exec gen principal m : time_ok o -> keeps inv_kept (materialize o quota id exec gen principal m).
Proof. intros Ht. unfold materialize, lookup, replay. keeps_tac. by apply keeps_new_inv. Qed.

Lemma keeps_lookup_manifest o principal digest : keeps same_workspaces (lookup_manifest o principal digest).
Proof. unfold lookup_manifest. keeps_tac; apply keeps_drop_manifest. Qed.

Lemma keeps_derived_inv o quota id exec gen principal patch : time_ok o -> keeps inv_kept (materialize_derived o quota id exec gen principal patch).
Proof.
  intros Ht. unfold materialize_derived. keeps_tac; [apply keeps_same_inv, keeps_lookup_manifest|by apply keeps_materialize_inv].
Qed.

Lemma set_expiry_inv e f w :
  (forall x, e = Some x -> (0 <= x)%Z) ->
  (forall rows id row', f rows !! id = Some row' -> exists row, rows !! id = Some row /\ (row' = row \/ row' = set_expiry e row)) ->
  inv_kept w (set_workspaces f w).
Proof.
  intros He Hf. apply inv_kept_rows. intros id row' Hid. simpl in Hid. apply Hf in Hid as (row & Hid & [->| ->]); exists row;
    (split; [done|]); split_and!; auto.
Qed.

Lemma alter_expiry_rows e id (rows : gmap string WorkspaceRow) i row' :
  alter (set_expiry e) id rows !! i = Some row' -> exists row, rows !! i = Some row /\ (row' = row \/ row' = set_expiry e row).
Proof.
  destruct (decide (id = i)) as [<-|].
  - rewrite lookup_alter_eq. destruct (rows !! id) as [r|]; [|done]. intros [= <-]. eauto.
  - rewrite lookup_alter_ne by done. eauto.
Qed.

Lemma keeps_terminal_inv o id e : expiry_ok e -> keeps inv_kept (mark_terminal o id e).
Proof.
  intros [He1 He2]. unfold mark_terminal. keeps_tac; [|apply keeps_blobs_inv]. apply keeps_modify. intros w.
  apply (set_expiry_inv (Some (as_i64 e))); [intros x [= <-]; by rewrite as_i64_small by lia|]. intros rows. by apply alter_expiry_rows.
Qed.

Lemma keeps_active_inv o id : keeps inv_kept (mark_active o id).
Proof.
  unfold mark_active, active_key, activate. keeps_tac; [|apply keeps_blobs_inv]. apply keeps_modify. intros wd.
  apply (set_expiry_inv None); [done|]. intros rows. by apply alter_expiry_rows.
Qed.

Lemma keeps_recover_inv o e : expiry_ok e -> keeps inv_kept (recover_retention o e).
Proof.
  intros [He1 He2]. unfold recover_retention. keeps_tac; [|apply keeps_blobs_inv]. apply keeps_modify. intros w.
  apply (set_expiry_inv (Some (as_i64 e))); [intros x [= <-]; by rewrite as_i64_small by lia|]. intros rows i row'. rewrite lookup_fmap.
  destruct (rows !! i) as [r|]; [|done]. simpl. intros [= <-]. exists r. split; [done|]. destruct (wr_expires_unix_ms r); auto.
Qed.

(** Rows only go. *)
Definition rows_go (w w' : World) : Prop := workspaces w'.1 ⊆ workspaces w.1.

#[export] Instance rows_go_preorder : PreOrder rows_go.
Proof. unfold rows_go. split; [by intros w|]. intros w1 w2 w3 E1 E2. by etrans. Qed.

Lemma keeps_go_inv {A} (c : ws A) : keeps rows_go c -> keeps inv_kept c.
Proof. intros Hc w. apply inv_kept_subset, Hc. Qed.

Lemma keeps_transaction_go {A} o (c : ws A) : keeps rows_go c -> keeps rows_go (workspace_transaction o c).
Proof.
  intros Hc w. unfold workspace_transaction. specialize (Hc w). destruct (c w) as [[a|e] w']; [|by unfold rows_go].
  by destruct (fails o WsCommit); unfold rows_go.
Qed.

Lemma keeps_collect_one_go o now p : keeps rows_go (collect_workspace o now p).
Proof.
  destruct p as [i [id row]]. unfold collect_workspace. keeps_tac; apply keeps_modify; intros w; unfold rows_go; [done|].
  simpl. destruct (workspaces w.1 !! id) as [r|]; [|done]. destruct (decide _); [apply delete_subseteq|done].
Qed.

Lemma keeps_collect_go o scan now limit dry : keeps rows_go (garbage_collect o scan now limit dry).
Proof. apply keeps_transaction_go. keeps_tac. apply keeps_collect_one_go. Qed.

Lemma keeps_reconcile_go o : keeps rows_go (reconcile o).
Proof.
  unfold reconcile. keeps_tac; apply keeps_modify; intros w; unfold rows_go; [apply map_filter_subseteq|done|apply map_filter_subseteq].
Qed.

Lemma keeps_reconcile_manifests o scan now limit : keeps same_workspaces (reconcile_manifests o scan now limit).
Proof.
  unfold reconcile_manifests, manifest_garbage_collect, sweep. keeps_tac.
  - unfold drop_invalid. keeps_tac. apply keeps_drop_manifest.
  - apply keeps_collect_manifests.
  - unfold sweep_owner. keeps_tac. apply keeps_on_blobs.
  - by apply keeps_modify.
Qed.

(** Every call of the manager, under any failures, and any change of the blob
    store. *)
Inductive ws_step (quota : Z) (w : World) : World -> Prop :=
| ws_materialize o id exec gen principal m : time_ok o -> ws_step quota w (materialize o quota id exec gen principal m w).2
| ws_derived o id exec gen principal patch : time_ok o -> ws_step quota w (materialize_derived o quota id exec gen principal patch w).2
| ws_lookup_manifest o principal digest : ws_step quota w (lookup_manifest o principal digest w).2
| ws_terminal o id e : expiry_ok e -> ws_step quota w (mark_terminal o id e w).2
| ws_active o id : ws_step quota w (mark_active o id w).2
| ws_recover o e : expiry_ok e -> ws_step quota w (recover_retention o e w).2
| ws_recover_manifests o e : ws_step quota w (recover_manifest_retention o e w).2
| ws_collect o scan now limit dry : ws_step quota w (garbage_collect o scan now limit dry w).2
| ws_collect_manifests o scan now limit dry : ws_step quota w (manifest_garbage_collect o scan now limit dry w).2
| ws_reconcile_manifests o scan now limit : ws_step quota w (reconcile_manifests o scan now limit w).2
| ws_reconcile o : ws_step quota w (reconcile o w).2
| ws_blobs b : ws_step quota w (w.1, b).

Inductive ws_reachable (quota : Z) : World -> Prop :=
| wr_empty b : ws_reachable quota ({| workspaces := ∅; retained_manifests := ∅; directories := ∅; manifest_sweep_cursor := None |}, b)
| wr_step w w' : ws_reachable quota w -> ws_step quota w w' -> ws_reachable quota w'.

Lemma ws_step_inv quota w w' : ws_step quota w w' -> inv_kept w w'.
Proof.
  intros [o id exec gen principal m Ht|o id exec gen principal patch Ht|o principal digest|o id e He|o id|o e He|o e
    |o scan now limit dry|o scan now limit dry|o scan now limit|o|b].
  - by apply keeps_materialize_inv.
  - by apply keeps_derived_inv.
  - apply keeps_same_inv, keeps_lookup_manifest.
  - by apply keeps_terminal_inv.
  - apply keeps_active_inv.
  - by apply keeps_recover_inv.
  - apply (keeps_same_inv (recover_manifest_retention o e)). unfold recover_manifest_retention. keeps_tac. by apply keeps_modify.
  - apply keeps_go_inv, keeps_collect_go.
  - apply (keeps_same_inv (manifest_garbage_collect o scan now limit dry)). unfold manifest_garbage_collect. keeps_tac.
    apply keeps_collect_manifests.
  - apply keeps_same_inv, keeps_reconcile_manifests.
  - apply keeps_go_inv, keeps_reconcile_go.
  - by apply inv_kept_same.
Qed.

Lemma ws_reachable_inv quota w : ws_reachable quota w -> WsInv w.
Proof.
  induction 1 as [b|w w' _ IH Hs]; [|by eapply ws_step_inv].
  split; simpl; [intros id id' row row' Hid|intros id row Hid]; by rewrite lookup_empty in Hid.
Qed.

(** ** Collecting workspaces *)

(** One workspace keeps its row and its directory. *)
Definition untouched (id key : string) (w w' : World) : Prop :=
  workspaces w'.1 !! id = workspaces w.1 !! id /\ directories w'.1 !! key = directories w.1 !! key.

#[export] Instance untouched_preorder id key : PreOrder (untouched id key).
Proof. split; [done|]. intros w1 w2 w3 [E1 F1] [E2 F2]. split; congruence. Qed.

Lemma collect_one_untouched o now i id' row' id key :
  id' <> id -> wr_storage_key row' <> key -> keeps (untouched id key) (collect_workspace o now (i, (id', row'))).
Proof.
  intros Hid Hkey. unfold collect_workspace. keeps_tac; apply keeps_modify; intros w; split; simpl; try done.
  - by rewrite lookup_delete_ne.
  - destruct (workspaces w.1 !! id') as [r|]; [|done]. destruct (decide _); [|done]. by rewrite lookup_delete_ne.
Qed.

Lemma collect_untouched o scan now limit dry w id row :
  WsInv w -> scan ≡ₚ map_to_list (workspaces w.1) -> workspaces w.1 !! id = Some row -> ~ due now (wr_expires_unix_ms row) ->
  untouched id (wr_storage_key row) w (garbage_collect o scan now limit dry w).2.
Proof.
  intros HI Hs Hid Hdue. unfold garbage_collect, workspace_transaction. set (c := act_bind _ _).
  assert (keeps (untouched id (wr_storage_key row)) c) as Hc.
  { unfold c. keeps_tac. destruct x as [i [id' row']]. apply elem_of_imap_snd in H2 as Hin. simpl in Hin.
    unfold due_rows in Hin. apply elem_of_take in Hin as (j & Hin & _). apply list_elem_of_lookup_2 in Hin.
    rewrite sort_by_perm in Hin. apply list_elem_of_filter in Hin as [Hd' Hin]. rewrite Hs in Hin. apply elem_of_map_to_list in Hin.
    simpl in Hd'. apply collect_one_untouched.
    - intros ->. congruence.
    - intros E. assert (id' = id) as -> by (by eapply (wi_keys w HI)). congruence. }
  specialize (Hc w). destruct (c w) as [[a|e] w']; [|by destruct Hc]. by destruct (fails o WsCommit), Hc.
Qed.

(** When [resolve] answers. *)
Lemma resolve_Ok o id exec gen principal w ready w' :
  resolve o id exec gen principal w = (Ok ready, w') <->
  w' = w /\ fails o WsLookup = false /\ fails o WsStat = false
  /\ exists row, workspaces w.1 !! id = Some row /\ wr_state row = "Ready" /\ wr_execution_id row = exec
       /\ as_u64 (wr_generation row) = gen /\ wr_principal_id row = principal
       /\ is_expired (clock o WsLookup) (as_u64 <$> wr_expires_unix_ms row) = false
       /\ valid_storage_key (wr_storage_key row) = true /\ is_Some (directories w.1 !! wr_storage_key row)
       /\ ready = {| rw_root := wr_storage_key row; rw_logical_bytes := Z.max (wr_logical_bytes row) 0;
                     rw_manifest_digest := wr_manifest_digest row |}.
Proof.
  unfold resolve, act_bind, lookup, act_bind, guard_err, gets. split.
  - destruct (fails o WsLookup); [done|]. simpl. destruct (workspaces w.1 !! id) as [row|]; [|done]. simpl.
    destruct (_ || _) eqn:Eg; [done|]. rewrite !orb_false_iff, !negb_false_iff, !String.eqb_eq, Z.eqb_eq in Eg.
    destruct (valid_storage_key _) eqn:Ek; [|done]. simpl. destruct (fails o WsStat); [done|]. simpl.
    destruct (directories w.1 !! wr_storage_key row) eqn:Ed; [|done]. simpl. intros [= <- <-].
    split; [done|]. split; [done|]. split; [done|]. exists row. rewrite Ed. naive_solver.
  - intros (-> & -> & Hst & row & Hid & Hr & <- & <- & <- & He & Hk & [t Hd] & ->). simpl. rewrite Hid. simpl.
    rewrite Hr, !String.eqb_refl, Z.eqb_refl, He. simpl. rewrite Hk, Hst. simpl. by rewrite Hd.
Qed.

(** C25: a live workspace is found by its owner and by no one else, and
    collection leaves it alone.  In every reachable state [resolve] answers
    only to the execution, generation and principal the workspace was created
    for, and only while it has not expired; a collection at an earlier time,
    whatever fails in it, changes neither the answer nor the directory. *)
Theorem collect_keeps_live (quota : Z) (w : World) (o o' : Outside) (scan : list (string * WorkspaceRow)) (now : Z) (limit : nat)
    (dry : bool) (id exec : string) (gen : Z) (principal : string) (ready : ReadyWorkspace) :
  ws_reachable quota w -> scan ≡ₚ map_to_list (workspaces w.1) ->
  (0 <= now <= I64_MAX)%Z -> (now <= clock o' WsLookup)%Z ->
  (resolve o' id exec gen principal w).1 = Ok ready ->
  let w' := (garbage_collect o scan now limit dry w).2 in
  (exists row, workspaces w.1 !! id = Some row /\ wr_execution_id row = exec /\ as_u64 (wr_generation row) = gen
     /\ wr_principal_id row = principal /\ rw_root ready = wr_storage_key row
     /\ forall e, wr_expires_unix_ms row = Some e -> (clock o' WsLookup < e)%Z)
  /\ resolve o' id exec gen principal w' = (Ok ready, w')
  /\ directories w'.1 !! rw_root ready = directories w.1 !! rw_root ready /\ is_Some (directories w.1 !! rw_root ready).
Proof.
  intros HI%ws_reachable_inv Hs Hnow Hle Hres w'.
  destruct (proj1 (resolve_Ok o' id exec gen principal w ready _) (fst_Ok _ _ Hres))
    as (_ & Fl & Fs & row & Hid & Hst & <- & <- & <- & Hex & Hk & Hd & ->). simpl.
  assert (forall e, wr_expires_unix_ms row = Some e -> (clock o' WsLookup < e)%Z) as Hexp.
  { intros e He. rewrite He in Hex. simpl in Hex. apply Z.leb_gt in Hex. rewrite as_u64_nonneg in Hex; [done|]. by apply (wi_rows w HI id row). }
  assert (untouched id (wr_storage_key row) w w') as [Hr Hd'].
  { apply collect_untouched; try done. destruct (wr_expires_unix_ms row) as [e|]; [|by intros ?]. simpl.
    rewrite as_i64_small by lia. specialize (Hexp e eq_refl). lia. }
  split; [by exists row|]. split; [|done]. apply resolve_Ok. split; [done|]. split; [done|]. split; [done|]. exists row.
  by rewrite Hr, Hd'.
Qed.

(** ** The orphan sweep *)

Definition manifest_owners (b : BlobStore) : gset string :=
  list_to_set (owner_id <$> filter (fun k => owner_kind k = "manifest") (map_to_list (blob_references b)).*1).

(** An owner of references that no cache row stands for. *)
Definition orphan (w : World) (owner : string) : Prop :=
  match rsplit_once ":" owner with Some key => retained_manifests w.1 !! key = None | None => True end.

#[export] Instance orphan_dec w owner : Decision (orphan w owner).
Proof. unfold orphan. destruct (rsplit_once ":" owner) as [key|]; [|apply _]. destruct (retained_manifests w.1 !! key); [by right|by left]. Defined.

Lemma elem_of_owners b x :
  x ∈ manifest_owners b <-> exists k, is_Some (blob_references b !! k) /\ owner_kind k = "manifest" /\ owner_id k = x.
Proof.
  unfold manifest_owners. rewrite elem_of_list_to_set, list_elem_of_fmap. split.
  - intros (k & -> & [Hk Hin]%list_elem_of_filter). apply list_elem_of_fmap in Hin as ([k' e] & -> & Hin%elem_of_map_to_list). eauto.
  - intros (k & [e Hk] & Hkind & <-). exists k. split; [done|]. apply list_elem_of_filter. split; [done|].
    apply list_elem_of_fmap. exists (k, e). split; [done|]. by apply elem_of_map_to_list.
Qed.

Lemma release_references_lookup kind id b k :
  blob_references (release_references false kind id b).2 !! k = if decide (owned_by kind id k) then None else blob_references b !! k.
Proof.
  unfold release_references. simpl. rewrite delete_references_lookup. unfold owned_references. destruct (decide (owned_by kind id k)) as [Ho|Ho].
  - case_decide as Hin; [done|]. apply eq_None_not_Some. intros [e He]. apply Hin, list_elem_of_filter. split; [done|].
    apply list_elem_of_fmap. exists (k, e). split; [done|]. by apply elem_of_map_to_list.
  - rewrite decide_False; [done|]. by intros [? _]%list_elem_of_filter.
Qed.

Lemma owners_release x b : manifest_owners (release_references false "manifest" x b).2 = manifest_owners b ∖ {[x]}.
Proof.
  apply set_eq. intros y. rewrite elem_of_difference, elem_of_singleton, !elem_of_owners. split.
  - intros (k & Hk & Hkind & <-). rewrite release_references_lookup in Hk. case_decide as Ho; [by destruct Hk|]. split; [eauto|].
    intros E. by apply Ho.
  - intros [(k & Hk & Hkind & <-) Hne]. exists k. rewrite release_references_lookup. rewrite decide_False; [done|]. by intros [_ ?].
Qed.

Lemma rsplit_owner p d : ":"%char ∉ bytes_of d -> rsplit_once ":" (manifest_owner_id p d) = Some (p, d).
Proof. apply (rsplit_once_app ":"). Qed.

Lemma rsplit_is_owner x key : rsplit_once ":" x = Some key -> x = manifest_owner_id key.1 key.2.
Proof. destruct key as [p d]. apply (rsplit_once_Some ":"). Qed.

(** A step after which nothing is newly an orphan. *)
Definition shrinks (w w' : World) : Prop :=
  manifest_sweep_cursor w'.1 = manifest_sweep_cursor w.1 /\ manifest_owners w'.2 ⊆ manifest_owners w.2
  /\ forall x, x ∈ manifest_owners w'.2 -> orphan w' x -> orphan w x.

#[export] Instance shrinks_preorder : PreOrder shrinks.
Proof.
  split; [done|]. intros w1 w2 w3 (E1 & S1 & O1) (E2 & S2 & O2). split; [congruence|]. split; [by etrans|].
  intros x Hx Hor. apply O1; [by apply S2|]. by apply O2.
Qed.

(** [drop_manifest] when nothing fails. *)
Definition forget (p d : string) (w : World) : World :=
  let w := set_manifests (delete (p, d)) w in
  (w.1, (release_references false "manifest" (manifest_owner_id p d) w.2).2).

Lemma forget_shrinks p d w : shrinks w (forget p d w).
Proof.
  unfold forget, shrinks. simpl. pose proof (owners_release (manifest_owner_id p d) w.2) as Eo. simpl in Eo. rewrite Eo.
  split; [done|]. split; [set_solver|]. intros x [_ Hne]%elem_of_difference. unfold orphan. simpl.
  destruct (rsplit_once ":" x) as [key|] eqn:Ek; [|done]. rewrite lookup_delete_ne; [done|]. intros <-.
  apply Hne, elem_of_singleton. by apply rsplit_is_owner in Ek.
Qed.

(** Every cached digest is free of colons, as the digests [store_manifest]
    accepts are. *)
Definition tidy (w : World) : Prop := forall key row, retained_manifests w.1 !! key = Some row -> ":"%char ∉ bytes_of key.2.

(** A row keeps its row and its pins. *)
Definition spares (p d : string) (row : ManifestRow) (w w' : World) : Prop :=
  tidy w -> retained_manifests w.1 !! (p, d) = Some row ->
  tidy w' /\ retained_manifests w'.1 !! (p, d) = Some row
  /\ forall k, owned_by "manifest" (manifest_owner_id p d) k -> blob_references w'.2 !! k = blob_references w.2 !! k.

#[export] Instance spares_preorder p d row : PreOrder (spares p d row).
Proof.
  split; [by intros w|]. intros w1 w2 w3 S1 S2 Ht Hrow. destruct (S1 Ht Hrow) as (T1 & R1 & K1), (S2 T1 R1) as (T2 & R2 & K2).
  split; [done|]. split; [done|]. intros k Hk. by rewrite K2, K1.
Qed.

Lemma release_spares p d row x w :
  x <> manifest_owner_id p d -> spares p d row w (w.1, (release_references false "manifest" x w.2).2).
Proof.
  intros Hne Ht Hrow. split; [done|]. split; [done|]. intros k [Hk Hk']. simpl.
  pose proof (release_references_lookup "manifest" x w.2 k) as E.
  simpl in E. rewrite E. rewrite decide_False; [done|]. intros [_ ?]. congruence.
Qed.

Lemma owner_inj p d p' d' :
  ":"%char ∉ bytes_of d -> ":"%char ∉ bytes_of d' -> manifest_owner_id p' d' = manifest_owner_id p d -> (p', d') = (p, d).
Proof. intros Hd Hd' E. pose proof (rsplit_owner p d Hd) as E1. rewrite <- E, rsplit_owner in E1 by done. by injection E1 as -> ->. Qed.

Lemma forget_spares p d row key w :
  ":"%char ∉ bytes_of key.2 -> key <> (p, d) -> spares p d row w (forget key.1 key.2 w).
Proof.
  intros Hd' Hne Ht Hrow. destruct key as [p' d']. unfold forget. simpl in *. split.
  - intros key r Hr. simpl in Hr. apply lookup_delete_Some in Hr as [_ Hr]. by apply (Ht key r).
  - split; [by rewrite lookup_delete_ne|]. apply (release_spares p d row); [|done|done].
    intros E. apply Hne, owner_inj; [|done|done]. apply (Ht _ _ Hrow).
Qed.

(** Pages of a sorted list. *)
Lemma take_last_lt (l : list string) n x y :
  StronglySorted (fun a b => str_cmp a b <> Gt) l -> NoDup l -> last (take n l) = Some y -> x ∈ l -> x ∉ take n l -> str_cmp y x = Lt.
Proof.
  intros Hs Hd Hl Hx Hn. rewrite <- (take_drop n l) in Hx, Hs, Hd. apply elem_of_app in Hx as [?|Hx]; [done|].
  apply last_Some_elem_of in Hl. apply NoDup_app in Hd as (_ & Hd & _).
  assert (str_cmp y x <> Gt) as Hle by (by eapply (StronglySorted_app_1_elem_of (fun a b => str_cmp a b <> Gt))).
  destruct (str_cmp y x) eqn:E; [|done..]. apply (cmp_eq_eq (cmp := str_cmp)) in E as ->. by destruct (Hd x).
Qed.

Lemma past_trans c x y : past c y = true -> past (Some y) x = true -> past c x = true.
Proof.
  destruct c as [c|]; [|done]. simpl. destruct (str_cmp c y) eqn:E1; [done| |done]. destruct (str_cmp y x) eqn:E2; [done| |done].
  intros _ _. rewrite (cmp_lt_trans str_cmp c y x); [done|done|congruence].
Qed.

(** The owners still beyond the cursor. *)
Definition beyond (w : World) : gset string := filter (fun x => past (manifest_sweep_cursor w.1) x = true) (manifest_owners w.2).

(** No orphan is behind the cursor. *)
Definition ahead (w : World) : Prop :=
  forall x, x ∈ manifest_owners w.2 -> orphan w x -> past (manifest_sweep_cursor w.1) x = true.

Definition no_orphans (w : World) : Prop := forall x, x ∈ manifest_owners w.2 -> ~ orphan w x.

Section sweep.
Context (o : Outside) (Hf : forall s, fails o s = false).

Lemma drop_manifest_clean i p d w : drop_manifest o i p d w = (Ok tt, forget p d w).
Proof. unfold drop_manifest, act_bind, modify, ignore, on_blobs. rewrite !Hf. simpl. done. Qed.

Lemma collect_manifest_clean now i key w :
  collect_manifest o now i key w =
  if decide (due now ((retained_manifests w.1 !! key) ≫= mr_expires_unix_ms)) then (Ok true, forget key.1 key.2 w) else (Ok false, w).
Proof.
  unfold collect_manifest, act_bind, guard_err, gets, modify, ignore, on_blobs. rewrite !Hf. simpl.
  destruct key as [p d]. destruct (decide _); done.
Qed.

Lemma sweep_owner_clean i x w :
  (sweep_owner o (i, x) w).1 = Ok tt
  /\ (orphan w x -> (sweep_owner o (i, x) w).2 = (w.1, (release_references false "manifest" x w.2).2))
  /\ (~ orphan w x -> (sweep_owner o (i, x) w).2 = w).
Proof.
  unfold sweep_owner, act_bind, gets, ignore, on_blobs, orphan, is_retained_manifest. rewrite !Hf. simpl.
  destruct (rsplit_once ":" x) as [[p d]|]; [destruct (retained_manifests w.1 !! (p, d)) eqn:E|]; simpl; naive_solver.
Qed.

(** A pass over a list of owners. *)
Lemma sweep_list ps w :
  exists w', act_each (sweep_owner o) ps w = (Ok tt, w') /\ w'.1 = w.1
    /\ (forall x, x ∈ manifest_owners w'.2 <-> x ∈ manifest_owners w.2 /\ ~ (x ∈ ps.*2 /\ orphan w x)).
Proof.
  revert w. induction ps as [|[i x] ps IH]; intros w; cbn [act_each].
  - exists w. split; [done|]. split; [done|]. intros x. split; [|by intros [? _]]. intros Hx. split; [done|]. by intros [?%not_elem_of_nil _].
  - destruct (sweep_owner_clean i x w) as (Hr & Ho & Hn). unfold act_bind. destruct (sweep_owner o (i, x) w) as [r w1]. cbn [fst snd] in *. subst r.
    rewrite fmap_cons. cbn [snd].
    destruct (IH w1) as (w' & E & E1 & Hw'). exists w'. split; [done|]. assert (w1.1 = w.1) as E2.
    { destruct (decide (orphan w x)) as [Hor|Hor].
      - by rewrite (Ho Hor).
      - by rewrite (Hn Hor). }
    split; [congruence|]. intros y. rewrite Hw'. unfold orphan at 1. rewrite E2. fold (orphan w y).
    destruct (decide (orphan w x)) as [Hor|Hor].
    + rewrite (Ho Hor). simpl. pose proof (owners_release x w.2) as Eo. simpl in Eo. rewrite Eo.
      rewrite elem_of_difference, elem_of_singleton, elem_of_cons. destruct (decide (y = x)) as [->|]; naive_solver.
    + rewrite (Hn Hor), elem_of_cons. destruct (decide (y = x)) as [->|]; naive_solver.
Qed.

Lemma drop_invalid_shrinks ps w : exists w', act_each (drop_invalid o) ps w = (Ok tt, w') /\ shrinks w w'.
Proof.
  apply act_each_total; [apply _|]. intros [i [key row]] w1 _. unfold drop_invalid. destruct (cache_row_valid key row); [by exists w1|].
  rewrite drop_manifest_clean. eexists. split; [done|]. apply forget_shrinks.
Qed.

Lemma collect_manifests_shrinks now keys i n w : exists n' w', collect_manifests o now i n keys w = (Ok n', w') /\ shrinks w w'.
Proof.
  revert i n w. induction keys as [|key keys IH]; intros i n w; [by exists n, w|]. cbn [collect_manifests]. unfold act_bind.
  rewrite collect_manifest_clean. destruct (decide _).
  - destruct (IH (S i) (n + 1)%Z (forget key.1 key.2 w)) as (n' & w' & E & Hs). exists n', w'. split; [done|].
    etrans; [apply forget_shrinks|done].
  - apply IH.
Qed.

(** One page of the sweep. *)
Lemma sweep_pass limit w :
  let page := reference_owners "manifest" (manifest_sweep_cursor w.1) limit w.2 in
  exists w', sweep o limit w = (Ok tt, w') /\ retained_manifests w'.1 = retained_manifests w.1
    /\ manifest_sweep_cursor w'.1 = (if decide (limit <= length page) then last page else None)
    /\ (forall x, x ∈ manifest_owners w'.2 <-> x ∈ manifest_owners w.2 /\ ~ (x ∈ page /\ orphan w x)).
Proof.
  intros page. unfold sweep, act_bind at 1, guard_err. rewrite Hf. unfold ret at 1, act_bind at 1, gets at 1. fold page.
  destruct (sweep_list (imap pair page) w) as (w' & E & E1 & Hw). unfold act_bind at 1. rewrite E. unfold modify.
  eexists. split; [done|]. simpl. rewrite E1. split; [done|]. split; [done|]. intros x. rewrite Hw.
  assert (x ∈ (imap pair page).*2 <-> x ∈ page) as ->; [|done]. split.
  - intros ([i y] & -> & Hin%elem_of_imap_snd)%list_elem_of_fmap. done.
  - intros [i Hi]%elem_of_imap_pair. by apply (list_elem_of_fmap_2 snd) in Hi.
Qed.

(** The limit a pass works with. *)
Definition pass_limit (limit : nat) : nat := Nat.max 1 (Nat.min limit 1024).

Lemma reconcile_manifests_pass scan now limit w :
  exists w1 w', reconcile_manifests o scan now limit w = (Ok tt, w') /\ shrinks w w1 /\ sweep o (pass_limit limit) w1 = (Ok tt, w').
Proof.
  unfold reconcile_manifests, manifest_garbage_collect, act_bind at 1, guard_err, gets. rewrite Hf. cbn [ret]. unfold act_bind at 1.
  fold (pass_limit limit). unfold act_bind at 1.
  destruct (drop_invalid_shrinks (imap pair (take (pass_limit limit) (sort_by (cmp_on fst cmp_key) (map_to_list (retained_manifests w.1))))) w)
    as (w1 & -> & S1). unfold act_bind at 1. unfold act_bind at 1, act_bind at 1. rewrite Hf. cbn [ret]. unfold act_bind at 1.
  match goal with |- context [collect_manifests o now 0 0 ?keys w1] => destruct (collect_manifests_shrinks now keys 0 0%Z w1) as (n & w2 & -> & S2) end.
  exists w2. destruct (sweep_pass (pass_limit limit) w2) as (w' & E & _). exists w'. rewrite E. split; [done|]. split; [by etrans|done].
Qed.

Lemma page_spec limit w :
  let owners := sort_by str_cmp (elements (manifest_owners w.2)) in
  let rest := filter (fun x => past (manifest_sweep_cursor w.1) x = true) owners in
  reference_owners "manifest" (manifest_sweep_cursor w.1) limit w.2 = take limit rest
  /\ StronglySorted (fun a b => str_cmp a b <> Gt) rest /\ NoDup rest /\ (forall x, x ∈ rest <-> x ∈ beyond w).
Proof.
  intros owners rest. split; [done|]. split; [|split].
  - apply StronglySorted_filter, sort_by_sorted, _.
  - apply NoDup_filter. unfold owners. rewrite sort_by_perm. apply NoDup_elements.
  - intros x. unfold rest, owners, beyond. rewrite list_elem_of_filter, elem_of_filter, sort_by_perm, elem_of_elements. done.
Qed.

(** One pass moves the cursor on and leaves no orphan behind it, or reaches
    the end. *)
Lemma pass_progress scan now limit w :
  let w' := (reconcile_manifests o scan now limit w).2 in
  manifest_owners w'.2 ⊆ manifest_owners w.2 /\ (no_orphans w -> no_orphans w')
  /\ ((size (beyond w') < size (beyond w) /\ (ahead w -> ahead w'))
      \/ (manifest_sweep_cursor w'.1 = None /\ (ahead w -> no_orphans w'))).
Proof.
  destruct (reconcile_manifests_pass scan now limit w) as (w1 & w' & -> & (Ec & Hsub & Hor) & Hsw). cbn [snd].
  destruct (sweep_pass (pass_limit limit) w1) as (w2 & E & Er & Ecur & Hown). rewrite Hsw in E. injection E as <-.
  destruct (page_spec (pass_limit limit) w1) as (Epage & Hsort & Hnd & Hbey). rewrite Epage in *. set (rest := filter _ _) in *.
  assert (forall x, orphan w' x <-> orphan w1 x) as Horph by (intros x; unfold orphan; by rewrite Er).
  assert (forall x, x ∈ manifest_owners w'.2 -> orphan w' x -> x ∈ manifest_owners w.2 /\ orphan w x /\ x ∈ manifest_owners w1.2
            /\ x ∉ take (pass_limit limit) rest) as Hback.
  { intros x Hx Hx'. apply Horph in Hx' as Hx1. apply Hown in Hx as [Hx2 Hx3]. split; [by apply Hsub|]. split; [by apply Hor|].
    split; [done|]. intros Hp. by apply Hx3. }
  split; [intros x [Hx _]%Hown; by apply Hsub|]. split; [intros Hno x Hx Hx'; destruct (Hback x Hx Hx') as (? & ? & _); by eapply Hno|].
  assert (forall x, ahead w -> x ∈ manifest_owners w'.2 -> orphan w' x -> x ∈ rest) as Hrest.
  { intros x Ha Hx Hx'. destruct (Hback x Hx Hx') as (? & ? & ? & _). apply Hbey, elem_of_filter. rewrite Ec. split; [by apply Ha|done]. }
  destruct (decide (pass_limit limit <= length (take (pass_limit limit) rest))) as [Hfull|Hshort].
  - left. destruct (last (take (pass_limit limit) rest)) as [y|] eqn:El.
    2:{ apply last_None in El. rewrite El in Hfull. unfold pass_limit in Hfull. simpl in Hfull. lia. }
    assert (y ∈ rest) as Hy by (eapply subseteq_take, last_Some_elem_of, El). split.
    + apply subset_size. split.
      * intros x [Hpx [Hx _]%Hown]%elem_of_filter. rewrite Ecur in Hpx. apply elem_of_filter. split; [|by apply Hsub].
        apply Hbey, elem_of_filter in Hy as [Hpy _]. rewrite Ec in Hpy. by eapply past_trans.
      * intros Hsup. apply Hbey in Hy as Hyb. assert (y ∈ beyond w') as Hyw.
        { apply Hsup. apply elem_of_filter in Hyb as [Hpy Hyo]. apply elem_of_filter. rewrite <- Ec. split; [done|by apply Hsub]. }
        apply elem_of_filter in Hyw as [Hpy _]. rewrite Ecur in Hpy. simpl in Hpy. by rewrite (cmp_refl str_cmp) in Hpy.
    + intros Ha x Hx Hx'. rewrite Ecur. simpl. rewrite (take_last_lt rest (pass_limit limit) x y); try done; [by apply Hrest|].
      by apply (Hback x Hx Hx').
  - right. split; [done|]. intros Ha x Hx Hx'. destruct (Hback x Hx Hx') as (_ & _ & _ & Hn). apply Hn.
    rewrite take_ge; [by apply Hrest|]. rewrite length_take in Hshort. lia.
Qed.

Section spared.
Context (p d : string) (row : ManifestRow) (now : Z).
Hypothesis Hvalid : cache_row_valid (p, d) row = true.
Hypothesis Hdue : ~ due now (mr_expires_unix_ms row).

Lemma drop_invalid_spares i key r : ":"%char ∉ bytes_of key.2 -> (key = (p, d) -> r = row) ->
  keeps (spares p d row) (drop_invalid o (i, (key, r))).
Proof.
  intros Hc Hr w. unfold drop_invalid. destruct (cache_row_valid key r) eqn:E; [done|]. rewrite drop_manifest_clean.
  apply forget_spares; [done|]. intros ->. rewrite Hr in E by done. congruence.
Qed.

Lemma collect_manifests_spares keys i n : keeps (spares p d row) (collect_manifests o now i n keys).
Proof.
  revert i n. induction keys as [|key keys IH]; intros i n; cbn [collect_manifests]; [apply keeps_ret, _|].
  apply keeps_bind; [apply _| |intros; apply IH]. intros w. rewrite collect_manifest_clean. destruct (decide _) as [Hd|]; [|done].
  intros Ht Hrow. destruct (retained_manifests w.1 !! key) as [r|] eqn:Er; [|done].
  apply forget_spares; [by apply (Ht _ _ Er)| |done|done]. intros ->. by simplify_eq.
Qed.

Lemma sweep_owner_spares q : keeps (spares p d row) (sweep_owner o q).
Proof.
  destruct q as [i x]. intros w Ht Hrow. destruct (sweep_owner_clean i x w) as (_ & Ho & Hn). destruct (decide (orphan w x)) as [Hor|Hor].
  - rewrite (Ho Hor). apply (release_spares p d row); [|done|done]. intros ->. unfold orphan in Hor.
    rewrite rsplit_owner in Hor by (apply (Ht _ _ Hrow)). congruence.
  - by rewrite (Hn Hor).
Qed.

Lemma pass_spares scan limit w : spares p d row w (reconcile_manifests o scan now limit w).2.
Proof.
  intros Ht Hrow. unfold reconcile_manifests, manifest_garbage_collect, act_bind at 1, guard_err, gets. rewrite Hf. cbn [ret].
  unfold act_bind at 1. set (rows := take _ _).
  match goal with |- context [act_bind ?c ?k w] => enough (keeps (spares p d row) (act_bind c k)) as Hk by (by apply (Hk w)) end.
  keeps_tac.
  - destruct x as [i [key r]]. apply elem_of_imap_snd in H2. unfold rows in H2. apply elem_of_take in H2 as (j & Hj & _).
    apply list_elem_of_lookup_2 in Hj. rewrite sort_by_perm in Hj. apply elem_of_map_to_list in Hj. apply drop_invalid_spares.
    + by apply (Ht _ _ Hj).
    + intros ->. congruence.
  - intros s. done.
  - apply collect_manifests_spares.
  - unfold sweep. keeps_tac; [apply sweep_owner_spares|]. by apply keeps_modify; intros s Hs1 Hs2.
Qed.
End spared.

Section passes.
Context (scan : World -> list ((string * string) * ManifestRow)) (now : Z) (limit : nat).
Let pass (w : World) : World := (reconcile_manifests o scan now limit w).2.

Lemma passes_no_orphans n w : no_orphans w -> no_orphans (Nat.iter n pass w).
Proof. intros Hn. induction n as [|n IH]; [done|]. simpl. by apply (pass_progress scan now limit (Nat.iter n pass w)). Qed.

Lemma passes_owners n w : manifest_owners (Nat.iter n pass w).2 ⊆ manifest_owners w.2.
Proof.
  induction n as [|n IH]; [done|]. simpl. etrans; [|exact IH]. apply (pass_progress scan now limit (Nat.iter n pass w)).
Qed.

(** With no orphan behind the cursor, one round to the end suffices. *)
Lemma passes_ahead n w : size (beyond w) < n -> ahead w -> no_orphans (Nat.iter n pass w).
Proof.
  revert w. induction n as [|n IH]; intros w Hn Ha; [lia|]. rewrite Nat.iter_succ_r.
  destruct (pass_progress scan now limit w) as (_ & _ & [[Hs Ha']|[_ Hno]]).
  - apply IH; [unfold pass in *; lia|by apply Ha'].
  - apply passes_no_orphans. by apply Hno.
Qed.

(** From anywhere the cursor wraps. *)
Lemma passes_wrap n w : size (beyond w) < n -> exists j, j <= n /\ manifest_sweep_cursor (Nat.iter j pass w).1 = None.
Proof.
  revert w. induction n as [|n IH]; intros w Hn; [lia|].
  destruct (pass_progress scan now limit w) as (_ & _ & [[Hs _]|[Hc _]]).
  - destruct (IH (pass w)) as (j & Hj & Ec); [unfold pass in *; lia|]. exists (S j). split; [lia|]. by rewrite Nat.iter_succ_r.
  - exists 1. split; [lia|done].
Qed.

Lemma beyond_size w : size (beyond w) <= size (manifest_owners w.2).
Proof. apply subseteq_size. unfold beyond. set_solver. Qed.

Lemma passes_complete w : no_orphans (Nat.iter (2 * size (manifest_owners w.2) + 2) pass w).
Proof.
  set (k := size (manifest_owners w.2)). pose proof (beyond_size w) as Hb.
  destruct (passes_wrap (k + 1) w) as (j & Hj & Ec); [lia|].
  replace (2 * k + 2) with ((2 * k + 2 - j) + j) by lia. rewrite Nat.iter_add. apply passes_ahead.
  - pose proof (beyond_size (Nat.iter j pass w)). pose proof (subseteq_size _ _ (passes_owners j w)). lia.
  - intros x _ _. by rewrite Ec.
Qed.
End passes.

(** The bounded sweep reaches every orphan.  However many owners there
    are and wherever its cursor stands, after twice as many passes as there
    are owners, plus two, no reference is left that no cached manifest stands
    for; and no number of passes takes the row or a pin of a valid manifest
    that has not expired. *)
Theorem orphan_sweep_complete (scan : World -> list ((string * string) * ManifestRow)) (now : Z) (limit : nat) (w : World) :
  let pass := fun w => (reconcile_manifests o scan now limit w).2 in
  no_orphans (Nat.iter (2 * size (manifest_owners w.2) + 2) pass w)
  /\ forall n p d row, tidy w -> retained_manifests w.1 !! (p, d) = Some row -> cache_row_valid (p, d) row = true ->
       ~ due now (mr_expires_unix_ms row) ->
       retained_manifests (Nat.iter n pass w).1 !! (p, d) = Some row
       /\ forall k, owned_by "manifest" (manifest_owner_id p d) k ->
            blob_references (Nat.iter n pass w).2 !! k = blob_references w.2 !! k.
Proof.
  intros pass. split.
  - apply passes_complete.
  - intros n p d row Ht Hrow Hv Hd. enough (spares p d row w (Nat.iter n pass w)) as Hs by (by apply Hs).
    clear Ht Hrow. induction n as [|n IH]; [done|]. simpl. etrans; [exact IH|]. by apply pass_spares.
Qed.
End sweep.

(** ** Reconciliation at start *)

(** A loop that deletes the rows under some keys. *)
Lemma delete_keys_loop (bad : gmap string dir_tree -> string -> bool) (f : nat * string -> ws unit) ps w :
  (forall p w, f p w = (Ok tt, if bad (directories w.1) p.2 then delete_key p.2 w else w)) ->
  exists w', act_each f ps w = (Ok tt, w') /\ directories w'.1 = directories w.1
    /\ forall id row, workspaces w'.1 !! id = Some row <->
         workspaces w.1 !! id = Some row /\ ~ (wr_storage_key row ∈ ps.*2 /\ bad (directories w.1) (wr_storage_key row) = true).
Proof.
  intros Hf. revert w. induction ps as [|[i key] ps IH]; intros w; cbn [act_each].
  - exists w. split; [done|]. split; [done|]. intros id row. split; [|by intros [? _]]. intros Hr. split; [done|].
    by intros [?%not_elem_of_nil _].
  - unfold act_bind. rewrite Hf, fmap_cons. cbn [snd]. destruct (IH (if bad (directories w.1) key then delete_key key w else w)) as (w' & E & Ed & Hw).
    exists w'. split; [done|]. assert (directories (if bad (directories w.1) key then delete_key key w else w).1 = directories w.1) as E1
      by (by destruct (bad _ _)). rewrite E1 in *. split; [done|]. intros id row. rewrite Hw, elem_of_cons.
    destruct (bad (directories w.1) key) eqn:Eb; [|split; [|naive_solver]].
    + simpl. rewrite map_lookup_filter_Some. simpl. destruct (decide (wr_storage_key row = key)) as [->|]; naive_solver.
    + intros [Hr Hn]. split; [done|]. intros [[->|?] ?]; [congruence|naive_solver].
Qed.

(** A loop that removes some directories. *)
Lemma remove_directories_loop (bad : string -> bool) (f : nat * string -> ws unit) ps w :
  (forall p w, f p w = (Ok tt, if bad p.2 then set_directories (delete p.2) w else w)) ->
  exists w', act_each f ps w = (Ok tt, w') /\ workspaces w'.1 = workspaces w.1
    /\ forall name, directories w'.1 !! name = if decide (name ∈ ps.*2 /\ bad name = true) then None else directories w.1 !! name.
Proof.
  intros Hf. revert w. induction ps as [|[i key] ps IH]; intros w; cbn [act_each].
  - exists w. split; [done|]. split; [done|]. intros name. rewrite decide_False; [done|]. by intros [?%not_elem_of_nil _].
  - unfold act_bind. rewrite Hf, fmap_cons. cbn [snd]. destruct (IH (if bad key then set_directories (delete key) w else w)) as (w' & E & Ed & Hw).
    exists w'. split; [done|]. split; [by destruct (bad key)|]. intros name. rewrite Hw.
    destruct (decide (name ∈ ps.*2 /\ bad name = true)) as [[? ?]|Hn].
    + rewrite decide_True; [done|]. split; [by right|done].
    + destruct (decide (name ∈ key :: ps.*2 /\ bad name = true)) as [[[->|?]%elem_of_cons Hb]|Hn'].
      * rewrite Hb. simpl. by rewrite lookup_delete_eq.
      * naive_solver.
      * destruct (bad key) eqn:Eb; [|done]. simpl. rewrite lookup_delete_ne; [done|]. intros ->. apply Hn'. split; [by left|done].
Qed.

Lemma elem_of_known rows key : key ∈ known_keys rows <-> exists id row, rows !! id = Some row /\ wr_storage_key row = key.
Proof.
  unfold known_keys. rewrite elem_of_list_to_set, list_elem_of_fmap. split.
  - intros ([id row] & -> & Hin%elem_of_map_to_list). eauto.
  - intros (id & row & Hid & <-). exists (id, row). split; [done|]. by apply elem_of_map_to_list.
Qed.

Lemma valid_key_not_stage key : valid_storage_key key = true -> starts_with ".staging-" key = false.
Proof.
  unfold valid_storage_key. destruct (strip_prefix "workspace-" key) as [v|] eqn:E; [|done]. apply strip_prefix_spec in E as ->. done.
Qed.

(** The three loops of [reconcile] when nothing fails. *)
Lemma reconcile_loops (o : Outside) (w : World) :
  (forall s, fails o s = false) -> (forall X, hash_order o X ≡ₚ elements X) ->
  let known := filter (fun key => valid_storage_key key = true) (known_keys (workspaces w.1)) in
  exists w', reconcile o w = (Ok tt, w')
  /\ (forall name, directories w'.1 !! name = if decide (name ∈ known) then directories w.1 !! name else None)
  /\ (forall id row, workspaces w'.1 !! id = Some row <->
        workspaces w.1 !! id = Some row /\ valid_storage_key (wr_storage_key row) = true
        /\ ~ (wr_storage_key row ∈ known /\ directories w'.1 !! wr_storage_key row = None)).
Proof.
  intros Hf Ho known. unfold reconcile, act_bind at 1, guard_err at 1. rewrite Hf. unfold ret at 1, act_bind at 1, gets at 1. unfold act_bind at 1.
  destruct (delete_keys_loop (fun _ key => negb (valid_storage_key key))
    (fun p => if valid_storage_key p.2 then ret tt else guard_err (fails o (WsDelete p.1)) WeMetadata ;! modify (delete_key p.2))
    (imap pair (hash_order o (known_keys (workspaces w.1)))) w) as (w1 & -> & Ed1 & Hw1).
  { intros p w1. unfold act_bind, guard_err, modify, ret. rewrite Hf. by destruct (valid_storage_key p.2). }
  unfold act_bind at 1, guard_err at 1. rewrite Hf. unfold ret at 1, act_bind at 1, gets at 1, act_bind at 1.
  fold known.
  destruct (remove_directories_loop (fun name => starts_with ".staging-" name || negb (bool_decide (name ∈ known)))
    (fun p => if starts_with ".staging-" p.2 || negb (bool_decide (p.2 ∈ known))
              then guard_err (fails o (WsRemoveDirectory p.1)) WeIo ;! modify (set_directories (delete p.2)) else ret tt)
    (imap pair (hash_order o (dom (directories w1.1)))) w1) as (w2 & -> & Ew2 & Hd2).
  { intros p w2. unfold act_bind, guard_err, modify, ret. rewrite Hf. by destruct (_ || _). }
  destruct (delete_keys_loop (fun dirs key => negb (is_some (dirs !! key)))
    (fun p => let! present := gets (fun w => is_some (directories w.1 !! p.2)) in
              if present then ret tt else guard_err (fails o (WsDeleteMissing p.1)) WeMetadata ;! modify (delete_key p.2))
    (imap pair (hash_order o known)) w2) as (w3 & -> & Ed3 & Hw3).
  { intros p w3. unfold act_bind, guard_err, modify, ret, gets. rewrite Hf. by destruct (is_some _). }
  rewrite imap_pair_snd in *. rewrite Ew2 in Hw3. rewrite Ed1 in *. exists w3. split; [done|]. rewrite Ed3. split.
  - intros name. rewrite Hd2. destruct (decide (name ∈ known)) as [Hn|Hn].
    + rewrite decide_False; [done|]. intros [_ Hb]. rewrite bool_decide_true, orb_false_r in Hb by done.
      apply elem_of_filter in Hn as [Hv _]. by rewrite valid_key_not_stage in Hb.
    + case_decide as Hc; [done|]. apply eq_None_not_Some. intros Hs. apply Hc. split; [by rewrite Ho, elem_of_elements, elem_of_dom|].
      rewrite bool_decide_false by done. apply orb_true_r.
  - intros id row. rewrite Hw3, Hw1, !Ho, !elem_of_elements, !negb_true_iff, is_some_false. split.
    + intros [[Hr Hn1] Hn2]. split; [done|]. split; [|done]. apply not_false_iff_true. intros Hv. apply Hn1. split; [|done].
      apply elem_of_known. eauto.
    + intros (Hr & Hv & Hn). split; [|done]. split; [done|]. intros [_ ?]. congruence.
Qed.

(** Opening the manager makes the table and the directories agree.  It
    keeps exactly the rows with a well-formed storage key and a directory, and
    exactly the directories those rows name, with their contents: no staging
    directory, no directory without a row and no row without a directory
    survives a restart. *)
Theorem workspace_open_reconciles (o : Outside) (w : World) :
  (forall s, fails o s = false) -> (forall X, hash_order o X ≡ₚ elements X) ->
  let '(r, w') := reconcile o w in
  r = Ok tt
  /\ (forall id row, workspaces w'.1 !! id = Some row <->
        workspaces w.1 !! id = Some row /\ valid_storage_key (wr_storage_key row) = true
        /\ is_Some (directories w.1 !! wr_storage_key row))
  /\ (forall name t, directories w'.1 !! name = Some t <->
        directories w.1 !! name = Some t /\ exists id row, workspaces w'.1 !! id = Some row /\ wr_storage_key row = name).
Proof.
  intros Hf Ho. destruct (reconcile_loops o w Hf Ho) as (w' & -> & Hd & Hw). split; [done|].
  assert (forall id row, workspaces w'.1 !! id = Some row <->
            workspaces w.1 !! id = Some row /\ valid_storage_key (wr_storage_key row) = true
            /\ is_Some (directories w.1 !! wr_storage_key row)) as Hrows.
  { intros id row. rewrite Hw. split.
    - intros (Hr & Hv & Hn). assert (wr_storage_key row ∈ filter (fun key => valid_storage_key key = true) (known_keys (workspaces w.1))) as Hk.
      { apply elem_of_filter. split; [done|]. apply elem_of_known. eauto. }
      split; [done|]. split; [done|]. rewrite Hd, decide_True in Hn by done. destruct (directories w.1 !! wr_storage_key row); [by eexists|].
      destruct Hn. done.
    - intros (Hr & Hv & [t Ht]). split; [done|]. split; [done|]. intros [Hk Hnone]. rewrite Hd, decide_True in Hnone by done. congruence. }
  split; [done|]. intros name t. rewrite Hd. split.
  - case_decide as Hk; [|done]. intros Ht. split; [done|]. apply elem_of_filter in Hk as [Hv (id & row & Hid & <-)%elem_of_known].
    exists id, row. split; [|done]. apply Hrows. eauto.
  - intros [Ht (id & row & Hid & <-)]. rewrite decide_True; [done|]. apply Hrows in Hid as (Hid & Hv & _).
    apply elem_of_filter. split; [done|]. apply elem_of_known. eauto.
Qed.
End proofs.

(** ** Witnesses *)

#[local] Instance w_sha : Sha256 := zero_sha256.
#[local] Instance w_serde : Serde WorkspaceManifest := tree_serde.
#[local] Instance w_serde_total : SerdeTotal WorkspaceManifest := tree_serde_total.
#[local] Instance w_serde_ok : SerdeRoundTrip WorkspaceManifest := tree_serde_roundtrip.
#[local] Instance w_uuid : UuidParse := fun _ => true.

(** A node whose blob store holds one blob of three bytes, and a manifest of a
    directory with one file in it. *)
Definition w_outside : Outside :=
  {| fails := fun _ => false; clock := fun _ => 1000%Z; uuid := fun _ => "n"; hash_order := fun X => elements X; copied := fun _ => 0 |}.
Definition w_manager : WorkspaceManager :=
  {| workspaces := ∅; retained_manifests := ∅; directories := ∅; manifest_sweep_cursor := None |}.
Definition w_world : World := (w_manager, w_uploaded).
Definition w_manifest : WorkspaceManifest :=
  {| wm_schema_version := 1; wm_entries := [File "d/f" zeros 3 true; Directory "d"] |}.

Definition w_run := materialize w_outside 100 "w" "e" 1 "p" w_manifest w_world.

Lemma w_typed : Forall typed_entry (wm_entries w_manifest).
Proof. repeat constructor; unfold entry_bytes, U64_MAX; lia. Qed.

Lemma w_time : time_ok w_outside.
Proof. intros s. unfold w_outside, clock, I64_MAX, DEFAULT_RETENTION_MILLIS. lia. Qed.

Lemma w_blobs_inv : BlobInv 10 w_uploaded.
Proof. apply (blob_reachable_inv (H := zero_sha256) 10 false); [lia|apply w_upload_reachable]. Qed.

Lemma materialize_all_or_nothing_witness :
  w_run.1 = Ok {| rw_root := "workspace-n"; rw_logical_bytes := 3; rw_manifest_digest := zeros |}
  /\ directories w_run.2.1 = <["workspace-n" := built_tree (files w_uploaded) w_manifest]> ∅.
Proof.
  assert (w_run.1 = Ok {| rw_root := "workspace-n"; rw_logical_bytes := 3; rw_manifest_digest := zeros |}) as E by (vm_compute; reflexivity).
  pose proof (materialize_all_or_nothing w_outside 100 "w" "e" 1 "p" w_manifest w_world (fun X => reflexivity _) w_typed) as Hm.
  split; [exact E|]. fold w_run in Hm. destruct w_run as [[ready|err] w']; [|done].
  destruct Hm as (digest & row & Hm); unfold u64_range, U64_MAX; try done; simpl; try lia. apply Hm.
Defined.

(** The node once the manifest is retained. *)
Definition w_cached : World := (store_manifest w_outside "p" w_manifest zeros w_world).2.
Definition w_cached_only : World := (w_cached.1, w_uploaded).
Definition w_patch : WorkspaceManifestPatch :=
  {| wp_schema_version := 1; base_manifest_digest := zeros; wp_entries := [PFile "g" zeros 3 false] |}.
Definition w_derived : WorkspaceManifest :=
  {| wm_schema_version := 1; wm_entries := [Directory "d"; File "d/f" zeros 3 true; File "g" zeros 3 false] |}.
Definition w_full : WorkspaceManifest :=
  {| wm_schema_version := 1; wm_entries := [File "g" zeros 3 false; Directory "d"; File "d/f" zeros 3 true] |}.

Lemma derived_equals_full_witness :
  is_ok (materialize_derived w_outside 100 "w" "e" 1 "p" w_patch w_cached_only).1 = true
  /\ same_outcome (materialize_derived w_outside 100 "w" "e" 1 "p" w_patch w_cached_only)
       (materialize w_outside 100 "w" "e" 1 "p" w_full w_cached_only).
Proof.
  split; [vm_compute; reflexivity|].
  apply (derived_equals_full w_outside 100 10 "w" "e" 1 "p" w_patch w_manifest w_derived w_full w_cached_only).
  - done.
  - done.
  - split; [vm_compute; reflexivity|vm_compute; reflexivity|]. intros id row Hid.
    assert (workspaces w_cached_only.1 = ∅) as E by (vm_compute; reflexivity). rewrite E in Hid.
    rewrite lookup_empty in Hid. discriminate Hid.
  - apply w_blobs_inv.
  - vm_compute; reflexivity.
  - vm_compute; reflexivity.
  - repeat constructor; unfold entry_bytes, U64_MAX; lia.
  - vm_compute; reflexivity.
  - repeat constructor; unfold entry_bytes, U64_MAX; lia.
  - vm_compute; reflexivity.
Defined.

Lemma w_available : Forall (available w_uploaded) (wm_entries w_manifest).
Proof.
  repeat constructor; unfold MAX_BLOB_BYTES; [lia|]. exists {| size_bytes := 3; reference_count := 0; last_used_unix_ms := 7 |}, (concat w_input).
  repeat split; vm_compute; reflexivity.
Qed.

(** A collection well before the manifest expires. *)
Definition w_collected : BlobStore :=
  (Blob.garbage_collect (fun _ => false) (map_to_list (blob_references w_cached.2)) (map_to_list (blobs w_cached.2)) 2000 10 false w_cached.2).2.

Lemma w_stored : store_manifest w_outside "p" w_manifest zeros w_world = (Ok tt, w_cached).
Proof.
  assert ((store_manifest w_outside "p" w_manifest zeros w_world).1 = Ok tt) as E by (vm_compute; reflexivity).
  unfold w_cached. by rewrite <- E, <- surjective_pairing.
Qed.

Lemma w_expiry : manifest_expiry w_outside "p" zeros w_world = 2592001000%Z.
Proof. vm_compute. reflexivity. Qed.

Lemma w_collects : rtc (collects_before (manifest_expiry w_outside "p" zeros w_world)) w_cached.2 w_collected.
Proof. rewrite w_expiry. apply rtc_once, cb_collect; done. Qed.

Lemma retained_base_survives_witness :
  lookup_manifest w_outside "p" zeros (w_cached.1, w_collected) = (Ok (Some w_manifest), (w_cached.1, w_collected)).
Proof.
  apply (retained_base_survives w_outside w_outside "p" zeros w_manifest w_world w_cached w_collected w_stored (fun X => reflexivity _) w_available).
  - rewrite w_expiry. unfold I64_MAX. lia.
  - apply w_collects.
  - intros s. reflexivity.
  - rewrite w_expiry. reflexivity.
Defined.

Lemma collect_keeps_live_witness :
  (resolve w_outside "w" "e" 1 "p" (garbage_collect w_outside (map_to_list (workspaces w_run.2.1)) 900 10 false w_run.2).2).1
  = Ok {| rw_root := "workspace-n"; rw_logical_bytes := 3; rw_manifest_digest := zeros |}.
Proof.
  destruct (collect_keeps_live 100 w_run.2 w_outside w_outside (map_to_list (workspaces w_run.2.1)) 900 10 false "w" "e" 1 "p"
    {| rw_root := "workspace-n"; rw_logical_bytes := 3; rw_manifest_digest := zeros |}) as (_ & E & _).
  - eapply wr_step; [apply (wr_empty 100 w_uploaded)|]. apply ws_materialize, w_time.
  - done.
  - unfold I64_MAX. lia.
  - vm_compute; discriminate.
  - vm_compute; reflexivity.
  - by rewrite E.
Defined.

(** A reference left behind for a manifest that is not cached. *)
Definition w_orphan : World := (w_manager, insert_reference {| owner_kind := "manifest"; owner_id := "p:x"; ref_digest := zeros |} None w_uploaded).

Lemma orphan_sweep_complete_witness :
  ~ no_orphans w_orphan
  /\ no_orphans (Nat.iter 4 (fun w => (reconcile_manifests w_outside (fun w => map_to_list (retained_manifests w.1)) 900 10 w).2) w_orphan).
Proof.
  split.
  - intros Hn. apply (Hn "p:x"); [|vm_compute; reflexivity]. apply elem_of_owners.
    exists {| owner_kind := "manifest"; owner_id := "p:x"; ref_digest := zeros |}. split; [by eexists|done].
  - apply (orphan_sweep_complete w_outside (fun _ => eq_refl) (fun w => map_to_list (retained_manifests w.1)) 900 10 w_orphan).
Defined.

Lemma workspace_open_reconciles_witness :
  let left_over := set_directories <[".staging-x" := ∅]> w_run.2 in
  (reconcile w_outside left_over).1 = Ok tt /\ directories (reconcile w_outside left_over).2.1 !! ".staging-x" = None.
Proof.
  intros left_over. pose proof (workspace_open_reconciles w_outside left_over (fun _ => eq_refl) (fun X => reflexivity _)) as Hr.
  destruct (reconcile w_outside left_over) as [r w'] eqn:E. destruct Hr as (-> & _). split; [done|].
  change w' with ((Ok tt : result WorkspaceError unit, w').2). rewrite <- E. vm_compute; reflexivity.
Defined.
