(* ===== verification/Artifact.v ===== *)
(** * Artifacts

    [eggwork-server/src/artifact.rs]: what an execution declared as its outputs
    is discovered below its workspace, copied into the blob store, recorded
    with an owner and an expiry, listed, fetched and collected.

    The workspace is a tree of files, directories, links and other nodes; the
    children of a directory come in the order the system lists them, and a name
    that is not UTF-8 is [None].  Everything outside the code's control is one
    record, [ArtOutside]: which calls fail, what the two passes over an open
    file read, the clock and the random names. *)

From Stdlib Require Import Ascii String ZArith Lia.
From stdpp Require Import base gmap strings list sorting relations.
From S2P Require Import Prelude Ids Wire Spec Manifest Blob.
Open Scope act_scope.

Definition MAX_ARTIFACT_FILES : Z := 4096.
Definition MAX_ARTIFACT_TOTAL_BYTES : Z := 2 * 1024 * 1024 * 1024.

Inductive ArtifactError : Type :=
| AeMissingRequired
| AeUnsupportedType
| AeLimit
| AeInvalidTree
| AeIo
| AeBlob (error : BlobError)
| AeSql
| AeJson
| AeWorker.

Inductive ArtifactType : Type := AtFile.

Record ArtifactRecord := {
  artifact_id : string;
  ar_execution_id : string;
  ar_generation : Z;
  ar_path : string;
  ar_kind : ArtifactType;
  ar_digest : string;
  ar_size_bytes : Z;
  ar_executable : bool;
  ar_created_unix_ms : Z;
  ar_expires_unix_ms : Z;
}.

(** A row of [artifacts], whose key is the artifact's id. *)
Record ArtifactRow := {
  at_execution_id : string;
  at_generation : Z;
  at_principal_id : string;
  record_json : bytes;
  at_created_unix_ms : Z;
  at_expires_unix_ms : Z;
}.

Abbreviation ArtifactStore := (gmap string ArtifactRow).

Record ArtifactGcReport := { candidate_artifacts : Z; deleted_artifacts : Z }.

(** A node of the workspace's file system. *)
Inductive fs_node : Type :=
| FsFile (content : bytes) (executable : bool)
| FsDirectory (children : list (option string * fs_node))
| FsSymlink
| FsOther.

(** The kinds of I/O error the code tells apart. *)
Inductive IoKind : Type := IoNotFound | IoInvalidInput | IoOther.

(** What the two passes over an open file read; [None] is a failing read. *)
Record Reading := { first_pass : list (option bytes); second_pass : list (option bytes) }.

Record ArtOutside := {
  stat_fails : string -> bool;
  list_fails : string -> bool;
  root_stat_fails : bool;
  join_fails : bool;
  open_fails : string -> bool;
  reads : string -> Reading;
  verify_fails : string -> VerifyStep -> bool;
  put_fails : string -> PutStep -> bool;
  part_uuid : string -> string;
  put_now : string -> Z;
  record_uuid : string -> string;
  record_now : string -> Z;
  retain_fails : bool;
  insert_fails : nat -> bool;
  commit_fails : bool;
}.

(** ** Discovery *)

Definition child (node : fs_node) (name : string) : option fs_node :=
  match node with
  | FsDirectory children => snd <$> find (fun c => bool_decide (c.1 = Some name)) children
  | _ => None
  end.

(** [current.push(component)], for the relative path. *)
Definition push (current component : string) : string :=
  if is_empty current then component else current +:+ "/" +:+ component.

(** [safe_metadata_under_root]; the metadata of a node is the node. *)
Fixpoint safe_metadata (stat_fails : string -> bool) (current : string) (components : list string) (node : fs_node)
    : result IoKind fs_node :=
  match components with
  | [] => Ok node
  | component :: rest =>
      let current := push current component in
      match child node component with
      | None => Err IoNotFound
      | Some next =>
          if stat_fails current then Err IoOther
          else
            match next, rest with
            | FsSymlink, _ => Err IoInvalidInput
            | FsDirectory _, _ => safe_metadata stat_fails current rest next
            | _, [] => Ok next
            | _, _ :: _ => Err IoInvalidInput
            end
      end
  end.

(** The files with their executable bit, and the directories. *)
Definition Discovered : Type := gmap string bool * gset string.

(** [add_parent_directories] *)
Definition add_parent_directories (path : string) (directories : gset string) : result ArtifactError (gset string) :=
  try_fold (fun (directories : gset string) parent =>
    match RelativePath_new parent with
    | Ok _ => Ok ({[parent]} ∪ directories)
    | Err _ => Err AeInvalidTree
    end) directories (parents path).

Definition total_entries (acc : Discovered) : Z := Z.of_nat (size acc.1 + size acc.2).

(** [visit_output] *)
Fixpoint visit_output (stat_fails list_fails : string -> bool) (logical : string) (node : fs_node) (acc : Discovered)
    : result ArtifactError Discovered :=
  match node with
  | FsSymlink => Err AeUnsupportedType
  | FsFile _ executable =>
      match RelativePath_new logical with
      | Err _ => Err AeInvalidTree
      | Ok _ =>
          let? directories := add_parent_directories logical acc.2 in
          Ok (match acc.1 !! logical with Some _ => acc.1 | None => <[logical := executable]> acc.1 end, directories)
      end
  | FsDirectory children =>
      match RelativePath_new logical with
      | Err _ => Err AeInvalidTree
      | Ok _ =>
          let? directories := add_parent_directories logical ({[logical]} ∪ acc.2) in
          if list_fails logical then Err AeIo
          else
            (fix visit_children (children : list (option string * fs_node)) (acc : Discovered) : result ArtifactError Discovered :=
               match children with
               | [] => Ok acc
               | (None, _) :: rest => visit_children rest acc
               | (Some name, node) :: rest =>
                   let relative := logical +:+ "/" +:+ name in
                   if stat_fails relative then visit_children rest acc
                   else
                     let? acc := visit_output stat_fails list_fails relative node acc in
                     if (MAX_ARTIFACT_FILES <? total_entries acc)%Z then Err AeLimit else visit_children rest acc
               end) children (acc.1, directories)
      end
  | FsOther => Err AeUnsupportedType
  end.

(** One round of the loop of [discover_outputs]. *)
Definition discover_output (o : ArtOutside) (root : fs_node) (acc : Discovered) (output : DeclaredOutput)
    : result ArtifactError Discovered :=
  match safe_metadata (stat_fails o) "" (split "/" (output_path output)) root with
  | Ok node => visit_output (stat_fails o) (list_fails o) (output_path output) node acc
  | Err IoNotFound => if required output then Err AeMissingRequired else Ok acc
  | Err IoInvalidInput => Err AeUnsupportedType
  | Err IoOther => Err AeIo
  end.

Definition relative (path : string) : result ArtifactError string :=
  map_err (fun _ => AeInvalidTree) (RelativePath_new path).

Fixpoint collect_results {E A B} (f : A -> result E B) (l : list A) : result E (list B) :=
  match l with
  | [] => Ok []
  | x :: l => let? y := f x in let? ys := collect_results f l in Ok (y :: ys)
  end.

(** [discover_outputs]: files with their executable bit and directories, both
    in path order. *)
Definition discover_outputs (o : ArtOutside) (root : fs_node) (outputs : list DeclaredOutput)
    : result ArtifactError (list (string * bool) * list string) :=
  if root_stat_fails o then Err AeIo
  else
    match root with
    | FsDirectory _ =>
        let? (files, directories) := try_fold (discover_output o root) (∅, ∅) outputs in
        if (MAX_ARTIFACT_FILES <? Z.of_nat (size files))%Z then Err AeLimit
        else
          let? files := collect_results (fun f => let? path := relative f.1 in Ok (path, f.2))
                          (sort_by (cmp_on fst str_cmp) (map_to_list files)) in
          let? directories := collect_results relative (sort_by str_cmp (elements directories)) in
          Ok (files, directories)
    | _ => Err AeUnsupportedType
    end.

(** ** Capture *)

Abbreviation Stores := (ArtifactStore * BlobStore)%type.
Abbreviation art A := (act Stores ArtifactError A).

Definition set_artifacts (f : ArtifactStore -> ArtifactStore) (s : Stores) : Stores := (f s.1, s.2).

Definition art_blobs {A} (f : BlobStore -> result BlobError A * BlobStore) : art A :=
  fun s => let '(r, b) := f s.2 in (map_err AeBlob r, (s.1, b)).

(** [open_file_beneath]: every step refuses links. *)
Fixpoint open_file_beneath (components : list string) (node : fs_node) : result IoKind fs_node :=
  match components with
  | [] => Err IoInvalidInput
  | component :: rest =>
      match child node component with
      | None => Err IoNotFound
      | Some FsSymlink => Err IoOther
      | Some next =>
          match rest with
          | [] => Ok next
          | _ :: _ => match next with FsDirectory _ => open_file_beneath rest next | _ => Err IoOther end
          end
      end
  end.

(** The first pass: the size and the bytes that were hashed. *)
Fixpoint hash_pass (remaining_bytes size : Z) (hashed : bytes) (chunks : list (option bytes)) : result ArtifactError (bytes * Z) :=
  match chunks with
  | [] | Some [] :: _ => Ok (hashed, size)
  | None :: _ => Err AeIo
  | Some chunk :: chunks =>
      let size := sat_add size (len chunk) in
      if (MAX_BLOB_BYTES <? size)%Z || (remaining_bytes <? size)%Z then Err AeLimit
      else hash_pass remaining_bytes size (hashed ++ chunk) chunks
  end.

(** The second pass, as the stream [put_stream] consumes. *)
Fixpoint until_end (chunks : list (option bytes)) : list (option bytes) :=
  match chunks with
  | [] | Some [] :: _ => []
  | c :: chunks => c :: until_end chunks
  end.

Section capture.
Context `{Sha256, Serde ArtifactRecord}.

(** [capture_blob]; [quota] is the blob store's. *)
Definition capture_blob (o : ArtOutside) (quota : Z) (root : fs_node) (path : string) (remaining_bytes : Z)
    : art (string * Z * bool) :=
  guard_err (open_fails o path) AeIo ;!
  let! node := of_result (map_err (fun _ => AeIo) (open_file_beneath (split "/" path) root)) in
  match node with
  | FsFile _ executable =>
      let! (hashed, size) := of_result (hash_pass remaining_bytes 0 [] (first_pass (reads o path))) in
      let! digest := of_result (map_err (fun _ => AeInvalidTree) (BlobDigest_parse (sha256_hex hashed))) in
      art_blobs (put_stream (verify_fails o path) (put_fails o path) quota (part_uuid o path) (put_now o path) digest size
                   (until_end (second_pass (reads o path)))) ;!
      ret (digest, size, executable)
  | _ => throw AeUnsupportedType
  end.

(** The loop of [capture_declared]: the records, and the manifest's files. *)
Fixpoint capture_files (o : ArtOutside) (quota : Z) (root : fs_node) (exec : string) (gen expires : Z) (total : Z)
    (files : list (string * bool)) : art (list ArtifactRecord) :=
  match files with
  | [] => ret []
  | (path, _) :: files =>
      let! (digest, size, executable) := capture_blob o quota root path (sat_sub MAX_ARTIFACT_TOTAL_BYTES total) in
      let! id := of_result (map_err (fun _ => AeInvalidTree) (ArtifactId_new (record_uuid o path))) in
      let record := {| artifact_id := id; ar_execution_id := exec; ar_generation := gen; ar_path := path; ar_kind := AtFile;
                       ar_digest := digest; ar_size_bytes := size; ar_executable := executable;
                       ar_created_unix_ms := record_now o path; ar_expires_unix_ms := expires |} in
      let! records := capture_files o quota root exec gen expires (sat_add total size) files in
      ret (record :: records)
  end.

(** One row of [insert_many], under the table's uniqueness constraints. *)
Definition insert_one (o : ArtOutside) (principal : string) (rows : ArtifactStore) (p : nat * ArtifactRecord)
    : result ArtifactError ArtifactStore :=
  let r := p.2 in
  match to_vec r with
  | None => Err AeJson
  | Some encoded =>
      let row := {| at_execution_id := ar_execution_id r; at_generation := as_i64 (ar_generation r); at_principal_id := principal;
                    record_json := encoded; at_created_unix_ms := as_i64 (ar_created_unix_ms r);
                    at_expires_unix_ms := as_i64 (ar_expires_unix_ms r) |} in
      if insert_fails o p.1 || is_some (rows !! artifact_id r)
         || existsb (fun kv => String.eqb (at_execution_id kv.2) (at_execution_id row) && (at_generation kv.2 =? at_generation row)%Z
                               && String.eqb (at_principal_id kv.2) principal && bool_decide (record_json kv.2 = encoded))
              (map_to_list rows)
      then Err AeSql
      else Ok (<[artifact_id r := row]> rows)
  end.

(** [ArtifactStore::insert_many] *)
Definition insert_many (o : ArtOutside) (records : list ArtifactRecord) (principal : string) : art unit :=
  fun s =>
    match try_fold (insert_one o principal) s.1 (imap pair records) with
    | Ok rows => if commit_fails o then (Err AeSql, s) else (Ok tt, set_artifacts (fun _ => rows) s)
    | Err e => (Err e, s)
    end.

(** The manifests [capture_declared] validates before and after reading. *)
Definition preflight (files : list (string * bool)) (directories : list string) : WorkspaceManifest :=
  {| wm_schema_version := 1;
     wm_entries := ((fun f => File f.1 (BlobDigest_from_bytes []) 0 f.2) <$> files) ++ (Directory <$> directories) |}.

Definition captured_manifest (records : list ArtifactRecord) (directories : list string) : WorkspaceManifest :=
  {| wm_schema_version := 1;
     wm_entries := ((fun r => File (ar_path r) (ar_digest r) (ar_size_bytes r) (ar_executable r)) <$> records)
                   ++ (Directory <$> directories) |}.

(** [capture_declared]; [discovered] and [captured] are the workspace's tree
    when the outputs are discovered and when they are read. *)
Definition capture_declared (o : ArtOutside) (quota : Z) (discovered captured : fs_node) (outputs : list DeclaredOutput)
    (exec : string) (gen : Z) (principal : string) (expires : Z) : art Z :=
  guard_err (join_fails o) AeWorker ;!
  let! (files, directories) := of_result (discover_outputs o discovered outputs) in
  of_result (map_err (fun _ => AeInvalidTree) (WorkspaceManifest_validate (preflight files directories))) ;!
  let! records := capture_files o quota captured exec gen expires 0 files in
  of_result (map_err (fun _ => AeInvalidTree) (WorkspaceManifest_validate (captured_manifest records directories))) ;!
  art_blobs (retain_per_owner (retain_fails o) "artifact" ((fun r => (artifact_id r, ar_digest r)) <$> records) (Some expires)) ;!
  insert_many o records principal ;!
  ret (len files).

(** ** Reading back *)

Definition visible (now : Z) (principal : string) (r : ArtifactRow) : Prop :=
  at_principal_id r = principal /\ (as_i64 now < at_expires_unix_ms r)%Z.

#[export] Instance visible_dec now principal r : Decision (visible now principal r).
Proof. unfold visible. apply _. Defined.

Definition cmp_artifact : string * ArtifactRow -> string * ArtifactRow -> comparison :=
  fun a b => then_with (Z.compare (at_created_unix_ms a.2) (at_created_unix_ms b.2)) (str_cmp a.1 b.1).

(** [ArtifactStore::list] *)
Definition list_artifacts (fails : bool) (now : Z) (exec : string) (gen : Z) (principal : string) (rows : ArtifactStore)
    : result ArtifactError (list ArtifactRecord) :=
  if fails then Err AeSql
  else
    collect_results (fun kv => ok_or (from_slice (record_json kv.2)) AeSql)
      (sort_by cmp_artifact
         (filter (fun kv => at_execution_id kv.2 = exec /\ at_generation kv.2 = as_i64 gen /\ visible now principal kv.2)
            (map_to_list rows))).

(** [ArtifactStore::get] *)
Definition get_artifact (fails : bool) (now : Z) (id principal : string) (rows : ArtifactStore) : result ArtifactError ArtifactRecord :=
  if fails then Err AeSql
  else
    match rows !! id with
    | Some r => if decide (visible now principal r) then ok_or (from_slice (record_json r)) AeJson else Err AeMissingRequired
    | None => Err AeMissingRequired
    end.

(** [ArtifactStore::garbage_collect], for a scan of the table. *)
Definition expired_artifacts (scan : list (string * ArtifactRow)) (now : Z) (limit : nat) : list (string * ArtifactRow) :=
  take limit (sort_by (cmp_on (fun kv => at_expires_unix_ms kv.2) Z.compare)
                (filter (fun kv => (at_expires_unix_ms kv.2 <= as_i64 now)%Z) scan)).

Definition collect_artifacts (fails : bool) (scan : list (string * ArtifactRow)) (now : Z) (limit : nat) (dry_run : bool)
    (rows : ArtifactStore) : result ArtifactError ArtifactGcReport * ArtifactStore :=
  let candidates := expired_artifacts scan now limit in
  let deleted := if dry_run then [] else candidates.*1 in
  if fails then (Err AeSql, rows)
  else (Ok {| candidate_artifacts := len candidates; deleted_artifacts := len deleted |},
        foldl (fun rows id => delete id rows) rows deleted).
End capture.

(** ** What discovery finds *)

(** The nodes reached from a node through entries with a usable name. *)
Inductive below (stat_fails : string -> bool) : string -> fs_node -> string -> fs_node -> Prop :=
| below_here path node : below stat_fails path node path node
| below_child path children name node path' node' :
    (Some name, node) ∈ children -> stat_fails (path +:+ "/" +:+ name) = false ->
    below stat_fails (path +:+ "/" +:+ name) node path' node' -> below stat_fails path (FsDirectory children) path' node'.

Definition is_dir (node : fs_node) : bool := match node with FsDirectory _ => true | _ => false end.

(** An induction principle that reaches into directories. *)
Lemma fs_node_ind' (P : fs_node -> Prop) :
  (forall content executable, P (FsFile content executable)) ->
  (forall children, Forall (fun c => P c.2) children -> P (FsDirectory children)) -> P FsSymlink -> P FsOther ->
  forall node, P node.
Proof.
  intros Hfile Hdir Hlink Hother. fix IH 1. intros [content executable|children| |]; [apply Hfile| |apply Hlink|apply Hother].
  apply Hdir. induction children as [|c children IHc]; constructor; [apply IH|apply IHc].
Qed.

(** What a visit adds to what was found before. *)
Record visited (stat_fails : string -> bool) (path : string) (node : fs_node) (acc acc' : Discovered) : Prop := {
  vi_kept q : is_Some (acc.1 !! q) -> acc'.1 !! q = acc.1 !! q;
  vi_sound q x : acc'.1 !! q = Some x -> acc.1 !! q = Some x \/ exists content, below stat_fails path node q (FsFile content x);
  vi_complete q content x : below stat_fails path node q (FsFile content x) -> is_Some (acc'.1 !! q);
  vi_dirs d : d ∈ acc'.2 <-> d ∈ acc.2 \/ exists q m, below stat_fails path node q m /\ (d ∈ parents q \/ (d = q /\ is_dir m = true));
  vi_plain q m : below stat_fails path node q m -> m <> FsSymlink /\ m <> FsOther;
}.

Lemma add_parent_directories_ok path dirs dirs' :
  add_parent_directories path dirs = Ok dirs' -> forall d, d ∈ dirs' <-> d ∈ parents path \/ d ∈ dirs.
Proof.
  unfold add_parent_directories. revert dirs. induction (parents path) as [|p ps IH]; intros dirs; simpl.
  - intros [= <-] d. set_solver.
  - destruct (RelativePath_new p); [|done]. intros Hd d. rewrite (IH _ Hd d). set_solver.
Qed.

(** The inner loop of [visit_output]. *)
Definition visit_children (stat_fails list_fails : string -> bool) (logical : string) :=
  fix visit_children (children : list (option string * fs_node)) (acc : Discovered) : result ArtifactError Discovered :=
    match children with
    | [] => Ok acc
    | (None, _) :: rest => visit_children rest acc
    | (Some name, node) :: rest =>
        let relative := logical +:+ "/" +:+ name in
        if stat_fails relative then visit_children rest acc
        else
          let? acc := visit_output stat_fails list_fails relative node acc in
          if (MAX_ARTIFACT_FILES <? total_entries acc)%Z then Err AeLimit else visit_children rest acc
    end.

(** The same facts for the children of a directory. *)
Record visited_children (stat_fails : string -> bool) (path : string) (children : list (option string * fs_node))
    (acc acc' : Discovered) : Prop := {
  vc_kept q : is_Some (acc.1 !! q) -> acc'.1 !! q = acc.1 !! q;
  vc_sound q x : acc'.1 !! q = Some x -> acc.1 !! q = Some x
    \/ exists name node content, (Some name, node) ∈ children /\ stat_fails (path +:+ "/" +:+ name) = false
         /\ below stat_fails (path +:+ "/" +:+ name) node q (FsFile content x);
  vc_complete name node q content x : (Some name, node) ∈ children -> stat_fails (path +:+ "/" +:+ name) = false ->
    below stat_fails (path +:+ "/" +:+ name) node q (FsFile content x) -> is_Some (acc'.1 !! q);
  vc_dirs d : d ∈ acc'.2 <-> d ∈ acc.2 \/ exists name node q m, (Some name, node) ∈ children
    /\ stat_fails (path +:+ "/" +:+ name) = false /\ below stat_fails (path +:+ "/" +:+ name) node q m
    /\ (d ∈ parents q \/ (d = q /\ is_dir m = true));
  vc_plain name node q m : (Some name, node) ∈ children -> stat_fails (path +:+ "/" +:+ name) = false ->
    below stat_fails (path +:+ "/" +:+ name) node q m -> m <> FsSymlink /\ m <> FsOther;
}.

(** An entry that is skipped contributes nothing. *)
Lemma visited_children_skip stat_fails path c children acc acc' :
  (forall name node, c = (Some name, node) -> stat_fails (path +:+ "/" +:+ name) = true) ->
  visited_children stat_fails path children acc acc' -> visited_children stat_fails path (c :: children) acc acc'.
Proof.
  intros Hc [K S C D P].
  assert (forall name node, (Some name, node) ∈ c :: children -> stat_fails (path +:+ "/" +:+ name) = false -> (Some name, node) ∈ children) as Hin.
  { intros name node [Heq|?]%elem_of_cons Hf; [|done]. rewrite (Hc name node) in Hf by done. done. }
  split; [done|..].
  - intros q x [?|(n & m & b & ? & ?)]%S; [by left|]. right. exists n, m, b. split; [by right|done].
  - intros n m q b x Hn Hf. apply (C n m q b x); auto.
  - intros d. rewrite D. split; (intros [?|(n & m & q & r & Hn & Hf & ?)]; [by left|right; exists n, m, q, r]); [split; [by right|done]|auto].
  - intros n m q r Hn Hf. apply (P n m q r); auto.
Qed.

Lemma visited_children_cons stat_fails path name node children acc acc1 acc' :
  stat_fails (path +:+ "/" +:+ name) = false -> visited stat_fails (path +:+ "/" +:+ name) node acc acc1 ->
  visited_children stat_fails path children acc1 acc' -> visited_children stat_fails path ((Some name, node) :: children) acc acc'.
Proof.
  intros Es [K1 S1 C1 D1 P1] [K S C D P]. split.
  - intros q Hq. rewrite K, K1; [done|done|]. by rewrite K1.
  - intros q x [[?|(c & ?)]%S1|(n & m & c & Hin & ?)]%S; [by left|right; exists name, node, c; split; [by left|done]|].
    right. exists n, m, c. split; [by right|done].
  - intros n m q c x [[= -> ->]|Hin]%elem_of_cons Hf Hb; [|by eapply C]. rewrite K; by eapply C1.
  - intros d. rewrite D, D1. split.
    + intros [[?|(q & m & Hb & ?)]|(n & m & q & r & Hin & ?)]; [by left|..]; right.
      * exists name, node, q, m. split; [by left|done].
      * exists n, m, q, r. split; [by right|done].
    + intros [?|(n & m & q & r & [[= -> ->]|Hin]%elem_of_cons & Hf & ?)]; [auto|left; right; eauto|right; eauto 10].
  - intros n m q r [[= -> ->]|Hin]%elem_of_cons Hf Hb; [by eapply P1|by eapply P].
Qed.

Lemma visit_children_ok stat_fails list_fails path children acc acc' :
  Forall (fun c => forall path acc acc', visit_output stat_fails list_fails path c.2 acc = Ok acc' -> visited stat_fails path c.2 acc acc') children ->
  visit_children stat_fails list_fails path children acc = Ok acc' -> visited_children stat_fails path children acc acc'.
Proof.
  intros Hc. revert acc. induction Hc as [|[[name|] node] children Hn Hc IH]; intros acc; cbn [visit_children].
  - intros [= <-]. split; [done|by left|by intros ????? ?%not_elem_of_nil| |by intros ???? ?%not_elem_of_nil].
    intros d. split; [by left|]. intros [?|(? & ? & ? & ? & ?%not_elem_of_nil & _)]; done.
  - cbv zeta. destruct (stat_fails (path +:+ "/" +:+ name)) eqn:Es.
    + intros Hv%IH. apply visited_children_skip; [|done]. by intros n m [= <- <-].
    + destruct (visit_output _ _ _ node acc) as [acc1|] eqn:E1; [|done]. destruct (_ <? _)%Z; [done|]. intros Hv%IH.
      eapply visited_children_cons; [done| |done]. by apply Hn.
  - intros Hv%IH. by apply visited_children_skip.
Qed.

Lemma below_dir stat_fails path children q m :
  below stat_fails path (FsDirectory children) q m <->
  (q = path /\ m = FsDirectory children)
  \/ exists name node, (Some name, node) ∈ children /\ stat_fails (path +:+ "/" +:+ name) = false
       /\ below stat_fails (path +:+ "/" +:+ name) node q m.
Proof.
  split.
  - intros Hb. inversion Hb; subst; [by left|]. right. eauto.
  - intros [[-> ->]|(name & node & ? & ? & ?)]; [constructor|]. by eapply below_child.
Qed.

Lemma below_file stat_fails path content x q m :
  below stat_fails path (FsFile content x) q m -> q = path /\ m = FsFile content x.
Proof. intros Hb. by inversion Hb. Qed.

(** [visit_output] finds exactly the files and directories below a node. *)
Lemma visit_output_ok stat_fails list_fails node : forall path acc acc',
  visit_output stat_fails list_fails path node acc = Ok acc' -> visited stat_fails path node acc acc'.
Proof.
  induction node as [content x|children IH| |] using fs_node_ind'; intros path acc acc'; cbn [visit_output]; [..|done|done].
  - destruct (RelativePath_new path); [|done]. destruct (add_parent_directories path acc.2) as [dirs|] eqn:Ed; [|done].
    pose proof (add_parent_directories_ok _ _ _ Ed) as Hd. intros [= <-]. split; cbn [fst snd].
    + intros q [y Hq]. destruct (acc.1 !! path) eqn:Ep; [done|]. rewrite lookup_insert_ne; [done|]. intros ->. congruence.
    + intros q y Hq. destruct (acc.1 !! path) eqn:Ep; [by left|]. apply lookup_insert_Some in Hq as [[<- <-]|[_ ?]]; [|by left].
      right. exists content. constructor.
    + intros q c y [-> _]%below_file. destruct (acc.1 !! path) eqn:Ep; [by eexists|]. rewrite lookup_insert_eq. by eexists.
    + intros d. rewrite Hd. split; [intros [?|?]; [right|by left]|].
      * exists path, (FsFile content x). split; [constructor|by left].
      * intros [?|(q & m & [-> ->]%below_file & [?|[_ ?]])]; [by right|by left|done].
    + by intros q m [-> ->]%below_file.
  - destruct (RelativePath_new path); [|done]. destruct (add_parent_directories path _) as [dirs|] eqn:Ed; [|done].
    pose proof (add_parent_directories_ok _ _ _ Ed) as Hd. destruct (list_fails path); [done|].
    intros Hv. change (visit_children stat_fails list_fails path children (acc.1, dirs) = Ok acc') in Hv.
    apply visit_children_ok in Hv as [K S C D P]; [|done]. cbn [fst snd] in *. split.
    + done.
    + intros q y [?|(n & m & c & ?)]%S; [by left|]. right. exists c. apply below_dir. right. eauto.
    + intros q c y [[_ ?]|(n & m & ? & ? & ?)]%below_dir; [done|by eapply C].
    + intros d. rewrite D, Hd, elem_of_union, elem_of_singleton. split.
      * intros [[?|[->|?]]|(n & m & q & r & Hin & Hf & Hb & ?)]; [right|right|by left|right].
        -- exists path, (FsDirectory children). split; [constructor|by left].
        -- exists path, (FsDirectory children). split; [constructor|by right].
        -- exists q, r. split; [|done]. apply below_dir. right. eauto.
      * intros [?|(q & r & [[-> ->]|(n & m & ? & ? & ?)]%below_dir & [?|[-> ?]])]; [auto|auto|auto|right; eauto 10|right; eauto 12].
    + intros q m [[_ ->]|(n & m' & ? & ? & ?)]%below_dir; [done|by eapply P].
Qed.

(** The nodes below the declared outputs that are there. *)
Definition found (o : ArtOutside) (root : fs_node) (outputs : list DeclaredOutput) (path : string) (node : fs_node) : Prop :=
  exists output top, output ∈ outputs /\ safe_metadata (stat_fails o) "" (split "/" (output_path output)) root = Ok top
    /\ below (stat_fails o) (output_path output) top path node.

(** What discovering adds, over a list of outputs. *)
Record discovered_all (o : ArtOutside) (root : fs_node) (outputs : list DeclaredOutput) (acc acc' : Discovered) : Prop := {
  da_kept q : is_Some (acc.1 !! q) -> acc'.1 !! q = acc.1 !! q;
  da_sound q x : acc'.1 !! q = Some x -> acc.1 !! q = Some x \/ exists content, found o root outputs q (FsFile content x);
  da_complete q content x : found o root outputs q (FsFile content x) -> is_Some (acc'.1 !! q);
  da_dirs d : d ∈ acc'.2 <-> d ∈ acc.2 \/ exists q m, found o root outputs q m /\ (d ∈ parents q \/ (d = q /\ is_dir m = true));
  da_plain q m : found o root outputs q m -> m <> FsSymlink /\ m <> FsOther;
  da_required output : output ∈ outputs -> required output = true ->
    exists top, safe_metadata (stat_fails o) "" (split "/" (output_path output)) root = Ok top;
}.

Lemma found_cons o root output outputs q m :
  found o root (output :: outputs) q m <->
  (exists top, safe_metadata (stat_fails o) "" (split "/" (output_path output)) root = Ok top
     /\ below (stat_fails o) (output_path output) top q m) \/ found o root outputs q m.
Proof.
  unfold found. split.
  - intros (out & top & [->|Hin]%elem_of_cons & ?); [left; eauto|right; eauto].
  - intros [(top & ?)|(out & top & Hin & ?)]; [exists output, top; split; [by left|done]|exists out, top; split; [by right|done]].
Qed.

Lemma discover_fold o root outputs acc acc' :
  try_fold (discover_output o root) acc outputs = Ok acc' -> discovered_all o root outputs acc acc'.
Proof.
  revert acc. induction outputs as [|output outputs IH]; intros acc; cbn [try_fold].
  - intros [= <-]. split; [done|by left|by intros q c x (out & top & ?%not_elem_of_nil & _)| |by intros q m (out & top & ?%not_elem_of_nil & _)
      |by intros out ?%not_elem_of_nil].
    intros d. split; [by left|]. intros [?|(q & m & (out & top & ?%not_elem_of_nil & _) & _)]; done.
  - destruct (discover_output o root acc output) as [acc1|] eqn:E1; [|done]. intros [K S C D P R]%IH. unfold discover_output in E1.
    destruct (safe_metadata _ _ _ _) as [top|[]] eqn:Em; [| |done..].
    + apply visit_output_ok in E1 as [K1 S1 C1 D1 P1]. split.
      * intros q Hq. rewrite K, K1; [done|done|]. by rewrite K1.
      * intros q x [[?|(c & ?)]%S1|(c & ?)]%S; [by left|right; exists c; apply found_cons; eauto|right; exists c; apply found_cons; eauto].
      * intros q c x [(top' & Em' & Hb)|Hf]%found_cons; [|by eapply C]. assert (top' = top) as -> by congruence. rewrite K; by eapply C1.
      * intros d. rewrite D, D1. setoid_rewrite found_cons. split.
        -- intros [[?|(q & m & ?)]|(q & m & ? & ?)]; [by left|right; exists q, m; naive_solver|right; exists q, m; naive_solver].
        -- intros [?|(q & m & [(top' & Em' & Hb)|Hf] & ?)]; [auto| |right; eauto].
           assert (top' = top) as -> by congruence. left. right. eauto.
      * intros q m [(top' & Em' & Hb)|Hf]%found_cons; [|by eapply P]. assert (top' = top) as -> by congruence. by eapply P1.
      * intros out [->|Hin]%elem_of_cons; eauto.
    + destruct (required output) eqn:Er; [done|]. injection E1 as <-.
      assert (forall q m, found o root (output :: outputs) q m <-> found o root outputs q m) as Hfc.
      { intros q m. rewrite found_cons. split; [|by right]. intros [(top & ? & _)|?]; [congruence|done]. }
      split; [done|..].
      * intros q x [?|(c & ?)]%S; [by left|]. right. exists c. by apply Hfc.
      * intros q c x Hf%Hfc. by eapply C.
      * intros d. rewrite D. by setoid_rewrite Hfc.
      * intros q m Hf%Hfc. by eapply P.
      * intros out [->|Hin]%elem_of_cons; [congruence|auto].
Qed.

Lemma collect_results_Forall2 {E A B} (f : A -> result E B) l l' : collect_results f l = Ok l' -> Forall2 (fun x y => f x = Ok y) l l'.
Proof.
  revert l'. induction l as [|x l IH]; intros l'; simpl; [intros [= <-]; constructor|].
  destruct (f x) as [y|] eqn:Ex; [|done]. destruct (collect_results f l) as [ys|]; [|done]. intros [= <-]. constructor; auto.
Qed.

Lemma collect_relative l l' : collect_results relative l = Ok l' -> l' = l.
Proof.
  intros H%collect_results_Forall2. induction H as [|x y l l' Hxy _ IH]; [done|]. rewrite IH. f_equal. unfold relative in Hxy.
  destruct (RelativePath_new x) as [w|] eqn:E; [|done]. apply RelativePath_new_ok in E as [-> _]. by injection Hxy as <-.
Qed.

Lemma collect_relative_pairs l l' :
  collect_results (fun f : string * bool => let? path := relative f.1 in Ok (path, f.2)) l = Ok l' -> l' = l.
Proof.
  intros H%collect_results_Forall2. induction H as [|[x b] y l l' Hxy _ IH]; [done|]. rewrite IH. f_equal. unfold relative in Hxy. simpl in Hxy.
  destruct (RelativePath_new x) as [w|] eqn:E; [|done]. apply RelativePath_new_ok in E as [-> _]. by injection Hxy as <-.
Qed.

(** Discovery is exact.  When [discover_outputs] answers, its files are
    precisely the regular files at or below the declared outputs that can be
    named and looked at, each once, in path order and with its executable bit;
    its directories are the directories among them and all their parents;
    nothing it met is a link or a special file; every required output is
    there; and there are at most 4096 files. *)
Theorem discovery_exact (o : ArtOutside) (root : fs_node) (outputs : list DeclaredOutput) (files : list (string * bool)) (dirs : list string) :
  discover_outputs o root outputs = Ok (files, dirs) ->
  (forall q, q ∈ files.*1 <-> exists content x, found o root outputs q (FsFile content x))
  /\ (forall q x, (q, x) ∈ files -> exists content, found o root outputs q (FsFile content x))
  /\ NoDup files.*1 /\ StronglySorted (fun a b => str_cmp a.1 b.1 <> Gt) files
  /\ (forall d, d ∈ dirs <-> exists q m, found o root outputs q m /\ (d ∈ parents q \/ (d = q /\ is_dir m = true)))
  /\ (forall q m, found o root outputs q m -> m <> FsSymlink /\ m <> FsOther)
  /\ (forall output, output ∈ outputs -> required output = true ->
        exists top, safe_metadata (stat_fails o) "" (split "/" (output_path output)) root = Ok top)
  /\ (len files <= MAX_ARTIFACT_FILES)%Z.
Proof.
  unfold discover_outputs. destruct (root_stat_fails o); [done|]. destruct root as [|children| |]; [done| |done..].
  set (root := FsDirectory children). destruct (try_fold _ _ _) as [[fs ds]|] eqn:Et; [|done].
  destruct (Z.ltb_spec MAX_ARTIFACT_FILES (Z.of_nat (size fs))) as [|Hsize]; [done|].
  destruct (collect_results _ (sort_by _ (map_to_list fs))) as [files'|] eqn:Ef; [|done].
  destruct (collect_results relative _) as [dirs'|] eqn:Ed; [|done]. intros [= -> ->].
  apply collect_relative_pairs in Ef as ->. apply collect_relative in Ed as ->. apply discover_fold in Et as [_ S C D P R]. cbn [fst snd] in *.
  assert (forall q x, (q, x) ∈ sort_by (cmp_on fst str_cmp) (map_to_list fs) <-> fs !! q = Some x) as Hin.
  { intros q x. rewrite sort_by_perm. apply elem_of_map_to_list. }
  split_and!.
  - intros q. rewrite list_elem_of_fmap. split.
    + intros ([q' x] & -> & [Hq|(c & ?)]%Hin%S); [by rewrite lookup_empty in Hq|]. eauto.
    + intros (c & x & Hf). destruct (C q c x Hf) as [y Hy]. exists (q, y). split; [done|]. by apply Hin.
  - intros q x [Hq|?]%Hin%S; [by rewrite lookup_empty in Hq|done].
  - rewrite sort_by_perm. apply NoDup_fst_map_to_list.
  - apply (sort_by_sorted (cmp_on fst str_cmp)).
  - intros d. rewrite sort_by_perm, elem_of_elements, D. set_solver.
  - done.
  - done.
  - unfold len. rewrite (Permutation_length (sort_by_perm _ _)). by rewrite length_map_to_list.
Qed.

(** ** Capturing *)

Section captured.
Context `{Sha256, Serde ArtifactRecord}.

(** The metadata table does not change. *)
Definition same_rows (s s' : Stores) : Prop := s'.1 = s.1.

#[export] Instance same_rows_preorder : PreOrder same_rows.
Proof. unfold same_rows. split; [done|]. intros s1 s2 s3 E1 E2. congruence. Qed.

Lemma keeps_art_blobs {A} (f : BlobStore -> result BlobError A * BlobStore) : keeps same_rows (art_blobs f).
Proof. intros s. unfold art_blobs. by destruct (f s.2). Qed.

Lemma keeps_capture_blob o quota root path remaining : keeps same_rows (capture_blob o quota root path remaining).
Proof. unfold capture_blob. keeps_tac. apply keeps_art_blobs. Qed.

Lemma keeps_capture_files o quota root exec gen expires total files : keeps same_rows (capture_files o quota root exec gen expires total files).
Proof.
  revert total. induction files as [|[path x] files IH]; intros total; cbn [capture_files]; keeps_tac; [apply keeps_capture_blob|apply IH].
Qed.

Lemma hash_pass_size remaining chunks : forall size hashed bytes n,
  (0 <= size)%Z -> (size <= remaining)%Z -> hash_pass remaining size hashed chunks = Ok (bytes, n) -> (0 <= n <= remaining)%Z.
Proof.
  induction chunks as [|[[|c chunk]|] chunks IH]; intros size hashed bytes n H1' H2'; cbn [hash_pass]; [intros [= _ <-]; lia..| |done].
  destruct (_ <? _)%Z; [done|]. destruct (Z.ltb_spec remaining (sat_add size (len (c :: chunk)))); [done|]. apply IH; [|done].
  unfold sat_add, len, U64_MAX. lia.
Qed.

(** What a captured file leaves behind. *)
Lemma capture_blob_Ok o quota root path remaining s digest size x s' :
  (0 <= remaining)%Z -> capture_blob o quota root path remaining s = (Ok (digest, size, x), s') ->
  (0 <= size <= remaining)%Z /\ holds s'.2 digest /\ forall d, holds s.2 d -> holds s'.2 d.
Proof.
  intros Hr. unfold capture_blob. intros E. apply act_bind_Ok in E as (a1 & s1 & E1 & E). destruct (open_fails o path); [done|]. injection E1 as <- <-.
  apply act_bind_Ok in E as (node & s2 & E2 & E). injection E2 as _ <-. destruct node as [content y| | |]; [|done..].
  apply act_bind_Ok in E as ([hashed n] & s3 & E3 & E). injection E3 as E3 <-. apply hash_pass_size in E3; [|lia..].
  apply act_bind_Ok in E as (d & s4 & E4 & E). injection E4 as _ <-.
  apply act_bind_Ok in E as ([] & s5 & E5 & E). injection E as -> -> -> ->. split; [done|].
  unfold art_blobs in E5. destruct (put_stream _ _ _ _ _ _ _ _ _) as [[[]|] b] eqn:Ep; [|done]. injection E5 as <-. by apply put_stream_Ok in Ep.
Qed.

(** The records of the loop: one per discovered file, in order, owned by the
    execution, held by the blob store and within the total. *)
Record captured_records (exec : string) (gen expires total : Z) (files : list (string * bool)) (records : list ArtifactRecord)
    (b : BlobStore) : Prop := {
  cr_paths : ar_path <$> records = files.*1;
  cr_owner r : r ∈ records -> ar_execution_id r = exec /\ ar_generation r = gen /\ ar_expires_unix_ms r = expires;
  cr_held r : r ∈ records -> holds b (ar_digest r);
  cr_total : (total + sum_Z (ar_size_bytes <$> records) <= MAX_ARTIFACT_TOTAL_BYTES)%Z;
}.

Lemma capture_files_Ok o quota root exec gen expires total files s records s' :
  (0 <= total <= MAX_ARTIFACT_TOTAL_BYTES)%Z -> capture_files o quota root exec gen expires total files s = (Ok records, s') ->
  captured_records exec gen expires total files records s'.2 /\ forall d, holds s.2 d -> holds s'.2 d.
Proof.
  revert total s records. induction files as [|[path y] files IH]; intros total s records Ht; cbn [capture_files].
  - intros [= <- <-]. split; [|done]. split; [done|by intros r ?%not_elem_of_nil..|unfold sum_Z; simpl; lia].
  - intros E. apply act_bind_Ok in E as ([[digest size] x] & s1 & E1 & E).
    apply capture_blob_Ok in E1 as (Hz & Hd & Hk); [|unfold sat_sub; lia]. unfold sat_sub in Hz.
    apply act_bind_Ok in E as (id & s2 & E2 & E). injection E2 as _ <-. apply act_bind_Ok in E as (rest & s3 & E3 & E). injection E as <- <-.
    assert (sat_add total size = total + size)%Z as Es by (apply sat_add_small; unfold MAX_ARTIFACT_TOTAL_BYTES, U64_MAX in *; lia).
    apply IH in E3 as ([P O Hh T] & Hk'); [|lia]. split; [|auto]. split.
    + rewrite !fmap_cons. by f_equal.
    + intros r [->|Hr]%elem_of_cons; [done|by apply O].
    + intros r [->|Hr]%elem_of_cons; [by apply Hk'|by apply Hh].
    + rewrite fmap_cons, sum_Z_cons. simpl. lia.
Qed.

(** ** Recording *)

Definition row_of (principal : string) (r : ArtifactRecord) (encoded : bytes) : ArtifactRow :=
  {| at_execution_id := ar_execution_id r; at_generation := as_i64 (ar_generation r); at_principal_id := principal;
     record_json := encoded; at_created_unix_ms := as_i64 (ar_created_unix_ms r); at_expires_unix_ms := as_i64 (ar_expires_unix_ms r) |}.

Lemma insert_fold o principal ps rows rows' :
  try_fold (insert_one o principal) rows ps = Ok rows' ->
  NoDup (artifact_id <$> ps.*2)
  /\ (forall r, r ∈ ps.*2 -> rows !! artifact_id r = None /\ exists encoded, to_vec r = Some encoded
        /\ rows' !! artifact_id r = Some (row_of principal r encoded))
  /\ (forall id, id ∉ artifact_id <$> ps.*2 -> rows' !! id = rows !! id).
Proof.
  revert rows. induction ps as [|[i r] ps IH]; intros rows; cbn [try_fold].
  - intros [= <-]. split; [constructor|]. split; [by intros r ?%not_elem_of_nil|done].
  - unfold insert_one at 1. cbn [fst snd]. destruct (to_vec r) as [encoded|] eqn:Ev; [|done]. destruct (_ || _) eqn:Eg; [done|].
    apply orb_false_iff in Eg as [Eg _]. apply orb_false_iff in Eg as [_ Eg]. apply is_some_false in Eg.
    intros (Hd & Hr & Ho)%IH. rewrite !fmap_cons. cbn [snd].
    assert (artifact_id r ∉ artifact_id <$> ps.*2) as Hn.
    { intros (r' & E & Hr')%list_elem_of_fmap. destruct (Hr r' Hr') as [Hnone _]. rewrite <- E, lookup_insert_eq in Hnone. done. }
    split; [by constructor|]. split.
    + intros r' [->|Hr']%elem_of_cons; [|destruct (Hr r' Hr') as [Hnone ?]; split; [|done]].
      * split; [done|]. exists encoded. split; [done|]. rewrite Ho by done. apply lookup_insert_eq.
      * rewrite lookup_insert_ne in Hnone; [done|]. intros E. rewrite E, lookup_insert_eq in Hnone. done.
    + intros id' Hid. apply not_elem_of_cons in Hid as [Hne Hid]. rewrite Ho by done. by rewrite lookup_insert_ne by done.
Qed.

Lemma insert_many_Ok o records principal s s' :
  insert_many o records principal s = (Ok tt, s') ->
  s'.2 = s.2 /\ NoDup (artifact_id <$> records)
  /\ (forall r, r ∈ records -> s.1 !! artifact_id r = None /\ exists encoded, to_vec r = Some encoded
        /\ s'.1 !! artifact_id r = Some (row_of principal r encoded))
  /\ (forall id, id ∉ artifact_id <$> records -> s'.1 !! id = s.1 !! id).
Proof.
  unfold insert_many. destruct (try_fold _ _ _) as [rows'|] eqn:E; [|done]. destruct (commit_fails o); [done|]. intros [= <-].
  apply insert_fold in E. rewrite imap_pair_snd in E. by split.
Qed.

(** What a successful capture has published. *)
Record published (o : ArtOutside) (discovered : fs_node) (outputs : list DeclaredOutput) (exec : string) (gen : Z) (principal : string)
    (expires : Z) (s : Stores) (n : Z) (s' : Stores) (records : list ArtifactRecord) : Prop := {
  pb_files : exists files dirs, discover_outputs o discovered outputs = Ok (files, dirs) /\ n = len files /\ ar_path <$> records = files.*1;
  pb_ids : NoDup (artifact_id <$> records);
  pb_others id : id ∉ artifact_id <$> records -> s'.1 !! id = s.1 !! id;
  pb_owner r : r ∈ records -> ar_execution_id r = exec /\ ar_generation r = gen /\ ar_expires_unix_ms r = expires;
  pb_row r : r ∈ records -> s.1 !! artifact_id r = None
    /\ exists encoded, to_vec r = Some encoded /\ s'.1 !! artifact_id r = Some (row_of principal r encoded);
  pb_pin r : r ∈ records ->
    blob_references s'.2 !! {| owner_kind := "artifact"; owner_id := artifact_id r; ref_digest := ar_digest r |} = Some (Some (as_i64 expires));
  pb_held r : r ∈ records -> holds s'.2 (ar_digest r);
  pb_total : (sum_Z (ar_size_bytes <$> records) <= MAX_ARTIFACT_TOTAL_BYTES)%Z;
}.

Lemma capture_declared_Ok o quota discovered captured outputs exec gen principal expires s n s' :
  capture_declared o quota discovered captured outputs exec gen principal expires s = (Ok n, s') ->
  exists records, published o discovered outputs exec gen principal expires s n s' records.
Proof.
  unfold capture_declared. intros E. apply act_bind_Ok in E as (a1 & s1 & E1 & E). destruct (join_fails o); [done|]. injection E1 as <- <-.
  apply act_bind_Ok in E as ([files dirs] & s2 & E2 & E). injection E2 as E2 <-.
  apply act_bind_Ok in E as (a3 & s3 & E3 & E). injection E3 as _ <-.
  apply act_bind_Ok in E as (records & s4 & E4 & E).
  pose proof (keeps_capture_files o quota captured exec gen expires 0 files s) as Hrows. rewrite E4 in Hrows. cbn [snd] in Hrows.
  apply capture_files_Ok in E4 as ([P O Hh T] & _); [|unfold MAX_ARTIFACT_TOTAL_BYTES; lia].
  apply act_bind_Ok in E as (a5 & s5 & E5 & E). injection E5 as _ <-.
  apply act_bind_Ok in E as ([] & s6 & E6 & E). unfold art_blobs in E6. destruct (retain_per_owner _ _ _ _ _) as [[[]|] b6] eqn:Er; [|done].
  injection E6 as <-. apply retain_per_owner_Ok in Er as [Hpin Hkeep].
  apply act_bind_Ok in E as ([] & s7 & E7 & E). injection E as <- <-. apply insert_many_Ok in E7 as (Eb & Hd & Hr & Ho). cbn [fst snd] in *.
  unfold same_rows in Hrows. rewrite Hrows in *. exists records. split; try done.
  - exists files, dirs. done.
  - intros r Hin. rewrite Eb. apply (Hpin (artifact_id r) (ar_digest r)). apply list_elem_of_fmap. by exists r.
  - intros r Hin. rewrite Eb. by apply Hkeep, Hh.
Qed.

Lemma keeps_capture_declared o quota discovered captured outputs exec gen principal expires s e s' :
  capture_declared o quota discovered captured outputs exec gen principal expires s = (Err e, s') -> s'.1 = s.1.
Proof.
  unfold capture_declared. intros E.
  apply act_bind_Err in E as [E|(a1 & s1 & E1 & E)]; [by destruct (join_fails o); [injection E as _ <-|]|].
  destruct (join_fails o); [done|]. injection E1 as <- <-.
  apply act_bind_Err in E as [E|([files dirs] & s2 & E2 & E)]; [by injection E as _ <-|]. injection E2 as _ <-.
  apply act_bind_Err in E as [E|(a3 & s3 & E3 & E)]; [by injection E as _ <-|]. injection E3 as _ <-.
  pose proof (keeps_capture_files o quota captured exec gen expires 0 files s) as Hrows. unfold same_rows in Hrows.
  apply act_bind_Err in E as [E|(records & s4 & E4 & E)]; [by rewrite E in Hrows|]. rewrite E4 in Hrows. cbn [snd] in Hrows. rewrite <- Hrows. clear Hrows E4.
  apply act_bind_Err in E as [E|(a5 & s5 & E5 & E)]; [by injection E as _ <-|]. injection E5 as _ <-.
  pose proof (keeps_art_blobs (retain_per_owner (retain_fails o) "artifact" ((fun r => (artifact_id r, ar_digest r)) <$> records) (Some expires)) s4) as Hb.
  unfold same_rows in Hb. apply act_bind_Err in E as [E|(a6 & s6 & E6 & E)]; [by rewrite E in Hb|]. rewrite E6 in Hb. cbn [snd] in Hb. rewrite <- Hb.
  apply act_bind_Err in E as [E|(a7 & s7 & E7 & E)]; [|done]. unfold insert_many in E.
  destruct (try_fold _ _ _); [|by injection E as _ <-]. by destruct (commit_fails o); [injection E as _ <-|].
Qed.

(** When [get] answers. *)
Lemma get_row `{!SerdeRoundTrip ArtifactRecord} now r principal other encoded (rows : ArtifactStore) :
  rows !! artifact_id r = Some (row_of principal r encoded) -> to_vec r = Some encoded ->
  get_artifact false now (artifact_id r) other rows
  = if decide (other = principal /\ (as_i64 now < as_i64 (ar_expires_unix_ms r))%Z) then Ok r else Err AeMissingRequired.
Proof.
  intros Hr Hv. unfold get_artifact, visible. rewrite Hr. apply from_slice_to_vec in Hv. simpl. rewrite Hv.
  destruct (decide (principal = other /\ _)), (decide (other = principal /\ _)); naive_solver.
Qed.


(** ** Collection *)

Lemma delete_all_lookup (ids : list string) (rows : ArtifactStore) id :
  id ∉ ids -> foldl (fun rows id => delete id rows) rows ids !! id = rows !! id.
Proof.
  revert rows. induction ids as [|x ids IH]; intros rows Hn; [done|]. apply not_elem_of_cons in Hn as [Hne Hn]. simpl. rewrite IH by done.
  by rewrite lookup_delete_ne.
Qed.

Lemma collect_artifacts_keeps fails scan now limit dry rows id row :
  scan ≡ₚ map_to_list rows -> rows !! id = Some row -> (as_i64 now < at_expires_unix_ms row)%Z ->
  (collect_artifacts fails scan now limit dry rows).2 !! id = Some row.
Proof.
  intros Hs Hrow Hlt. unfold collect_artifacts. destruct fails; [done|]. cbn [snd]. rewrite delete_all_lookup; [done|].
  destruct dry; [by intros ?%not_elem_of_nil|]. intros ([id' row'] & -> & Hin)%list_elem_of_fmap. unfold expired_artifacts in Hin.
  apply elem_of_take in Hin as (j & Hin & _). apply list_elem_of_lookup_2 in Hin. rewrite sort_by_perm in Hin.
  apply list_elem_of_filter in Hin as [Hle Hin]. rewrite Hs in Hin. apply elem_of_map_to_list in Hin. simpl in *.
  assert (row' = row) as -> by congruence. lia.
Qed.

(** An artifact outlives every collection before its expiry.  After a
    capture, any number of blob collections and any collection of artifacts at
    earlier times, whatever fails in them, leave each record with its owner,
    and its bytes can still be opened and hash to the recorded digest. *)
Theorem artifacts_survive `{!SerdeRoundTrip ArtifactRecord} (o : ArtOutside) (quota : Z) (discovered captured : fs_node)
    (outputs : list DeclaredOutput) (exec : string) (gen : Z) (principal : string) (expires : Z) (s s' : Stores) (n : Z)
    (b : BlobStore) (gc_fails : bool) (scan : list (string * ArtifactRow)) (now : Z) (limit : nat) (dry : bool) (uuid : string) :
  capture_declared o quota discovered captured outputs exec gen principal expires s = (Ok n, s') ->
  rtc (collects_before (as_i64 expires)) s'.2 b -> scan ≡ₚ map_to_list s'.1 -> (as_i64 now < as_i64 expires)%Z ->
  let rows := (collect_artifacts gc_fails scan now limit dry s'.1).2 in
  exists records, published o discovered outputs exec gen principal expires s n s' records
  /\ forall r, r ∈ records ->
       get_artifact false now (artifact_id r) principal rows = Ok r
       /\ exists content, (open_verified (fun _ => false) uuid now (ar_digest r) b).1 = Ok content /\ sha256_hex content = ar_digest r.
Proof.
  intros [records Hp]%capture_declared_Ok Hgc Hs Hnow rows. exists records. split; [done|]. intros r Hr.
  destruct (pb_row _ _ _ _ _ _ _ _ _ _ _ Hp r Hr) as (_ & encoded & Hv & Hrow). destruct (pb_owner _ _ _ _ _ _ _ _ _ _ _ Hp r Hr) as (_ & _ & He).
  split.
  - rewrite (get_row now r principal principal encoded); [by rewrite decide_True by (by rewrite He)| |done].
    apply collect_artifacts_keeps; [done|done|]. simpl. by rewrite He.
  - apply holds_opens. apply (collects_before_holds _ _ _ _ Hgc (pb_pin _ _ _ _ _ _ _ _ _ _ _ Hp r Hr)). by apply (pb_held _ _ _ _ _ _ _ _ _ _ _ Hp).
Qed.
End captured.

(** ** Reference encoding and witnesses *)

#[export] Instance ArtifactRecord_tree : Tree ArtifactRecord.
Proof.
  refine (via_tree (fun r => ((artifact_id r, ar_execution_id r, ar_generation r, ar_path r, ar_digest r),
                              (ar_size_bytes r, ar_executable r, ar_created_unix_ms r, ar_expires_unix_ms r)))
    (fun t => match t with
              | ((i, e, g, p, d), (z, x, c, y)) =>
                  {| artifact_id := i; ar_execution_id := e; ar_generation := g; ar_path := p; ar_kind := AtFile; ar_digest := d;
                     ar_size_bytes := z; ar_executable := x; ar_created_unix_ms := c; ar_expires_unix_ms := y |}
              end) _).
  by intros [i e g p [] d z x c y].
Defined.

#[local] Instance w_sha : Sha256 := zero_sha256.
#[local] Instance w_serde : Serde ArtifactRecord := tree_serde.
#[local] Instance w_serde_ok : SerdeRoundTrip ArtifactRecord := tree_serde_roundtrip.

(** A workspace with a directory of one file, declared as output. *)
Definition w_root : fs_node := FsDirectory [(Some "out", FsDirectory [(None, FsSymlink); (Some "a", FsFile (concat w_input) true)])].
Definition w_outputs : list DeclaredOutput := [{| output_path := "out"; required := true |}; {| output_path := "log"; required := false |}].
Definition w_art : ArtOutside :=
  {| stat_fails := fun _ => false; list_fails := fun _ => false; root_stat_fails := false; join_fails := false; open_fails := fun _ => false;
     reads := fun _ => {| first_pass := map Some w_input; second_pass := map Some w_input |};
     verify_fails := fun _ _ => false; put_fails := fun _ _ => false; part_uuid := fun _ => "u"; put_now := fun _ => 7%Z;
     record_uuid := fun p => "id-" +:+ "1"; record_now := fun _ => 8%Z; retain_fails := false; insert_fails := fun _ => false;
     commit_fails := false |}.
Definition w_capture := capture_declared w_art 100 w_root w_root w_outputs "e" 1 "p" 1000 (∅, empty_store).

Lemma discovery_exact_witness :
  found w_art w_root w_outputs "out/a" (FsFile (concat w_input) true)
  /\ (forall q, q ∈ ["out/a"] <-> exists content x, found w_art w_root w_outputs q (FsFile content x)).
Proof.
  split.
  - exists {| output_path := "out"; required := true |}, (FsDirectory [(None, FsSymlink); (Some "a", FsFile (concat w_input) true)]).
    split; [by left|]. split; [vm_compute; reflexivity|]. eapply below_child with (name := "a"); [right; left|done|constructor].
  - apply (discovery_exact w_art w_root w_outputs [("out/a", true)] ["out"]). vm_compute. reflexivity.
Defined.


Lemma w_captured : w_capture = (Ok 1%Z, w_capture.2).
Proof. apply fst_Ok. vm_compute. reflexivity. Qed.

Lemma artifacts_survive_witness :
  exists records, published w_art w_root w_outputs "e" 1 "p" 1000 (∅, empty_store) 1 w_capture.2 records
  /\ forall r, r ∈ records -> get_artifact false 900 (artifact_id r) "p" w_capture.2.1 = Ok r.
Proof.
  destruct (artifacts_survive w_art 100 w_root w_root w_outputs "e" 1 "p" 1000 (∅, empty_store) w_capture.2 1 w_capture.2.2 true
    (map_to_list w_capture.2.1) 900 0 false "u" w_captured (rtc_refl _ _) (reflexivity _)) as (records & Hp & Hr); [done|].
  exists records. split; [done|]. intros r Hin. by apply Hr.
Defined.
