(* ===== verification/Storage.v ===== *)
(** * The storage routes of the node

    [eggwork-server/src/lib.rs], lines 819-870, 912-1556 and 2764-2782: the
    handlers of the blob, workspace and artifact routes, on top of the three
    stores and of the gate of [dispatch].

    A handler is an action on the node's stores whose early returns are thrown
    responses.  A response names its status and its body; the two streamed
    bodies are the open file, with the function that produces their chunks.
    A request's body is the list of what [next_chunk] answers, with a failing
    chunk as [None].  The HTTP server, the authorizer and the JSON decoder are
    arguments; building a response from a known status and the headers the
    code sets does not fail. *)

From Stdlib Require Import Ascii String ZArith Lia.
From stdpp Require Import base gmap strings list relations.
From S2P Require Import Prelude Text Ids Wire Spec Manifest Events Store Routes Blob Workspace Artifact.

Open Scope act_scope.

Definition API_SCHEMA_VERSION : Z := 1.

Record ExecutionHandle := { eh_execution_id : string; eh_generation : Z; eh_lease_id : string }.

(** ** Requests and responses *)

Record FindMissingRequest := { fm_digests : list string }.
Record PrepareBlobRequest := { pb_digest : string; pb_size_bytes : Z }.
Record WorkspaceCreateRequest := {
  wc_schema_version : Z;
  wc_workspace_id : string;
  wc_handle : ExecutionHandle;
  wc_manifest : WorkspaceManifest;
}.
Record DeriveWorkspaceRequest := {
  dw_schema_version : Z;
  dw_workspace_id : string;
  dw_handle : ExecutionHandle;
  dw_patch : WorkspaceManifestPatch;
}.
Record WorkspaceReadyResponse := {
  wy_schema_version : Z;
  wy_workspace_id : string;
  wy_execution_id : string;
  wy_generation : Z;
  wy_manifest_digest : string;
  wy_logical_bytes : Z;
}.

(** The lease of an artifact reader, its owner's name in the references. *)
Record BlobReferenceLease := { bl_owner_id : string }.

(** What a streamed body still has to send. *)
Record BlobReader := { br_rest : bytes }.
Record ArtifactReader := { rd_rest : bytes; rd_lease : BlobReferenceLease }.

Record NodeStatus := {
  sts_node_id : string;
  sts_draining : bool;
  sts_active_executions : Z;
  sts_capabilities : NodeCapabilities;
}.

Inductive ResponseBody : Type :=
| RbError (schema_version : Z) (code message : string)
| RbMissing (missing : list string)
| RbPrepare (upload_required : bool)
| RbReady (ready : WorkspaceReadyResponse)
| RbArtifacts (records : list ArtifactRecord)
| RbEmpty
| RbBlob (digest : string) (reader : BlobReader)
| RbArtifact (artifact_id digest : string) (reader : ArtifactReader)
| RbSnapshot (snapshot : ExecutionSnapshot)
| RbCapabilities (capabilities : NodeCapabilities)
| RbStatus (status : NodeStatus).

Record Response := { status : Z; body : ResponseBody }.

(** [json_response] and [error_response] *)
Definition json_response (status : Z) (value : ResponseBody) : Response := {| status := status; body := value |}.
Definition error_response (status : Z) (code message : string) : Response :=
  json_response status (RbError API_SCHEMA_VERSION code message).

(** [blob_error_response] *)
Definition blob_error_response (error : BlobError) : Response :=
  match error with
  | BeTooLarge => error_response 413 "blob_too_large" "blob exceeds size limit"
  | BeQuotaExceeded => error_response 507 "quota_exceeded" "blob storage quota exceeded"
  | BeLengthMismatch => error_response 422 "length_mismatch" "blob length does not match"
  | BeDigestMismatch => error_response 422 "digest_mismatch" "blob digest does not match"
  | BeNotFound => error_response 404 "blob_not_found" "blob not found"
  | BeCorruptExisting => error_response 500 "corrupt_blob" "stored blob was quarantined"
  | _ => error_response 500 "storage_error" "blob storage operation failed"
  end.

(** A request: its query, the length it declares and its body. *)
Record HttpRequest := {
  query : option string;
  body_length : option Z;
  body_chunks : list (option bytes);
}.

(** [read_limited_body] *)
Fixpoint read_limited_body (limit : Z) (read : bytes) (chunks : list (option bytes)) : result unit bytes :=
  match chunks with
  | [] => Ok read
  | None :: _ => Err tt
  | Some chunk :: chunks =>
      if (limit <? sat_add (len read) (len chunk))%Z then Err tt
      else read_limited_body limit (read ++ chunk) chunks
  end.

(** ** The node's stores *)

Record NodeStores := { world : World; artifacts : ArtifactStore; database : Db }.

Definition set_database (f : Db -> Db) (s : NodeStores) : NodeStores :=
  {| world := world s; artifacts := artifacts s; database := f (database s) |}.
Definition set_world (f : World -> World) (s : NodeStores) : NodeStores :=
  {| world := f (world s); artifacts := artifacts s; database := database s |}.

Abbreviation handler := (act NodeStores Response).

(** A handler's response, thrown or returned. *)
Definition respond (c : handler Response) (s : NodeStores) : Response * NodeStores :=
  match c s with (Ok r, s) | (Err r, s) => (r, s) end.

(** What a handler meets outside: which steps fail, clocks and identifiers. *)
Record RouteOutside := {
  ro_query_fails : bool;
  ro_verify : VerifyStep -> bool;
  ro_put : PutStep -> bool;
  ro_workspace : Outside;
  ro_artifacts_fail : bool;
  ro_retain_fails : bool;
  ro_release_fails : bool;
  ro_metric : option StoreError;
  ro_now : Z;
  ro_uuid : string;
}.

(** The node's configuration. *)
Record StorageConfig := {
  blob_quota_bytes : Z;
  workspace_quota_bytes : Z;
  authorize_request : string -> OperationRequest -> bool;
}.

(** [increment_metrics] and [increment_metric]: failures are ignored. *)
Definition count_metrics (fault : option StoreError) (deltas : list (string * Z)) : handler unit :=
  modify (set_database (fun db => (increment_metrics fault deltas db).2)).
Definition increment_metric (fault : option StoreError) (name : string) (amount : Z) : handler unit :=
  count_metrics fault [(name, amount)].

(** Operations of the blob store and of the workspace manager. *)
Definition with_blobs {A} (f : BlobStore -> result BlobError A * BlobStore) : handler (result BlobError A) :=
  fun s => let '(r, b) := f (world s).2 in (Ok r, set_world (fun w => (w.1, b)) s).
Definition with_workspaces {A} (c : ws A) : handler (result WorkspaceError A) :=
  fun s => let '(r, w) := c (world s) in (Ok r, set_world (fun _ => w) s).

(** [authorize_resource] *)
Definition authorize_resource (cfg : StorageConfig) (principal : string) (operation : Operation) (resource : ResourceId) : bool :=
  authorize_request cfg principal {| or_operation := operation; or_resource := Some resource |}.

Definition too_large (message : string) : Response := error_response 413 "request_too_large" message.
Definition invalid_request (message : string) : Response := error_response 400 "invalid_request" message.
Definition forbidden : Response := error_response 403 "forbidden" "operation is not authorized".

(** A round of a streamed body: its end, a failure, or a chunk. *)
Inductive Pull (R : Type) : Type :=
| PullEnd
| PullFailed (message : string)
| PullChunk (chunk : bytes) (reader : R).
Arguments PullEnd {R}.
Arguments PullFailed {R} message.
Arguments PullChunk {R} chunk reader.

Section handlers.
Context `{Sha256, UuidParse, Serde WorkspaceManifest, Serde ArtifactRecord}.
Context `{Serde FindMissingRequest, Serde PrepareBlobRequest, Serde WorkspaceCreateRequest, Serde DeriveWorkspaceRequest}.

(** The body of a request, read and decoded, as every handler with a JSON body
    begins. *)
Definition decode_body {A} `{Serde A} (limit : Z) (r : HttpRequest) (large invalid : string) : handler A :=
  let! bytes := of_result (map_err (fun _ => too_large large) (read_limited_body limit [] (body_chunks r))) in
  of_result (ok_or (from_slice bytes) (invalid_request invalid)).

(** [blob_missing] *)
Definition blob_missing (cfg : StorageConfig) (o : RouteOutside) (r : HttpRequest) (principal : string) : handler Response :=
  let! query := decode_body MAX_BLOB_FIND_REQUEST_BYTES r "request body exceeds limit" "request body is invalid" in
  act_each (fun digest => guard_err (negb (authorize_resource cfg principal OpBlobRead (RBlob digest))) forbidden)
    (fm_digests query) ;!
  let! found := gets (fun s => if ro_query_fails o then
                                 if (MAX_FIND_DIGESTS <? len (fm_digests query))%Z then Err BeTooManyDigests else Err BeMetadata
                               else find_missing (fm_digests query) (world s).2) in
  match found with
  | Ok missing => ret (json_response 200 (RbMissing missing))
  | Err BeTooManyDigests => ret (error_response 413 "too_many_digests" "digest batch exceeds limit")
  | Err _ => ret (error_response 500 "storage_error" "blob metadata is unavailable")
  end.

(** [blob_prepare] *)
Definition blob_prepare (cfg : StorageConfig) (o : RouteOutside) (r : HttpRequest) (principal : string) : handler Response :=
  let! prepare := decode_body MAX_BLOB_FIND_REQUEST_BYTES r "request body exceeds limit" "request body is invalid" in
  guard_err (negb (authorize_resource cfg principal OpBlobWrite (RBlob (pb_digest prepare)))) forbidden ;!
  let! answer := with_blobs (prepare_upload (ro_verify o) (ro_query_fails o) (blob_quota_bytes cfg) (ro_uuid o) (ro_now o)
                               (pb_digest prepare) (pb_size_bytes prepare)) in
  match answer with
  | Ok upload_required => ret (json_response 200 (RbPrepare upload_required))
  | Err error => ret (blob_error_response error)
  end.

Definition ready_response (workspace_id : string) (h : ExecutionHandle) (ready : ReadyWorkspace) : Response :=
  json_response 201 (RbReady {| wy_schema_version := API_SCHEMA_VERSION; wy_workspace_id := workspace_id;
    wy_execution_id := eh_execution_id h; wy_generation := eh_generation h;
    wy_manifest_digest := rw_manifest_digest ready; wy_logical_bytes := rw_logical_bytes ready |}).

(** The errors [workspace_create] and [workspace_derive] share. *)
Definition workspace_error_response (e : WorkspaceError) : Response :=
  match e with
  | WeInvalidManifest => error_response 400 "invalid_manifest" "workspace manifest is invalid"
  | WeInvalidBlob => error_response 409 "missing_blob" "workspace references a missing or corrupt blob"
  | WeBlobSizeMismatch => error_response 409 "blob_size_mismatch" "workspace blob size does not match"
  | WeQuotaExceeded => error_response 507 "quota_exceeded" "workspace quota exceeded"
  | WeConflict => error_response 409 "workspace_identity_conflict" "workspace identity conflicts"
  | _ => error_response 500 "workspace_error" "workspace materialization failed"
  end.

(** The checks both workspace routes make before they touch the manager. *)
Definition workspace_guard (cfg : StorageConfig) (o : RouteOutside) (principal : string) (schema_version : Z)
    (workspace_id : string) (h : ExecutionHandle) : handler unit :=
  guard_err (negb (schema_version =? API_SCHEMA_VERSION)%Z)
    (error_response 426 "protocol_version" "unsupported schema version") ;!
  guard_err (negb (authorize_resource cfg principal OpWorkspaceCreate (RWorkspace workspace_id))) forbidden ;!
  if is_ok (ExecutionGeneration_new (eh_generation h)) then ret tt
  else increment_metric (ro_metric o) "rejected_invalid" 1 ;! throw (invalid_request "workspace owner is invalid").

(** [workspace_create] *)
Definition workspace_create (cfg : StorageConfig) (o : RouteOutside) (r : HttpRequest) (principal : string) : handler Response :=
  let! wire := decode_body MAX_WORKSPACE_REQUEST_BYTES r "workspace manifest exceeds limit" "workspace request is invalid" in
  workspace_guard cfg o principal (wc_schema_version wire) (wc_workspace_id wire) (wc_handle wire) ;!
  let! answer := with_workspaces
    (materialize (ro_workspace o) (workspace_quota_bytes cfg) (wc_workspace_id wire) (eh_execution_id (wc_handle wire))
       (eh_generation (wc_handle wire)) principal (wc_manifest wire)) in
  match answer with
  | Ok ready =>
      increment_metric (ro_metric o) "workspace_manifest_registrations" 1 ;!
      ret (ready_response (wc_workspace_id wire) (wc_handle wire) ready)
  | Err e => ret (workspace_error_response e)
  end.

(** [workspace_derive] *)
Definition workspace_derive (cfg : StorageConfig) (o : RouteOutside) (r : HttpRequest) (principal : string) : handler Response :=
  increment_metric (ro_metric o) "workspace_derived_requests" 1 ;!
  let! wire := decode_body MAX_WORKSPACE_REQUEST_BYTES r "workspace patch exceeds limit" "workspace derive request is invalid" in
  workspace_guard cfg o principal (dw_schema_version wire) (dw_workspace_id wire) (dw_handle wire) ;!
  let patch_entries := len (wp_entries (dw_patch wire)) in
  let! answer := with_workspaces
    (materialize_derived (ro_workspace o) (workspace_quota_bytes cfg) (dw_workspace_id wire) (eh_execution_id (dw_handle wire))
       (eh_generation (dw_handle wire)) principal (dw_patch wire)) in
  match answer with
  | Ok ready =>
      count_metrics (ro_metric o) [("workspace_derived_hits", 1%Z); ("workspace_manifest_registrations", 1%Z);
                                   ("workspace_patch_entries", patch_entries)] ;!
      ret (ready_response (dw_workspace_id wire) (dw_handle wire) ready)
  | Err WeBaseMissing =>
      increment_metric (ro_metric o) "workspace_base_missing" 1 ;!
      ret (error_response 409 "base_manifest_missing" "base manifest is missing or expired; retry with a full manifest")
  | Err WeInvalidPatch => ret (error_response 400 "invalid_patch" "workspace patch is invalid")
  | Err e => ret (workspace_error_response e)
  end.

(** [blob_upload]; a failing chunk ends the stream [put_stream] reads. *)
Definition blob_upload (cfg : StorageConfig) (o : RouteOutside) (r : HttpRequest) (digest : string) : handler Response :=
  match declared_size (query r) with
  | None => throw (invalid_request "blob size is required")
  | Some declared =>
      guard_err (MAX_BLOB_BYTES <? declared)%Z (error_response 413 "blob_too_large" "blob exceeds size limit") ;!
      guard_err (match body_length r with Some length => negb (length =? declared)%Z | None => false end)
        (error_response 400 "length_mismatch" "declared blob length does not match request") ;!
      let! answer := with_blobs (put_stream (ro_verify o) (ro_put o) (blob_quota_bytes cfg) (ro_uuid o) (ro_now o) digest declared
                                   (body_chunks r)) in
      match answer with
      | Ok _ =>
          increment_metric (ro_metric o) "blob_upload_bytes" declared ;!
          ret {| status := 201; body := RbEmpty |}
      | Err error => ret (blob_error_response error)
      end
  end.

(** [blob_download] *)
Definition blob_download (o : RouteOutside) (digest : string) : handler Response :=
  let! file := with_blobs (open_verified (ro_verify o) (ro_uuid o) (ro_now o) digest) in
  match file with
  | Ok content => ret {| status := 200; body := RbBlob digest {| br_rest := content |} |}
  | Err error => throw (blob_error_response error)
  end.

(** [artifact_list] *)
Definition artifact_list (o : RouteOutside) (execution_id : string) (query : option string) (principal : string) : handler Response :=
  let generation := match query_parameter query "generation" with Ok (Some value) => parse_generation value | _ => None end in
  match generation with
  | None => throw (invalid_request "generation is invalid")
  | Some generation =>
      let! records := gets (fun s => list_artifacts (ro_artifacts_fail o) (ro_now o) execution_id generation principal (artifacts s)) in
      match records with
      | Ok records => ret (json_response 200 (RbArtifacts records))
      | Err _ => ret (error_response 500 "storage_error" "artifact metadata unavailable")
      end
  end.

(** ** Artifact downloads *)

Definition READER_LEASE_MILLIS : Z := 30 * 60 * 1000.

(** [BlobReferenceLease::renew] *)
Definition renew (fails : bool) (now : Z) (l : BlobReferenceLease) (b : BlobStore) : result BlobError unit * BlobStore :=
  set_reference_expiry fails "reader" (bl_owner_id l) (sat_add now READER_LEASE_MILLIS) b.

(** [Drop for BlobReferenceLease] *)
Definition drop_lease (fails : bool) (l : BlobReferenceLease) (b : BlobStore) : BlobStore :=
  (release_references fails "reader" (bl_owner_id l) b).2.

(** [artifact_download]; leaving the handler without the stream drops the lease. *)
Definition artifact_download (o : RouteOutside) (artifact_id : string) (principal : string) : handler Response :=
  let not_found := error_response 404 "artifact_not_found" "artifact not found" in
  let! record := gets (fun s => get_artifact (ro_artifacts_fail o) (ro_now o) artifact_id principal (artifacts s)) in
  match record with
  | Err _ => throw not_found
  | Ok record =>
      let lease := {| bl_owner_id := ro_uuid o |} in
      let! retained := with_blobs (retain (ro_retain_fails o) "reader" (bl_owner_id lease) [ar_digest record]
                                     (Some (sat_add (ro_now o) READER_LEASE_MILLIS))) in
      match retained with
      | Err _ => throw not_found
      | Ok _ =>
          let! file := with_blobs (open_verified (ro_verify o) (ro_uuid o) (ro_now o) (ar_digest record)) in
          match file with
          | Err _ =>
              with_blobs (fun b => (Ok tt, drop_lease (ro_release_fails o) lease b)) ;!
              throw (error_response 500 "artifact_unavailable" "artifact bytes unavailable")
          | Ok content =>
              ret {| status := 200; body := RbArtifact artifact_id (ar_digest record) {| rd_rest := content; rd_lease := lease |} |}
          end
      end
  end.

(** ** The streamed bodies *)

(** A read of at most 64 KiB of an open file: empty only at its end. *)
Definition read_file (size : nat) (rest : bytes) : bytes * bytes :=
  let n := Nat.max 1 (Nat.min size (Pos.to_nat 65536)) in (take n rest, drop n rest).

(** One round of [blob_download]'s stream; [read] is [None] for a failing read. *)
Definition pull_blob (read : option nat) (fault : option StoreError) (r : BlobReader) (db : Db) : Pull BlobReader * Db :=
  match read with
  | None => (PullFailed "blob read failed", db)
  | Some size =>
      match read_file size (br_rest r) with
      | ([], _) => (PullEnd, db)
      | (chunk, rest) =>
          (PullChunk chunk {| br_rest := rest |}, (increment_metrics fault [("blob_download_bytes", len chunk)] db).2)
      end
  end.

(** One round of [artifact_download]'s stream; the end of the stream drops the lease. *)
Definition pull_artifact (read : option nat) (now : Z) (renew_fails release_fails : bool) (r : ArtifactReader) (b : BlobStore)
    : Pull ArtifactReader * BlobStore :=
  match read with
  | None => (PullFailed "artifact read failed", drop_lease release_fails (rd_lease r) b)
  | Some size =>
      match read_file size (rd_rest r) with
      | ([], _) => (PullEnd, drop_lease release_fails (rd_lease r) b)
      | (chunk, rest) =>
          match renew renew_fails now (rd_lease r) b with
          | (Err _, b) => (PullFailed "artifact lease refresh failed", drop_lease release_fails (rd_lease r) b)
          | (Ok _, b) => (PullChunk chunk {| rd_rest := rest; rd_lease := rd_lease r |}, b)
          end
      end
  end.

(** The storage routes of [dispatch]. *)
Definition storage_route (cfg : StorageConfig) (o : RouteOutside) (route : Route) (r : HttpRequest) (principal : string)
    : option (handler Response) :=
  match route with
  | RtBlobMissing => Some (blob_missing cfg o r principal)
  | RtBlobPrepare => Some (blob_prepare cfg o r principal)
  | RtBlobUpload digest => Some (blob_upload cfg o r digest)
  | RtBlobDownload digest => Some (blob_download o digest)
  | RtBlobInvalidDigest => Some (ret (error_response 400 "invalid_digest" "blob digest is invalid"))
  | RtWorkspaceCreate => Some (workspace_create cfg o r principal)
  | RtWorkspaceDerive => Some (workspace_derive cfg o r principal)
  | RtArtifactList id => Some (artifact_list o id (query r) principal)
  | RtArtifactDownload id => Some (artifact_download o id principal)
  | _ => None
  end.
End handlers.

(** ** Requests change only what they may *)

(** A change of the blob store that adds no row but those allowed. *)
Definition adds (may : string -> Prop) (b b' : BlobStore) : Prop :=
  forall d, ~ may d -> blobs b !! d = None -> blobs b' !! d = None.

#[export] Instance adds_preorder may : PreOrder (adds may).
Proof. split; [by intros b d|]. intros b1 b2 b3 H1 H2 d Hd Hb. by apply H2, H1. Qed.

(** What a request of [principal] may do to the stores, if it may write the
    blobs [may_write] and create the workspaces [may_create]. *)
Record world_confined (may_write may_create : string -> Prop) (principal : string) (w w' : World) : Prop := {
  cf_workspaces id : ~ may_create id -> workspaces w'.1 !! id = workspaces w.1 !! id;
  cf_manifests p d : p <> principal -> retained_manifests w'.1 !! (p, d) = retained_manifests w.1 !! (p, d);
  cf_blobs : adds may_write w.2 w'.2;
}.

Record confined (may_write may_create : string -> Prop) (principal : string) (s s' : NodeStores) : Prop := {
  cf_artifacts : artifacts s' = artifacts s;
  cf_executions : executions (database s') = executions (database s);
  cf_events : execution_events (database s') = execution_events (database s);
  cf_world : world_confined may_write may_create principal (world s) (world s');
}.

#[export] Instance world_confined_preorder W C p : PreOrder (world_confined W C p).
Proof.
  split; [by split|]. intros w1 w2 w3 [W1 M1 B1] [W2 M2 B2]. split; [| |by etrans].
  - intros id Hid. by rewrite W2, W1.
  - intros q d Hq. by rewrite M2, M1.
Qed.

#[export] Instance confined_preorder W C p : PreOrder (confined W C p).
Proof. split; [by split|]. intros s1 s2 s3 [A1 E1 V1 W1] [A2 E2 V2 W2]. split; [congruence..|by etrans]. Qed.

Section confinement.
Context `{Sha256}.

Lemma verify_existing_adds W fails uuid now d b : adds W b (verify_existing fails uuid now d b).2.
Proof.
  intros d' _ Hd'. unfold verify_existing. destruct (fails VsQuery); [done|]. destruct (blobs b !! d) as [row|] eqn:Er; [|done].
  destruct (files b !! path_for d); [|done]. destruct (fails VsRead); [done|]. destruct (corrupt _ _ _).
  - destruct (fails VsQuarantine); [done|]. destruct (fails VsDelete); [done|]. simpl. apply lookup_delete_None. auto.
  - destruct (fails VsTouch); [done|]. simpl. by rewrite lookup_alter_ne by (intros ->; congruence).
Qed.

Lemma open_verified_adds W fails uuid now d b : adds W b (open_verified fails uuid now d b).2.
Proof.
  pose proof (verify_existing_adds W fails uuid now d b) as Hv. unfold open_verified. by destruct (verify_existing _ _ _ _ _) as [[|] b'].
Qed.

Lemma prepare_upload_adds W fails qf quota uuid now d n b : adds W b (prepare_upload fails qf quota uuid now d n b).2.
Proof.
  pose proof (verify_existing_adds W fails uuid now d b) as Hv. unfold prepare_upload. destruct (_ <? n)%Z; [done|].
  destruct (files b !! _); [by destruct (verify_existing _ _ _ _ _) as [[|] b']|by destruct (query_used _ _)].
Qed.

Lemma put_stream_adds (W : string -> Prop) vf fails quota uuid now d n input b :
  W d -> adds W b (put_stream vf fails quota uuid now d n input b).2.
Proof.
  intros HW d' Hd' Hb. assert (d <> d') as Hne by (by intros ->). unfold put_stream. destruct (_ <? n)%Z; [done|].
  destruct (files b !! _); [by apply (verify_existing_adds W)|]. destruct (query_used _ _); [|done]. destruct (over_quota _ _ _); [done|].
  destruct (fails PsDirectory); [done|]. destruct (_ || _); [done|]. destruct (put_body _ _ _ _ _ _ _) as [r b1] eqn:E.
  assert (blobs b1 !! d' = None) as Hb1.
  { apply put_body_cases in E as [[-> _]|(content & _ & _ & _ & _ & _ & ->)]; [done|]. simpl. by rewrite lookup_insert_ne. }
  destruct r; [done|]. simpl. by destruct (put_cleanup_tables fails uuid d b1) as [-> _].
Qed.

Lemma retain_adds W fails kind id ds e b : adds W b (retain fails kind id ds e b).2.
Proof.
  intros d _ Hd. destruct (retain fails kind id ds e b) as [[[]|] b'] eqn:E; simpl.
  - apply retain_retained in E as [_ S _ _ _]. specialize (S d). rewrite Hd in S. by destruct (blobs b' !! d).
  - apply retain_Err in E. by subst.
Qed.

Lemma release_adds W fails kind id b : adds W b (release_references fails kind id b).2.
Proof. intros d _ Hd. unfold release_references. destruct fails; [done|]. simpl. by apply delete_references_rows. Qed.

(** *** The workspace manager *)

Context `{UuidParse, Serde WorkspaceManifest}.
Context (W C : string -> Prop) (p : string).

Lemma keeps_on_blobs_confined {A} convert (f : BlobStore -> result BlobError A * BlobStore) :
  (forall b, adds W b (f b).2) -> keeps (world_confined W C p) (on_blobs convert f).
Proof. intros Hf w. unfold on_blobs. specialize (Hf w.2). destruct (f w.2). by split. Qed.

Lemma keeps_manifests_confined f :
  (forall rows q d, q <> p -> f rows !! (q, d) = rows !! (q, d)) -> keeps (world_confined W C p) (modify (set_manifests f) : ws unit).
Proof. intros Hf. apply keeps_modify. intros w. split; [done| |done]. intros q d Hq. simpl. by apply Hf. Qed.

Lemma keeps_directories_confined f : keeps (world_confined W C p) (modify (set_directories f) : ws unit).
Proof. apply keeps_modify. by split. Qed.

Lemma keeps_drop_manifest_confined o i digest : keeps (world_confined W C p) (drop_manifest o i p digest).
Proof.
  unfold drop_manifest. keeps_tac.
  - apply keeps_manifests_confined. intros rows q d Hq. apply lookup_delete_ne. congruence.
  - apply keeps_on_blobs_confined. intros b. apply release_adds.
Qed.

Lemma keeps_undo_confined {A} o step dir id e : keeps (world_confined W C p) (undo o step dir id e : ws A).
Proof. unfold undo. keeps_tac; [apply keeps_directories_confined|]. apply keeps_on_blobs_confined. intros b. apply release_adds. Qed.

Lemma keeps_store_manifest_confined o m digest : keeps (world_confined W C p) (store_manifest o p m digest).
Proof.
  unfold store_manifest. keeps_tac.
  - apply keeps_manifests_confined. intros rows q d Hq. apply lookup_insert_ne. congruence.
  - apply keeps_on_blobs_confined. intros b. apply retain_adds.
Qed.

Lemma keeps_prepare_confined o quota id m digest : keeps (world_confined W C p) (prepare o quota id p m digest).
Proof.
  unfold prepare. keeps_tac.
  - unfold check_entry. keeps_tac. apply keeps_on_blobs_confined. intros b. apply verify_existing_adds.
  - apply keeps_on_blobs_confined. intros b. apply retain_adds.
  - apply keeps_store_manifest_confined.
Qed.

Lemma keeps_publish_confined o id exec gen m digest e : C id -> keeps (world_confined W C p) (publish o id exec gen p m digest e).
Proof.
  intros HC. unfold publish. cbv zeta. keeps_tac; try apply keeps_undo_confined.
  - intros w. unfold build_stage. by destruct (materialize_tree _ _ _ _ _ _).
  - apply keeps_directories_confined.
  - intros w. unfold insert_workspace. destruct (_ || _); [done|]. split; [|done|done]. intros id' Hid. simpl.
    apply lookup_insert_ne. by intros ->.
Qed.

Lemma keeps_materialize_confined o quota id exec gen m : C id -> keeps (world_confined W C p) (materialize o quota id exec gen p m).
Proof.
  intros HC. unfold materialize, Workspace.lookup, replay, materialize_new. keeps_tac; [apply keeps_prepare_confined|by apply keeps_publish_confined].
Qed.

Lemma keeps_derived_confined o quota id exec gen patch :
  C id -> keeps (world_confined W C p) (materialize_derived o quota id exec gen p patch).
Proof.
  intros HC. unfold materialize_derived, lookup_manifest. keeps_tac; try apply keeps_drop_manifest_confined.
  by apply keeps_materialize_confined.
Qed.
End confinement.

Section authorization.
Context `{Sha256, UuidParse, Serde WorkspaceManifest, Serde ArtifactRecord}.
Context `{Serde FindMissingRequest, Serde PrepareBlobRequest, Serde WorkspaceCreateRequest, Serde DeriveWorkspaceRequest}.
Context (W C : string -> Prop) (p : string).

Lemma keeps_metrics_confined fault deltas : keeps (confined W C p) (count_metrics fault deltas).
Proof.
  apply keeps_modify. intros s. unfold increment_metrics, transaction. destruct (existsb _ _); [by split|].
  destruct deltas; [by split|]. by destruct fault; split.
Qed.

Lemma keeps_blobs_confined {A} (f : BlobStore -> result BlobError A * BlobStore) :
  (forall b, adds W b (f b).2) -> keeps (confined W C p) (with_blobs f).
Proof. intros Hf s. unfold with_blobs. specialize (Hf (world s).2). destruct (f _). by split. Qed.

Lemma keeps_workspaces_confined {A} (c : ws A) : keeps (world_confined W C p) c -> keeps (confined W C p) (with_workspaces c).
Proof. intros Hc s. unfold with_workspaces. specialize (Hc (world s)). destruct (c _). by split. Qed.

Lemma keeps_decode_confined {A} `{Serde A} limit r large invalid : keeps (confined W C p) (decode_body limit r large invalid : handler A).
Proof. unfold decode_body. keeps_tac. Qed.

Lemma keeps_workspace_guard cfg o v id h : keeps (confined W C p) (workspace_guard cfg o p v id h).
Proof. unfold workspace_guard. keeps_tac. apply keeps_metrics_confined. Qed.

Lemma workspace_guard_Ok cfg o v id h s s' :
  workspace_guard cfg o p v id h s = (Ok tt, s') -> authorize_resource cfg p OpWorkspaceCreate (RWorkspace id) = true.
Proof.
  unfold workspace_guard. intros (? & s1 & _ & Hg)%act_bind_Ok. apply act_bind_Ok in Hg as (? & s2 & Hg & _).
  by destruct (authorize_resource _ _ _ _).
Qed.

Lemma keeps_create_confined cfg o r :
  (forall id, authorize_resource cfg p OpWorkspaceCreate (RWorkspace id) = true -> C id) ->
  keeps (confined W C p) (workspace_create cfg o r p).
Proof.
  intros HC. unfold workspace_create. apply keeps_bind; [apply _|apply keeps_decode_confined|]. intros wire.
  apply keeps_bind_Ok; [apply _|apply keeps_workspace_guard|]. intros [] s1 s2 Hg%workspace_guard_Ok%HC.
  keeps_tac; [|apply keeps_metrics_confined]. apply keeps_workspaces_confined. by apply keeps_materialize_confined.
Qed.

Lemma keeps_derive_confined cfg o r :
  (forall id, authorize_resource cfg p OpWorkspaceCreate (RWorkspace id) = true -> C id) ->
  keeps (confined W C p) (workspace_derive cfg o r p).
Proof.
  intros HC. unfold workspace_derive. apply keeps_bind; [apply _|apply keeps_metrics_confined|intros _].
  apply keeps_bind; [apply _|apply keeps_decode_confined|]. intros wire.
  apply keeps_bind_Ok; [apply _|apply keeps_workspace_guard|]. intros [] s1 s2 Hg%workspace_guard_Ok%HC.
  keeps_tac; try apply keeps_metrics_confined. apply keeps_workspaces_confined. by apply keeps_derived_confined.
Qed.

Lemma keeps_download_confined o id : keeps (confined W C p) (artifact_download o id p).
Proof.
  unfold artifact_download. keeps_tac; apply keeps_blobs_confined; intros b; [apply retain_adds|apply open_verified_adds|apply release_adds].
Qed.
End authorization.

(** The path of an upload names the digest it is authorized for. *)
Lemma upload_resource method path operation digest :
  operation_for method path = Some (operation, RtBlobUpload digest) ->
  operation = OpBlobWrite /\ resource_for_path OpBlobWrite path = Some (RBlob digest).
Proof.
  unfold operation_for. repeat (case_match; [discriminate|]). unfold operation_for_parts, resource_for_path.
  repeat (case_match; try discriminate); intros [= <- <-]; split; try done; simplify_eq/=. by simplify_option_eq.
Qed.

Lemma upload_allowed resolve authorize method path tls principal digest :
  dispatch resolve authorize method path tls = DHandle principal (RtBlobUpload digest) ->
  authorize principal {| or_operation := OpBlobWrite; or_resource := Some (RBlob digest) |} = true.
Proof.
  unfold dispatch. destruct (operation_for method path) as [[operation route]|] eqn:Ho; [|done].
  destruct (authenticated_principal resolve tls); [|done]. destruct (authorize _ _) eqn:Ha; [|done]. intros [= -> ->].
  apply upload_resource in Ho as [-> Hr]. by rewrite Hr in Ha.
Qed.


(** ** Artifact downloads *)

Section download.
Context `{Sha256Ok}.

Lemma read_file_split size rest chunk rest' : read_file size rest = (chunk, rest') -> rest = chunk ++ rest'.
Proof. unfold read_file. intros [= <- <-]. by rewrite take_drop. Qed.

Lemma read_file_end size rest rest' : read_file size rest = ([], rest') -> rest = [].
Proof. unfold read_file. intros [= Ht _]. destruct rest as [|x rest]; [done|]. by destruct (Nat.max _ _) as [|n] eqn:E; [lia|]. Qed.

(** The state of a download: what the client has received, the stream, the
    expiry of its lease and the blob store. *)
Abbreviation download := (bytes * ArtifactReader * Z * BlobStore)%type.

(** A chunk is sent, or someone else uses the blob store; collections run
    before the lease expires. *)
Inductive download_step (quota : Z) : download -> download -> Prop :=
| ds_pull size now release_fails chunk r r' received e b b' :
    (0 <= now <= I64_MAX - READER_LEASE_MILLIS)%Z ->
    pull_artifact (Some size) now false release_fails r b = (PullChunk chunk r', b') ->
    download_step quota (received, r, e, b) (received ++ chunk, r', (now + READER_LEASE_MILLIS)%Z, b')
| ds_other received r e b b' :
    bystander_step quota "reader" (bl_owner_id (rd_lease r)) e b b' -> download_step quota (received, r, e, b) (received, r, e, b').

Definition reader_key (r : ArtifactReader) (digest : string) : RefKey :=
  {| owner_kind := "reader"; owner_id := bl_owner_id (rd_lease r); ref_digest := digest |}.

(** What holds of a download at any moment. *)
Definition downloading (digest : string) (d : download) : Prop :=
  let '(received, r, e, b) := d in
  sha256_hex (received ++ rd_rest r) = digest /\ blob_references b !! reader_key r digest = Some (Some e) /\ holds b digest.

Lemma lease_end now : (0 <= now <= I64_MAX - READER_LEASE_MILLIS)%Z -> as_i64 (sat_add now READER_LEASE_MILLIS) = (now + READER_LEASE_MILLIS)%Z.
Proof. unfold sat_add, READER_LEASE_MILLIS, I64_MAX, U64_MAX. intros ?. rewrite as_i64_small; unfold I64_MAX; lia. Qed.

Lemma download_step_ok quota digest d d' : valid_digest digest -> downloading digest d -> download_step quota d d' -> downloading digest d'.
Proof.
  intros Hv Hd Hs. destruct Hs as [size now rf chunk r r' received e b b' Hnow Hp|received r e b b' Hb]; destruct Hd as (Hh & Hk & Hb').
  - unfold pull_artifact in Hp. destruct (read_file size (rd_rest r)) as [[|x c] rest] eqn:Er; [done|]. injection Hp as <- <- <-.
    apply read_file_split in Er. split; [|split].
    + cbn [rd_rest]. by rewrite <- app_assoc, <- Er.
    + simpl. rewrite map_lookup_imap. unfold reader_key in Hk |- *. cbn [rd_lease]. rewrite Hk. simpl.
      rewrite decide_True by done. by rewrite lease_end.
    + exact Hb'.
  - destruct (bystander_pinned quota (reader_key r digest) e b b') as [Hk' Hd']; [done..|]. by split_and!.
Qed.

Lemma downloads_ok quota digest d d' : valid_digest digest -> downloading digest d -> rtc (download_step quota) d d' -> downloading digest d'.
Proof. intros Hv Hd Hs. induction Hs as [|d d1 d2 H1 _ IH]; [done|]. by apply IH, (download_step_ok quota digest d). Qed.

Lemma dropped_lease l b k : owned_by "reader" (bl_owner_id l) k -> blob_references (drop_lease false l b) !! k = None.
Proof.
  intros Hk. unfold drop_lease, release_references. simpl. rewrite delete_references_lookup. destruct (decide _) as [|Hn]; [done|].
  apply eq_None_not_Some. intros [x Hx]. apply Hn. unfold owned_references. apply list_elem_of_filter. split; [done|].
  apply list_elem_of_fmap. exists (k, x). split; [done|]. by apply elem_of_map_to_list.
Qed.
Context `{Serde ArtifactRecord}.

(** How [artifact_download] can go. *)
Lemma artifact_download_cases o id principal s resp s' :
  respond (artifact_download o id principal) s = (resp, s') ->
  let lease := {| bl_owner_id := ro_uuid o |} in
  ((exists code message, resp = error_response 404 code message) /\ s' = s)
  \/ (exists record b1, get_artifact (ro_artifacts_fail o) (ro_now o) id principal (artifacts s) = Ok record
       /\ retained "reader" (ro_uuid o) [ar_digest record] (Some (sat_add (ro_now o) READER_LEASE_MILLIS)) (world s).2 b1
       /\ let '(file, b2) := open_verified (ro_verify o) (ro_uuid o) (ro_now o) (ar_digest record) b1 in
          match file with
          | Err _ => (exists code message, resp = error_response 500 code message) /\ (world s').2 = drop_lease (ro_release_fails o) lease b2
          | Ok content => resp = {| status := 200; body := RbArtifact id (ar_digest record) {| rd_rest := content; rd_lease := lease |} |}
                          /\ (world s').2 = b2
          end).
Proof.
  unfold respond, artifact_download, act_bind, gets, with_blobs. destruct (get_artifact _ _ _ _ _) as [record|] eqn:Eg; [|intros [= <- <-]; left; split; [by do 2 eexists|done]].
  destruct (retain _ _ _ _ _ _) as [[[]|] b1] eqn:Er.
  - intros Hr. right. exists record, b1. split; [done|]. split; [by eapply retain_retained|]. simpl in Hr.
    destruct (open_verified _ _ _ _ b1) as [[content|] b2]; injection Hr as <- <-; [done|].
    split; [by do 2 eexists|done].
  - apply retain_Err in Er as ->. intros [= <- <-]. left. split; [by do 2 eexists|]. by destruct s as [[]].
Qed.

Lemma open_verified_Ok fails uuid now d b content b' :
  open_verified fails uuid now d b = (Ok content, b') -> touched b b' /\ holds b d /\ sha256_hex content = d.
Proof.
  unfold open_verified. destruct (verify_existing _ _ _ _ _) as [[[]|] b1] eqn:E; [|done]. apply verify_existing_Ok in E as (Ht & row & c & Hr & Hc & Hq).
  rewrite (tch_files _ _ Ht), Hc. intros [= <- <-]. pose proof (holds_not_corrupt _ _ _ _ Hc Hr Hq) as Hd. split; [done|]. split; [done|].
  destruct Hd as (c' & ? & Hc' & ? & _). congruence.
Qed.

Lemma get_artifact_Ok fails now id principal rows record :
  get_artifact fails now id principal rows = Ok record ->
  exists row, rows !! id = Some row /\ visible now principal row /\ from_slice (record_json row) = Some record.
Proof.
  unfold get_artifact. destruct fails; [done|]. destruct (rows !! id) as [row|]; [|done]. case_decide; [|done].
  destruct (from_slice _) eqn:E; [|done]. intros [= <-]. by exists row.
Qed.

(** C24: downloading an artifact.  A stream is only opened for an unexpired
    artifact of the principal.  From then on, however the chunks are cut and
    whatever anyone else does to the blob store, with collections at any time
    before the lease runs out, what the client has received and what is still
    to come hash to the artifact's digest, the blob stays pinned and readable;
    a stream that ends by itself has delivered exactly those bytes and leaves
    no reference of its own.  A request that gets no stream leaves none
    either. *)
Theorem artifact_download_sound (quota : Z) (o : RouteOutside) (id principal : string) (s : NodeStores) :
  (0 <= ro_now o <= I64_MAX - READER_LEASE_MILLIS)%Z ->
  let '(resp, s') := respond (artifact_download o id principal) s in
  match body resp with
  | RbArtifact id' digest r =>
      id' = id /\ status resp = 200%Z
      /\ (exists row record, artifacts s !! id = Some row /\ visible (ro_now o) principal row
           /\ from_slice (record_json row) = Some record /\ ar_digest record = digest)
      /\ forall received r' e b, rtc (download_step quota) ([], r, (ro_now o + READER_LEASE_MILLIS)%Z, (world s').2) (received, r', e, b) ->
           sha256_hex (received ++ rd_rest r') = digest /\ blob_references b !! reader_key r' digest = Some (Some e) /\ holds b digest
           /\ forall size now renew_fails b', pull_artifact (Some size) now renew_fails false r' b = (PullEnd, b') ->
                sha256_hex received = digest /\ forall k, owned_by "reader" (bl_owner_id (rd_lease r')) k -> blob_references b' !! k = None
  | _ =>
      (forall k, owned_by "reader" (ro_uuid o) k -> blob_references (world s).2 !! k = None) -> ro_release_fails o = false ->
      forall k, owned_by "reader" (ro_uuid o) k -> blob_references (world s').2 !! k = None
  end.
Proof.
  intros Hnow. destruct (respond _ _) as [resp s'] eqn:E. apply artifact_download_cases in E as [[(c & m & ->) ->]|(record & b1 & Hg & Hret & Ho)].
  - simpl. by intros Hfree _.
  - destruct (open_verified _ _ _ _ b1) as [[content|] b2] eqn:Eo.
    + destruct Ho as [-> Hw]. cbn [body status]. apply open_verified_Ok in Eo as (Ht & Hh & Hc).
      assert (valid_digest (ar_digest record)) as Hv by (rewrite <- Hc; eapply proj2, BlobDigest_parse_ok, sha256_hex_wf).
      split; [done|]. split; [done|]. split; [destruct (get_artifact_Ok _ _ _ _ _ _ Hg) as (row & ? & ? & ?); by eauto 10|].
      intros received r' e b Hs. rewrite Hw in Hs. eapply (downloads_ok quota (ar_digest record)) in Hs as (H1' & H2' & H3'); [|done|].
      * split; [done|]. split; [done|]. split; [done|]. intros size now rf b' Hp. unfold pull_artifact in Hp.
        destruct (read_file size (rd_rest r')) as [[|x c] rest] eqn:Er; [|by destruct (renew _ _ _ _) as [[|] ?]].
        injection Hp as <-. apply read_file_end in Er. rewrite Er, app_nil_r in H1'. split; [done|]. intros k Hk. by apply dropped_lease.
      * split; [done|]. split; [|by eapply holds_touched]. rewrite (tch_references _ _ Ht). unfold reader_key. simpl.
        rewrite (ret_pins _ _ _ _ _ _ Hret) by set_solver. simpl. by rewrite lease_end.
    + destruct Ho as [(c & m & ->) Hw]. simpl. intros _ Hrel k Hk. rewrite Hw, Hrel. by apply dropped_lease.
Qed.
End download.

(** ** Reference encoding and witnesses *)

#[export] Instance ExecutionHandle_tree : Tree ExecutionHandle :=
  via_tree (fun h => (eh_execution_id h, eh_generation h, eh_lease_id h))
    (fun t => {| eh_execution_id := t.1.1; eh_generation := t.1.2; eh_lease_id := t.2 |})
    (fun h => match h with Build_ExecutionHandle _ _ _ => eq_refl end).
#[export] Instance WorkspaceCreateRequest_tree : Tree WorkspaceCreateRequest :=
  via_tree (fun r => (wc_schema_version r, wc_workspace_id r, wc_handle r, wc_manifest r))
    (fun t => {| wc_schema_version := t.1.1.1; wc_workspace_id := t.1.1.2; wc_handle := t.1.2; wc_manifest := t.2 |})
    (fun r => match r with Build_WorkspaceCreateRequest _ _ _ _ => eq_refl end).

#[local] Instance w_sha : Sha256 := zero_sha256.
#[local] Instance w_sha_ok : Sha256Ok := fun _ => eq_refl.
#[local] Instance w_uuid : UuidParse := fun _ => true.
#[local] Instance w_manifest_serde : Serde WorkspaceManifest := tree_serde.
#[local] Instance w_record_serde : Serde ArtifactRecord := tree_serde.
#[local] Instance w_create_serde : Serde WorkspaceCreateRequest := tree_serde.

(** A decoder that refuses everything, for the routes the witness leaves alone. *)
Definition refuses {A} : Serde A := {| to_vec := fun _ => None; from_slice := fun _ => None |}.

Definition w_route : RouteOutside :=
  {| ro_query_fails := false; ro_verify := fun _ => false; ro_put := fun _ => false; ro_workspace := w_outside; ro_artifacts_fail := false;
     ro_retain_fails := false; ro_release_fails := false; ro_metric := None; ro_now := 9; ro_uuid := "reader-1" |}.
Definition w_stores : NodeStores :=
  {| world := (w_manager, w_capture.2.2); artifacts := w_capture.2.1; database := empty_db |}.

(** A policy that lets [p] create the workspace [w] only. *)
Definition w_policy (principal : string) (r : OperationRequest) : bool :=
  String.eqb principal "p"
  && match or_operation r, or_resource r with
     | OpWorkspaceCreate, None => true
     | OpWorkspaceCreate, Some (RWorkspace id) => String.eqb id "w"
     | _, _ => false
     end.
Definition w_cfg : StorageConfig := {| blob_quota_bytes := 100; workspace_quota_bytes := 100; authorize_request := w_policy |}.
Definition w_create : WorkspaceCreateRequest :=
  {| wc_schema_version := 1; wc_workspace_id := "w"; wc_handle := {| eh_execution_id := "e"; eh_generation := 1; eh_lease_id := "l" |};
     wc_manifest := w_manifest |}.
Definition w_request : HttpRequest := {| query := None; body_length := None; body_chunks := [to_vec w_create] |}.
Definition w_tls : TlsInfo :=
  {| client_authenticated := true; peer_certificates_present := true; peer_certificate_chain := Some [[Byte.x01]] |}.


Lemma artifact_download_sound_witness :
  exists content s', respond (artifact_download w_route "id-1" "p") w_stores
    = ({| status := 200; body := RbArtifact "id-1" zeros {| rd_rest := content; rd_lease := {| bl_owner_id := "reader-1" |} |} |}, s')
  /\ content = concat w_input
  /\ blob_references (world s').2 !! {| owner_kind := "reader"; owner_id := "reader-1"; ref_digest := zeros |} = Some (Some 1800009%Z).
Proof.
  assert ((respond (artifact_download w_route "id-1" "p") w_stores).1
    = {| status := 200; body := RbArtifact "id-1" zeros {| rd_rest := concat w_input; rd_lease := {| bl_owner_id := "reader-1" |} |} |})
    as E by (vm_compute; reflexivity).
  pose proof (artifact_download_sound 100 w_route "id-1" "p" w_stores ltac:(vm_compute; split; discriminate)) as Hd.
  destruct (respond _ _) as [resp s']. simpl in E. subst resp. cbn [body status] in Hd.
  destruct Hd as (_ & _ & _ & Hrun). destruct (Hrun [] _ _ _ (rtc_refl _ _)) as (_ & Hk & _). eexists _, s'. split; [done|]. by split.
Defined.
