(* ===== verification/Handlers.v ===== *)
(** * The node: admission, control, tasks and lifecycle

    [eggwork-server/src/lib.rs], lines 188-244, 316-598, 884-892, 1558-1957,
    2031-2376, 2499-2589 and 2784-2800: the node's state, its start and
    shutdown, the execute, observe, control and events handlers, the end of an
    execution's task and the garbage collection pass, on top of the stores
    ([Store], [Blob], [Workspace], [Artifact]), the storage routes ([Storage])
    and the execution records ([Node]).

    A handler is an action on the node's state whose early returns are thrown
    outcomes.  The map of executions is locked from the lookup of an execution
    to its insertion, so the whole of [execute] is one step; what a
    publication does between its commit and its broadcast is in [Node].  The
    semaphore is the number of free permits; a permit moves into the task of
    the execution that holds it.  Iterating a [HashMap] follows an arbitrary
    order, an argument. *)

From Stdlib Require Import Ascii String ZArith Lia.
From stdpp Require Import base gmap strings list relations.
From S2P Require Import Prelude Text Ids Wire Spec Manifest Events Store Capture Runner Routes Node Blob Workspace Artifact Storage.

Open Scope act_scope.

Definition MAX_RECENT_EXECUTIONS : Z := 1024.

(** ** Requests *)

Record ExecuteRequest := {
  xr_schema_version : Z;
  xr_handle : ExecutionHandle;
  xr_workspace_id : option string;
  xr_spec : ExecutionSpec;
}.

Record ControlRequest := {
  ct_schema_version : Z;
  ct_handle : ExecutionHandle;
  ct_renewal_id : option string;
}.

(** What a handler answers: a response, an error of the service, or the
    stream of an execution's events. *)
Inductive Outcome : Type :=
| OResponse (r : Response)
| OService (message : string)
| OEvents (reply : EventReply).

(** ** State *)

Record WorkspaceCapture := {
  wcp_id : string;
  wcp_root : path;
  wcp_principal : string;
  wcp_outputs : list DeclaredOutput;
}.

(** A task of [run_execution]: its execution, what it runs, its workspace, and
    the result once the execution is finalized.  A task holds a permit. *)
Record Task := {
  tk_id : string;
  tk_generation : Z;
  tk_request : RunnerRequest;
  tk_workspace : option WorkspaceCapture;
  tk_result : option ExecutionResult;
}.

Record NodeConfig := {
  nc_node_id : string;
  nc_storage : StorageConfig;
  nc_execution_root : path;
  nc_workspace_root : path;
  nc_max_active : Z;
  nc_lease_ttl_ms : Z;
  nc_features : list string;
}.

Record NodeState := {
  ns_stores : NodeStores;
  ns_executions : gmap string ExecutionRecord;
  ns_permits : Z;
  ns_draining : bool;
  ns_drain_file : bool;
  ns_tasks : list Task;
}.

Definition set_stores (f : NodeStores -> NodeStores) (s : NodeState) : NodeState :=
  {| ns_stores := f (ns_stores s); ns_executions := ns_executions s; ns_permits := ns_permits s; ns_draining := ns_draining s;
     ns_drain_file := ns_drain_file s; ns_tasks := ns_tasks s |}.
Definition set_records (f : gmap string ExecutionRecord -> gmap string ExecutionRecord) (s : NodeState) : NodeState :=
  {| ns_stores := ns_stores s; ns_executions := f (ns_executions s); ns_permits := ns_permits s; ns_draining := ns_draining s;
     ns_drain_file := ns_drain_file s; ns_tasks := ns_tasks s |}.
Definition set_permits (f : Z -> Z) (s : NodeState) : NodeState :=
  {| ns_stores := ns_stores s; ns_executions := ns_executions s; ns_permits := f (ns_permits s); ns_draining := ns_draining s;
     ns_drain_file := ns_drain_file s; ns_tasks := ns_tasks s |}.
Definition set_drain_flag (draining : bool) (s : NodeState) : NodeState :=
  {| ns_stores := ns_stores s; ns_executions := ns_executions s; ns_permits := ns_permits s; ns_draining := draining;
     ns_drain_file := ns_drain_file s; ns_tasks := ns_tasks s |}.
Definition set_drain_file (present : bool) (s : NodeState) : NodeState :=
  {| ns_stores := ns_stores s; ns_executions := ns_executions s; ns_permits := ns_permits s; ns_draining := ns_draining s;
     ns_drain_file := present; ns_tasks := ns_tasks s |}.
Definition set_tasks (f : list Task -> list Task) (s : NodeState) : NodeState :=
  {| ns_stores := ns_stores s; ns_executions := ns_executions s; ns_permits := ns_permits s; ns_draining := ns_draining s;
     ns_drain_file := ns_drain_file s; ns_tasks := f (ns_tasks s) |}.

Definition ns_db (s : NodeState) : Db := database (ns_stores s).

Abbreviation node A := (act NodeState Outcome A).

(** What the execution handlers meet outside: failures, the wall clock as the
    handler ([ho_now]), the store ([ho_stored]) and the handler again
    ([ho_later]) read it, the monotonic clock, and the order of the map. *)
Record HandlerOutside := {
  ho_metric : option StoreError;
  ho_lookup : option StoreError;
  ho_latest : option StoreError;
  ho_reserve : option StoreError;
  ho_renewal : option StoreError;
  ho_commit : option StoreError;
  ho_page : option StoreError;
  ho_resolve : Outside;
  ho_activate : Outside;
  ho_retain : Outside;
  ho_now : Z;
  ho_stored : Z;
  ho_later : Z;
  ho_instant : Z;
  ho_instant_later : Z;
  ho_order : gmap string ExecutionRecord -> list (string * ExecutionRecord);
}.

Definition answer {A} (r : Response) : node A := throw (OResponse r).
Definition unavailable {A} : node A := throw (OService "execution store unavailable").

(** [increment_metric] and [increment_metrics] *)
Definition node_metrics_add (fault : option StoreError) (deltas : list (string * Z)) : node unit :=
  modify (set_stores (set_database (fun db => (increment_metrics fault deltas db).2))).
Definition bump (o : HandlerOutside) (name : string) : node unit := node_metrics_add (ho_metric o) [(name, 1%Z)].

(** A refusal that is counted. *)
Definition reject {A} (o : HandlerOutside) (metric : string) (r : Response) : node A := bump o metric ;! answer r.
Definition reject_if (o : HandlerOutside) (b : bool) (metric : string) (r : Response) : node unit :=
  if b then reject o metric r else ret tt.

(** A query of the execution store, which the engine can fail. *)
Definition query_store {A} (fault : option StoreError) (f : Db -> result StoreError A) : node A :=
  fun s => match fault with
           | Some _ => unavailable s
           | None => match f (ns_db s) with Ok a => (Ok a, s) | Err _ => unavailable s end
           end.

Definition node_workspaces {A} (c : ws A) : node (result WorkspaceError A) :=
  fun s => let '(r, w) := c (world (ns_stores s)) in (Ok r, set_stores (set_world (fun _ => w)) s).

(** Whether the node takes no executions. *)
Definition is_draining (s : NodeState) : bool := ns_draining s || ns_drain_file s.

Definition not_found : Response := error_response 404 "execution_not_found" "execution not found".
Definition drained : Response := error_response 503 "draining" "node is not accepting executions".
Definition mismatch (what : string) : Response := error_response 409 "capability_mismatch" what.
Definition spec_invalid : Response := invalid_request "execution specification is invalid".
Definition workspace_not_ready : Response :=
  error_response 409 "workspace_not_ready" "workspace is unavailable for this execution".
Definition identity_conflict : Response :=
  error_response 409 "execution_identity_conflict" "execution identity conflicts with an existing request".
Definition bad_lease : Response := error_response 403 "invalid_lease" "execution lease is invalid".
Definition lease_gone : Response := error_response 409 "lease_expired" "execution lease has expired".
Definition foreign : Response := error_response 403 "forbidden" "execution belongs to another principal".

(** [now.saturating_add(lease_ttl.as_millis().min(i64::MAX) as i64)] *)
Definition lease_end_unix (cfg : NodeConfig) (now : Z) : Z := i64_sat_add now (Z.min (nc_lease_ttl_ms cfg) I64_MAX).

Section node.
Context `{Sha256, UuidParse, Serde WorkspaceManifest, Serde ArtifactRecord}.
Context `{Serde ExecutionSnapshot, Serde ExecutionEvent, Serde ExecuteRequest, Serde ControlRequest}.
Context `{Serde FindMissingRequest, Serde PrepareBlobRequest, Serde WorkspaceCreateRequest, Serde DeriveWorkspaceRequest}.
Context `{Serde ExecutionSpec, Serde (ExecutionSpec * string)}.

(** ** Publishing and streaming *)

(** [publish] on a record of the map. *)
Definition publish_record (fault : option StoreError) (now : Z) (id : string) (st : ExecutionState) (res : option ExecutionResult)
    (k : ExecutionEventKind) : node unit :=
  fun s => match ns_executions s !! id with
           | None => (Ok tt, s)
           | Some r =>
               let '(r, draining, db) := Node.publish fault st res k now r (ns_draining s) (ns_db s) in
               (Ok tt, set_drain_flag draining (set_records <[id := r]> (set_stores (set_database (fun _ => db)) s)))
           end.

(** [event_response], as of the moment it answers. *)
Definition events_answer {A} (o : HandlerOutside) (id : string) (generation after : Z) (r : ExecutionRecord) : node A :=
  fun s =>
    let page := match ho_page o with Some e => Err e | None => load_page id generation after (ns_db s) end in
    let reply := event_response after page (is_terminal (snap_state (rec_snapshot r))) [] TailPending in
    let resync := match reply with EventsRefused status _ => (status =? 410)%Z | _ => false end in
    ((if resync then bump o "event_history_resync" else ret tt) ;! throw (OEvents reply)) s.

(** ** Execute *)

(** What the checks of [execute] leave for the admission. *)
Record Admission := {
  ad_wire : ExecuteRequest;
  ad_principal : string;
  ad_canonical_version : Z;
  ad_digest : string;
  ad_lease_hash : string;
  ad_request : RunnerRequest;
  ad_capture : option WorkspaceCapture;
}.

Definition ad_id (a : Admission) : string := eh_execution_id (xr_handle (ad_wire a)).
Definition ad_generation (a : Admission) : Z := eh_generation (xr_handle (ad_wire a)).

(** The root an execution runs in. *)
Definition execution_root (cfg : NodeConfig) (o : HandlerOutside) (wire : ExecuteRequest) (principal : string) : node path :=
  match xr_workspace_id wire with
  | None => ret (nc_execution_root cfg)
  | Some workspace_id =>
      let! ready := node_workspaces (resolve (ho_resolve o) workspace_id (eh_execution_id (xr_handle wire))
                                       (eh_generation (xr_handle wire)) principal) in
      match ready with
      | Ok ready => ret (nc_workspace_root cfg ++ [rw_root ready])
      | Err _ => reject o "rejected_invalid" workspace_not_ready
      end
  end.

(** [execute] up to the lock of the executions. *)
Definition check_execute (cfg : NodeConfig) (o : HandlerOutside) (r : HttpRequest) (principal : string) : node Admission :=
  let! bytes := of_result (map_err (fun _ => OResponse (too_large "request body exceeds limit"))
                             (read_limited_body MAX_REQUEST_BYTES [] (body_chunks r))) in
  let! wire := of_result (ok_or (from_slice bytes) (OResponse (invalid_request "request body is invalid"))) in
  let id := eh_execution_id (xr_handle wire) in
  let generation := eh_generation (xr_handle wire) in
  let spec := xr_spec wire in
  let c := command spec in
  guard_err (negb (xr_schema_version wire =? API_SCHEMA_VERSION)%Z)
    (OResponse (error_response 426 "protocol_version" "unsupported schema version")) ;!
  guard_err (negb (authorize_resource (nc_storage cfg) principal OpExecute (RExecution id))
             || match xr_workspace_id wire with
                | Some w => negb (authorize_resource (nc_storage cfg) principal OpExecute (RWorkspace w))
                | None => false
                end) (OResponse forbidden) ;!
  guard_err (negb (is_ok (ExecutionGeneration_new generation))) (OResponse (invalid_request "execution generation is invalid")) ;!
  reject_if o (negb (Spec.schema_version spec =? API_SCHEMA_VERSION)%Z) "rejected_invalid"
    (error_response 426 "protocol_version" "unsupported execution schema version") ;!
  reject_if o (negb (is_ok (ExecutionSpec_validate spec))) "rejected_invalid" spec_invalid ;!
  reject_if o (negb (len (declared_outputs c) =? 0)%Z && negb (is_some (xr_workspace_id wire))) "rejected_invalid"
    (error_response 400 "workspace_required" "declared outputs require an execution workspace") ;!
  let! draining := gets is_draining in
  reject_if o draining "rejected_draining" drained ;!
  reject_if o (negb (check_isolation_supported (nc_features cfg) (isolation c))) "rejected_capability"
    (mismatch "requested filesystem isolation capability is unavailable") ;!
  reject_if o (negb (check_resources_supported (nc_features cfg) (resources c))) "rejected_capability"
    (mismatch "requested resource control capability is unavailable") ;!
  reject_if o (negb (check_network_supported (network c))) "rejected_capability"
    (mismatch "requested network capability is unavailable") ;!
  match request_digest_with_workspace spec (xr_workspace_id wire) with
  | None => reject o "rejected_invalid" spec_invalid
  | Some (canonical_version, digest) =>
      let! root := execution_root cfg o wire principal in
      match RunnerRequest_from_spec spec root {| prov_execution_id := Some id; prov_generation := Some generation |} with
      | Err _ => reject o "rejected_invalid" spec_invalid
      | Ok request =>
          ret {| ad_wire := wire; ad_principal := principal; ad_canonical_version := canonical_version; ad_digest := digest;
                 ad_lease_hash := lease_hash (eh_lease_id (xr_handle wire)); ad_request := request;
                 ad_capture := (fun w => {| wcp_id := w; wcp_root := root; wcp_principal := principal;
                                            wcp_outputs := declared_outputs c |}) <$> xr_workspace_id wire |}
      end
  end.

(** What [execute] answers when the execution exists. *)
Definition attach (o : HandlerOutside) (a : Admission) (existing : ExistingExecution) : node unit :=
  guard_err (negb (ex_canonical_version existing =? ad_canonical_version a)%Z)
    (OResponse (error_response 409 "canonicalization_version_mismatch"
                  "execution identity uses an unsupported request canonicalization version")) ;!
  guard_err (negb (String.eqb (ex_principal_id existing) (ad_principal a))) (OResponse foreign) ;!
  guard_err (negb (String.eqb (ex_digest existing) (ad_digest a)) || negb (String.eqb (ex_lease_token_hash existing) (ad_lease_hash a)))
    (OResponse identity_conflict) ;!
  let! record := gets (fun s => ns_executions s !! ad_id a) in
  let recovered := recovered_record (ex_snapshot existing) (ex_lease_token_hash existing) (ho_instant o) in
  events_answer o (ad_id a) (ad_generation a) 0
    match record with
    | Some r => if (Events.generation (rec_snapshot r) =? ad_generation a)%Z then r else recovered
    | None => recovered
    end.

(** The terminal records that make room, in the order the map is iterated. *)
Fixpoint evictable (size : Z) (terminal : list string) (records : list (string * ExecutionRecord)) : list string :=
  match records with
  | [] => terminal
  | (id, r) :: records =>
      let terminal := if is_terminal (snap_state (rec_snapshot r)) then terminal ++ [id] else terminal in
      if (size - len terminal <? MAX_RECENT_EXECUTIONS)%Z then terminal else evictable size terminal records
  end.

Definition evict (order : gmap string ExecutionRecord -> list (string * ExecutionRecord)) (records : gmap string ExecutionRecord)
    : gmap string ExecutionRecord :=
  if (MAX_RECENT_EXECUTIONS <=? Z.of_nat (size records))%Z
  then foldl (fun m id => delete id m) records (evictable (Z.of_nat (size records)) [] (order records))
  else records.

(** [let _ = state.workspaces.mark_terminal(..)] on a refused admission. *)
Definition release_workspace (o : HandlerOutside) (a : Admission) : node unit :=
  match xr_workspace_id (ad_wire a) with
  | None => ret tt
  | Some w =>
      let! _ := node_workspaces (mark_terminal (ho_retain o) w (sat_add (ho_later o) DEFAULT_RETENTION_MILLIS)) in
      ret tt
  end.

Definition accepted (a : Admission) : ExecutionSnapshot :=
  {| snap_schema_version := API_SCHEMA_VERSION; Events.execution_id := ad_id a; Events.generation := ad_generation a;
     snap_state := Accepted; snap_result := None |}.

(** Room among the recent executions. *)
Definition make_room (o : HandlerOutside) : node unit :=
  modify (set_records (evict (ho_order o))) ;!
  let! recent := gets (fun s => Z.of_nat (size (ns_executions s))) in
  reject_if o (MAX_RECENT_EXECUTIONS <=? recent)%Z "rejected_storage"
    (error_response 503 "storage_exhausted" "recent execution capacity reached").

Definition activate_workspace (o : HandlerOutside) (a : Admission) : node unit :=
  match xr_workspace_id (ad_wire a) with
  | None => ret tt
  | Some w =>
      let! active := node_workspaces (mark_active (ho_activate o) w) in
      reject_if o (negb (is_ok active)) "rejected_invalid" workspace_not_ready
  end.

(** The reservation and what each of its answers leads to. *)
Definition reserve_slot (cfg : NodeConfig) (o : HandlerOutside) (a : Admission) : node unit :=
  let! reservation := (fun s =>
    let '(r, db) := reserve (ho_reserve o) (accepted a) (ad_canonical_version a) (ad_digest a) (ad_principal a) (ad_lease_hash a)
                      (lease_end_unix cfg (ho_now o)) (ho_stored o) (ns_db s) in
    (Ok r, set_stores (set_database (fun _ => db)) s)) in
  match reservation with
  | Err _ => release_workspace o a ;! unavailable
  | Ok Created => bump o "executions_accepted"
  | Ok (Existing snapshot) =>
      (if is_terminal (snap_state snapshot) then release_workspace o a else ret tt) ;!
      events_answer o (ad_id a) (ad_generation a) 0 (recovered_record snapshot (ad_lease_hash a) (ho_instant o))
  | Ok Conflict => release_workspace o a ;! answer identity_conflict
  | Ok StaleGeneration =>
      release_workspace o a ;! answer (error_response 409 "generation_mismatch" "execution generation is stale or out of sequence")
  | Ok StorageFull =>
      bump o "rejected_storage" ;! release_workspace o a ;!
      answer (error_response 503 "storage_exhausted" "execution identity capacity reached")
  end.

(** [execute] with a permit in hand, up to the reservation. *)
Definition reserve_execution (cfg : NodeConfig) (o : HandlerOutside) (a : Admission) : node unit :=
  make_room o ;! activate_workspace o a ;! reserve_slot cfg o a.

(** The record and the task of a new execution. *)
Definition admitted (cfg : NodeConfig) (o : HandlerOutside) (a : Admission) : node unit :=
  modify (set_records <[ad_id a := new_record (accepted a) (ad_lease_hash a) (ho_instant o) (nc_lease_ttl_ms cfg)]>) ;!
  modify (set_tasks (fun l => l ++ [{| tk_id := ad_id a; tk_generation := ad_generation a; tk_request := ad_request a;
                                       tk_workspace := ad_capture a; tk_result := None |}])).

(** [execute] under the lock of the executions: dropping the permit returns it. *)
Definition admit_execution (cfg : NodeConfig) (o : HandlerOutside) (a : Admission) : node unit :=
  let! existing := query_store (ho_lookup o) (Store.lookup (ad_id a) (ad_generation a)) in
  match existing with
  | Some existing => attach o a existing
  | None =>
      let! draining := gets is_draining in
      reject_if o draining "rejected_draining" drained ;!
      let! permits := gets ns_permits in
      reject_if o (permits =? 0)%Z "rejected_busy" (error_response 503 "busy" "node execution limit reached") ;!
      modify (set_permits Z.pred) ;!
      let! reserved := attempt (reserve_execution cfg o a) in
      match reserved with
      | Err outcome => modify (set_permits Z.succ) ;! throw outcome
      | Ok _ => admitted cfg o a
      end
  end.

(** [execute] *)
Definition execute (cfg : NodeConfig) (o : HandlerOutside) (r : HttpRequest) (principal : string) : node Outcome :=
  let! a := check_execute cfg o r principal in
  admit_execution cfg o a ;!
  publish_record (ho_commit o) (ho_stored o) (ad_id a) Accepted None (EvState Accepted) ;!
  let! record := gets (fun s => ns_executions s !! ad_id a) in
  match record with
  | Some record => events_answer o (ad_id a) (ad_generation a) 0 record
  | None => unavailable
  end.

(** ** Observe *)

(** [observe] *)
Definition observe (o : HandlerOutside) (id : string) (query : option string) (principal : string) : node Outcome :=
  let! generation := of_result
    match query_parameter query "generation" with
    | Ok (Some value) =>
        match parse_generation value with
        | Some generation => Ok (Some generation)
        | None => Err (OResponse (invalid_request "generation is invalid"))
        end
    | Ok None => Ok None
    | Err _ => Err (OResponse (invalid_request "query is invalid"))
    end in
  let! found := query_store (ho_lookup o) (load_snapshot_for_principal id generation principal) in
  match found with
  | Some snapshot => ret (OResponse (json_response 200 (RbSnapshot snapshot)))
  | None => ret (OResponse not_found)
  end.

(** ** Control *)

(** The checks of [control] that name the execution: its row and its record. *)
Definition check_control (o : HandlerOutside) (id : string) (r : HttpRequest) (principal : string)
    : node (ControlRequest * ExecutionRecord) :=
  let! bytes := of_result (map_err (fun _ => OResponse (too_large "request body exceeds limit"))
                             (read_limited_body MAX_REQUEST_BYTES [] (body_chunks r))) in
  let! request := of_result (ok_or (from_slice bytes) (OResponse (invalid_request "request body is invalid"))) in
  let h := ct_handle request in
  guard_err (negb (ct_schema_version request =? API_SCHEMA_VERSION)%Z || negb (String.eqb (eh_execution_id h) id))
    (OResponse (invalid_request "control request is invalid")) ;!
  let! existing := query_store (ho_lookup o) (Store.lookup id (eh_generation h)) in
  let! existing := of_result (ok_or existing (OResponse not_found)) in
  guard_err (negb (String.eqb (ex_principal_id existing) principal)) (OResponse foreign) ;!
  guard_err (negb (String.eqb (ex_lease_token_hash existing) (lease_hash (eh_lease_id h)))) (OResponse bad_lease) ;!
  let! latest := query_store (ho_latest o) (load_snapshot id None) in
  let! latest := of_result (ok_or latest (OResponse not_found)) in
  guard_err (negb (Events.generation latest =? eh_generation h)%Z)
    (OResponse (error_response 409 "generation_mismatch" "execution generation is stale")) ;!
  let! record := gets (fun s => ns_executions s !! id) in
  let! record := of_result (ok_or record (OResponse not_found)) in
  guard_err (negb (String.eqb (rec_lease_hash record) (ex_lease_token_hash existing))) (OResponse bad_lease) ;!
  ret (request, record).

Definition lease_over (now : Z) (r : ExecutionRecord) : bool := Node.expired (rec_lease r) || (expires_at (rec_lease r) <=? now)%Z.

(** The renewal half of [control]. *)
Definition renew_execution (cfg : NodeConfig) (o : HandlerOutside) (id : string) (request : ControlRequest) (record : ExecutionRecord)
    : node Outcome :=
  let! renewal_id := of_result (ok_or (ct_renewal_id request) (OResponse (invalid_request "renewal identifier is required"))) in
  guard_err (is_empty renewal_id || (MAX_ID_BYTES <? str_len renewal_id)%Z)
    (OResponse (invalid_request "renewal identifier is invalid")) ;!
  guard_err (is_terminal (snap_state (rec_snapshot record)))
    (OResponse (error_response 409 "execution_terminal" "terminal execution cannot be renewed")) ;!
  guard_err (lease_over (ho_instant o) record) (OResponse lease_gone) ;!
  let! renewed := (fun s =>
    let '(r, db) := update_lease (ho_renewal o) id (eh_generation (ct_handle request)) (rec_lease_hash record) renewal_id
                      (lease_end_unix cfg (ho_now o)) (ho_stored o) (ho_later o) (ns_db s) in
    (Ok r, set_stores (set_database (fun _ => db)) s)) in
  match renewed with
  | Err _ => unavailable
  | Ok None => answer lease_gone
  | Ok (Some expires_unix_ms) =>
      let remaining_ms := Z.max (i64_sat_sub expires_unix_ms (ho_later o)) 0 in
      modify (set_records (alter (set_rec_lease {| expires_at := ho_instant_later o + remaining_ms; Node.expired := Node.expired (rec_lease record) |}) id)) ;!
      ret (OResponse (json_response 200 (RbSnapshot (rec_snapshot record))))
  end.

(** The cancellation half of [control]. *)
Definition cancel_execution (o : HandlerOutside) (id : string) (record : ExecutionRecord) : node Outcome :=
  let st := snap_state (rec_snapshot record) in
  (if negb (is_terminal st) && negb (bool_decide (st = Cancelling)) then
     guard_err (lease_over (ho_instant o) record) (OResponse lease_gone) ;!
     publish_record (ho_commit o) (ho_stored o) id Cancelling None (EvState Cancelling) ;!
     modify (set_records (alter (fun r => if is_terminal (snap_state (rec_snapshot r)) then r else set_cancelled r) id))
   else if bool_decide (st = Cancelling) then modify (set_records (alter set_cancelled id))
   else ret tt) ;!
  let! record := gets (fun s => default record (ns_executions s !! id)) in
  ret (OResponse (json_response 202 (RbSnapshot (rec_snapshot record)))).

(** [control] *)
Definition control (cfg : NodeConfig) (o : HandlerOutside) (id : string) (r : HttpRequest) (principal : string) (renew : bool) : node Outcome :=
  let! (request, record) := check_control o id r principal in
  if renew then renew_execution cfg o id request record else cancel_execution o id record.

(** ** Events *)

(** [events_route] *)
Definition events_route (o : HandlerOutside) (id : string) (query : option string) (principal : string) : node Outcome :=
  let invalid message := OResponse (invalid_request message) in
  let! generation := of_result
    match query_parameter query "generation" with
    | Ok (Some value) => ok_or (parse_generation value) (invalid "generation is invalid")
    | _ => Err (invalid "generation is required")
    end in
  let! after := of_result
    match query_parameter query "after" with
    | Ok (Some value) => ok_or (parse_u64 value) (invalid "event cursor is invalid")
    | _ => Err (invalid "event cursor is required")
    end in
  guard_err (I64_MAX <? after)%Z (OResponse (error_response 416 "cursor_ahead" "event cursor is ahead of the journal")) ;!
  let! lease_id := of_result
    match query_parameter query "lease" with
    | Ok (Some value) => ok_or (ok (LeaseId_new value)) (invalid "execution lease is invalid")
    | _ => Err (invalid "execution lease is required")
    end in
  let! existing := query_store (ho_lookup o) (Store.lookup id generation) in
  let! existing := of_result (ok_or existing (OResponse not_found)) in
  guard_err (negb (String.eqb (ex_principal_id existing) principal) || negb (String.eqb (ex_lease_token_hash existing) (lease_hash lease_id)))
    (OResponse (error_response 403 "forbidden" "execution event access is not authorized")) ;!
  let! record := gets (fun s => ns_executions s !! id) in
  match record with
  | Some record =>
      if (Events.generation (rec_snapshot record) =? generation)%Z then events_answer o id generation after record
      else
        let! found := query_store (ho_latest o) (load_snapshot id (Some generation)) in
        let! snapshot := of_result (ok_or found (OResponse not_found)) in
        events_answer o id generation after (recovered_record snapshot "" (ho_instant o))
  | None =>
      let! found := query_store (ho_latest o) (load_snapshot id (Some generation)) in
      let! snapshot := of_result (ok_or found (OResponse not_found)) in
      events_answer o id generation after (recovered_record snapshot "" (ho_instant o))
  end.

(** ** The end of an execution's task *)

Definition same_task (t t' : Task) : bool := String.eqb (tk_id t) (tk_id t') && (tk_generation t =? tk_generation t')%Z.

Definition set_result (e : ExecutionResult) (t : Task) : Task :=
  {| tk_id := tk_id t; tk_generation := tk_generation t; tk_request := tk_request t; tk_workspace := tk_workspace t; tk_result := Some e |}.

Definition node_artifacts {A} (c : art A) : node (result ArtifactError A) :=
  fun s =>
    let st := ns_stores s in
    let '(r, (rows, b)) := c (artifacts st, (world st).2) in
    (Ok r, set_stores (fun st => {| world := ((world st).1, b); artifacts := rows; database := database st |}) s).

(** What finalization meets: the workspace's directory as discovery and as
    capture see it, and what fails. *)
Record FinalOutside := {
  fo_artifacts : ArtOutside;
  fo_discovered : fs_node;
  fo_captured : fs_node;
  fo_retain : Outside;
  fo_now : Z;
  fo_later : Z;
}.

(** The declared outputs, into the artifact store. *)
Definition capture_outputs (cfg : NodeConfig) (o : FinalOutside) (t : Task) (w : WorkspaceCapture) (completed : bool) (e : ExecutionResult)
    : node ExecutionResult :=
  if should_capture completed (wcp_outputs w) e then
    let! captured := node_artifacts (capture_declared (fo_artifacts o) (blob_quota_bytes (nc_storage cfg)) (fo_discovered o)
                       (fo_captured o) (wcp_outputs w) (tk_id t) (tk_generation t) (wcp_principal w)
                       (sat_add (fo_now o) DEFAULT_RETENTION_MILLIS)) in
    match captured with
    | Ok count => ret (Node.set_artifacts count e)
    | Err _ => ret (set_finalization ArtifactCapture e)
    end
  else ret e.

Definition retain_workspace (o : FinalOutside) (w : WorkspaceCapture) (e : ExecutionResult) : node ExecutionResult :=
  let! retained := node_workspaces (mark_terminal (fo_retain o) (wcp_id w) (sat_add (fo_later o) DEFAULT_RETENTION_MILLIS)) in
  ret (if is_ok retained then e else set_finalization Retention e).

(** [run_execution] from the end of its loop to its counters: the result of
    task [t] once its declared outputs are captured and its workspace is
    handed to retention. *)
Definition finalize_task (cfg : NodeConfig) (o : FinalOutside) (t : Task) (loop : LoopState) (lease_expired : bool) : node unit :=
  let e := execution_outcome loop lease_expired (rq_sandbox (tk_request t)) (rq_resources (tk_request t)) in
  let! e :=
    match tk_workspace t with
    | None => ret e
    | Some w => let! e := capture_outputs cfg o t w (is_some (lp_result loop)) e in retain_workspace o w e
    end in
  modify (set_tasks (fmap (fun t' => if same_task t t' then set_result e t' else t'))).

(** The rest of [run_execution]: the counters, the terminal publication, the
    [finished] flag, and the permit. *)
Definition settle_task (metric commit : option StoreError) (now : Z) (t : Task) (e : ExecutionResult) : node unit :=
  node_metrics_add metric (terminal_counters e) ;!
  publish_record commit now (tk_id t) (res_state e) (Some e) (EvState (res_state e)) ;!
  modify (set_records (alter set_finished (tk_id t))) ;!
  modify (set_tasks (List.filter (fun t' => negb (same_task t t')))) ;!
  modify (set_permits Z.succ).

(** A task that panics: its permit is dropped with it. *)
Definition abandon_task (t : Task) (s : NodeState) : NodeState :=
  set_permits Z.succ (set_tasks (List.filter (fun t' => negb (same_task t t'))) s).

(** ** Lifecycle *)

Inductive NodeStartError : Type :=
| TlsPolicy
| EggServe
| InvalidLimit
| InvalidLease
| AlreadyRunning.

(** [tokio::sync::Semaphore::MAX_PERMITS], on a 64-bit target: [usize::MAX >> 3]. *)
Definition SEMAPHORE_MAX_PERMITS : Z := 2 ^ 61 - 1.

(** What [start] meets outside: failures, clocks and scan orders. *)
Record StartOutside := {
  so_tls_ok : bool;
  so_lock_fails : bool;
  so_lock_held : bool;
  so_open_fails : bool;
  so_blobs_fail : bool;
  so_open_workspaces : Outside;
  so_artifacts_fail : bool;
  so_recover : option StoreError;
  so_recover_rows : list ((string * Z) * ExecutionRow);
  so_metric : option StoreError;
  so_retention : Outside;
  so_manifest_retention : Outside;
  so_reconcile : Outside;
  so_manifest_scan : World -> list ((string * string) * ManifestRow);
  so_load : option StoreError;
  so_drain_file : bool;
  so_server_fails : bool;
  so_recovered : Z;
  so_retained : Z;
  so_manifests_retained : Z;
  so_reconciled : Z;
  so_instant : Z;
}.

Abbreviation starting A := (act NodeStores NodeStartError A).

Definition starting_workspaces (c : ws unit) : starting unit :=
  fun s => let '(r, w) := c (world s) in (map_err (fun _ => EggServe) r, set_world (fun _ => w) s).

(** The record [start] makes of a stored snapshot. *)
Definition restored_record (instant : Z) (snapshot : ExecutionSnapshot) : ExecutionRecord :=
  {| rec_snapshot := snapshot; rec_commit := None; rec_cancelled := false; rec_events := []; rec_finished := true;
     rec_lease_hash := ""; rec_lease := {| expires_at := instant; Node.expired := false |} |}.

(** [NodeServer::start], on the stores it finds. *)
Definition start (cfg : NodeConfig) (o : StartOutside) : starting NodeState :=
  guard_err ((nc_max_active cfg =? 0)%Z || (SEMAPHORE_MAX_PERMITS <? nc_max_active cfg)%Z) InvalidLimit ;!
  guard_err (negb (so_tls_ok o)) TlsPolicy ;!
  guard_err (nc_lease_ttl_ms cfg =? 0)%Z InvalidLease ;!
  guard_err (so_lock_fails o) EggServe ;!
  guard_err (so_lock_held o) AlreadyRunning ;!
  guard_err (so_open_fails o) EggServe ;!
  guard_err (so_blobs_fail o) EggServe ;!
  modify (set_world (fun w => (w.1, remove_stale_parts w.2))) ;!
  starting_workspaces (modify (set_cursor None) ;! reconcile (so_open_workspaces o)) ;!
  guard_err (so_artifacts_fail o) EggServe ;!
  let! recovered := (fun s =>
    let '(r, db) := recover (so_recover o) (so_recover_rows o) (so_recovered o) (database s) in
    (map_err (fun _ => EggServe) r, set_database (fun _ => db) s)) in
  (if (len recovered =? 0)%Z then ret tt
   else modify (set_database (fun db => (increment_metrics (so_metric o) [("terminal_interrupted", len recovered)] db).2))) ;!
  starting_workspaces (recover_retention (so_retention o) (sat_add (so_retained o) DEFAULT_RETENTION_MILLIS)) ;!
  starting_workspaces (recover_manifest_retention (so_manifest_retention o) (sat_add (so_manifests_retained o) DEFAULT_RETENTION_MILLIS)) ;!
  starting_workspaces (reconcile_manifests (so_reconcile o) (so_manifest_scan o) (so_reconciled o) 1024) ;!
  guard_err (is_some (so_load o)) EggServe ;!
  let! snapshots := (fun s => (map_err (fun _ => EggServe) (load_all (database s)), s)) in
  guard_err (so_server_fails o) EggServe ;!
  let! stores := gets id in
  ret {| ns_stores := stores;
         ns_executions := foldl (fun m sn => <[Events.execution_id sn := restored_record (so_instant o) sn]> m) ∅ snapshots;
         ns_permits := nc_max_active cfg; ns_draining := so_drain_file o; ns_drain_file := so_drain_file o; ns_tasks := [] |}.

(** [NodeServer::set_draining]; [persisted] says whether the marker was
    written or removed. *)
Definition set_draining (persisted : bool) (draining : bool) (s : NodeState) : NodeState :=
  if persisted then set_drain_flag draining (set_drain_file draining s) else s.

(** [NodeServer::shutdown] *)
Definition shutdown (s : NodeState) : NodeState :=
  set_records (fmap (fun r => if negb (rec_finished r) && negb (is_terminal (snap_state (rec_snapshot r))) then set_cancelled r else r))
    (set_drain_flag true s).

(** [node_status] *)
Definition node_status (cfg : NodeConfig) (s : NodeState) : NodeStatus :=
  {| sts_node_id := nc_node_id cfg; sts_draining := is_draining s; sts_active_executions := nc_max_active cfg - ns_permits s;
     sts_capabilities := node_capabilities_for (nc_features cfg) (nc_max_active cfg) |}.

(** One round of [NodeServer::wait]: whether an execution is still active. *)
Definition wait_active (s : NodeState) : bool :=
  existsb (fun kv => negb (rec_finished kv.2) && negb (is_terminal (snap_state (rec_snapshot kv.2)))) (map_to_list (ns_executions s)).

(** ** Garbage collection *)

Record NodeGcReport := {
  workspace_candidates : Z;
  workspace_logical_bytes : Z;
  workspaces_deleted : Z;
  manifest_candidates : Z;
  manifests_deleted : Z;
  artifact_candidates : Z;
  artifacts_deleted : Z;
  expired_blob_references : Z;
  blob_candidates : Z;
  blob_candidate_bytes : Z;
  blobs_deleted : Z;
  blob_bytes_deleted : Z;
  gc_dry_run : bool;
}.

(** What a collection meets outside: failures, scan orders and the clock. *)
Record GcOutside := {
  go_workspaces : Outside;
  go_manifests : Outside;
  go_artifacts : bool;
  go_blobs : GcStep -> bool;
  go_workspace_scan : gmap string WorkspaceRow -> list (string * WorkspaceRow);
  go_manifest_scan : gmap (string * string) ManifestRow -> list ((string * string) * ManifestRow);
  go_artifact_scan : ArtifactStore -> list (string * ArtifactRow);
  go_reference_scan : gmap RefKey (option Z) -> list (RefKey * option Z);
  go_blob_scan : gmap string BlobRow -> list (string * BlobRow);
  go_now : Z;
}.

Abbreviation collecting A := (act NodeStores unit A).

Definition collecting_workspaces {A} (c : World -> ws A) : collecting A :=
  fun s => let '(r, w) := c (world s) (world s) in (map_err (fun _ => tt) r, set_world (fun _ => w) s).

(** [NodeServer::collect_garbage] *)
Definition collect_garbage (o : GcOutside) (dry_run : bool) (requested_limit : nat) : collecting NodeGcReport :=
  let limit := Nat.max 1 (Nat.min requested_limit 1024) in
  let now := go_now o in
  let! (candidates, logical_bytes, deleted) := collecting_workspaces
    (fun w => Workspace.garbage_collect (go_workspaces o) (go_workspace_scan o (workspaces w.1)) now limit dry_run) in
  let! (manifests, manifests_gone) := collecting_workspaces
    (fun w => manifest_garbage_collect (go_manifests o) (go_manifest_scan o (retained_manifests w.1)) now limit dry_run) in
  let! artifact_report := (fun s =>
    let '(r, rows) := collect_artifacts (go_artifacts o) (go_artifact_scan o (artifacts s)) now limit dry_run (artifacts s) in
    (map_err (fun _ => tt) r, {| world := world s; artifacts := rows; database := database s |})) in
  let! blob_report := (fun s =>
    let b := (world s).2 in
    let '(r, b) := Blob.garbage_collect (go_blobs o) (go_reference_scan o (blob_references b)) (go_blob_scan o (blobs b)) now limit dry_run b in
    (map_err (fun _ => tt) r, set_world (fun w => (w.1, b)) s)) in
  ret {| workspace_candidates := candidates; workspace_logical_bytes := logical_bytes; workspaces_deleted := deleted;
         manifest_candidates := manifests; manifests_deleted := manifests_gone;
         artifact_candidates := candidate_artifacts artifact_report; artifacts_deleted := deleted_artifacts artifact_report;
         expired_blob_references := if dry_run then expired_references blob_report else expired_references_removed blob_report;
         blob_candidates := candidate_blobs blob_report; blob_candidate_bytes := candidate_bytes blob_report;
         blobs_deleted := removed_blobs blob_report; blob_bytes_deleted := removed_bytes blob_report; gc_dry_run := dry_run |}.
End node.
