(* ===== verification/Client.v ===== *)
(** * The client

    [eggwork-client/src/lib.rs]: one function per call of [NodeClient], over a
    transport that is an argument, and the line framing of an execution's event
    stream.

    The transport ([eggfetch]) is the section variable [send]: it takes a
    request and answers a reply or its own error, on a state of its own, so a
    client call is an action on that state.  A call's method and target are
    [Routes.call_target]; the bodies are the request types of the node's
    handlers, whose field names the client's structures share. *)

From Stdlib Require Import Strings.Byte Ascii String ZArith Lia.
From stdpp Require Import base gmap strings list.
From S2P Require Import Prelude Text Ids Wire Std Spec Manifest Events Store Routes Telemetry Blob Workspace Artifact Storage Handlers.

#[local] Open Scope string_scope.
#[local] Open Scope list_scope.
#[local] Open Scope act_scope.

Definition MAX_BUFFERED_BODY_BYTES : Z := 16 * 1024 * 1024.
Definition MAX_TELEMETRY_BODY_BYTES : Z := 64 * 1024.

(** ** Endpoints *)

Fixpoint trim_end_matches (c : ascii) (s : string) : string :=
  match s with
  | EmptyString => EmptyString
  | String a rest =>
      match trim_end_matches c rest with
      | EmptyString => if Ascii.eqb a c then EmptyString else String a EmptyString
      | trimmed => String a trimmed
      end
  end.

Definition normalize_endpoint `{UrlParser} (endpoint : string) : option string :=
  let endpoint := trim_end_matches "/"%char endpoint in
  match url_parse endpoint with
  | None => None
  | Some parsed =>
      if negb (String.eqb (scheme parsed) "https") || negb (is_some (host_str parsed)) || is_some (Telemetry.query parsed)
         || is_some (fragment parsed) || negb (is_empty (username parsed)) || is_some (password parsed)
      then None else Some endpoint
  end.

Lemma trim_end_matches_idem c s : trim_end_matches c (trim_end_matches c s) = trim_end_matches c s.
Proof.
  induction s as [|a s IH]; [done|]. cbn [trim_end_matches]. destruct (trim_end_matches c s) as [|b t] eqn:Et.
  - destruct (Ascii.eqb a c) eqn:Ea; [done|]. cbn. by rewrite Ea.
  - cbn [trim_end_matches] in IH |- *. by rewrite IH.
Qed.

(** The endpoint a client keeps is its own normal form, so that building a
    client from it again changes nothing. *)
Lemma normalize_endpoint_idem `{UrlParser} e e' : normalize_endpoint e = Some e' -> normalize_endpoint e' = Some e'.
Proof.
  unfold normalize_endpoint. destruct (url_parse (trim_end_matches _ e)) as [u|] eqn:Eu; [|done].
  destruct (_ || _) eqn:Ec; [done|]. intros [= <-]. by rewrite trim_end_matches_idem, Eu, Ec.
Qed.

(** Deadlines in seconds, by phase. *)
Record Timeout := {
  to_pool : option Z;
  to_connect : option Z;
  to_write : option Z;
  to_read : option Z;
  to_total : option Z;
}.

Definition transport_timeouts : Timeout :=
  {| to_pool := Some 30%Z; to_connect := Some 30%Z; to_write := Some 60%Z; to_read := Some 60%Z; to_total := None |}.
Definition unary_timeout : Timeout :=
  {| to_pool := to_pool transport_timeouts; to_connect := to_connect transport_timeouts;
     to_write := to_write transport_timeouts; to_read := to_read transport_timeouts; to_total := Some 120%Z |}.

Record ApiError := { ae_schema_version : Z; ae_code : string; ae_message : string }.
Record FindMissingResponse := { fr_missing : list string }.
Record PrepareBlobResponse := { pr_upload_required : bool }.

Section client.
Context {HttpError Net : Type}.

Inductive ClientError : Type :=
| ClientInvalidEndpoint
| ClientInvalidRoute
| ClientTransport (e : HttpError)
| ClientApi (status : Z) (code message : string)
| ClientInvalidResponse
| ClientProtocolIncompatible
| ClientUnsupportedCapability
| ClientTelemetryUnsupported.

(** A client's fixed target and the limits its transport is built with. *)
Record NodeClient := {
  nc_endpoint : string;
  nc_timeout : Timeout;
  nc_max_decoded_body_size : Z;
}.

Definition NodeClient_new `{UrlParser} (endpoint : string) : result ClientError NodeClient :=
  let? endpoint := ok_or (normalize_endpoint endpoint) ClientInvalidEndpoint in
  Ok {| nc_endpoint := endpoint; nc_timeout := transport_timeouts; nc_max_decoded_body_size := MAX_BUFFERED_BODY_BYTES |}.

(** ** Requests and replies *)

Inductive RequestBody : Type :=
| NoBody
| JsonBody (content : bytes)
| StreamBody (length : Z).

Record HttpCall := {
  hc_url : string;
  hc_method : string;
  hc_body : RequestBody;
  hc_timeout : option Timeout;
}.

(** A reply: its status, the readable value of a header, its body read at
    once, and its body as a stream of chunks. *)
Record HttpReply := {
  hr_status : Z;
  hr_header : string -> option string;
  hr_bytes : result HttpError bytes;
  hr_stream : result HttpError (list (result HttpError bytes));
}.

Definition is_success (status : Z) : bool := (200 <=? status)%Z && (status <? 300)%Z.

Context (send : HttpCall -> Net -> result HttpError HttpReply * Net) (endpoint : string).

Abbreviation client A := (act Net ClientError A).

Definition url (path : string) : string := endpoint +:+ path.

(** The request of a call, its error as [From<HttpError>]. *)
Definition request (call : ClientCall) (body : RequestBody) (timeout : option Timeout) : client HttpReply :=
  fun n => let '(method, target) := call_target call in
           let '(r, n) := send {| hc_url := url target; hc_method := method; hc_body := body; hc_timeout := timeout |} n in
           (map_err ClientTransport r, n).

Section replies.
Context `{Serde ApiError}.

Definition api_error (status : Z) (response : HttpReply) : ClientError :=
  match (match hr_bytes response with Ok body => from_slice body | Err _ => None end) with
  | Some e => ClientApi status (ae_code e) (ae_message e)
  | None => ClientApi status "http_error" "node returned an error response"
  end.

Definition decode_json {A} `{Serde A} (response : HttpReply) : result ClientError A :=
  let? bytes := map_err ClientTransport (hr_bytes response) in
  ok_or (from_slice bytes) ClientInvalidResponse.

(** [if !response.status().is_success() { return Err(api_error(..)) }] *)
Definition require_success (response : HttpReply) : result ClientError unit :=
  if negb (is_success (hr_status response)) then Err (api_error (hr_status response) response) else Ok tt.

Definition json_body {A} `{Serde A} (a : A) : result ClientError RequestBody :=
  let? content := ok_or (to_vec a) ClientInvalidResponse in Ok (JsonBody content).

Definition get_json {A} `{Serde A} (call : ClientCall) : client A :=
  let! response := request call NoBody (Some unary_timeout) in
  of_result (require_success response ;? decode_json response).

(** A unary call with a JSON body and a JSON answer.  A body that does not
    encode sends nothing. *)
Definition post_json {Q A} `{Serde Q, Serde A} (call : ClientCall) (q : Q) : client A :=
  let! body := of_result (json_body q) in
  let! response := request call body (Some unary_timeout) in
  of_result (require_success response ;? decode_json response).

(** ** Calls *)

Definition capabilities `{Serde NodeCapabilities} : client NodeCapabilities := get_json CCapabilities.
Definition node_status `{Serde NodeStatus} : client NodeStatus := get_json CStatus.

(** The checks of [telemetry] on a successful reply. *)
Definition check_telemetry `{Serde NodeTelemetry} (response : HttpReply) : result ClientError NodeTelemetry :=
  let? bytes := map_err ClientTransport (hr_bytes response) in
  if (MAX_TELEMETRY_BODY_BYTES <? len bytes)%Z then Err ClientInvalidResponse
  else
    let? t := ok_or (from_slice bytes) ClientInvalidResponse in
    if negb (nt_schema_version t =? NODE_TELEMETRY_SCHEMA_VERSION)%Z then Err ClientProtocolIncompatible
    else map_err (fun _ => ClientInvalidResponse) (NodeTelemetry_validate t) ;? Ok t.

Definition telemetry `{Serde NodeTelemetry} : client NodeTelemetry :=
  let! response := request CTelemetry NoBody (Some unary_timeout) in
  of_result
    (if (hr_status response =? 404)%Z then Err ClientTelemetryUnsupported
     else require_success response ;? check_telemetry response).

Definition telemetry_for `{Serde NodeTelemetry} (expected : string) : client NodeTelemetry :=
  let! t := telemetry in
  guard_err (negb (String.eqb (nt_node_id t) expected)) ClientInvalidResponse ;! ret t.

(** [ensure_protocol_compatible] *)
Definition ensure_protocol `{Serde NodeCapabilities} : client unit :=
  let! c := capabilities in
  let required := {| major := 1; minor := 0 |} in
  let supported := negb (version_gt (pv_min (protocol c)) required) && negb (version_gt required (pv_max (protocol c))) in
  guard_err (negb supported) ClientProtocolIncompatible ;!
  guard_err (negb (has (features c) "exec.argv.v1")) ClientUnsupportedCapability.

Record ExecutionStream := {
  es_handle : ExecutionHandle;
  es_execution_id : string;
  es_events : list (result HttpError bytes);
}.

Definition execute_with_workspace `{Serde NodeCapabilities, Serde ExecuteRequest} (spec : ExecutionSpec)
    (handle : ExecutionHandle) (workspace_id : option string) : client ExecutionStream :=
  ensure_protocol ;!
  let! body := of_result (json_body {| xr_schema_version := API_SCHEMA_VERSION; xr_handle := handle;
                                       xr_workspace_id := workspace_id; xr_spec := spec |}) in
  let! response := request CExecute body None in
  of_result
    (require_success response ;?
     let? id := ok_or (value ← hr_header response "eggwork-execution-id"; ok (ExecutionId_new value)) ClientInvalidResponse in
     let? events := map_err ClientTransport (hr_stream response) in
     if negb (String.eqb id (eh_execution_id handle)) then Err ClientInvalidResponse
     else Ok {| es_handle := handle; es_execution_id := id; es_events := events |}).

Definition execute `{Serde NodeCapabilities, Serde ExecuteRequest} (spec : ExecutionSpec) (handle : ExecutionHandle)
    : client ExecutionStream :=
  execute_with_workspace spec handle None.

Definition execute_in_workspace `{Serde NodeCapabilities, Serde ExecuteRequest} (spec : ExecutionSpec)
    (handle : ExecutionHandle) (workspace_id : string) : client ExecutionStream :=
  execute_with_workspace spec handle (Some workspace_id).

Definition create_workspace `{Serde WorkspaceCreateRequest, Serde WorkspaceReadyResponse} (workspace_id : string)
    (handle : ExecutionHandle) (manifest : WorkspaceManifest) : client WorkspaceReadyResponse :=
  post_json CCreateWorkspace {| wc_schema_version := API_SCHEMA_VERSION; wc_workspace_id := workspace_id;
                                wc_handle := handle; wc_manifest := manifest |}.

Definition create_workspace_derived `{Serde DeriveWorkspaceRequest, Serde WorkspaceReadyResponse} (workspace_id : string)
    (handle : ExecutionHandle) (base : string) (patch : WorkspaceManifestPatch) : client WorkspaceReadyResponse :=
  guard_err (negb (String.eqb (base_manifest_digest patch) base)) ClientInvalidResponse ;!
  post_json CCreateWorkspaceDerived {| dw_schema_version := API_SCHEMA_VERSION; dw_workspace_id := workspace_id;
                                       dw_handle := handle; dw_patch := patch |}.

Definition observe_execution `{Serde ExecutionSnapshot} (id : string) : client ExecutionSnapshot := get_json (CObserve id).
Definition observe_generation `{Serde ExecutionSnapshot} (id : string) (generation : Z) : client ExecutionSnapshot :=
  get_json (CObserveGeneration id generation).

Definition cancel `{Serde ControlRequest, Serde ExecutionSnapshot} (handle : ExecutionHandle) : client ExecutionSnapshot :=
  post_json (CCancel (eh_execution_id handle))
    {| ct_schema_version := API_SCHEMA_VERSION; ct_handle := handle; ct_renewal_id := None |}.

Definition renew `{Serde ControlRequest, Serde ExecutionSnapshot} (handle : ExecutionHandle) (renewal_id : string)
    : client ExecutionSnapshot :=
  post_json (CRenew (eh_execution_id handle))
    {| ct_schema_version := API_SCHEMA_VERSION; ct_handle := handle; ct_renewal_id := Some renewal_id |}.

Definition events `{Serde NodeCapabilities} (handle : ExecutionHandle) (after_sequence : Z)
    : client (list (result HttpError bytes)) :=
  ensure_protocol ;!
  let! response :=
    request (CEvents (eh_execution_id handle) (eh_generation handle) after_sequence (eh_lease_id handle)) NoBody None in
  of_result (require_success response ;? map_err ClientTransport (hr_stream response)).

Definition find_missing_blobs `{Serde FindMissingRequest, Serde FindMissingResponse} (digests : list string)
    : client (list string) :=
  let! missing := post_json CFindMissingBlobs {| fm_digests := digests |} in
  ret (fr_missing missing).

(** A [usize] has 64 bits, so the declared length converts. *)
Definition upload_blob `{Serde PrepareBlobRequest, Serde PrepareBlobResponse} (digest : string) (declared_length : Z)
    : client unit :=
  let! preparation := post_json CPrepareBlob {| pb_digest := digest; pb_size_bytes := declared_length |} in
  if negb (pr_upload_required preparation) then ret tt
  else
    let! response := request (CUploadBlob digest declared_length) (StreamBody declared_length) None in
    of_result (require_success response).

Definition download_blob (digest : string) : client (list (result HttpError bytes)) :=
  let! response := request (CDownloadBlob digest) NoBody None in
  of_result
    (require_success response ;?
     let returned := value ← hr_header response "eggwork-blob-digest"; ok (BlobDigest_parse value) in
     if negb (bool_decide (returned = Some digest)) then Err ClientInvalidResponse
     else map_err ClientTransport (hr_stream response)).

Definition artifacts_of `{Serde (list ArtifactRecord)} (execution_id : string) (generation : Z)
    : client (list ArtifactRecord) :=
  get_json (CArtifacts execution_id generation).

Definition download_artifact (artifact : ArtifactRecord) : client (list (result HttpError bytes)) :=
  let! response := request (CDownloadArtifact (artifact_id artifact)) NoBody None in
  of_result
    (require_success response ;?
     let returned_id := value ← hr_header response "eggwork-artifact-id"; ok (ArtifactId_new value) in
     let returned_digest := value ← hr_header response "eggwork-artifact-digest"; ok (BlobDigest_parse value) in
     if negb (bool_decide (returned_id = Some (artifact_id artifact)))
        || negb (bool_decide (returned_digest = Some (ar_digest artifact)))
     then Err ClientInvalidResponse
     else map_err ClientTransport (hr_stream response)).

(** ** What an accepted answer shows *)

(** The node answered a request with success. *)
Definition answered (call : ClientCall) (body : RequestBody) (timeout : option Timeout) (n : Net)
    (reply : HttpReply) (n' : Net) : Prop :=
  send {| hc_url := url (call_target call).2; hc_method := (call_target call).1; hc_body := body; hc_timeout := timeout |} n
    = (Ok reply, n') /\ is_success (hr_status reply) = true.

(** The request, and a check of its reply that begins with its status. *)
Lemma answered_iff {A} call body timeout (check : HttpReply -> result ClientError A) n (a : A) n' :
  act_bind (request call body timeout) (fun response => of_result (require_success response ;? check response)) n = (Ok a, n')
  <-> exists reply, answered call body timeout n reply n' /\ check reply = Ok a.
Proof.
  rewrite act_bind_Ok. unfold request, answered, of_result, require_success. destruct (call_target call) as [method target].
  cbn [fst snd]. destruct (send _ n) as [[reply|e] n1]; cbn [map_err].
  - split.
    + intros (r & s1 & [= <- <-] & H1). destruct (is_success (hr_status reply)) eqn:Es; cbn in H1; [|done].
      injection H1 as H1 <-. by exists reply.
    + intros (r & [[= <- <-] Hs] & Hc). exists reply, n1. split; [done|]. rewrite Hs. cbn. by rewrite Hc.
  - split; [intros (r & s1 & [=] & _)|intros (r & [[=] _] & _)].
Qed.

Lemma get_json_Ok {A} `{Serde A} call n (a : A) n' :
  get_json call n = (Ok a, n') <->
  exists reply body, answered call NoBody (Some unary_timeout) n reply n' /\ hr_bytes reply = Ok body /\ from_slice body = Some a.
Proof.
  unfold get_json. rewrite answered_iff. unfold decode_json. split.
  - intros (reply & Ha & Hd). destruct (hr_bytes reply) as [body|] eqn:Eb; [|done]. cbn in Hd.
    destruct (from_slice body) eqn:Ef; [|done]. injection Hd as <-. by exists reply, body.
  - intros (reply & body & Ha & Hb & Hf). exists reply. split; [done|]. rewrite Hb. cbn. by rewrite Hf.
Qed.

Lemma post_json_Ok {Q A} `{Serde Q, Serde A} call (q : Q) n (a : A) n' :
  post_json call q n = (Ok a, n') <->
  exists payload reply body, to_vec q = Some payload /\
    answered call (JsonBody payload) (Some unary_timeout) n reply n' /\ hr_bytes reply = Ok body /\ from_slice body = Some a.
Proof.
  unfold post_json, json_body. rewrite act_bind_Ok. unfold of_result at 1. destruct (to_vec q) as [payload|]; cbn.
  2: { split; [intros (? & ? & [=] & _)|intros (? & ? & ? & [=] & _)]. }
  split.
  - intros (b & s1 & [= <- <-] & Hk). apply answered_iff in Hk as (reply & Ha & Hd). unfold decode_json in Hd.
    destruct (hr_bytes reply) as [body|] eqn:Eb; [|done]. cbn in Hd. destruct (from_slice body) eqn:Ef; [|done].
    injection Hd as <-. by exists payload, reply, body.
  - intros (p & reply & body & [= <-] & Ha & Hb & Hf). exists (JsonBody payload), n. split; [done|]. apply answered_iff.
    exists reply. split; [done|]. unfold decode_json. rewrite Hb. cbn. by rewrite Hf.
Qed.

Lemma ensure_protocol_Ok `{Serde NodeCapabilities} n n' :
  ensure_protocol n = (Ok tt, n') <-> exists c, capabilities n = (Ok c, n') /\ ensure_protocol_compatible c = true.
Proof.
  unfold ensure_protocol, ensure_protocol_compatible. rewrite act_bind_Ok. unfold act_bind, guard_err, throw, ret. split.
  - intros (c & s1 & Hc & H1). exists c. destruct (_ && _); cbn in H1 |- *; [|done].
    destruct (has _ _); cbn in H1 |- *; [|done]. by injection H1 as <-.
  - intros (c & Hc & H1). exists c, n'. split; [done|]. apply andb_prop in H1 as [H1 H2]. rewrite H1. cbn. by rewrite H2.
Qed.

Lemma answered_unit call body timeout n n' :
  act_bind (request call body timeout) (fun response => of_result (require_success response)) n = (Ok tt, n')
  <-> exists reply, answered call body timeout n reply n'.
Proof.
  pose proof (answered_iff call body timeout (fun _ => Ok tt) n tt n') as Hi.
  transitivity (exists reply, answered call body timeout n reply n' /\ @Ok ClientError _ tt = Ok tt); [|naive_solver].
  rewrite <- Hi, !act_bind_Ok. apply exist_proper. intros reply. apply exist_proper. intros n1. unfold of_result.
  by destruct (require_success reply) as [[]|].
Qed.

Lemma execute_Ok `{Serde NodeCapabilities, Serde ExecuteRequest} spec handle workspace_id stream n n' :
  execute_with_workspace spec handle workspace_id n = (Ok stream, n') <->
  exists c n1 payload reply, capabilities n = (Ok c, n1) /\ ensure_protocol_compatible c = true /\
    to_vec {| xr_schema_version := API_SCHEMA_VERSION; xr_handle := handle; xr_workspace_id := workspace_id; xr_spec := spec |}
      = Some payload /\
    answered CExecute (JsonBody payload) None n1 reply n' /\
    (value ← hr_header reply "eggwork-execution-id"; ok (ExecutionId_new value)) = Some (eh_execution_id handle) /\
    hr_stream reply = Ok (es_events stream) /\ es_handle stream = handle /\
    es_execution_id stream = eh_execution_id handle.
Proof.
  unfold execute_with_workspace. rewrite act_bind_Ok. split.
  - intros ([] & n1 & Hp & Hk). apply ensure_protocol_Ok in Hp as (c & Hc & Hcompat). apply act_bind_Ok in Hk as (b & s1 & Hb & Hk).
    unfold of_result in Hb at 1. unfold json_body in Hb. destruct (to_vec _) as [payload|] eqn:Ep; [|done]. cbn in Hb.
    injection Hb as <- <-. apply answered_iff in Hk as (reply & Ha & Hd).
    destruct (_ ≫= _) as [id|] eqn:Eid in Hd; [|done]. cbn in Hd. destruct (hr_stream reply) as [events|] eqn:Es; [|done]. cbn in Hd.
    destruct (String.eqb_spec id (eh_execution_id handle)) as [->|]; [|done]. injection Hd as <-.
    by exists c, n1, payload, reply.
  - intros (c & n1 & payload & reply & Hc & Hcompat & Hp & Ha & Hid & Hs & Hh & He). exists tt, n1.
    split; [apply ensure_protocol_Ok; eauto|]. apply act_bind_Ok. exists (JsonBody payload), n1.
    split; [unfold json_body; by rewrite Hp|]. apply answered_iff. exists reply. split; [done|].
    rewrite Hid. cbn. rewrite Hs. cbn. rewrite String.eqb_refl. cbn. destruct stream; cbn in *. by subst.
Qed.

Lemma download_blob_Ok digest chunks n n' :
  download_blob digest n = (Ok chunks, n') <->
  exists reply, answered (CDownloadBlob digest) NoBody None n reply n' /\
    (value ← hr_header reply "eggwork-blob-digest"; ok (BlobDigest_parse value)) = Some digest /\
    hr_stream reply = Ok chunks.
Proof.
  unfold download_blob. rewrite answered_iff. apply exist_proper. intros reply. cbn. rewrite bool_decide_decide.
  destruct (decide _) as [->|]; cbn; [|naive_solver]. destruct (hr_stream reply); naive_solver.
Qed.

Lemma download_artifact_Ok artifact chunks n n' :
  download_artifact artifact n = (Ok chunks, n') <->
  exists reply, answered (CDownloadArtifact (artifact_id artifact)) NoBody None n reply n' /\
    (value ← hr_header reply "eggwork-artifact-id"; ok (ArtifactId_new value)) = Some (artifact_id artifact) /\
    (value ← hr_header reply "eggwork-artifact-digest"; ok (BlobDigest_parse value)) = Some (ar_digest artifact) /\
    hr_stream reply = Ok chunks.
Proof.
  unfold download_artifact. rewrite answered_iff. apply exist_proper. intros reply. cbn. rewrite !bool_decide_decide.
  destruct (decide _) as [->|]; cbn; [|naive_solver]. destruct (decide _) as [->|]; cbn; [|naive_solver].
  destruct (hr_stream reply); naive_solver.
Qed.

Lemma telemetry_Ok `{Serde NodeTelemetry} n t n' :
  telemetry n = (Ok t, n') <->
  exists reply body, answered CTelemetry NoBody (Some unary_timeout) n reply n' /\
    hr_bytes reply = Ok body /\ (len body <= MAX_TELEMETRY_BODY_BYTES)%Z /\ from_slice body = Some t /\
    nt_schema_version t = NODE_TELEMETRY_SCHEMA_VERSION /\ NodeTelemetry_validate t = Ok tt.
Proof.
  assert (Hcheck : telemetry n = (Ok t, n') <-> exists reply, answered CTelemetry NoBody (Some unary_timeout) n reply n' /\
    check_telemetry reply = Ok t).
  { rewrite <- answered_iff. unfold telemetry. rewrite !act_bind_Ok. apply exist_proper. intros reply.
    apply exist_proper. intros n1. apply and_iff_compat_l. unfold of_result. destruct (Z.eqb_spec (hr_status reply) 404) as [E|].
    - unfold require_success. rewrite E. cbn. split; intros [=].
    - done. }
  rewrite Hcheck. apply exist_proper. intros reply. unfold check_telemetry. destruct (hr_bytes reply) as [body|]; cbn; [|naive_solver].
  destruct (Z.ltb_spec MAX_TELEMETRY_BODY_BYTES (len body)); [naive_solver lia|].
  destruct (from_slice body) as [t'|] eqn:Ef; cbn; [|naive_solver].
  destruct (Z.eqb_spec (nt_schema_version t') NODE_TELEMETRY_SCHEMA_VERSION); cbn; [|naive_solver].
  destruct (NodeTelemetry_validate t') as [[]|] eqn:Ev; cbn.
  - split; [intros [Ha [= <-]]; by exists body|]. intros (b & Ha & [= <-] & _ & Hf & _). split; [done|]. congruence.
  - split; [by intros [_ ?]|]. intros (b & _ & [= <-] & _ & Hf & _ & Hv). congruence.
Qed.

Lemma telemetry_for_Ok `{Serde NodeTelemetry} expected t n n' :
  telemetry_for expected n = (Ok t, n') <->
  exists reply body, answered CTelemetry NoBody (Some unary_timeout) n reply n' /\
    hr_bytes reply = Ok body /\ (len body <= MAX_TELEMETRY_BODY_BYTES)%Z /\ from_slice body = Some t /\
    nt_schema_version t = NODE_TELEMETRY_SCHEMA_VERSION /\ NodeTelemetry_validate t = Ok tt /\ nt_node_id t = expected.
Proof.
  unfold telemetry_for. rewrite act_bind_Ok. split.
  - intros (t' & n1 & Ht & Hk). apply telemetry_Ok in Ht as (reply & body & ? & ? & ? & ? & ? & ?).
    unfold act_bind, guard_err, throw, ret in Hk. destruct (String.eqb_spec (nt_node_id t') expected); [|done]. cbn in Hk.
    injection Hk as <- <-. by exists reply, body.
  - intros (reply & body & ? & ? & ? & ? & ? & ? & <-). exists t, n'. split; [apply telemetry_Ok; by exists reply, body|].
    unfold act_bind, guard_err. by rewrite String.eqb_refl.
Qed.

Lemma upload_blob_Ok `{Serde PrepareBlobRequest, Serde PrepareBlobResponse} digest size n n' :
  upload_blob digest size n = (Ok tt, n') <->
  exists preparation n1,
    post_json CPrepareBlob {| pb_digest := digest; pb_size_bytes := size |} n = (Ok preparation, n1) /\
    if pr_upload_required preparation
    then exists reply, answered (CUploadBlob digest size) (StreamBody size) None n1 reply n'
    else n' = n1.
Proof.
  unfold upload_blob. rewrite act_bind_Ok. apply exist_proper. intros preparation. apply exist_proper. intros n1.
  apply and_iff_compat_l. destruct (pr_upload_required preparation); cbn [negb].
  - apply answered_unit.
  - unfold ret. naive_solver.
Qed.

(** C21: what the client accepts.  An execution is reported as submitted exactly
    when the node's capabilities were compatible, it answered the submission
    with success, named the handle's execution in its header and opened the
    stream; a blob or an artifact is handed over exactly when the reply names
    the digest (and the artifact) asked for; telemetry is returned exactly when
    it is a successful reply of at most 64 KiB that is a valid observation, of
    the supported schema and of the node expected; an upload succeeds exactly
    when the node declines the content or accepts it. *)
Theorem client_accepts_exactly `{Serde NodeCapabilities, Serde ExecuteRequest, Serde NodeTelemetry, Serde PrepareBlobRequest,
    Serde PrepareBlobResponse} n n' :
  (forall spec handle workspace_id stream,
     execute_with_workspace spec handle workspace_id n = (Ok stream, n') <->
     exists c n1 payload reply, capabilities n = (Ok c, n1) /\ ensure_protocol_compatible c = true /\
       to_vec {| xr_schema_version := API_SCHEMA_VERSION; xr_handle := handle; xr_workspace_id := workspace_id; xr_spec := spec |}
         = Some payload /\
       answered CExecute (JsonBody payload) None n1 reply n' /\
       (value ← hr_header reply "eggwork-execution-id"; ok (ExecutionId_new value)) = Some (eh_execution_id handle) /\
       hr_stream reply = Ok (es_events stream) /\ es_handle stream = handle /\
       es_execution_id stream = eh_execution_id handle) /\
  (forall digest chunks,
     download_blob digest n = (Ok chunks, n') <->
     exists reply, answered (CDownloadBlob digest) NoBody None n reply n' /\
       (value ← hr_header reply "eggwork-blob-digest"; ok (BlobDigest_parse value)) = Some digest /\
       hr_stream reply = Ok chunks) /\
  (forall artifact chunks,
     download_artifact artifact n = (Ok chunks, n') <->
     exists reply, answered (CDownloadArtifact (artifact_id artifact)) NoBody None n reply n' /\
       (value ← hr_header reply "eggwork-artifact-id"; ok (ArtifactId_new value)) = Some (artifact_id artifact) /\
       (value ← hr_header reply "eggwork-artifact-digest"; ok (BlobDigest_parse value)) = Some (ar_digest artifact) /\
       hr_stream reply = Ok chunks) /\
  (forall expected t,
     telemetry_for expected n = (Ok t, n') <->
     exists reply body, answered CTelemetry NoBody (Some unary_timeout) n reply n' /\
       hr_bytes reply = Ok body /\ (len body <= MAX_TELEMETRY_BODY_BYTES)%Z /\ from_slice body = Some t /\
       nt_schema_version t = NODE_TELEMETRY_SCHEMA_VERSION /\ NodeTelemetry_validate t = Ok tt /\ nt_node_id t = expected) /\
  (forall digest size,
     upload_blob digest size n = (Ok tt, n') <->
     exists preparation n1,
       post_json CPrepareBlob {| pb_digest := digest; pb_size_bytes := size |} n = (Ok preparation, n1) /\
       if pr_upload_required preparation
       then exists reply, answered (CUploadBlob digest size) (StreamBody size) None n1 reply n'
       else n' = n1).
Proof.
  split_and!.
  - intros. apply execute_Ok.
  - intros. apply download_blob_Ok.
  - intros. apply download_artifact_Ok.
  - intros. apply telemetry_for_Ok.
  - intros. apply upload_blob_Ok.
Qed.

End replies.

(** ** The event stream *)

Definition NEWLINE : Byte.byte := Byte.x0a.

Fixpoint newline_position (pending : bytes) : option nat :=
  match pending with
  | [] => None
  | b :: rest => if Byte.eqb b NEWLINE then Some O else S <$> newline_position rest
  end.

(** How a stream ends for its consumer. *)
Inductive EventsEnd : Type := EventsDone | EventsFailed (e : ClientError).

Section framing.
Context `{Serde ExecutionEvent}.

Definition decode_event (line : bytes) : result ClientError ExecutionEvent :=
  let? event := ok_or (from_slice line) ClientInvalidResponse in
  map_err (fun _ => ClientInvalidResponse) (ExecutionEvent_validate event) ;? Ok event.

(** [ExecutionStream::into_events], consumed to its end: the loop of
    [try_unfold] with the chunks not yet read and the pending bytes.  [None]
    is running out of fuel. *)
Fixpoint into_events (fuel : nat) (chunks : list (result HttpError bytes)) (pending : bytes)
    : option (list ExecutionEvent * EventsEnd) :=
  match fuel with
  | O => None
  | S fuel =>
      match newline_position pending with
      | Some newline =>
          let line := take newline pending in
          let pending := drop (S newline) pending in
          match line with
          | [] => into_events fuel chunks pending
          | _ =>
              match decode_event line with
              | Ok event => '(rest, e) ← into_events fuel chunks pending; Some (event :: rest, e)
              | Err e => Some ([], EventsFailed e)
              end
          end
      | None =>
          match chunks with
          | Ok bytes :: chunks =>
              if (MAX_EVENT_BYTES <? sat_add (len pending) (len bytes))%Z then Some ([], EventsFailed ClientInvalidResponse)
              else into_events fuel chunks (pending ++ bytes)
          | Err error :: _ => Some ([], EventsFailed (ClientTransport error))
          | [] =>
              match pending with
              | [] => Some ([], EventsDone)
              | _ =>
                  match decode_event pending with
                  | Ok event => '(rest, e) ← into_events fuel [] []; Some (event :: rest, e)
                  | Err e => Some ([], EventsFailed e)
                  end
              end
          end
      end
  end.

(** One round for every byte, one for every chunk, and the last two. *)
Definition stream_fuel (chunks : list (result HttpError bytes)) (pending : bytes) : nat :=
  length pending + length chunks + sum_list ((fun c => match c with Ok b => length b | Err _ => 0 end) <$> chunks) + 2.

Definition events_of (chunks : list (result HttpError bytes)) : option (list ExecutionEvent * EventsEnd) :=
  into_events (stream_fuel chunks []) chunks [].

(** *** The same, by lines *)

(** The complete lines of a text and what follows the last newline. *)
Fixpoint split_lines (text : bytes) : list bytes * bytes :=
  match text with
  | [] => ([], [])
  | b :: rest =>
      let '(lines, tail) := split_lines rest in
      if Byte.eqb b NEWLINE then ([] :: lines, tail)
      else match lines with [] => ([], b :: tail) | line :: lines => ((b :: line) :: lines, tail) end
  end.

(** The events of some lines, up to the first that is not one. *)
Fixpoint decode_lines (lines : list bytes) : list ExecutionEvent * option ClientError :=
  match lines with
  | [] => ([], None)
  | [] :: lines => decode_lines lines
  | line :: lines =>
      match decode_event line with
      | Ok event => let '(events, e) := decode_lines lines in (event :: events, e)
      | Err e => ([], Some e)
      end
  end.

Definition prepend (events : list ExecutionEvent) (r : list ExecutionEvent * EventsEnd) : list ExecutionEvent * EventsEnd :=
  (events ++ r.1, r.2).

Fixpoint feed (chunks : list (result HttpError bytes)) (pending : bytes) : list ExecutionEvent * EventsEnd :=
  let '(lines, tail) := split_lines pending in
  let '(events, failed) := decode_lines lines in
  prepend events
    match failed with
    | Some e => ([], EventsFailed e)
    | None =>
        match chunks with
        | Ok bytes :: chunks =>
            if (MAX_EVENT_BYTES <? sat_add (len tail) (len bytes))%Z then ([], EventsFailed ClientInvalidResponse)
            else feed chunks (tail ++ bytes)
        | Err error :: _ => ([], EventsFailed (ClientTransport error))
        | [] =>
            match tail with
            | [] => ([], EventsDone)
            | _ => match decode_event tail with
                   | Ok event => ([event], EventsDone)
                   | Err e => ([], EventsFailed e)
                   end
            end
        end
    end.

Lemma newline_position_Some pending n :
  newline_position pending = Some n ->
  n < length pending /\
  split_lines pending = (let '(lines, tail) := split_lines (drop (S n) pending) in (take n pending :: lines, tail)).
Proof.
  revert n. induction pending as [|b pending IH]; intros n; [done|]. cbn [newline_position split_lines].
  destruct (Byte.eqb b NEWLINE) eqn:Eb.
  - intros [= <-]. cbn. split; [lia|]. rewrite drop_0. by destruct (split_lines pending).
  - destruct (newline_position pending) as [k|] eqn:Ek; [|done]. intros [= <-]. destruct (IH k eq_refl) as [Hk ->].
    split; [cbn; lia|]. cbn [take drop]. destruct (split_lines (drop (S k) pending)). done.
Qed.

Lemma newline_position_None pending : newline_position pending = None -> split_lines pending = ([], pending).
Proof.
  induction pending as [|b pending IH]; [done|]. cbn [newline_position split_lines].
  destruct (Byte.eqb b NEWLINE); [done|]. destruct (newline_position pending); [done|]. intros _. by rewrite IH.
Qed.

(** A step of [feed] over one complete line. *)
Lemma feed_line chunks pending n :
  newline_position pending = Some n ->
  feed chunks pending =
  match take n pending with
  | [] => feed chunks (drop (S n) pending)
  | line => match decode_event line with
            | Ok event => prepend [event] (feed chunks (drop (S n) pending))
            | Err e => ([], EventsFailed e)
            end
  end.
Proof.
  intros Hn. destruct (newline_position_Some _ _ Hn) as [_ Hs].
  destruct chunks as [|c chunks]; cbn [feed]; rewrite Hs; destruct (split_lines (drop (S n) pending)) as [lines tail].
  all: destruct (take n pending) as [|b line]; [done|]; cbn [decode_lines].
  all: destruct (decode_event (b :: line)); [|done]; destruct (decode_lines lines) as [events failed]; done.
Qed.

(** The loop ends on every stream, and computes the reading by lines. *)
Lemma into_events_feed fuel chunks pending :
  stream_fuel chunks pending <= fuel -> into_events fuel chunks pending = Some (feed chunks pending).
Proof.
  revert chunks pending. induction fuel as [|fuel IH]; intros chunks pending Hf; [unfold stream_fuel in Hf; lia|].
  cbn [into_events]. destruct (newline_position pending) as [n|] eqn:En.
  - destruct (newline_position_Some _ _ En) as [Hlt _]. rewrite (feed_line _ _ _ En).
    assert (Hrec : into_events fuel chunks (drop (S n) pending) = Some (feed chunks (drop (S n) pending))).
    { apply IH. unfold stream_fuel in *. rewrite length_drop. lia. }
    destruct (take n pending) as [|b line]; [exact Hrec|]. destruct (decode_event (b :: line)); [|done].
    rewrite Hrec. cbn. by destruct (feed chunks (drop (S n) pending)).
  - apply newline_position_None in En. destruct chunks as [|[bytes|e] chunks]; cbn [feed]; rewrite En; cbn [decode_lines].
    + unfold prepend. destruct pending as [|b pending]; [done|]. destruct (decode_event (b :: pending)); [|done].
      rewrite IH; [done|]. unfold stream_fuel in *. cbn in *. lia.
    + destruct (_ <? _)%Z; [done|]. rewrite IH.
      * unfold prepend. cbn [app]. by destruct (feed chunks (pending ++ bytes)).
      * unfold stream_fuel in *. rewrite length_app. csimpl in Hf. lia.
    + done.
Qed.

(** *** Streams of a node *)

Definition encoding (e : ExecutionEvent) : bytes := default [] (to_vec e).
Definition event_line (e : ExecutionEvent) : bytes := encoding e ++ [NEWLINE].
Definition wire (events : list ExecutionEvent) : bytes := mjoin (event_line <$> events).

(** An event as a node sends it: it validates, and its encoding is a line. *)
Definition sent (e : ExecutionEvent) : Prop :=
  is_Some (to_vec e) /\ encoding e <> [] /\ NEWLINE ∉ encoding e /\ ExecutionEvent_validate e = Ok tt.

(** Every chunk fits beside the partial line before it. *)
Fixpoint chunks_fit (tail : bytes) (chunks : list bytes) : bool :=
  match chunks with
  | [] => true
  | chunk :: chunks => (len tail + len chunk <=? MAX_EVENT_BYTES)%Z && chunks_fit (split_lines (tail ++ chunk)).2 chunks
  end.

Lemma split_lines_no_newline line : NEWLINE ∉ line -> split_lines line = ([], line).
Proof.
  induction line as [|b line IH]; [done|]. intros [Hb Hl]%not_elem_of_cons. cbn [split_lines]. rewrite IH by done.
  destruct (Byte.eqb b NEWLINE) eqn:Eb; [|done]. by apply Byte.byte_dec_bl in Eb.
Qed.

Lemma split_lines_line line text : NEWLINE ∉ line ->
  split_lines (line ++ NEWLINE :: text) = (let '(lines, tail) := split_lines text in (line :: lines, tail)).
Proof.
  induction line as [|b line IH]; [done|]. intros [Hb Hl]%not_elem_of_cons. cbn [app split_lines]. rewrite IH by done.
  destruct (split_lines text) as [lines tail].
  destruct (Byte.eqb b NEWLINE) eqn:Eb; [|done]. by apply Byte.byte_dec_bl in Eb.
Qed.

Lemma split_lines_tail text : NEWLINE ∉ (split_lines text).2.
Proof.
  induction text as [|b text IH]; [apply not_elem_of_nil|]. cbn [split_lines]. destruct (split_lines text) as [lines tail].
  cbn [snd] in *. destruct (Byte.eqb b NEWLINE) eqn:Eb; [done|]. destruct lines; [|done].
  apply not_elem_of_cons. split; [|done]. intros <-. by rewrite byte_dec_lb in Eb.
Qed.

Lemma wire_cons e events : wire (e :: events) = encoding e ++ NEWLINE :: wire events.
Proof. unfold wire. csimpl. unfold event_line. by rewrite <- app_assoc. Qed.

(** A part of the wire cut anywhere: some complete events, and the beginning
    of the rest. *)
Lemma cut_wire events text rest :
  Forall sent events -> text ++ rest = wire events ->
  exists k tail, split_lines text = (encoding <$> take k events, tail) /\ tail ++ rest = wire (drop k events).
Proof.
  intros Hs. revert text. induction Hs as [|e events He Hs IH]; intros text Htext.
  - apply app_eq_nil in Htext as [-> ->]. by exists 0, [].
  - rewrite wire_cons in Htext. destruct He as (_ & _ & Hline & _).
    destruct (decide (length text <= length (encoding e))) as [Hle|Hgt].
    + exists 0, text. rewrite drop_0, wire_cons. split; [|done].
      apply split_lines_no_newline. intros Hin. apply Hline.
      apply (f_equal (take (length text))) in Htext. rewrite take_app_length, take_app_le in Htext by done.
      rewrite Htext in Hin. by apply elem_of_take in Hin as (i & Hi%list_elem_of_lookup_2 & _).
    + assert (exists text', text = encoding e ++ NEWLINE :: text' /\ text' ++ rest = wire events) as (text' & -> & Hrest).
      { exists (drop (S (length (encoding e))) text).
        assert (Hd : drop (S (length (encoding e))) (text ++ rest) = wire events).
        { rewrite Htext. replace (S _) with (length (encoding e) + 1) by lia. by rewrite <- drop_drop, drop_app_length. }
        rewrite drop_app_le in Hd by lia. split; [|done].
        apply (f_equal (take (S (length (encoding e))))) in Htext. rewrite take_app_le in Htext by lia.
        rewrite <- (take_drop (S (length (encoding e))) text) at 1. rewrite Htext.
        rewrite take_app_ge by lia. replace (S _ - _) with 1 by lia. cbn [take]. by rewrite <- app_assoc. }
      rewrite split_lines_line by done. destruct (IH text' Hrest) as (k & tail & -> & Htail). by exists (S k), tail.
Qed.

Context `{!SerdeRoundTrip ExecutionEvent}.

Lemma decode_sent events : Forall sent events -> decode_lines (encoding <$> events) = (events, None).
Proof.
  induction 1 as [|e events (Hv & Hne & Hline & Hval) Hs IH]; [done|]. csimpl.
  destruct Hv as [b Hb]. assert (Henc : encoding e = b) by (unfold encoding; by rewrite Hb). rewrite Henc in *.
  destruct b as [|x b]; [done|]. cbn [decode_lines]. unfold decode_event.
  rewrite (from_slice_to_vec _ _ Hb). cbn [ok_or]. rewrite Hval. cbn [map_err]. by rewrite IH.
Qed.

Lemma wire_has_newline events : NEWLINE ∉ wire events -> events = [].
Proof. destruct events as [|e events]; [done|]. rewrite wire_cons. intros Hn. exfalso. apply Hn. set_solver. Qed.

Lemma fits_sat a b : (0 <= a -> 0 <= b -> (MAX_EVENT_BYTES <? sat_add a b) = negb (a + b <=? MAX_EVENT_BYTES))%Z.
Proof.
  intros Ha Hb. unfold sat_add, MAX_EVENT_BYTES, U64_MAX. destruct (Z.leb_spec (a + b) (512 * 1024)); cbn [negb].
  - apply Z.ltb_ge. lia.
  - apply Z.ltb_lt. lia.
Qed.

(** What is read of a stream that carries some events, from a partial line. *)
Lemma feed_events chunks tail events :
  Forall sent events -> NEWLINE ∉ tail -> tail ++ mjoin chunks = wire events ->
  if chunks_fit tail chunks then feed (Ok <$> chunks) tail = (events, EventsDone)
  else exists n, n < length events /\ feed (Ok <$> chunks) tail = (take n events, EventsFailed ClientInvalidResponse).
Proof.
  revert tail events. induction chunks as [|chunk chunks IH]; intros tail events Hs Hn Hwire.
  - cbn in Hwire. rewrite app_nil_r in Hwire. subst tail. pose proof (wire_has_newline _ Hn). by subst events.
  - cbn [chunks_fit]. rewrite fmap_cons. cbn [feed]. rewrite (split_lines_no_newline tail) by done. cbn [decode_lines].
    rewrite fits_sat by (unfold len; lia). destruct (Z.leb_spec (len tail + len chunk) MAX_EVENT_BYTES) as [Hle|Hgt]; cbn [negb andb].
    2: { exists 0. split; [|done]. destruct events; [|cbn; lia]. cbn in Hwire.
         apply app_eq_nil in Hwire as [-> [-> _]%app_eq_nil]. by vm_compute in Hgt. }
    assert (Htext : (tail ++ chunk) ++ mjoin chunks = wire events) by (rewrite <- app_assoc; exact Hwire).
    destruct (cut_wire _ _ _ Hs Htext) as (k & tail' & Hsplit & Hrest). rewrite Hsplit. cbn [snd].
    pose proof (split_lines_tail (tail ++ chunk)) as Htail. rewrite Hsplit in Htail. cbn [snd] in Htail.
    pose proof (Forall_take _ k _ Hs) as Htake. pose proof (Forall_drop _ k _ Hs) as Hdrop.
    specialize (IH tail' _ Hdrop Htail Hrest).
    assert (Hstep : feed (Ok <$> chunks) (tail ++ chunk) = prepend (take k events) (feed (Ok <$> chunks) tail')).
    { destruct chunks as [|c chunks]; cbn [fmap list_fmap feed]; rewrite Hsplit, (split_lines_no_newline tail') by done;
        rewrite decode_sent by done; done. }
    rewrite Hstep. unfold prepend. destruct (chunks_fit tail' chunks).
    + rewrite IH. cbn. by rewrite take_drop.
    + destruct IH as (n & Hlt & ->). exists (k + n). rewrite length_drop in Hlt. split; [lia|]. cbn [fst snd app].
      rewrite <- take_take_drop. done.
Qed.

(** An event whose encoding has the full size never fits. *)
Lemma full_event_never_fits chunks tail events :
  Forall sent events -> NEWLINE ∉ tail -> tail ++ mjoin chunks = wire events ->
  Exists (fun e => MAX_EVENT_BYTES <= len (encoding e))%Z events -> chunks_fit tail chunks = false.
Proof.
  revert tail events. induction chunks as [|chunk chunks IH]; intros tail events Hs Hn Hwire Hbig.
  - cbn in Hwire. rewrite app_nil_r in Hwire. subst tail. rewrite (wire_has_newline _ Hn) in Hbig. by inversion Hbig.
  - cbn [chunks_fit]. destruct (Z.leb_spec (len tail + len chunk) MAX_EVENT_BYTES) as [Hle|]; [|done]. cbn [andb].
    assert (Htext : (tail ++ chunk) ++ mjoin chunks = wire events) by (rewrite <- app_assoc; exact Hwire).
    destruct (cut_wire _ _ _ Hs Htext) as (k & tail' & Hsplit & Hrest). rewrite Hsplit. cbn [snd].
    pose proof (split_lines_tail (tail ++ chunk)) as Htail. rewrite Hsplit in Htail.
    apply (IH tail' (drop k events)); [by apply Forall_drop|done|done|].
    rewrite <- (take_drop k events) in Hbig. apply Exists_app in Hbig as [Hbig|Hbig]; [|done]. exfalso.
    assert (Hlen : length (wire (take k events)) + length tail' = length (tail ++ chunk)).
    { apply (f_equal length) in Htext, Hrest. rewrite length_app in Htext, Hrest.
      assert (Hw : length (wire events) = length (wire (take k events)) + length (wire (drop k events))).
      { rewrite <- (take_drop k events) at 1. unfold wire. by rewrite fmap_app, join_app, length_app. }
      lia. }
    apply Exists_exists in Hbig as (e & Hin & He). apply list_elem_of_split in Hin as (l1 & l2 & Hl).
    rewrite Hl in Hlen. unfold wire in Hlen. rewrite fmap_app, join_app, length_app in Hlen. csimpl in Hlen.
    unfold event_line in Hlen. rewrite !length_app in Hlen. cbn [length] in Hlen. unfold len in *. lia.
Qed.

(** One line at a time fits when it is below the bound. *)
Lemma lines_fit events :
  Forall sent events -> Forall (fun e => len (encoding e) < MAX_EVENT_BYTES)%Z events -> chunks_fit [] (event_line <$> events) = true.
Proof.
  intros Hs Hlen. induction Hlen as [|e events He Hlen IH]; [done|]. apply Forall_cons in Hs as [(_ & _ & Hline & _) Hs].
  csimpl. cbn [app]. unfold event_line at 2. rewrite split_lines_line by done. cbn [split_lines snd]. rewrite IH by done.
  rewrite andb_true_r. apply Z.leb_le. unfold event_line, len in *. rewrite length_app. cbn. lia.
Qed.

(** C20: reading an event stream.  Whatever the chunks in which the transport
    delivers the lines of a node's events, the client's reader ends; it yields
    exactly those events, in order, when every chunk fits into 512 KiB beside
    the partial line before it, and otherwise a proper prefix of them followed
    by an error.  Delivered line by line, events of encodings below the bound
    always arrive; an event whose encoding has exactly the 512 KiB a node may
    store is never received, in whatever chunks it comes. *)
Theorem event_stream_read (events : list ExecutionEvent) (chunks : list bytes) :
  Forall sent events -> mjoin chunks = wire events ->
  (chunks_fit [] chunks = true -> events_of (Ok <$> chunks) = Some (events, EventsDone)) /\
  (chunks_fit [] chunks = false ->
   exists n, n < length events /\ events_of (Ok <$> chunks) = Some (take n events, EventsFailed ClientInvalidResponse)) /\
  (chunks = event_line <$> events -> Forall (fun e => len (encoding e) < MAX_EVENT_BYTES)%Z events ->
   chunks_fit [] chunks = true) /\
  (Exists (fun e => MAX_EVENT_BYTES <= len (encoding e))%Z events -> chunks_fit [] chunks = false).
Proof.
  intros Hs Hwire. unfold events_of. rewrite into_events_feed by done.
  pose proof (feed_events chunks [] events Hs (not_elem_of_nil _) Hwire) as Hf. split_and!.
  - intros Hfit. rewrite Hfit in Hf. by rewrite Hf.
  - intros Hfit. rewrite Hfit in Hf. destruct Hf as (n & Hn & ->). by exists n.
  - intros -> Hlen. by apply lines_fit.
  - intros Hbig. exact (full_event_never_fits chunks [] events Hs (not_elem_of_nil _) Hwire Hbig).
Qed.

End framing.
End client.

Arguments ClientError : clear implicits.

(** ** A stream cut in the middle of a line *)

Module Cut.
Import Store.Run.

Definition metadata : EventMetadata := {| fields := [] |}.
Definition lines : list ExecutionEvent :=
  [ {| sequence := 1; kind := EvState Running; ev_metadata := metadata |};
    {| sequence := 2; kind := EvStdout [Byte.x68; Byte.x69]; ev_metadata := metadata |} ].
Definition chunks : list bytes := [take 5 (wire lines); drop 5 (wire lines)].

Lemma lines_sent : Forall sent lines.
Proof. repeat constructor; try (by eexists); try done; apply (bool_decide_unpack _); vm_compute; reflexivity. Qed.

Lemma chunks_wire : mjoin chunks = wire lines.
Proof. unfold chunks. cbn [mjoin list_join]. by rewrite app_nil_r, take_drop. Qed.

Lemma chunks_fitting : chunks_fit [] chunks = true.
Proof. vm_compute. reflexivity. Qed.
End Cut.
Import Store.Run.

Lemma event_stream_read_witness :
  events_of (HttpError := unit) (Ok <$> Cut.chunks) = Some (Cut.lines, EventsDone).
Proof.
  exact (proj1 (event_stream_read (HttpError := unit) Cut.lines Cut.chunks Cut.lines_sent Cut.chunks_wire) Cut.chunks_fitting).
Defined.
