(* ===== verification/Operations.v ===== *)
(** * The operator's side of a node

    [eggwork-server/src/operations.rs]: the configuration file and its
    validation, the principals and grants it defines, redacted output, the
    [doctor] report, the persistent drain marker, and the maintenance commands
    that read the stores: execution pages, quiescence, metrics, storage sizes,
    previews of a collection, and inspection.

    The operating system is an argument ([Os]): what [symlink_metadata],
    [metadata], [read], [read_dir] and [available_space] answer, the effective
    user, and how a path is displayed.
    [rustls], [rustls_pemfile] and the TLS builder are the class [TlsLib];
    [serde_json] is [Serde]. *)

From Stdlib Require Import Ascii String ZArith Lia.
From stdpp Require Import base gmap strings list sorting.
From S2P Require Import Prelude Text Ids Wire Std Telemetry Spec Manifest Events Store Runner Sandbox Routes Node.
From S2P Require Import Blob Workspace Artifact Storage Handlers.

#[local] Open Scope string_scope.
#[local] Open Scope list_scope.

Definition MAX_CONFIG_BYTES : Z := 1024 * 1024.
Definition MAX_GC_BATCH : nat := 1024.
Definition MAX_EXECUTION_PAGE : Z := 200.
Definition METRIC_NAMES : list string :=
  ["executions_accepted"; "rejected_route"; "rejected_unauthenticated"; "rejected_unauthorized"; "rejected_invalid";
   "rejected_draining"; "rejected_capability"; "rejected_busy"; "rejected_storage"; "event_history_resync";
   "blob_upload_bytes"; "blob_download_bytes"; "stdout_bytes"; "stderr_bytes"; "terminal_succeeded";
   "terminal_failed"; "terminal_cancelled"; "terminal_timed_out"; "terminal_interrupted"; "cleanup_failures"].

Inductive OperationsError : Type := OeConfig | OeIo | OeData | OeBounds | OeNotFound.

(** ** Configuration *)

Record HostTelemetrySettings := {
  hs_endpoint : string;
  hs_refresh_interval_seconds : Z;
  hs_freshness_seconds : Z;
}.

Record TlsFiles := { certificate_chain : PathBuf; private_key : PathBuf; client_ca : PathBuf }.

Record ClientGrant := {
  cg_principal_id : string;
  cg_certificate_sha256 : string;
  cg_operations : list string;
}.

Record OperatorConfig := {
  oc_schema_version : Z;
  oc_node_id : string;
  oc_bind : string;
  oc_execution_root : PathBuf;
  oc_database_path : PathBuf;
  oc_blob_root : PathBuf;
  oc_blob_quota_bytes : Z;
  oc_workspace_root : PathBuf;
  oc_workspace_quota_bytes : Z;
  oc_max_active_executions : Z;
  oc_lease_ttl_seconds : Z;
  oc_sandbox_helper : option PathBuf;
  oc_tls : TlsFiles;
  oc_clients : list ClientGrant;
  oc_host_telemetry : option HostTelemetrySettings;
}.

(** [HostTelemetrySettings::config] *)
Definition settings_config `{UrlParser} (s : HostTelemetrySettings) : result OperationsError HostTelemetryConfig :=
  map_err (fun _ => OeConfig)
    (HostTelemetryConfig_new (hs_endpoint s) (hs_refresh_interval_seconds s) (hs_freshness_seconds s)).

(** The operating system. *)
Inductive IoError : Type := IoMissing | IoFailed.
Record Stat := { st_meta : Metadata; st_len : Z }.

Record Os := {
  os_lstat : PathBuf -> result IoError Stat;
  os_stat : PathBuf -> result IoError Stat;
  os_read : PathBuf -> result IoError bytes;
  os_read_dir : PathBuf -> bool;
  os_available_space : PathBuf -> option Z;
  os_euid : Z;
  os_display : PathBuf -> string;
}.

Definition io {A} (r : result IoError A) : result OperationsError A := map_err (fun _ => OeIo) r.
Definition refuse (b : bool) (e : OperationsError) : result OperationsError unit := if b then Err e else Ok tt.

(** The permission tests; a mode is octal in the source. *)
Definition mode_has (md : Metadata) (bits : Z) : bool := negb (Z.land (md_mode md) bits =? 0)%Z.

Definition config_writable_by_others (os : Os) (md : Metadata) : bool :=
  (negb (md_uid md =? 0)%Z && negb (md_uid md =? os_euid os)%Z) || mode_has md 18.
Definition owned_writable_file (os : Os) (md : Metadata) : bool :=
  (md_uid md =? os_euid os)%Z && mode_has md 128.
Definition private_key_readable_by_others (md : Metadata) : bool := mode_has md 63.
Definition trusted_directory (os : Os) (md : Metadata) : bool :=
  (md_uid md =? os_euid os)%Z && (Z.land (md_mode md) 511 =? 448)%Z && (Z.land (md_mode md) 18 =? 0)%Z.

(** [OperatorConfig::resolve_paths] *)
Definition resolve_path (base p : PathBuf) : PathBuf := if is_relative p then path_join base p else p.

Definition resolve_paths (base : PathBuf) (c : OperatorConfig) : OperatorConfig := {|
  oc_schema_version := oc_schema_version c;
  oc_node_id := oc_node_id c;
  oc_bind := oc_bind c;
  oc_execution_root := resolve_path base (oc_execution_root c);
  oc_database_path := resolve_path base (oc_database_path c);
  oc_blob_root := resolve_path base (oc_blob_root c);
  oc_blob_quota_bytes := oc_blob_quota_bytes c;
  oc_workspace_root := resolve_path base (oc_workspace_root c);
  oc_workspace_quota_bytes := oc_workspace_quota_bytes c;
  oc_max_active_executions := oc_max_active_executions c;
  oc_lease_ttl_seconds := oc_lease_ttl_seconds c;
  oc_sandbox_helper := resolve_path base <$> oc_sandbox_helper c;
  oc_tls := {| certificate_chain := resolve_path base (certificate_chain (oc_tls c));
               private_key := resolve_path base (private_key (oc_tls c));
               client_ca := resolve_path base (client_ca (oc_tls c)) |};
  oc_clients := oc_clients c;
  oc_host_telemetry := oc_host_telemetry c |}.

(** [OperatorConfig::load] *)
Definition load_config `{Serde OperatorConfig} (os : Os) (path : PathBuf) : result OperationsError OperatorConfig :=
  let? st := io (os_lstat os path) in
  refuse (negb (md_is_file (st_meta st)) || md_is_symlink (st_meta st) || (MAX_CONFIG_BYTES <? st_len st)%Z
          || config_writable_by_others os (st_meta st)) OeConfig ;?
  let? content := io (os_read os path) in
  let bytes := take (Z.to_nat (MAX_CONFIG_BYTES + 1)) content in
  let? config := ok_or (from_slice bytes) OeConfig in
  Ok (resolve_paths (default {| absolute := false; names := ["."] |} (path_parent path)) config).

(** The names of [operation]. *)
Definition operation (name : string) : option Operation :=
  if String.eqb name "capabilities" then Some OpCapabilities
  else if String.eqb name "status" then Some OpStatus
  else if String.eqb name "telemetry" then Some OpTelemetry
  else if String.eqb name "execute" then Some OpExecute
  else if String.eqb name "observe" then Some OpObserve
  else if String.eqb name "cancel" then Some OpCancel
  else if String.eqb name "renew" then Some OpRenew
  else if String.eqb name "events" then Some OpEvents
  else if String.eqb name "blob-read" then Some OpBlobRead
  else if String.eqb name "blob-write" then Some OpBlobWrite
  else if String.eqb name "workspace-create" then Some OpWorkspaceCreate
  else if String.eqb name "artifact-read" then Some OpArtifactRead
  else None.

(** TLS material: certificates and a key from PEM, and the server policy. *)
Class TlsLib := {
  TlsServerConfig : Type;
  pem_certs : bytes -> option (list bytes);
  pem_private_key : bytes -> option (option bytes);
  tls_build : list bytes -> bytes -> list bytes -> option TlsServerConfig;
}.

Definition read_certificates `{TlsLib} (os : Os) (path : PathBuf) : result OperationsError (list bytes) :=
  let? st := io (os_lstat os path) in
  refuse (negb (md_is_file (st_meta st)) || md_is_symlink (st_meta st)
          || config_writable_by_others os (st_meta st)) OeConfig ;?
  let? content := io (os_read os path) in
  let? certs := ok_or (pem_certs content) OeConfig in
  match certs with [] => Err OeConfig | _ => Ok certs end.

Definition trusted_private_key (os : Os) (path : PathBuf) : result OperationsError bytes :=
  let? st := io (os_lstat os path) in
  refuse (negb (md_is_file (st_meta st)) || config_writable_by_others os (st_meta st)
          || negb (owned_writable_file os (st_meta st)) || private_key_readable_by_others (st_meta st)) OeConfig ;?
  io (os_read os path).

(** [OperatorConfig::tls_config] *)
Definition tls_config `{TlsLib} (os : Os) (c : OperatorConfig) : result OperationsError TlsServerConfig :=
  let? certs := read_certificates os (certificate_chain (oc_tls c)) in
  let? roots := read_certificates os (client_ca (oc_tls c)) in
  let? key_file := trusted_private_key os (private_key (oc_tls c)) in
  let? key := ok_or (pem_private_key key_file) OeConfig in
  let? key := ok_or key OeConfig in
  ok_or (tls_build certs key roots) OeConfig.

(** The loop of [validate] over the clients, with the fingerprints seen. *)
Definition grant_refused (seen : gset string) (g : ClientGrant) : bool :=
  negb (is_ok (PrincipalId_new (cg_principal_id g)))
  || negb (str_len (cg_certificate_sha256 g) =? 64)%Z
  || negb (all_bytes is_ascii_hexdigit (cg_certificate_sha256 g))
  || bool_decide (to_ascii_lowercase (cg_certificate_sha256 g) ∈ seen)
  || match cg_operations g with [] => true | _ => false end
  || existsb (fun name => negb (is_some (operation name))) (cg_operations g).

Fixpoint check_grants (seen : gset string) (clients : list ClientGrant) : result OperationsError unit :=
  match clients with
  | [] => Ok tt
  | g :: rest =>
      if grant_refused seen g then Err OeConfig
      else check_grants ({[to_ascii_lowercase (cg_certificate_sha256 g)]} ∪ seen) rest
  end.

Definition check_root (os : Os) (path : PathBuf) : result OperationsError unit :=
  let? st := map_err (fun _ => OeConfig) (os_lstat os path) in
  refuse (negb (md_is_dir (st_meta st)) || md_is_symlink (st_meta st)
          || negb (trusted_directory os (st_meta st))) OeConfig.

(** The two nested loops over the roots. *)
Definition overlaps (a b : PathBuf) : bool := bool_decide (a = b) || path_under a b || path_under b a.

Fixpoint check_overlap (roots : list PathBuf) : result OperationsError unit :=
  match roots with
  | [] => Ok tt
  | path :: rest => if existsb (overlaps path) rest then Err OeConfig else check_overlap rest
  end.

Definition check_database (os : Os) (path : PathBuf) : result OperationsError unit :=
  (match path_parent path with
   | Some parent =>
       refuse (negb match os_stat os parent with Ok st => md_is_dir (st_meta st) | Err _ => false end
               || match os_lstat os parent with
                  | Ok st => md_is_symlink (st_meta st) || negb (trusted_directory os (st_meta st))
                  | Err _ => false
                  end) OeConfig
   | None => Ok tt
   end) ;?
  match os_lstat os path with
  | Ok st => refuse (negb (md_is_file (st_meta st)) || md_is_symlink (st_meta st)
                     || negb (owned_writable_file os (st_meta st))) OeConfig
  | Err _ => Ok tt
  end.

(** [OperatorConfig::validate] *)
Definition validate_config `{TlsLib, UrlParser} (os : Os) (c : OperatorConfig) : result OperationsError unit :=
  refuse (negb (oc_schema_version c =? 1)%Z
          || negb (is_ok (NodeId_new (oc_node_id c)))
          || negb (is_some (parse_socket_addr (oc_bind c)))
          || (oc_max_active_executions c =? 0)%Z
          || (65536 <? oc_max_active_executions c)%Z
          || (oc_lease_ttl_seconds c =? 0)%Z
          || (86400 <? oc_lease_ttl_seconds c)%Z
          || (oc_blob_quota_bytes c =? 0)%Z
          || (oc_workspace_quota_bytes c =? 0)%Z
          || match oc_clients c with [] => true | _ => false end
          || (1024 <? len (oc_clients c))%Z) OeConfig ;?
  check_grants ∅ (oc_clients c) ;?
  (let? _ := tls_config os c in Ok tt) ;?
  (match oc_host_telemetry c with
   | Some settings => let? _ := settings_config settings in Ok tt
   | None => Ok tt
   end) ;?
  for_each (check_root os) [oc_execution_root c; oc_blob_root c; oc_workspace_root c] ;?
  check_overlap [oc_execution_root c; oc_blob_root c; oc_workspace_root c] ;?
  check_database os (oc_database_path c).

(** [OperatorConfig::principals]: the fingerprints and the grants. *)
Definition allowed_operations (g : ClientGrant) : list Operation := omap operation (cg_operations g).

#[export] Instance Operation_eq_dec : EqDecision Operation.
Proof. solve_decision. Defined.

Fixpoint collect_principals (clients : list ClientGrant) (identities : gmap string string)
    (grants : gmap string (list Operation)) : result OperationsError (gmap string string * gmap string (list Operation)) :=
  match clients with
  | [] => Ok (identities, grants)
  | client :: rest =>
      let? id := map_err (fun _ => OeConfig) (PrincipalId_new (cg_principal_id client)) in
      collect_principals rest
        (<[to_ascii_lowercase (cg_certificate_sha256 client) := id]> identities)
        (<[id := allowed_operations client]> grants)
  end.

Definition principals (c : OperatorConfig) : result OperationsError (gmap string string * gmap string (list Operation)) :=
  collect_principals (oc_clients c) ∅ ∅.

(** [GrantAuthorizer::authorize], and the provided [authorize_request]. *)
Definition grant_authorize (grants : gmap string (list Operation)) (principal : string) (r : OperationRequest) : bool :=
  match grants !! principal with
  | Some allowed => bool_decide (or_operation r ∈ allowed)
  | None => false
  end.

(** [OperatorConfig::drain_path] *)
Definition drain_path (c : OperatorConfig) : PathBuf := with_extension (oc_database_path c) "drain".

(** [OperatorConfig::node_config], its fields beside the stores' paths. *)
Record NodeSettings `{TlsLib} := {
  nsg_node_id : string;
  nsg_bind : SocketAddr;
  nsg_blob_quota_bytes : Z;
  nsg_workspace_quota_bytes : Z;
  nsg_max_active_executions : Z;
  nsg_lease_ttl_ms : Z;
  nsg_tls : TlsServerConfig;
  nsg_host_telemetry : option HostTelemetryConfig;
}.

Definition node_config `{TlsLib, UrlParser} (os : Os) (c : OperatorConfig) : result OperationsError NodeSettings :=
  let? id := map_err (fun _ => OeConfig) (NodeId_new (oc_node_id c)) in
  let? bind := ok_or (parse_socket_addr (oc_bind c)) OeConfig in
  let? tls := tls_config os c in
  let? telemetry := match oc_host_telemetry c with
                    | Some settings => let? t := settings_config settings in Ok (Some t)
                    | None => Ok None
                    end in
  Ok {| nsg_node_id := id; nsg_bind := bind; nsg_blob_quota_bytes := oc_blob_quota_bytes c;
        nsg_workspace_quota_bytes := oc_workspace_quota_bytes c;
        nsg_max_active_executions := oc_max_active_executions c;
        nsg_lease_ttl_ms := oc_lease_ttl_seconds c * 1000; nsg_tls := tls; nsg_host_telemetry := telemetry |}.

(** ** Redacted output *)

Inductive Json : Type :=
| JNull
| JNumber (n : Z)
| JString (s : string)
| JArray (items : list Json)
| JObject (fields : list (string * Json)).

(** The derived [Serialize] of the configuration; [to_str] is the text of a
    path, [None] when it is not UTF-8. *)
Definition json_path (to_str : PathBuf -> option string) (p : PathBuf) : Json := JString (default EmptyString (to_str p)).
Definition json_option {A} (f : A -> Json) (o : option A) : Json := match o with Some a => f a | None => JNull end.

Definition grant_to_value (g : ClientGrant) : Json :=
  JObject [("principal_id", JString (cg_principal_id g)); ("certificate_sha256", JString (cg_certificate_sha256 g));
           ("operations", JArray (JString <$> cg_operations g))].

Definition tls_to_value (to_str : PathBuf -> option string) (t : TlsFiles) : Json :=
  JObject [("certificate_chain", json_path to_str (certificate_chain t)); ("private_key", json_path to_str (private_key t));
           ("client_ca", json_path to_str (client_ca t))].

Definition settings_to_value (s : HostTelemetrySettings) : Json :=
  JObject [("endpoint", JString (hs_endpoint s)); ("refresh_interval_seconds", JNumber (hs_refresh_interval_seconds s));
           ("freshness_seconds", JNumber (hs_freshness_seconds s))].

Definition config_paths (c : OperatorConfig) : list PathBuf :=
  [oc_execution_root c; oc_database_path c; oc_blob_root c; oc_workspace_root c; certificate_chain (oc_tls c);
   private_key (oc_tls c); client_ca (oc_tls c)] ++ option_list (oc_sandbox_helper c).

Definition config_value (to_str : PathBuf -> option string) (c : OperatorConfig) : Json :=
  JObject [
    ("schema_version", JNumber (oc_schema_version c)); ("node_id", JString (oc_node_id c));
    ("bind", JString (oc_bind c)); ("execution_root", json_path to_str (oc_execution_root c));
    ("database_path", json_path to_str (oc_database_path c)); ("blob_root", json_path to_str (oc_blob_root c));
    ("blob_quota_bytes", JNumber (oc_blob_quota_bytes c)); ("workspace_root", json_path to_str (oc_workspace_root c));
    ("workspace_quota_bytes", JNumber (oc_workspace_quota_bytes c));
    ("max_active_executions", JNumber (oc_max_active_executions c));
    ("lease_ttl_seconds", JNumber (oc_lease_ttl_seconds c));
    ("sandbox_helper", json_option (json_path to_str) (oc_sandbox_helper c)); ("tls", tls_to_value to_str (oc_tls c));
    ("clients", JArray (grant_to_value <$> oc_clients c));
    ("host_telemetry", json_option settings_to_value (oc_host_telemetry c))].

(** [serde_json::to_value], which refuses a path that is not UTF-8. *)
Definition config_to_value (to_str : PathBuf -> option string) (c : OperatorConfig) : option Json :=
  if forallb (fun p => is_some (to_str p)) (config_paths c) then Some (config_value to_str c) else None.

(** [get_mut(key)] followed by an update in place. *)
Definition json_update (key : string) (f : Json -> Json) (v : Json) : Json :=
  match v with
  | JObject fields => JObject ((fun kv => if String.eqb kv.1 key then (kv.1, f kv.2) else kv) <$> fields)
  | v => v
  end.

(** [Map::insert] *)
Definition json_insert (key : string) (x : Json) (v : Json) : Json :=
  match v with
  | JObject fields =>
      if existsb (fun kv => String.eqb kv.1 key) fields then json_update key (fun _ => x) (JObject fields)
      else JObject (fields ++ [(key, x)])
  | v => v
  end.

Definition redact (v : Json) : Json :=
  let v := json_update "tls" (json_insert "private_key" (JString "[REDACTED]")) v in
  json_update "clients"
    (fun clients => match clients with
                    | JArray items => JArray (json_insert "certificate_sha256" (JString "[REDACTED]") <$> items)
                    | other => other
                    end) v.

(** [OperatorConfig::redacted_json], for the pretty printer's answer. *)
Definition redacted_json (to_str : PathBuf -> option string) (to_string_pretty : Json -> option string) (c : OperatorConfig)
    : result OperationsError string :=
  let? value := ok_or (config_to_value to_str c) OeConfig in
  ok_or (to_string_pretty (redact value)) OeConfig.

(** ** Diagnosis *)

Record DoctorCheck := { dc_name : string; dc_ok : bool; dc_detail : string }.
Record DoctorReport := { dr_schema_version : Z; dr_ready : bool; dr_checks : list DoctorCheck }.

(** [DoctorReport::configuration_ok] *)
Definition configuration_ok (r : DoctorReport) : bool :=
  existsb (fun c => String.eqb (dc_name c) "configuration" && dc_ok c) (dr_checks r).

(** What [doctor] meets beside the file system: the trust check of the helper,
    the capabilities the runner probes, and whether an address can be bound or
    is already being served. *)
Record DoctorOutside := {
  do_trusted_helper : PathBuf -> bool;
  do_capabilities : PathBuf -> list string;
  do_bind : SocketAddr -> bool;
  do_connect : SocketAddr -> bool;
}.

Definition check (name : string) (ok : bool) (yes no : string) : DoctorCheck :=
  {| dc_name := name; dc_ok := ok; dc_detail := if ok then yes else no |}.

Fixpoint join_list (sep : string) (l : list string) : string :=
  match l with [] => EmptyString | [x] => x | x :: rest => x +:+ sep +:+ join_list sep rest end.

Definition helper_ok (o : DoctorOutside) (c : OperatorConfig) : bool :=
  match oc_sandbox_helper c with Some helper => do_trusted_helper o helper | None => true end.

Definition sandbox_check (o : DoctorOutside) (c : OperatorConfig) : DoctorCheck :=
  let capabilities := match oc_sandbox_helper c with
                      | Some helper => if helper_ok o c then do_capabilities o helper else []
                      | None => []
                      end in
  {| dc_name := "sandbox-resource-backend"; dc_ok := helper_ok o c;
     dc_detail :=
       match oc_sandbox_helper c with
       | None => "no trusted sandbox helper configured; required isolation fails closed and resource limits are not advertised"
       | Some _ =>
           if negb (helper_ok o c) then "configured sandbox helper is missing or fails installation ownership checks"
           else match capabilities with
                | [] => "trusted helper configured; no execution capability passed runtime probes"
                | _ => "runtime-probed capabilities: " +:+ join_list ", " capabilities
                end
       end |}.

Definition telemetry_check (c : OperatorConfig) : DoctorCheck :=
  {| dc_name := "host-telemetry"; dc_ok := true;
     dc_detail :=
       match oc_host_telemetry c with
       | None => "host telemetry is disabled; the node reports no host measurements"
       | Some s => "host telemetry is enabled against a validated loopback provider endpoint (refresh "
                   +:+ dec (hs_refresh_interval_seconds s) +:+ "s, freshness "
                   +:+ dec (hs_freshness_seconds s) +:+ "s)"
       end |}.

Definition listener_ok (o : DoctorOutside) (c : OperatorConfig) : bool :=
  match parse_socket_addr (oc_bind c) with
  | Some addr => do_bind o addr || do_connect o addr
  | None => false
  end.

Definition directory_check (os : Os) (p : string * PathBuf) : DoctorCheck :=
  check p.1 (match os_stat os p.2 with Ok st => md_is_dir (st_meta st) | Err _ => false end && os_read_dir os p.2)
    "directory is available" "directory is missing or unreadable".

Definition headroom_check (os : Os) (c : OperatorConfig) : DoctorCheck :=
  match os_available_space os (oc_execution_root c) with
  | Some bytes => {| dc_name := "storage-headroom"; dc_ok := (0 <? bytes)%Z; dc_detail := dec bytes +:+ " bytes available" |}
  | None => {| dc_name := "storage-headroom"; dc_ok := false; dc_detail := "available space could not be measured" |}
  end.

Definition doctor `{TlsLib, UrlParser} (os : Os) (o : DoctorOutside) (c : OperatorConfig) : DoctorReport :=
  let checks :=
    [check "configuration" (is_ok (validate_config os c)) "configuration and TLS policy are valid"
       "configuration or TLS material is invalid";
     telemetry_check c; sandbox_check o c;
     check "listener" (listener_ok o c) "bind address is available" "bind address is invalid or unavailable"]
    ++ (directory_check os <$> [("execution-root", oc_execution_root c); ("blob-root", oc_blob_root c);
                                ("workspace-root", oc_workspace_root c)])
    ++ [headroom_check os c] in
  {| dr_schema_version := 1; dr_ready := forallb dc_ok checks; dr_checks := checks |}.

(** ** The drain marker *)

Inductive Entry : Type := EFile (content : string) | EDir | ESymlink.

#[export] Instance Entry_eq_dec : EqDecision Entry.
Proof. solve_decision. Defined.

Abbreviation files_at := (gmap PathBuf Entry).
Abbreviation draining_act A := (act files_at OperationsError A).

Inductive DrainStep : Type := DsCreateDir | DsCreate | DsWrite | DsSync | DsRename | DsRemove | DsSyncDir.

(** The proper prefixes of a path below its start, and the path itself. *)
Definition ancestors (p : PathBuf) : list PathBuf :=
  (fun n => {| absolute := absolute p; names := take n (names p) |}) <$> seq 1 (length (names p)).

(** [fs::create_dir_all] *)
Definition create_dir (p : PathBuf) : draining_act unit :=
  let! e := gets (fun fs : files_at => fs !! p) in
  match e with
  | None => modify (fun fs : files_at => <[p := EDir]> fs)
  | Some (EFile _) => throw OeIo
  | Some _ => ret tt
  end.
Definition create_dir_all (fails : bool) (p : PathBuf) : draining_act unit :=
  guard_err fails OeIo ;! act_each create_dir (ancestors p).

Definition create_parent (fails : bool) (path : PathBuf) : draining_act unit :=
  match path_parent path with Some parent => create_dir_all fails parent | None => ret tt end.

Definition sync_directory (fails : DrainStep -> bool) (path : PathBuf) : draining_act unit :=
  guard_err (is_some (path_parent path) && fails DsSyncDir) OeIo.

Definition DRAIN_MARKER : string := "draining" +:+ String "010"%char EmptyString.

(** [set_persistent_drain]; [partial] is what a failing write left behind. *)
Definition set_persistent_drain (fails : DrainStep -> bool) (uuid partial : string) (path : PathBuf) (draining : bool)
    : draining_act unit :=
  if draining then
    create_parent (fails DsCreateDir) path ;!
    let temp := with_extension path ("drain." +:+ uuid +:+ ".tmp") in
    let! existing := gets (fun fs : files_at => fs !! temp) in
    guard_err (is_some existing || fails DsCreate) OeIo ;!
    modify (fun fs : files_at => <[temp := EFile EmptyString]> fs) ;!
    (if fails DsWrite then modify (fun fs : files_at => <[temp := EFile partial]> fs) ;! throw OeIo
     else modify (fun fs : files_at => <[temp := EFile DRAIN_MARKER]> fs)) ;!
    guard_err (fails DsSync) OeIo ;!
    let! target := gets (fun fs : files_at => fs !! path) in
    guard_err (fails DsRename || bool_decide (target = Some EDir)) OeIo ;!
    modify (fun fs : files_at => <[path := EFile DRAIN_MARKER]> (delete temp fs)) ;!
    sync_directory fails path
  else
    let! target := gets (fun fs : files_at => fs !! path) in
    guard_err (fails DsRemove || bool_decide (target = Some EDir)) OeIo ;!
    modify (fun fs : files_at => delete path fs) ;!
    sync_directory fails path.

(** [is_persistently_draining] *)
Definition is_persistently_draining (path : PathBuf) (fs : files_at) : bool :=
  match fs !! path with Some (EFile _) => true | _ => false end.

(** ** Reading the execution store *)

(** The database file as an operator command finds it: its metadata, whether
    it opens read-only, whether a statement can be run, and the tables. *)
Record DbFile := {
  df_lstat : result IoError Metadata;
  df_opens : bool;
  df_queries : bool;
  df_db : Db;
}.

(** [require_regular_file] *)
Definition require_regular_file (st : result IoError Metadata) : result OperationsError unit :=
  let? md := map_err (fun _ => OeData) st in
  if md_is_file md && negb (md_is_symlink md) then Ok tt else Err OeData.

(** [read_only_database] followed by one statement. *)
Definition read_only {A} (f : DbFile) (query : Db -> A) : result OperationsError A :=
  if df_opens f && df_queries f then Ok (query (df_db f)) else Err OeData.

Definition state_label (s : ExecutionState) : string :=
  match s with
  | Accepted => "accepted"
  | Preparing => "preparing"
  | Running => "running"
  | Cancelling => "cancelling"
  | Succeeded => "succeeded"
  | Failed => "failed"
  | Cancelled => "cancelled"
  | TimedOut => "timed_out"
  | Interrupted => "interrupted"
  end.

Definition is_active (s : ExecutionState) : bool :=
  match s with Accepted | Preparing | Running | Cancelling => true | _ => false end.

Record ExecutionPage := {
  ep_limit : Z;
  ep_offset : Z;
  ep_total : Z;
  ep_active_executions : Z;
  ep_states : gmap string Z;
  ep_stdout_bytes : Z;
  ep_stderr_bytes : Z;
  ep_cleanup_failures : Z;
  ep_next_offset : option Z;
  ep_executions : list ExecutionSnapshot;
}.

Section reading.
Context `{Serde ExecutionSnapshot}.

(** [load_snapshots] *)
Definition load_snapshots (f : DbFile) : result OperationsError (list ExecutionSnapshot) :=
  match df_lstat f with
  | Err IoMissing => Ok []
  | Err IoFailed => Err OeData
  | Ok _ =>
      require_regular_file (df_lstat f) ;?
      let? rows := read_only f (fun db => take 2049 (sort_by Store.cmp_key (map_to_list (executions db)))) in
      let? snapshots := map_err (fun _ => OeData) (decode_snapshots ((fun kv => snapshot_json kv.2) <$> rows)) in
      if (2048 <? len snapshots)%Z then Err OeBounds else Ok snapshots
  end.

(** The loop that counts states and sums the results. *)
Record Tally := { ta_states : gmap string Z; ta_stdout : Z; ta_stderr : Z; ta_cleanup : Z }.

Definition tally_one (t : Tally) (s : ExecutionSnapshot) : Tally :=
  let states := <[state_label (snap_state s) := (default 0%Z (ta_states t !! state_label (snap_state s)) + 1)%Z]> (ta_states t) in
  match snap_result s with
  | Some r => {| ta_states := states; ta_stdout := sat_add (ta_stdout t) (stdout_bytes r);
                 ta_stderr := sat_add (ta_stderr t) (stderr_bytes r);
                 ta_cleanup := (ta_cleanup t + (if is_some (cleanup_warning r) then 1 else 0))%Z |}
  | None => {| ta_states := states; ta_stdout := ta_stdout t; ta_stderr := ta_stderr t; ta_cleanup := ta_cleanup t |}
  end.

Definition cmp_snapshot (a b : ExecutionSnapshot) : comparison :=
  then_with (str_cmp (Events.execution_id a) (Events.execution_id b)) (Z.compare (Events.generation a) (Events.generation b)).

(** [execution_page] *)
Definition execution_page (f : DbFile) (limit offset : Z) : result OperationsError ExecutionPage :=
  let limit := Z.max 1 (Z.min limit MAX_EXECUTION_PAGE) in
  let offset := Z.min offset 2048 in
  require_regular_file (df_lstat f) ;?
  let? executions := load_snapshots f in
  let total := len executions in
  let active := len (List.filter (fun s => is_active (snap_state s)) executions) in
  let t := foldl tally_one {| ta_states := ∅; ta_stdout := 0; ta_stderr := 0; ta_cleanup := 0 |} executions in
  let page := take (Z.to_nat limit) (drop (Z.to_nat (Z.min offset total)) (sort_by cmp_snapshot executions)) in
  let next := (offset + len page)%Z in
  Ok {| ep_limit := limit; ep_offset := offset; ep_total := total; ep_active_executions := active;
        ep_states := ta_states t; ep_stdout_bytes := ta_stdout t; ep_stderr_bytes := ta_stderr t;
        ep_cleanup_failures := ta_cleanup t;
        ep_next_offset := if (next <? total)%Z then Some next else None; ep_executions := page |}.

(** [count_active_executions] and [active_execution_count] *)
Definition count_active_executions (f : DbFile) : result OperationsError Z :=
  require_regular_file (df_lstat f) ;?
  read_only f (fun db => len (List.filter (fun kv => live_name (Store.state kv.2)) (map_to_list (executions db)))).

Definition active_execution_count (f : DbFile) : Z :=
  match df_lstat f with
  | Err IoMissing => 0
  | Ok md =>
      if md_is_file md && negb (md_is_symlink md)
      then match count_active_executions f with Ok count => count | Err _ => USIZE_MAX end
      else USIZE_MAX
  | Err IoFailed => USIZE_MAX
  end.

(** [execution_show] *)
Definition execution_show (f : DbFile) (id : string) (generation : option Z) : result OperationsError ExecutionSnapshot :=
  let? id := map_err (fun _ => OeNotFound) (ExecutionId_new id) in
  let? generation := match generation with
                     | Some g => map_err (fun _ => OeNotFound) (let? g := ExecutionGeneration_new g in Ok (Some g))
                     | None => Ok None
                     end in
  require_regular_file (df_lstat f) ;?
  let? row := read_only f (fun db => match generation with
                                     | Some g => executions db !! (id, as_i64 g)
                                     | None => snd <$> latest_where (fun i _ => String.eqb i id) db
                                     end) in
  let? row := ok_or row OeNotFound in
  ok_or (from_slice (snapshot_json row)) OeData.

End reading.

(** [metrics_snapshot]; [prepares] is whether the table is there. *)
Definition zero_counters : gmap string Z := list_to_map ((fun name => (name, 0%Z)) <$> METRIC_NAMES).

Definition record_counter (counters : gmap string Z) (row : string * Z) : gmap string Z :=
  if bool_decide (is_Some (counters !! row.1)) then <[row.1 := Z.max row.2 0]> counters else counters.

Definition metrics_snapshot (f : DbFile) (prepares : bool) : result OperationsError (gmap string Z) :=
  match df_lstat f with
  | Err IoMissing => Ok zero_counters
  | Err IoFailed => Err OeData
  | Ok _ =>
      require_regular_file (df_lstat f) ;?
      if negb (df_opens f) then Err OeData
      else if negb prepares then Ok zero_counters
      else if negb (df_queries f) then Err OeData
      else Ok (foldl record_counter zero_counters (map_to_list (node_metrics (df_db f))))
  end.

(** ** Sizes *)

(** The loop of [tree_bytes]: the paths still to visit, here with the node
    each names, last pushed first. *)
Section tree.
Context (stat_fails list_fails : path -> bool).

Definition push_children (current : path) (children : list (option string * fs_node)) (pending : list (path * fs_node))
    : list (path * fs_node) :=
  foldl (fun pending c => (current ++ [default EmptyString c.1], c.2) :: pending) pending children.

Fixpoint tree_loop (fuel : nat) (total : Z) (pending : list (path * fs_node)) : result OperationsError Z :=
  match pending with
  | [] => Ok total
  | (current, node) :: pending =>
      match fuel with
      | O => Err OeBounds
      | S fuel =>
          if stat_fails current then Err OeIo
          else match node with
               | FsSymlink | FsOther => tree_loop fuel total pending
               | FsFile content _ => tree_loop fuel (sat_add total (len content)) pending
               | FsDirectory children =>
                   if list_fails current then Err OeIo
                   else tree_loop fuel total (push_children current children pending)
               end
      end
  end.

Fixpoint node_count (node : fs_node) : nat :=
  match node with
  | FsDirectory children => S (foldr (fun c n => node_count c.2 + n)%nat 0%nat children)
  | _ => 1
  end.

Definition tree_bytes (root : path) (node : fs_node) : result OperationsError Z :=
  tree_loop (node_count node) 0 [(root, node)].
End tree.

(** [file_family_bytes], for what [symlink_metadata] says of the file and its
    two companions. *)
Definition file_family_bytes (family : list (result IoError Stat)) : Z :=
  foldl (fun sum st => match st with
                       | Ok st => if md_is_file (st_meta st) && negb (md_is_symlink (st_meta st))
                                  then sat_add sum (st_len st) else sum
                       | Err _ => sum
                       end) 0%Z family.

Definition companion (os : Os) (p : PathBuf) (suffix : string) : PathBuf := path_of (os_display os p +:+ suffix).
Definition family (os : Os) (p : PathBuf) : list (result IoError Stat) :=
  [os_lstat os p; os_lstat os (companion os p "-wal"); os_lstat os (companion os p "-shm")].

Record StorageSummary := {
  ss_execution_bytes : Z;
  ss_blob_bytes : Z;
  ss_workspace_bytes : Z;
  ss_artifact_database_bytes : Z;
  ss_blob_quota_bytes : Z;
  ss_workspace_quota_bytes : Z;
  ss_filesystem_free_bytes : option Z;
}.

Definition storage_summary (os : Os) (stat_fails list_fails : path -> bool) (blob_tree workspace_tree : fs_node)
    (c : OperatorConfig) : result OperationsError StorageSummary :=
  let? blob_bytes := tree_bytes stat_fails list_fails (names (oc_blob_root c)) blob_tree in
  let? workspace_bytes := tree_bytes stat_fails list_fails (names (oc_workspace_root c)) workspace_tree in
  Ok {| ss_execution_bytes := file_family_bytes (family os (oc_database_path c));
        ss_blob_bytes := blob_bytes; ss_workspace_bytes := workspace_bytes;
        ss_artifact_database_bytes :=
          file_family_bytes (family os (with_extension (oc_database_path c) "artifacts.sqlite"));
        ss_blob_quota_bytes := oc_blob_quota_bytes c;
        ss_workspace_quota_bytes := oc_workspace_quota_bytes c;
        ss_filesystem_free_bytes := os_available_space os (oc_execution_root c) |}.

(** ** Maintenance *)

(** [acquire_maintenance_lock]: what stands at the lock's path, whether it
    opens, and whether another process holds it. *)
Record LockFile := { lf_lstat : result IoError Metadata; lf_opens : bool; lf_held : bool }.

Definition acquire_maintenance_lock (euid : Z) (l : LockFile) : result OperationsError unit :=
  (match lf_lstat l with
   | Ok md =>
       refuse (md_is_symlink md || negb (md_is_file md)) OeData ;?
       refuse (negb (md_uid md =? euid)%Z || mode_has md 63) OeData
   | Err IoMissing => Ok tt
   | Err IoFailed => Err OeData
   end) ;?
  refuse (negb (lf_opens l)) OeIo ;?
  refuse (lf_held l) OeData.

(** The four databases a preview reads: whether each opens and answers. *)
Record PreviewOutside := {
  po_workspaces : bool;
  po_manifests : bool;
  po_artifacts : bool;
  po_blobs : bool;
  po_workspace_scan : gmap string WorkspaceRow -> list (string * WorkspaceRow);
  po_manifest_scan : gmap (string * string) ManifestRow -> list ((string * string) * ManifestRow);
  po_artifact_scan : ArtifactStore -> list (string * ArtifactRow);
  po_reference_scan : gmap RefKey (option Z) -> list (RefKey * option Z);
  po_blob_scan : gmap string BlobRow -> list (string * BlobRow);
  po_now : Z;
}.

(** Rows due at [now]: [expires IS NOT NULL AND expires <= now], oldest
    first, at most [limit]. *)
Definition select_due {K R} (expires : R -> option Z) (now : Z) (limit : nat) (rows : list (K * R)) : list (K * R) :=
  take limit (sort_by (cmp_on (fun kv => default 0%Z (expires kv.2)) Z.compare)
    (List.filter (fun kv => match expires kv.2 with Some t => (t <=? as_i64 now)%Z | None => false end) rows)).

(** [dry_run_gc]: the counts and sums of its five statements. *)
Definition dry_run_gc (o : PreviewOutside) (limit : nat) (s : NodeStores) : result OperationsError NodeGcReport :=
  let w := (world s).1 in
  let b := (world s).2 in
  refuse (negb (po_workspaces o)) OeData ;?
  let due_workspaces := select_due wr_expires_unix_ms (po_now o) limit (po_workspace_scan o (workspaces w)) in
  let manifests :=
    if po_manifests o
    then len (select_due mr_expires_unix_ms (po_now o) limit (po_manifest_scan o (retained_manifests w))) else 0%Z in
  refuse (negb (po_artifacts o)) OeData ;?
  let due_artifacts := select_due (fun r => Some (at_expires_unix_ms r)) (po_now o) limit (po_artifact_scan o (artifacts s)) in
  refuse (negb (po_blobs o)) OeData ;?
  let due_references :=
    List.filter (fun kv => match kv.2 with Some t => (t <=? as_i64 (po_now o))%Z | None => false end)
      (po_reference_scan o (blob_references b)) in
  let unreferenced :=
    take limit (sort_by (cmp_on (fun kv => last_used_unix_ms kv.2) Z.compare)
      (List.filter (fun kv => (reference_count kv.2 =? 0)%Z) (po_blob_scan o (blobs b)))) in
  Ok {| workspace_candidates := len due_workspaces;
        workspace_logical_bytes := Z.max (sum_Z ((fun kv => wr_logical_bytes kv.2) <$> due_workspaces)) 0;
        workspaces_deleted := 0; manifest_candidates := manifests; manifests_deleted := 0;
        artifact_candidates := len due_artifacts; artifacts_deleted := 0;
        expired_blob_references := len due_references;
        blob_candidates := len unreferenced;
        blob_candidate_bytes := Z.max (sum_Z ((fun kv => size_bytes kv.2) <$> unreferenced)) 0;
        blobs_deleted := 0; blob_bytes_deleted := 0; gc_dry_run := true |}.

Section maintenance.
Context `{Sha256, Serde WorkspaceManifest, UuidParse, Serde ArtifactRecord}.

(** What a collection by the operator meets: the lock, opening the stores,
    and what the node's own collection meets. *)
Record CollectOutside := {
  co_lock : LockFile;
  co_euid : Z;
  co_open_workspaces : Outside;
  co_workspaces_fail : bool;
  co_blobs_fail : bool;
  co_artifacts_fail : bool;
  co_gc : GcOutside;
  co_preview : PreviewOutside;
}.

Abbreviation maintaining A := (act NodeStores OperationsError A).

Definition data_error {A} (c : act NodeStores unit A) : maintaining A :=
  fun s => let '(r, s) := c s in (map_err (fun _ => OeData) r, s).

(** [collect_garbage]: opening the workspace manager reconciles its
    directories and opening the blob store removes stale parts; then the four
    collections, as the node runs them. *)
Definition operator_collect (o : CollectOutside) (dry_run : bool) (requested_limit : nat) : maintaining NodeGcReport :=
  let limit := Nat.max 1 (Nat.min requested_limit MAX_GC_BATCH) in
  if dry_run then fun s => (dry_run_gc (co_preview o) limit s, s)
  else
    of_result (acquire_maintenance_lock (co_euid o) (co_lock o)) ;!
    guard_err (co_workspaces_fail o) OeData ;!
    (fun s => let '(r, w) := (modify (set_cursor None) ;! reconcile (co_open_workspaces o)) (world s) in
              (map_err (fun _ => OeData) r, set_world (fun _ => w) s)) ;!
    guard_err (co_blobs_fail o) OeData ;!
    modify (set_world (fun w => (w.1, remove_stale_parts w.2))) ;!
    guard_err (co_artifacts_fail o) OeData ;!
    data_error (Handlers.collect_garbage (co_gc o) false requested_limit).

(** ** Inspection *)

Inductive InspectedMetadata : Type :=
| ImBlob (size_bytes reference_count : Z)
| ImWorkspace (state : string) (logical_bytes : Z) (manifest_digest : string) (expires : option Z)
| ImArtifact (record : ArtifactRecord).

Record ResourceInspection := { ri_kind : string; ri_id : string; ri_metadata : InspectedMetadata }.

(** [inspect_blob]; [shard] and [file] are what [symlink_metadata] says of the
    directory and the file. *)
Definition inspect_blob (opens : bool) (shard : string -> result IoError Metadata) (file : string -> result IoError Stat)
    (digest : string) (b : BlobStore) : result OperationsError ResourceInspection :=
  let? digest := map_err (fun _ => OeNotFound) (BlobDigest_parse digest) in
  let? md := map_err (fun _ => OeNotFound) (shard (str_take 2 digest)) in
  refuse (negb (md_is_dir md) || md_is_symlink md) OeNotFound ;?
  let? st := map_err (fun _ => OeNotFound) (file digest) in
  refuse (negb (md_is_file (st_meta st)) || md_is_symlink (st_meta st)) OeNotFound ;?
  refuse (negb opens) OeData ;?
  let? row := ok_or (blobs b !! digest) OeNotFound in
  refuse (negb (Z.max (size_bytes row) 0 =? st_len st)%Z) OeData ;?
  Ok {| ri_kind := "blob"; ri_id := digest; ri_metadata := ImBlob (st_len st) (Z.max (reference_count row) 0) |}.

(** [inspect_workspace] *)
Definition inspect_workspace (opens : bool) (id : string) (w : WorkspaceManager) : result OperationsError ResourceInspection :=
  let? id := map_err (fun _ => OeNotFound) (WorkspaceId_new id) in
  refuse (negb opens) OeData ;?
  let? row := ok_or (workspaces w !! id) OeNotFound in
  Ok {| ri_kind := "workspace"; ri_id := id;
        ri_metadata := ImWorkspace (wr_state row) (Z.max (wr_logical_bytes row) 0) (wr_manifest_digest row) (wr_expires_unix_ms row) |}.

(** [inspect_artifact] *)
Definition inspect_artifact (opens : bool) (id : string) (rows : ArtifactStore) : result OperationsError ResourceInspection :=
  let? id := map_err (fun _ => OeNotFound) (ArtifactId_new id) in
  refuse (negb opens) OeData ;?
  let? row := ok_or (rows !! id) OeNotFound in
  let? record := ok_or (from_slice (record_json row)) OeData in
  Ok {| ri_kind := "artifact"; ri_id := id; ri_metadata := ImArtifact record |}.

End maintenance.

(** ** Starting a node from its configuration *)

(** [start_server]: the settings, the principals and [NodeServer::start]. *)
Definition start_server `{Sha256, UuidParse, TlsLib, UrlParser, Serde WorkspaceManifest, Serde ArtifactRecord,
    Serde ExecutionSnapshot, Serde ExecutionEvent} (os : Os) (features : list string) (o : StartOutside)
    (c : OperatorConfig) : act NodeStores OperationsError (gmap string string * NodeState) :=
  let! settings := of_result (node_config os c) in
  let! (identities, grants) := of_result (principals c) in
  let cfg := {| nc_node_id := nsg_node_id settings;
                nc_storage := {| Storage.blob_quota_bytes := nsg_blob_quota_bytes settings;
                                 Storage.workspace_quota_bytes := nsg_workspace_quota_bytes settings;
                                 Storage.authorize_request := grant_authorize grants |};
                nc_execution_root := names (oc_execution_root c);
                nc_workspace_root := names (oc_workspace_root c);
                nc_max_active := nsg_max_active_executions settings;
                nc_lease_ttl_ms := nsg_lease_ttl_ms settings;
                nc_features := features |} in
  fun s => let '(r, s) := start cfg o s in
           (map_err (fun _ => OeConfig) (let? n := r in Ok (identities, n)), s).

(** ** What validation guarantees *)

Lemma refuse_Ok b e : refuse b e = Ok tt <-> b = false.
Proof. destruct b; naive_solver. Qed.

Lemma then_Ok {A} (r : result OperationsError A) : (let? _ := r in Ok tt) = Ok tt <-> is_ok r = true.
Proof. destruct r; naive_solver. Qed.

Definition root_trusted (os : Os) (p : PathBuf) : Prop :=
  exists st, os_lstat os p = Ok st /\ md_is_dir (st_meta st) = true /\ md_is_symlink (st_meta st) = false /\
    md_uid (st_meta st) = os_euid os /\ Z.land (md_mode (st_meta st)) 511 = 448%Z.

Lemma check_root_ok os p : check_root os p = Ok tt -> root_trusted os p.
Proof.
  unfold check_root, trusted_directory. intros Hr. destruct (os_lstat os p) as [st|] eqn:Est; [|done]. cbn in Hr.
  apply refuse_Ok in Hr. bool_hyps. by exists st.
Qed.

Lemma overlaps_false a b :
  overlaps a b = false -> ~ (absolute a = absolute b /\ (names a `prefix_of` names b \/ names b `prefix_of` names a)).
Proof.
  unfold overlaps. intros [[Hne Ha]%orb_false_iff Hb]%orb_false_iff [Habs [[k Hk]|[k Hk]]].
  - apply not_true_iff_false in Hb. apply Hb, path_under_spec. split; [done|by exists k].
  - apply not_true_iff_false in Ha. apply Ha, path_under_spec. split; [done|by exists k].
Qed.

(** What a grant that was not refused satisfies. *)
Definition grant_valid (g : ClientGrant) : Prop :=
  valid_id (cg_principal_id g) /\ str_len (cg_certificate_sha256 g) = 64%Z /\
  all_bytes is_ascii_hexdigit (cg_certificate_sha256 g) = true /\
  cg_operations g <> [] /\ Forall (fun name => is_Some (operation name)) (cg_operations g).

Definition fingerprint (g : ClientGrant) : string := to_ascii_lowercase (cg_certificate_sha256 g).

Lemma grant_refused_false seen g :
  grant_refused seen g = false -> grant_valid g /\ fingerprint g ∉ seen.
Proof.
  unfold grant_refused, grant_valid, fingerprint.
  intros [[[[[Hid Hlen]%orb_false_iff Hhex]%orb_false_iff Hseen]%orb_false_iff Hops]%orb_false_iff Hnames]%orb_false_iff.
  apply bool_decide_eq_false in Hseen. split; [|done].
  split; [|split; [by apply Z.eqb_eq, negb_false_iff|split; [by apply negb_false_iff|split; [by destruct cg_operations|]]]].
  - apply negb_false_iff, is_ok_spec in Hid as [v Hv]. apply id_new_ok in Hv. naive_solver.
  - apply Forall_forall. intros name Hin. destruct (operation name) eqn:E; [done|]. exfalso.
    assert (existsb (fun n => negb (is_some (operation n))) (cg_operations g) = true) as Hc; [|congruence].
    apply existsb_exists. exists name. split; [by apply list_elem_of_In|by rewrite E].
Qed.

Lemma check_grants_ok clients : forall seen,
  check_grants seen clients = Ok tt ->
  Forall grant_valid clients /\ NoDup (fingerprint <$> clients) /\ Forall (fun g => fingerprint g ∉ seen) clients.
Proof.
  induction clients as [|g clients IH]; intros seen; cbn [check_grants].
  - intros _. split_and!; by constructor.
  - destruct (grant_refused seen g) eqn:Eg; [done|]. apply grant_refused_false in Eg as [Hg Hnew].
    intros (Hall & Hnd & Hfresh)%IH. split; [by constructor|]. split.
    + cbn. constructor; [|done]. intros (g' & Heq & Hin)%list_elem_of_fmap.
      rewrite Forall_forall in Hfresh. apply (Hfresh _ Hin). rewrite <- Heq. unfold fingerprint. set_solver.
    + constructor; [done|]. eapply Forall_impl; [exact Hfresh|]. cbn. set_solver.
Qed.

Record config_valid `{TlsLib, UrlParser} (os : Os) (c : OperatorConfig) : Prop := {
  cv_version : oc_schema_version c = 1%Z;
  cv_node_id : valid_id (oc_node_id c);
  cv_bind : is_Some (parse_socket_addr (oc_bind c));
  cv_active : (oc_max_active_executions c <> 0 /\ oc_max_active_executions c <= 65536)%Z;
  cv_lease : (oc_lease_ttl_seconds c <> 0 /\ oc_lease_ttl_seconds c <= 86400)%Z;
  cv_quotas : oc_blob_quota_bytes c <> 0%Z /\ oc_workspace_quota_bytes c <> 0%Z;
  cv_clients : oc_clients c <> [] /\ (len (oc_clients c) <= 1024)%Z /\ check_grants ∅ (oc_clients c) = Ok tt;
  cv_tls : is_ok (tls_config os c) = true;
  cv_telemetry : forall s, oc_host_telemetry c = Some s -> is_ok (settings_config s) = true;
  cv_roots : Forall (root_trusted os) [oc_execution_root c; oc_blob_root c; oc_workspace_root c];
  cv_overlap : check_overlap [oc_execution_root c; oc_blob_root c; oc_workspace_root c] = Ok tt;
  cv_database : check_database os (oc_database_path c) = Ok tt;
}.

Lemma validate_config_ok `{TlsLib, UrlParser} os c : validate_config os c = Ok tt -> config_valid os c.
Proof.
  unfold validate_config. rewrite !seq_ok, refuse_Ok, then_Ok. intros (Hfields & Hgrants & Htls & Htel & Hroots & Hover & Hdb).
  repeat match goal with Hb : _ || _ = false |- _ => apply orb_false_iff in Hb as [? ?] end. bool_hyps.
  split; try done.
  - match goal with Hid : is_ok (NodeId_new _) = true |- _ => apply is_ok_spec in Hid as [v Hv] end.
    apply id_new_ok in Hv. naive_solver.
  - by apply is_some_spec.
  - split; [by intros E; rewrite E in *|done].
  - intros s Hs. rewrite Hs in Htel. by apply then_Ok.
  - apply for_each_ok in Hroots. eapply Forall_impl; [exact Hroots|]. intros p Hp. by apply check_root_ok.
Qed.

Lemma not_overlapping a b p : overlaps a b = false -> path_under p a = true -> path_under p b = true -> False.
Proof.
  intros Ho%overlaps_false (Ha & k & Hk)%path_under_spec (Hb & k' & Hk')%path_under_spec. apply Ho.
  split; [congruence|]. rewrite Hk in Hk'.
  assert (names a `prefix_of` names a ++ k) as Hp1 by by exists k.
  assert (names b `prefix_of` names a ++ k) as Hp2 by by exists k'.
  apply (prefix_weak_total _ _ _ Hp1 Hp2).
Qed.

Lemma check_overlap_disjoint a b d p :
  check_overlap [a; b; d] = Ok tt ->
  (path_under p a = true -> path_under p b = false /\ path_under p d = false) /\
  (path_under p b = true -> path_under p a = false /\ path_under p d = false).
Proof.
  cbn. destruct (overlaps a b) eqn:Eab, (overlaps a d) eqn:Ead, (overlaps b d) eqn:Ebd; try done. intros _.
  pose proof (not_overlapping a b p Eab). pose proof (not_overlapping a d p Ead). pose proof (not_overlapping b d p Ebd).
  split; intros Hp; split; apply not_true_iff_false; intros ?; eauto.
Qed.

(** The check is about spelling: [..] is a component like any other. *)
Example dotdot_is_not_resolved :
  check_overlap [path_of "/srv/exec"; path_of "/srv/tmp/../blob"; path_of "/srv/blob"] = Ok tt.
Proof. by vm_compute. Qed.

(** Read from an absolute location, a configuration names absolute paths only:
    what the daemon opens does not depend on its working directory. *)
Theorem loaded_paths_absolute `{Serde OperatorConfig} (os : Os) (path : PathBuf) (c : OperatorConfig) :
  absolute path = true -> names path <> [] -> load_config os path = Ok c ->
  Forall (fun p => absolute p = true) (config_paths c).
Proof.
  intros Habs Hne Hl. unfold load_config, ok_or, io, map_err, refuse in Hl. cases_in Hl.
  set (base := default _ (path_parent path)) in *.
  assert (Hbase : absolute base = true) by (unfold base, path_parent; by destruct (names path)).
  assert (Hres : forall p, absolute (resolve_path base p) = true).
  { intros p. unfold resolve_path, is_relative, path_join. destruct (absolute p) eqn:E; done. }
  apply Forall_app. split; [repeat (constructor; [apply Hres|]); constructor|]. cbn.
  destruct (oc_sandbox_helper o); cbn; [by apply Forall_singleton|constructor].
Qed.

(** *** Principals and grants *)

Lemma foldl_insert_last {A V} (k : A -> string) (v : A -> V) (l : list A) (m : gmap string V) (x : string) :
  foldl (fun m a => <[k a := v a]> m) m l !! x =
  match last (List.filter (fun a => String.eqb (k a) x) l) with Some a => Some (v a) | None => m !! x end.
Proof.
  induction l as [|a l IH] using rev_ind; [done|]. rewrite foldl_app, List.filter_app. cbn.
  destruct (String.eqb_spec (k a) x) as [<-|Hne].
  - by rewrite lookup_insert_eq, last_snoc.
  - by rewrite lookup_insert_ne, IH, app_nil_r.
Qed.

Lemma collect_principals_spec clients : Forall grant_valid clients -> forall ids grants,
  collect_principals clients ids grants =
  Ok (foldl (fun m g => <[fingerprint g := cg_principal_id g]> m) ids clients,
      foldl (fun m g => <[cg_principal_id g := allowed_operations g]> m) grants clients).
Proof.
  induction 1 as [|g clients Hg _ IH]; intros ids grants; [done|]. cbn.
  destruct Hg as [Hid _].
  assert (PrincipalId_new (cg_principal_id g) = Ok (cg_principal_id g)) as -> by by apply id_new_ok. cbn. apply IH.
Qed.

(** The client entry that decides what a principal may do. *)
Definition last_grant (principal : string) (clients : list ClientGrant) : option ClientGrant :=
  last (List.filter (fun g => String.eqb (cg_principal_id g) principal) clients).

Lemma identities_lookup clients fp p :
  NoDup (fingerprint <$> clients) ->
  foldl (fun m g => <[fingerprint g := cg_principal_id g]> m) (∅ : gmap string string) clients !! fp = Some p <->
  exists g, g ∈ clients /\ fingerprint g = fp /\ cg_principal_id g = p.
Proof.
  intros Hnd. rewrite foldl_insert_last, lookup_empty.
  assert (Hin : forall g, g ∈ List.filter (fun a => String.eqb (fingerprint a) fp) clients <-> g ∈ clients /\ fingerprint g = fp).
  { intros g. by rewrite list_elem_of_In, List.filter_In, String.eqb_eq, <- list_elem_of_In. }
  destruct (last _) as [g|] eqn:Elast.
  - assert (Hg : g ∈ List.filter (fun a => String.eqb (fingerprint a) fp) clients).
    { apply last_Some in Elast as [l' ->]. set_solver. }
    apply Hin in Hg as [Hg Hfp]. split.
    + intros [= <-]. by exists g.
    + intros (g' & Hg' & Hfp' & <-). f_equal. f_equal. eapply (NoDup_fmap_eq fingerprint clients); eauto. congruence.
  - apply last_None in Elast. split; [done|]. intros (g & Hg & Hfp & _). exfalso.
    specialize (proj2 (Hin g) (conj Hg Hfp)). rewrite Elast. apply not_elem_of_nil.
Qed.

Lemma grants_authorize clients p r :
  grant_authorize (foldl (fun m g => <[cg_principal_id g := allowed_operations g]> m) ∅ clients) p r = true <->
  exists g name, last_grant p clients = Some g /\ name ∈ cg_operations g /\ operation name = Some (or_operation r).
Proof.
  unfold grant_authorize. rewrite foldl_insert_last, lookup_empty. fold (last_grant p clients).
  destruct (last_grant p clients) as [g|]; [|split; [done|by intros (?&?&?&_)]].
  rewrite bool_decide_eq_true. unfold allowed_operations. rewrite list_elem_of_omap. naive_solver.
Qed.

(** The fingerprint of the verified leaf certificate of a connection. *)
Definition peer_fingerprint `{Sha256} (tls : option TlsInfo) : option string :=
  authenticated_principal (fun leaf => Some (sha256_hex leaf)) tls.

Lemma authenticated_by_fingerprint `{Sha256} ids tls :
  authenticated_principal (resolve_verified_leaf ids) tls = peer_fingerprint tls ≫= fun fp => ids !! fp.
Proof.
  unfold peer_fingerprint, authenticated_principal, resolve_verified_leaf. destruct tls as [t|]; [|done]. cbn.
  destruct (_ || _); [done|]. destruct (peer_certificate_chain t) as [chain|]; [|done]. cbn.
  destruct (_ || _); [done|]. by destruct chain.
Qed.

(** C15: on a node started from a validated configuration a request reaches a
    handler exactly when its path names an operation, the connection's
    verified leaf certificate has a fingerprint the configuration lists, and
    the operation is among those of the LAST entry the configuration has for
    that fingerprint's principal.  Fingerprints are unique, principals are
    not: when several entries name one principal, the operations of the
    earlier ones are neither required nor enough. *)
Theorem configured_access `{Sha256, TlsLib, UrlParser} (os : Os) (c : OperatorConfig) (ids : gmap string string)
    (grants : gmap string (list Operation)) (method path : string) (tls : option TlsInfo) (principal : string)
    (route : Route) :
  validate_config os c = Ok tt ->
  principals c = Ok (ids, grants) ->
  dispatch (resolve_verified_leaf ids) (grant_authorize grants) method path tls = DHandle principal route <->
  exists op g decisive name,
    operation_for method path = Some (op, route) /\
    g ∈ oc_clients c /\ peer_fingerprint tls = Some (fingerprint g) /\ cg_principal_id g = principal /\
    last_grant principal (oc_clients c) = Some decisive /\
    name ∈ cg_operations decisive /\ operation name = Some op.
Proof.
  intros Hv%validate_config_ok Hp. destruct (cv_clients _ _ Hv) as (_ & _ & (Hall & Hnd & _)%check_grants_ok).
  unfold principals in Hp. rewrite collect_principals_spec in Hp by done. injection Hp as <- <-.
  unfold dispatch. rewrite authenticated_by_fingerprint.
  destruct (operation_for method path) as [[op rt]|]; [|split; [done|by intros (?&?&?&?&?&_)]].
  destruct (peer_fingerprint tls) as [fp|]; cbn; [|split; [done|by intros (?&?&?&?&_&_&?&_)]].
  destruct (foldl _ ∅ _ !! fp) as [pr|] eqn:Epr.
  - apply identities_lookup in Epr as (g & Hg & <- & <-); [|done].
    destruct (grant_authorize _ _ _) eqn:Eauth; cbn.
    + apply grants_authorize in Eauth as (decisive & name & Hlast & Hname & Hop). split.
      * intros [= <- <-]. by exists op, g, decisive, name.
      * intros (op' & g' & dec' & name' & [= -> ->] & Hg' & [= Hfp] & <- & _). f_equal. f_equal.
        by eapply (NoDup_fmap_eq fingerprint).
    + split; [done|]. intros (op' & g' & dec' & name' & [= <- <-] & Hg' & [= Hfp] & <- & Hlast & Hname & Hop).
      assert (g = g') as <- by (by eapply (NoDup_fmap_eq fingerprint)).
      apply not_true_iff_false in Eauth. destruct Eauth. apply grants_authorize. by exists dec', name'.
  - split; [done|]. intros (op' & g' & dec' & name' & _ & Hg' & [= ->] & <- & _).
    assert (Hs : foldl (fun m g => <[fingerprint g := cg_principal_id g]> m) (∅ : gmap string string) (oc_clients c)
      !! fingerprint g' = Some (cg_principal_id g')) by (apply identities_lookup; eauto).
    rewrite Epr in Hs. done.
Qed.

(** C32: a configuration that validates can be started: the node's settings
    and its principals are defined, its limits lie in the ranges the node
    accepts (1 to 65536 executions, leases of 1 second to a day), the three
    storage roots are directories of the daemon's own user with mode exactly
    0700 and not symbolic links, and by their spelling no path lies under two
    of them. *)
Theorem validated_config_starts `{TlsLib, UrlParser} (os : Os) (c : OperatorConfig) :
  (0 <= oc_max_active_executions c)%Z -> (0 <= oc_lease_ttl_seconds c)%Z ->
  validate_config os c = Ok tt ->
  (exists settings ids grants,
    node_config os c = Ok settings /\ principals c = Ok (ids, grants) /\
    (1 <= nsg_max_active_executions settings <= 65536)%Z /\
    (1000 <= nsg_lease_ttl_ms settings <= 86400000)%Z) /\
  Forall (root_trusted os) [oc_execution_root c; oc_blob_root c; oc_workspace_root c] /\
  (forall p,
    (path_under p (oc_execution_root c) = true ->
     path_under p (oc_blob_root c) = false /\ path_under p (oc_workspace_root c) = false) /\
    (path_under p (oc_blob_root c) = true ->
     path_under p (oc_execution_root c) = false /\ path_under p (oc_workspace_root c) = false)).
Proof.
  intros Hactive Hlease Hv%validate_config_ok. split; [|split; [apply (cv_roots _ _ Hv)|]].
  2: { intros p. apply check_overlap_disjoint, (cv_overlap _ _ Hv). }
  destruct (cv_clients _ _ Hv) as (_ & _ & (Hall & _ & _)%check_grants_ok).
  destruct (cv_bind _ _ Hv) as [bind Hbind]. pose proof (cv_tls _ _ Hv) as (tls & Htls)%is_ok_spec.
  pose proof (cv_active _ _ Hv). pose proof (cv_lease _ _ Hv).
  unfold node_config.
  assert (NodeId_new (oc_node_id c) = Ok (oc_node_id c)) as -> by (apply id_new_ok; split; [done|apply (cv_node_id _ _ Hv)]).
  rewrite Hbind, Htls. cbn.
  unfold principals. rewrite collect_principals_spec by done.
  destruct (oc_host_telemetry c) as [s|] eqn:Etel.
  - destruct (proj1 (is_ok_spec _) (cv_telemetry _ _ Hv s Etel)) as [t Ht]. rewrite Ht. cbn.
    eexists _, _, _. split; [done|]. split; [done|]. cbn. lia.
  - eexists _, _, _. split; [done|]. split; [done|]. cbn. lia.
Qed.

(** ** Redaction *)

Definition hidden_path : PathBuf := {| absolute := false; names := [] |}.

(** The configuration without its secrets: the location of the private key
    and the certificates' fingerprints. *)
Definition hide_grant (g : ClientGrant) : ClientGrant := {|
  cg_principal_id := cg_principal_id g; cg_certificate_sha256 := EmptyString; cg_operations := cg_operations g |}.

Definition hide (c : OperatorConfig) : OperatorConfig := {|
  oc_schema_version := oc_schema_version c; oc_node_id := oc_node_id c; oc_bind := oc_bind c;
  oc_execution_root := oc_execution_root c; oc_database_path := oc_database_path c; oc_blob_root := oc_blob_root c;
  oc_blob_quota_bytes := oc_blob_quota_bytes c; oc_workspace_root := oc_workspace_root c;
  oc_workspace_quota_bytes := oc_workspace_quota_bytes c; oc_max_active_executions := oc_max_active_executions c;
  oc_lease_ttl_seconds := oc_lease_ttl_seconds c; oc_sandbox_helper := oc_sandbox_helper c;
  oc_tls := {| certificate_chain := certificate_chain (oc_tls c); private_key := hidden_path;
               client_ca := client_ca (oc_tls c) |};
  oc_clients := hide_grant <$> oc_clients c; oc_host_telemetry := oc_host_telemetry c |}.

Definition public_paths (c : OperatorConfig) : list PathBuf :=
  [oc_execution_root c; oc_database_path c; oc_blob_root c; oc_workspace_root c; certificate_chain (oc_tls c);
   client_ca (oc_tls c)] ++ option_list (oc_sandbox_helper c).

Lemma utf8_paths utf8 c :
  forallb utf8 (config_paths c) = utf8 (private_key (oc_tls c)) && forallb utf8 (public_paths c).
Proof.
  unfold config_paths, public_paths. rewrite !forallb_app. cbn. destruct (utf8 (private_key _)); [done|].
  by rewrite andb_false_l, !andb_false_r.
Qed.

Lemma redacted_value to_str c : redact (config_value to_str c) = redact (config_value to_str (hide c)).
Proof.
  cbn. rewrite <- !list_fmap_compose. set (redact_grant := json_insert "certificate_sha256" (JString "[REDACTED]")).
  rewrite (list_fmap_ext (redact_grant ∘ grant_to_value) (redact_grant ∘ grant_to_value ∘ hide_grant) (oc_clients c)); [done|].
  by intros ? [].
Qed.

(** The redacted form of a configuration depends on nothing it hides: two
    configurations that differ only in where the private key lies and in the
    fingerprints of their clients print the same text, whatever the pretty
    printer does (as long as both key paths are UTF-8 or neither is). *)
Theorem redacted_json_hides_secrets (to_str : PathBuf -> option string) (to_string_pretty : Json -> option string)
    (c c' : OperatorConfig) :
  hide c = hide c' -> is_some (to_str (private_key (oc_tls c))) = is_some (to_str (private_key (oc_tls c'))) ->
  redacted_json to_str to_string_pretty c = redacted_json to_str to_string_pretty c'.
Proof.
  intros Hhide Hutf. unfold redacted_json, config_to_value. rewrite !utf8_paths, Hutf.
  change (public_paths c) with (public_paths (hide c)). change (public_paths c') with (public_paths (hide c')).
  rewrite <- Hhide. destruct (_ && _); [|done]. cbn [ok_or]. by rewrite (redacted_value to_str c), (redacted_value to_str c'), Hhide.
Qed.

(** ** The drain marker survives or is replaced as a whole *)

Lemma bytes_of_char c (s t : string) : c ∈ bytes_of (s +:+ String c t).
Proof. rewrite bytes_of_app. apply elem_of_app. right. by left. Qed.

Lemma rsplit_once_tail c s l r : rsplit_once c s = Some (l, r) -> c ∉ bytes_of r.
Proof.
  revert l r. induction s as [|a s IH]; intros l r; cbn; [done|].
  destruct (rsplit_once c s) as [[l' r']|] eqn:E.
  - intros [= <- <-]. by eapply IH.
  - destruct (Ascii.eqb_spec a c) as [->|]; [|done]. intros [= <- <-].
    clear IH. induction s as [|b s IH]; [apply not_elem_of_nil|]. cbn in E.
    destruct (rsplit_once c s) as [[? ?]|]; [done|]. destruct (Ascii.eqb_spec b c); [done|].
    cbn. apply not_elem_of_cons. split; [congruence|by apply IH].
Qed.

(** A longer extension never gives the same name. *)
Lemma file_stem_ext name x y :
  file_stem_of name +:+ "." +:+ (x +:+ "." +:+ y) <> name.
Proof.
  unfold file_stem_of. intros Heq. destruct (rsplit_once "." name) as [[l r]|] eqn:E.
  - pose proof (rsplit_once_tail _ _ _ _ E) as Hr. apply rsplit_once_Some in E.
    destruct l as [|a l].
    + apply (f_equal String.length) in Heq. rewrite !str_length_app in Heq. cbn in Heq. lia.
    + rewrite E in Heq. assert (Htail : forall s t u : string, s +:+ t = s +:+ u -> t = u).
      { clear. intros s. induction s as [|b s IH]; intros t u; [done|]. rewrite !str_app_cons. intros [= ?]. by apply IH. }
      change ("." +:+ (x +:+ "." +:+ y)) with (String "." (x +:+ "." +:+ y)) in Heq.
      apply Htail in Heq. injection Heq as Heq. apply Hr. rewrite <- Heq. apply (bytes_of_char "." x y).
  - apply (f_equal String.length) in Heq. rewrite !str_length_app in Heq. cbn in Heq. lia.
Qed.

Definition drain_temp (path : PathBuf) (uuid : string) : PathBuf := with_extension path ("drain." +:+ uuid +:+ ".tmp").

Lemma drain_temp_ne path uuid : is_Some (file_name path) -> drain_temp path uuid <> path.
Proof.
  intros [name Hname]. unfold drain_temp, with_extension. rewrite Hname. intros Heq.
  unfold file_name in Hname. destruct (last (names path)) as [n|] eqn:El; [|done].
  destruct (String.eqb n ".."); [done|]. injection Hname as ->. apply last_Some in El as [l El].
  apply (f_equal names) in Heq. cbn in Heq. rewrite El in Heq. rewrite removelast_last in Heq.
  apply app_inj_2 in Heq as [_ [= Heq]]; [|done].
  apply (file_stem_ext name "drain" (uuid +:+ ".tmp")). exact Heq.
Qed.

(** What [create_dir_all] leaves alone. *)
Definition extends (avoid : list PathBuf) (fs fs' : files_at) : Prop :=
  (forall p e, fs !! p = Some e -> fs' !! p = Some e) /\ (forall p, p ∉ avoid -> fs' !! p = fs !! p).

Lemma create_dirs_extend l : forall fs, extends l fs (act_each create_dir l fs).2.
Proof.
  induction l as [|q l IH]; intros fs; [by split|]. cbn [act_each]. unfold act_bind at 1.
  assert (Hq : extends [q] fs (create_dir q fs).2).
  { unfold create_dir, act_bind, gets. cbn. destruct (fs !! q) as [[]|] eqn:Eq; cbn; try by split.
    split; [intros p e Hp; rewrite lookup_insert_ne; [done|congruence]|].
    intros p Hp. rewrite lookup_insert_ne; [done|]. set_solver. }
  destruct (create_dir q fs) as [[u|e] fs1]; cbn in Hq |- *.
  - destruct (IH fs1) as [H1 H2], Hq as [H3 H4]. split; [naive_solver|].
    intros p Hp. rewrite H2, H4; [done| |]; set_solver.
  - destruct Hq as [H3 H4]. split; [done|]. intros p Hp. apply H4. set_solver.
Qed.

Lemma ancestors_shorter p q : q ∈ ancestors p -> length (names q) <= length (names p).
Proof.
  unfold ancestors. intros (n & -> & Hn%elem_of_seq)%list_elem_of_fmap. cbn. rewrite length_take. lia.
Qed.

(** Everything but the marker stays, and the marker is the old or the new one. *)
Definition marker_step (path : PathBuf) (target : option Entry) (fs : files_at) (out : result OperationsError unit * files_at)
    : Prop :=
  (out.1 = Ok tt -> out.2 !! path = target) /\
  (out.2 !! path = fs !! path \/ out.2 !! path = target) /\
  (forall p e, p <> path -> fs !! p = Some e -> out.2 !! p = Some e).

Lemma create_parent_extend fails path fs :
  let out := create_parent fails path fs in
  (forall p e, fs !! p = Some e -> out.2 !! p = Some e) /\ out.2 !! path = fs !! path.
Proof.
  cbv zeta. unfold create_parent. destruct (path_parent path) as [parent|] eqn:Ep; [|done].
  unfold create_dir_all, act_bind, guard_err. destruct fails; [done|]. cbn [ret].
  destruct (create_dirs_extend (ancestors parent) fs) as [Hkeep Hpath]. split; [done|]. apply Hpath.
  intros Hin%ancestors_shorter. unfold path_parent in Ep. destruct (names path) as [|n l] eqn:En; [done|].
  injection Ep as <-. clear Hkeep Hpath. pose proof (app_removelast_last n (l := n :: l) ltac:(done)) as Hl.
  apply (f_equal length) in Hl. rewrite length_app in Hl. cbn [names removelast length] in *. lia.
Qed.

Lemma drain_written fails uuid partial path fs :
  is_Some (file_name path) ->
  marker_step path (Some (EFile DRAIN_MARKER)) fs (set_persistent_drain fails uuid partial path true fs).
Proof.
  intros Hname. pose proof (drain_temp_ne path uuid Hname) as Htemp. unfold set_persistent_drain.
  fold (drain_temp path uuid). set (temp := drain_temp path uuid) in *. clearbody temp.
  pose proof (create_parent_extend (fails DsCreateDir) path fs) as [Hkeep Hpath]. unfold act_bind at 1.
  destruct (create_parent _ path fs) as [[[]|e0] fs1]; cbn [fst snd] in *.
  2: { split; [done|]. split; [by left|]. intros p e _. apply Hkeep. }
  unfold marker_step. rewrite <- Hpath.
  assert (Hrest : forall p e, p <> path -> fs !! p = Some e -> fs1 !! p = Some e) by auto. clear Hkeep Hpath.
  unfold act_bind, guard_err, gets, modify, sync_directory, throw, ret. cbn.
  destruct (fs1 !! temp) as [et|] eqn:Etemp; cbn; [by split_and!; auto|].
  assert (Hfree : forall p e, p <> path -> fs !! p = Some e -> p <> temp).
  { intros p e Hp He ->. rewrite (Hrest _ _ Hp He) in Etemp. done. }
  assert (Hins : forall v p e, p <> path -> fs !! p = Some e -> (<[temp := v]> fs1) !! p = Some e).
  { intros v p e Hp He. rewrite lookup_insert_ne; [eauto|]. intros <-. by eapply Hfree. }
  assert (Hmark : forall v, (<[temp := v]> fs1) !! path = fs1 !! path) by (intros v; by rewrite lookup_insert_ne).
  destruct (fails DsCreate); cbn; [by split_and!; auto|].
  destruct (fails DsWrite); cbn; rewrite ?insert_insert_eq; [by split_and!; auto|].
  destruct (fails DsSync); cbn; [by split_and!; auto|].
  destruct (fails DsRename || _); cbn; [by split_and!; auto|].
  rewrite delete_insert_id by done.
  assert (Hlast : forall p e, p <> path -> fs !! p = Some e -> (<[path := EFile DRAIN_MARKER]> fs1) !! p = Some e).
  { intros p e Hp He. rewrite lookup_insert_ne by done. auto. }
  destruct (is_some (path_parent path) && fails DsSyncDir); cbn; split_and!; auto; rewrite lookup_insert_eq; auto.
Qed.

Lemma drain_cleared fails uuid partial path fs :
  marker_step path None fs (set_persistent_drain fails uuid partial path false fs).
Proof.
  unfold set_persistent_drain, act_bind, guard_err, gets, modify, sync_directory, throw, ret. cbn.
  destruct (fails DsRemove || _); cbn; [by split_and!; auto|].
  assert (Hrest : forall p e, p <> path -> fs !! p = Some e -> delete path fs !! p = Some e).
  { intros p e Hp He. by rewrite lookup_delete_ne. }
  destruct (is_some (path_parent path) && fails DsSyncDir); cbn; split_and!; auto; try done.
  - right. apply lookup_delete_eq.
  - intros _. apply lookup_delete_eq.
  - right. apply lookup_delete_eq.
Qed.

(** C28: setting or clearing the persistent drain marker is atomic under every
    failure of its steps.  On success the node is draining exactly as asked
    (the marker is the complete file, or gone); on failure the marker is the
    one from before or the complete new one, never a partial file; and no
    other existing file or directory changes, so two operators' temporary
    files never clobber each other. *)
Theorem drain_marker_atomic (fails : DrainStep -> bool) (uuid partial : string) (path : PathBuf) (draining : bool)
    (fs : files_at) :
  is_Some (file_name path) ->
  let '(r, fs') := set_persistent_drain fails uuid partial path draining fs in
  (r = Ok tt -> is_persistently_draining path fs' = draining) /\
  (fs' !! path = fs !! path \/ fs' !! path = if draining then Some (EFile DRAIN_MARKER) else None) /\
  (forall p e, p <> path -> fs !! p = Some e -> fs' !! p = Some e).
Proof.
  intros Hname. destruct draining.
  - destruct (drain_written fails uuid partial path fs Hname) as (Hok & Hold & Hrest).
    destruct (set_persistent_drain _ _ _ _ _ _) as [r fs']. cbn in *. split; [|done].
    intros ->. unfold is_persistently_draining. by rewrite Hok.
  - destruct (drain_cleared fails uuid partial path fs) as (Hok & Hold & Hrest).
    destruct (set_persistent_drain _ _ _ _ _ _) as [r fs']. cbn in *. split; [|done].
    intros ->. unfold is_persistently_draining. by rewrite Hok.
Qed.

(** ** Pages and quiescence *)

Definition readable (f : DbFile) : Prop :=
  (exists md, df_lstat f = Ok md /\ md_is_file md = true /\ md_is_symlink md = false) /\
  df_opens f = true /\ df_queries f = true.

Section pages.
Context `{Serde ExecutionSnapshot, Serde ExecutionEvent, !SerdeRoundTrip ExecutionSnapshot}.

(** Following [next_offset] from a given offset. *)
Fixpoint all_pages (fuel : nat) (f : DbFile) (limit offset : Z) : result OperationsError (list ExecutionSnapshot) :=
  match fuel with
  | O => Err OeBounds
  | S fuel =>
      let? p := execution_page f limit offset in
      match ep_next_offset p with
      | None => Ok (ep_executions p)
      | Some next => let? rest := all_pages fuel f limit next in Ok (ep_executions p ++ rest)
      end
  end.

Definition row_snapshot (kv : (string * Z) * ExecutionRow) (s : ExecutionSnapshot) : Prop :=
  to_vec s = Some (snapshot_json kv.2) /\ snapshot_key s = kv.1 /\ u64_range (Events.generation s) /\
  Store.state kv.2 = state_name (snap_state s).

Lemma stored_snapshots m db :
  DbInv m db ->
  let rows := sort_by Store.cmp_key (map_to_list (executions db)) in
  exists ss, decode_snapshots ((fun kv => snapshot_json kv.2) <$> rows) = Ok ss /\ Forall2 row_snapshot rows ss /\
    (length ss <= 2048)%nat.
Proof.
  intros HI rows.
  assert (Hin : forall kv, kv ∈ rows -> executions db !! kv.1 = Some kv.2).
  { intros [k row]. unfold rows. rewrite sort_by_perm. apply elem_of_map_to_list. }
  destruct (decode_rows m db rows HI Hin) as (ss & Hss & Hall). exists ss. split; [done|]. split; [done|].
  rewrite <- (Forall2_length _ _ _ Hall). unfold rows. rewrite sort_by_perm.
  pose proof (i_count _ _ HI) as Hc. unfold MAX_EXECUTION_IDENTITIES in Hc. rewrite length_map_to_list. lia.
Qed.

Lemma load_snapshots_ok m f :
  DbInv m (df_db f) -> readable f -> load_snapshots f = map_err (fun _ => OeData) (load_all (df_db f)).
Proof.
  intros HI ((md & Hst & Hfile & Hlink) & Hopen & Hquery). destruct (stored_snapshots m _ HI) as (ss & Hss & Hall & Hlen).
  unfold load_snapshots, require_regular_file, read_only, load_all. rewrite Hst. cbn. rewrite Hfile, Hlink, Hopen, Hquery. cbn.
  rewrite take_ge by (rewrite (Forall2_length _ _ _ Hall); lia). rewrite Hss. cbn.
  destruct (Z.ltb_spec 2048 (len ss)) as [Hgt|]; [unfold len in Hgt; lia|done].
Qed.

Lemma row_snapshot_cmp m db kv kv' s s' :
  DbInv m db -> executions db !! kv.1 = Some kv.2 -> executions db !! kv'.1 = Some kv'.2 ->
  row_snapshot kv s -> row_snapshot kv' s' -> cmp_snapshot s s' = Store.cmp_key kv kv'.
Proof.
  intros HI Hk Hk' (_ & Hs & Hu & _) (_ & Hs' & Hu' & _).
  assert (Hgen : forall x y, executions db !! x.1 = Some x.2 -> snapshot_key y = x.1 -> u64_range (Events.generation y) ->
    Events.execution_id y = x.1.1 /\ Events.generation y = x.1.2).
  { intros [[id g] row] y Hx Hy Hr. unfold snapshot_key in Hy. cbn in *. injection Hy as <- Hg. split; [done|].
    assert (1 <= g)%Z by (eapply (i_positive _ _ HI); by eexists).
    unfold as_i64 in Hg. unfold u64_range in Hr. destruct (Z.leb_spec (Events.generation y) I64_MAX); lia. }
  destruct (Hgen _ _ Hk Hs Hu) as [E1 E2], (Hgen _ _ Hk' Hs' Hu') as [E3 E4].
  unfold cmp_snapshot, Store.cmp_key, cmp_on. by rewrite E1, E2, E3, E4.
Qed.

Lemma stored_sorted m db rows ss :
  DbInv m db -> (forall kv, kv ∈ rows -> executions db !! kv.1 = Some kv.2) ->
  StronglySorted (fun a b => Store.cmp_key a b <> Gt) rows -> Forall2 row_snapshot rows ss ->
  StronglySorted (fun a b => cmp_snapshot a b <> Gt) ss.
Proof.
  intros HI Hin Hsort Hall. induction Hall as [|kv s rows ss Hs Hall IH]; [constructor|].
  apply StronglySorted_inv in Hsort as [Hsort Hle]. constructor.
  - apply IH; [|done]. intros; apply Hin; by right.
  - apply Forall_forall. intros s' Hs'. apply list_elem_of_lookup in Hs' as [i Hi].
    destruct (Forall2_lookup_r _ _ _ _ _ Hall Hi) as (kv' & Hkv' & Hrs'). apply list_elem_of_lookup_2 in Hkv'.
    rewrite (row_snapshot_cmp m db kv kv' s s'); [|done|apply Hin; by left|apply Hin; by right|done|done].
    rewrite Forall_forall in Hle. by apply Hle.
Qed.

#[local] Instance cmp_key_order : CmpOrder Store.cmp_key.
Proof. apply then_with_order; apply _. Qed.

#[local] Instance cmp_snapshot_order : CmpOrder cmp_snapshot.
Proof.
  change cmp_snapshot with
    (fun a b => then_with (cmp_on Events.execution_id str_cmp a b) (cmp_on Events.generation Z.compare a b)).
  apply then_with_order; apply _.
Qed.

(** A page of a readable database is a slice of the stored snapshots. *)
Lemma execution_page_slice m f limit k ss :
  DbInv m (df_db f) -> readable f -> load_all (df_db f) = Ok ss -> (k <= length ss)%nat ->
  exists p, execution_page f limit (Z.of_nat k) = Ok p /\
    let n := Z.to_nat (Z.max 1 (Z.min limit 200)) in
    ep_executions p = take n (drop k ss) /\
    ep_active_executions p = len (List.filter (fun s => is_active (snap_state s)) ss) /\
    ep_next_offset p = (if (k + length (take n (drop k ss)) <? length ss)%nat
                        then Some (Z.of_nat (k + length (take n (drop k ss)))) else None).
Proof.
  intros HI Hr Hl Hk. destruct (stored_snapshots m _ HI) as (ss' & Hss & Hall & Hlen).
  assert (ss' = ss) as -> by (unfold load_all in Hl; congruence).
  assert (Hsorted : sort_by cmp_snapshot ss = ss).
  { apply sort_by_id. eapply stored_sorted; [done| |apply (sort_by_sorted _)|done].
    intros [k' row]. rewrite sort_by_perm. apply elem_of_map_to_list. }
  unfold execution_page. rewrite (load_snapshots_ok m) by done. rewrite Hl.
  destruct Hr as ((md & Hst & Hfile & Hlink) & _). unfold require_regular_file. rewrite Hst. cbn -[sort_by Nat.ltb].
  rewrite Hfile, Hlink. cbn -[sort_by Nat.ltb]. eexists. split; [done|]. cbn -[sort_by Nat.ltb]. rewrite Hsorted.
  replace (Z.min (Z.of_nat k) 2048) with (Z.of_nat k) by lia.
  replace (Z.min (Z.of_nat k) (len ss)) with (Z.of_nat k) by (unfold len; lia). rewrite Nat2Z.id.
  unfold MAX_EXECUTION_PAGE. split; [done|]. split; [done|]. unfold len.
  destruct (Z.ltb_spec (Z.of_nat k + Z.of_nat (length (take (Z.to_nat (Z.max 1 (Z.min limit 200))) (drop k ss))))
    (Z.of_nat (length ss))), (Nat.ltb_spec (k + length (take (Z.to_nat (Z.max 1 (Z.min limit 200))) (drop k ss))) (length ss));
    try lia; try done; f_equal; lia.
Qed.

Lemma all_pages_drop m f limit ss fuel k :
  DbInv m (df_db f) -> readable f -> load_all (df_db f) = Ok ss -> (k <= length ss)%nat ->
  (length ss - k < fuel)%nat -> all_pages fuel f limit (Z.of_nat k) = Ok (drop k ss).
Proof.
  intros HI Hr Hl. revert k. induction fuel as [|fuel IH]; intros k Hk Hf; [lia|]. cbn [all_pages].
  destruct (execution_page_slice m f limit k ss HI Hr Hl Hk) as (p & -> & Hp & _ & Hn). cbn. rewrite Hp, Hn.
  set (n := Z.to_nat (Z.max 1 (Z.min limit 200))). assert (1 <= n)%nat by lia.
  assert (Hlen : length (take n (drop k ss)) = Nat.min n (length ss - k)) by (rewrite length_take, length_drop; lia).
  destruct (Nat.ltb_spec (k + length (take n (drop k ss))) (length ss)).
  - rewrite IH by lia. cbn. f_equal. rewrite Hlen.
    rewrite <- (take_drop n (drop k ss)) at 2. f_equal. rewrite drop_drop. f_equal. lia.
  - f_equal. rewrite take_ge; [done|]. rewrite length_drop. lia.
Qed.

(** Following the page offsets of [execution_page] from zero, with any
    page size, visits every stored execution exactly once, in order of
    identifier and generation, and ends: the pages put together are the
    store's own snapshots, one for each row. *)
Theorem execution_pages_complete (m : Z) (f : DbFile) (limit : Z) :
  DbInv m (df_db f) -> readable f ->
  exists ss, load_all (df_db f) = Ok ss /\ all_pages (S (length ss)) f limit 0 = Ok ss /\
    snapshot_key <$> ss ≡ₚ (map_to_list (executions (df_db f))).*1 /\
    StronglySorted (fun a b => cmp_snapshot a b <> Gt) ss.
Proof.
  intros HI Hr. destruct (stored_snapshots m _ HI) as (ss & Hss & Hall & Hlen). exists ss. split; [done|].
  split; [by apply (all_pages_drop m f limit ss _ 0); auto with lia|]. split.
  - rewrite (Forall2_keys _ _ Hall). by rewrite sort_by_perm.
  - eapply stored_sorted; [done| |apply (sort_by_sorted _)|done].
    intros [k' row]. rewrite sort_by_perm. apply elem_of_map_to_list.
Qed.

Lemma is_active_name st : live_name (state_name st) = is_active st.
Proof. by destruct st. Qed.

Lemma filter_rows_snapshots rows ss :
  Forall2 row_snapshot rows ss ->
  len (List.filter (fun kv => live_name (Store.state kv.2)) rows) = len (List.filter (fun s => is_active (snap_state s)) ss).
Proof.
  unfold len. induction 1 as [|kv s rows ss (_ & _ & _ & Hst) _ IH]; [done|]. cbn [List.filter].
  rewrite Hst, is_active_name. destruct (is_active (snap_state s)); cbn [length]; lia.
Qed.

Lemma filter_perm_len {A} (p : A -> bool) l l' : l ≡ₚ l' -> len (List.filter p l) = len (List.filter p l').
Proof. unfold len. induction 1; cbn; repeat case_match; cbn; try lia. Qed.

Lemma len_filter_zero {A} (p : A -> bool) l : len (List.filter p l) = 0%Z <-> Forall (fun x => p x = false) l.
Proof.
  unfold len. induction l as [|x l IH]; cbn; [done|]. destruct (p x) eqn:E; cbn.
  - split; [lia|]. intros [? _]%Forall_cons. congruence.
  - rewrite IH. split; [by constructor|by intros [_ ?]%Forall_cons].
Qed.

(** The durable count an update waits on is zero only when there is no
    database yet, or when it is a regular, readable file in which every
    execution is terminal; a database that cannot be read counts as busy.
    The count, taken from the state column alone, is the number of live
    executions that decoding every snapshot finds. *)
Theorem quiescence_exact (m : Z) (f : DbFile) :
  DbInv m (df_db f) ->
  (active_execution_count f = 0%Z <->
   df_lstat f = Err IoMissing \/
   (readable f /\ forall k row, executions (df_db f) !! k = Some row -> is_terminal_name (Store.state row) = true)) /\
  (readable f -> exists ss, load_all (df_db f) = Ok ss /\
   active_execution_count f = len (List.filter (fun s => is_active (snap_state s)) ss)).
Proof.
  intros HI.
  assert (Hcount : readable f -> active_execution_count f =
    len (List.filter (fun kv => live_name (Store.state kv.2)) (map_to_list (executions (df_db f))))).
  { intros ((md & Hst & Hfile & Hlink) & Hopen & Hquery). unfold active_execution_count, count_active_executions,
      require_regular_file, read_only. rewrite Hst. cbn. by rewrite Hfile, Hlink, Hopen, Hquery. }
  split.
  - split.
    + intros Hz. destruct (df_lstat f) as [md|[]] eqn:Hst; [right|by left|].
      * assert (Hr : readable f).
        { unfold active_execution_count, count_active_executions, require_regular_file, read_only in Hz. rewrite Hst in Hz. cbn in Hz.
          destruct (md_is_file md && negb (md_is_symlink md)) eqn:Emd; [|done]. cbn in Hz.
          destruct (df_opens f && df_queries f) eqn:Eq; [|done]. bool_hyps. split; [by exists md|done]. }
        split; [done|]. intros k row Hk. rewrite (Hcount Hr) in Hz. apply len_filter_zero in Hz. rewrite Forall_forall in Hz.
        apply elem_of_map_to_list in Hk as Hin. apply Hz in Hin. cbn [snd] in Hin. rewrite (row_live m _ k) in Hin by done.
        by apply negb_false_iff.
      * unfold active_execution_count in Hz. by rewrite Hst in Hz.
    + intros [Hm|[Hr Hall]]; [by unfold active_execution_count; rewrite Hm|].
      rewrite (Hcount Hr). apply len_filter_zero, Forall_forall. intros [k row] Hk%elem_of_map_to_list. cbn [snd].
      rewrite (row_live m _ k) by done. by rewrite (Hall k).
  - intros Hr. destruct (stored_snapshots m _ HI) as (ss & Hss & Hall & _). exists ss. split; [done|].
    rewrite (Hcount Hr), <- (filter_rows_snapshots _ _ Hall). apply filter_perm_len. by rewrite sort_by_perm.
Qed.

End pages.

(** ** Metrics *)

Lemma zero_counters_lookup (l : list string) name :
  (list_to_map ((fun n => (n, 0%Z)) <$> l) : gmap string Z) !! name = if bool_decide (name ∈ l) then Some 0%Z else None.
Proof.
  induction l as [|x l IH]; [done|]. csimpl. destruct (decide (x = name)) as [->|Hne].
  - rewrite lookup_insert_eq, bool_decide_true; [done|by left].
  - rewrite lookup_insert_ne, IH by done. repeat case_bool_decide; set_solver.
Qed.

Lemma record_counters_lookup rows : NoDup rows.*1 -> forall counters name,
  foldl record_counter counters rows !! name =
  match counters !! name with
  | None => None
  | Some v => Some match (list_to_map rows : gmap string Z) !! name with Some x => Z.max x 0 | None => v end
  end.
Proof.
  induction rows as [|[k x] rows IH]; intros Hnd counters name; [cbn; by destruct (counters !! name)|].
  csimpl. apply NoDup_cons in Hnd as [Hk Hnd]. csimpl in Hk. rewrite IH by done.
  unfold record_counter. cbn [fst snd]. destruct (decide (k = name)) as [->|Hne].
  - rewrite lookup_insert_eq, (not_elem_of_list_to_map_1 rows name) by done.
    case_bool_decide as Hc; [|by apply eq_None_not_Some in Hc; rewrite Hc].
    destruct Hc as [v Hv]. by rewrite lookup_insert_eq, Hv.
  - rewrite lookup_insert_ne by done. case_bool_decide; [by rewrite lookup_insert_ne|done].
Qed.

(** The metrics an operator reads are exactly the twenty counters of
    [METRIC_NAMES], each with the value the node has stored, zero when it has
    stored none and never negative; every other counter of the node's table is
    left out. *)
Theorem metrics_snapshot_exact (f : DbFile) :
  readable f ->
  exists counters, metrics_snapshot f true = Ok counters /\
    forall name, counters !! name =
      if bool_decide (name ∈ METRIC_NAMES)
      then Some (Z.max (default 0%Z (node_metrics (df_db f) !! name)) 0) else None.
Proof.
  intros ((md & Hst & Hfile & Hlink) & Hopen & Hquery). eexists. split.
  { unfold metrics_snapshot, require_regular_file. rewrite Hst. cbn -[foldl zero_counters]. by rewrite Hfile, Hlink, Hopen, Hquery. }
  intros name. rewrite record_counters_lookup by apply NoDup_fst_map_to_list. rewrite list_to_map_to_list.
  unfold zero_counters. rewrite zero_counters_lookup. case_bool_decide; [|done]. f_equal.
  by destruct (node_metrics (df_db f) !! name).
Qed.

(** ** Sizes of trees *)

(** The bytes of the regular files of a tree, symbolic links not followed. *)
Fixpoint tree_size (node : fs_node) : Z :=
  match node with
  | FsFile content _ => len content
  | FsDirectory children => foldr (fun c n => tree_size c.2 + n)%Z 0%Z children
  | _ => 0%Z
  end.

Definition pending_size (pending : list (path * fs_node)) : Z := sum_Z ((fun p => tree_size p.2) <$> pending).
Definition pending_count (pending : list (path * fs_node)) : nat := sum_list ((fun p => node_count p.2) <$> pending).

Lemma pushed_size current children : forall pending,
  pending_size (push_children current children pending) =
  (foldr (fun c n => tree_size c.2 + n)%Z 0%Z children + pending_size pending)%Z.
Proof.
  unfold push_children. induction children as [|c children IH]; intros pending; cbn [foldl foldr]; [lia|].
  rewrite IH. unfold pending_size. rewrite fmap_cons, sum_Z_cons. cbn [snd]. lia.
Qed.

Lemma pushed_count current children : forall pending,
  pending_count (push_children current children pending) =
  (foldr (fun c n => node_count c.2 + n)%nat 0%nat children + pending_count pending)%nat.
Proof.
  unfold push_children. induction children as [|c children IH]; intros pending; cbn [foldl foldr]; [lia|].
  rewrite IH. unfold pending_count. csimpl. lia.
Qed.

Lemma node_count_pos node : (1 <= node_count node)%nat.
Proof. destruct node; cbn; lia. Qed.

Lemma tree_size_nonneg node : (0 <= tree_size node)%Z.
Proof.
  induction node as [content x|children IH| |] using fs_node_ind'; cbn; try lia; [unfold len; lia|].
  induction IH; cbn; lia.
Qed.

Lemma pending_size_nonneg pending : (0 <= pending_size pending)%Z.
Proof. apply sum_Z_nonneg, Forall_fmap, Forall_forall. intros p _. apply tree_size_nonneg. Qed.

Section tree_proofs.
Context (stat_fails list_fails : path -> bool).

Lemma tree_loop_enough fuel : forall total pending,
  (pending_count pending <= fuel)%nat -> tree_loop stat_fails list_fails fuel total pending <> Err OeBounds.
Proof.
  induction fuel as [|fuel IH]; intros total [|[current node] pending] Hf; cbn [tree_loop]; try done.
  { unfold pending_count in Hf. csimpl in Hf. pose proof (node_count_pos node). lia. }
  destruct (stat_fails current); [done|].
  destruct node as [content x|children| |]; try (apply IH; unfold pending_count in *; csimpl in Hf; lia).
  destruct (list_fails current); [done|]. apply IH. rewrite pushed_count. unfold pending_count in *. csimpl in Hf. lia.
Qed.

Lemma tree_loop_total fuel : forall total pending,
  (forall p, stat_fails p = false /\ list_fails p = false) ->
  (pending_count pending <= fuel)%nat -> (0 <= total <= U64_MAX)%Z ->
  tree_loop stat_fails list_fails fuel total pending = Ok (Z.min (total + pending_size pending) U64_MAX).
Proof.
  induction fuel as [|fuel IH]; intros total [|[current node] pending] Hno Hf Ht; cbn [tree_loop].
  1,3: f_equal; unfold pending_size; cbn; lia.
  { unfold pending_count in Hf. csimpl in Hf. pose proof (node_count_pos node). lia. }
  destruct (Hno current) as [-> ->]. pose proof (pending_size_nonneg pending).
  assert (Hsize : pending_size ((current, node) :: pending) = (tree_size node + pending_size pending)%Z).
  { unfold pending_size. by rewrite fmap_cons, sum_Z_cons. }
  rewrite Hsize. unfold pending_count in Hf. csimpl in Hf.
  destruct node as [content x|children| |]; cbn [tree_size node_count] in *.
  - assert (0 <= len content)%Z by (unfold len; lia).
    rewrite IH; [|done|unfold pending_count; lia|unfold sat_add; lia]. f_equal. unfold sat_add. lia.
  - rewrite IH; [|done|rewrite pushed_count; unfold pending_count; lia|done]. rewrite pushed_size. by rewrite Z.add_assoc.
  - rewrite IH; [|done|unfold pending_count; lia|done]. done.
  - rewrite IH; [|done|unfold pending_count; lia|done]. done.
Qed.

End tree_proofs.

(** Measuring a store's directory terminates on every tree, each node
    being visited once, and gives the bytes of the regular files below the
    root, capped at the largest [u64]; symbolic links are neither followed nor
    counted.  When a node cannot be read the answer is that error. *)
Theorem tree_bytes_exact (stat_fails list_fails : path -> bool) (root : path) (node : fs_node) :
  tree_bytes stat_fails list_fails root node <> Err OeBounds /\
  ((forall p, stat_fails p = false /\ list_fails p = false) ->
   tree_bytes stat_fails list_fails root node = Ok (Z.min (tree_size node) U64_MAX)).
Proof.
  assert (Hc : (pending_count [(root, node)] <= node_count node)%nat) by (unfold pending_count; cbn; lia).
  split; [by apply tree_loop_enough|]. intros Hno. unfold tree_bytes. rewrite tree_loop_total by done.
  unfold pending_size. cbn -[tree_size]. f_equal. f_equal. lia.
Qed.

(** ** Previews *)

Lemma filter_bool {A} (P : A -> Prop) `{!forall x, Decision (P x)} (p : A -> bool) l :
  (forall x, x ∈ l -> P x <-> p x = true) -> filter P l = List.filter p l.
Proof.
  induction l as [|x l IH]; intros Hp; [done|]. rewrite filter_cons. cbn.
  rewrite IH by (intros; apply Hp; by right). specialize (Hp x ltac:(by left)).
  destruct (decide (P x)), (p x); naive_solver.
Qed.

Lemma select_due_rows {K R} (expires : R -> option Z) now limit (rows : list (K * R)) :
  due_rows expires now limit rows = select_due expires now limit rows.
Proof.
  unfold due_rows, select_due. do 2 f_equal. apply filter_bool. intros kv _.
  unfold due. destruct (expires kv.2); [by rewrite Z.leb_le|done].
Qed.

Lemma select_due_artifacts now limit rows :
  expired_artifacts rows now limit = select_due (fun r => Some (at_expires_unix_ms r)) now limit rows.
Proof.
  unfold expired_artifacts, select_due. cbn. do 2 f_equal. apply filter_bool. intros kv _. by rewrite Z.leb_le.
Qed.

Lemma sum_sub {A} (f : A -> Z) (p : A -> bool) c n (l : list A) :
  Forall (fun x => 0 <= f x)%Z l -> (0 <= sum_Z (f <$> take n (sort_by c (List.filter p l))) <= sum_Z (f <$> l))%Z.
Proof.
  intros Hall.
  assert (Hf : Forall (fun x => 0 <= f x)%Z (sort_by c (List.filter p l))).
  { rewrite sort_by_perm. apply Forall_forall. intros x Hx. apply list_elem_of_In, List.filter_In in Hx as [Hx _].
    rewrite Forall_forall in Hall. by apply Hall, list_elem_of_In. }
  assert (Hle : (sum_Z (f <$> sort_by c (List.filter p l)) <= sum_Z (f <$> l))%Z).
  { rewrite (sum_Z_perm _ _ (fmap_Permutation f _ _ (sort_by_perm c _))). clear Hf. induction Hall as [|x l Hx _ IH]; [done|].
    cbn [List.filter]. destruct (p x); rewrite ?fmap_cons, ?sum_Z_cons; lia. }
  assert (Htake : forall k (l' : list A), Forall (fun x => 0 <= f x)%Z l' -> (0 <= sum_Z (f <$> take k l') <= sum_Z (f <$> l'))%Z).
  { clear. intros k l' Hl. revert k. induction Hl as [|x l' Hx Hl IH]; intros [|k]; cbn [take]; try done.
    - cbn [fmap list_fmap]. rewrite sum_Z_cons. destruct (IH 0). rewrite take_0 in *. cbn in *. lia.
    - rewrite !fmap_cons, !sum_Z_cons. specialize (IH k). lia. }
  specialize (Htake n _ Hf). lia.
Qed.

Lemma referenced_count quota s d row :
  BlobInv quota s -> blobs s !! d = Some row -> referenced d s = false <-> (reference_count row =? 0)%Z = true.
Proof.
  intros HI Hd. destruct (bi_rows _ _ HI _ _ Hd) as (_ & _ & ->). rewrite Z.eqb_eq, <- not_true_iff_false, referenced_spec.
  unfold count. split.
  - intros Hno. destruct (decide (filter (fun k => ref_digest k = d) (dom (blob_references s)) = ∅)) as [->|Hne]; [by rewrite size_empty|].
    apply set_choose_L in Hne as [k [Hk Hin]%elem_of_filter]. destruct Hno. apply elem_of_dom in Hin as [e He]. eauto.
  - intros Hz (k & e & He & Hk).
    assert (k ∈ filter (fun k => ref_digest k = d) (dom (blob_references s))) as Hin.
    { apply elem_of_filter. split; [done|]. by apply elem_of_dom_2 in He. }
    assert (Hs : size (filter (fun k => ref_digest k = d) (dom (blob_references s))) = 0%nat) by lia.
    apply size_empty_inv in Hs. set_solver.
Qed.

Lemma max_sum_sat {A} (f : A -> Z) (p : A -> bool) c n (l : list A) :
  Forall (fun x => 0 <= f x)%Z l -> (sum_Z (f <$> l) <= U64_MAX)%Z ->
  let picked := take n (sort_by c (List.filter p l)) in
  foldl sat_add 0%Z ((fun x => Z.max (f x) 0) <$> picked) = Z.max (sum_Z (f <$> picked)) 0.
Proof.
  intros Hall Hsum picked. pose proof (sum_sub f p c n l Hall) as Hb. fold picked in Hb.
  assert (Hpos : Forall (fun x => 0 <= f x)%Z picked).
  { apply Forall_forall. intros x Hx. apply elem_of_take in Hx as (i & Hi%list_elem_of_lookup_2 & _).
    rewrite sort_by_perm in Hi. apply list_elem_of_In, List.filter_In in Hi as [Hi _].
    rewrite Forall_forall in Hall. by apply Hall, list_elem_of_In. }
  assert (Hmap : (fun x => Z.max (f x) 0) <$> picked = f <$> picked).
  { apply list_fmap_ext. intros i x Hx. rewrite Forall_forall in Hpos. specialize (Hpos x ltac:(by eapply list_elem_of_lookup_2)). lia. }
  rewrite Hmap, fold_sat_add; [lia|by apply Forall_fmap|unfold U64_MAX; lia].
Qed.

Lemma candidate_report_sum (l : list (string * BlobRow)) : forall acc,
  foldl (fun sum c => sat_add sum c.2) acc ((fun kv => (kv.1, Z.max (size_bytes kv.2) 0)) <$> l) =
  foldl sat_add acc ((fun kv => Z.max (size_bytes kv.2) 0) <$> l).
Proof. induction l as [|kv l IH]; intros acc; [done|]. csimpl. apply IH. Qed.

(** What the operator's preview and the node's own dry run must agree on. *)
Record same_preview (o : PreviewOutside) (g : GcOutside) : Prop := {
  sp_opens : po_workspaces o = true /\ po_manifests o = true /\ po_artifacts o = true /\ po_blobs o = true;
  sp_workspaces : forall st, Workspace.fails (go_workspaces g) st = false;
  sp_manifests : forall st, Workspace.fails (go_manifests g) st = false;
  sp_artifacts : go_artifacts g = false;
  sp_blobs : forall st, go_blobs g st = false;
  sp_now : po_now o = go_now g;
  sp_workspace_scan : po_workspace_scan o = go_workspace_scan g;
  sp_manifest_scan : po_manifest_scan o = go_manifest_scan g;
  sp_artifact_scan : po_artifact_scan o = go_artifact_scan g;
  sp_reference_scan : po_reference_scan o = go_reference_scan g;
  sp_blob_scan : po_blob_scan o = go_blob_scan g;
}.

Section previews.
Context `{Sha256, Serde WorkspaceManifest, UuidParse, Serde ArtifactRecord}.

Lemma workspace_preview o scan now limit w :
  (forall st, Workspace.fails o st = false) ->
  Workspace.garbage_collect o scan now limit true w =
  (Ok (len (due_rows wr_expires_unix_ms now limit scan),
       foldl sat_add 0%Z ((fun kv => Z.max (wr_logical_bytes kv.2) 0) <$> due_rows wr_expires_unix_ms now limit scan), 0%Z), w).
Proof.
  intros Hno. unfold Workspace.garbage_collect, workspace_transaction, act_bind, guard_err, ret. by rewrite !Hno.
Qed.

Lemma manifest_preview o scan now limit w :
  (forall st, Workspace.fails o st = false) ->
  manifest_garbage_collect o scan now limit true w = (Ok (len (due_rows mr_expires_unix_ms now limit scan), 0%Z), w).
Proof.
  intros Hno. unfold manifest_garbage_collect, act_bind, guard_err, ret. rewrite Hno. unfold len. by rewrite length_fmap.
Qed.

Lemma blob_preview fails ref_scan scan now limit s quota :
  (forall st, fails st = false) -> BlobInv quota s -> (quota <= U64_MAX)%Z -> scan ≡ₚ map_to_list (blobs s) ->
  let unreferenced := take limit (sort_by (cmp_on (fun kv => last_used_unix_ms kv.2) Z.compare)
                        (List.filter (fun kv => (reference_count kv.2 =? 0)%Z) scan)) in
  Blob.garbage_collect fails ref_scan scan now limit true s =
  (Ok {| expired_references :=
           len (List.filter (fun kv => match kv.2 with Some t => (t <=? as_i64 now)%Z | None => false end) ref_scan);
         expired_references_removed := 0; candidate_blobs := len unreferenced;
         candidate_bytes := Z.max (sum_Z ((fun kv => size_bytes kv.2) <$> unreferenced)) 0;
         removed_blobs := 0; removed_bytes := 0 |}, s).
Proof.
  intros Hno HI Hq Hscan unreferenced. unfold Blob.garbage_collect. rewrite !Hno. f_equal.
  assert (Hrow : forall kv, kv ∈ scan -> blobs s !! kv.1 = Some kv.2) by (intros [d r]; rewrite Hscan; apply elem_of_map_to_list).
  assert (Hf : filter (fun kv => referenced kv.1 s = false) scan = List.filter (fun kv => (reference_count kv.2 =? 0)%Z) scan).
  { apply filter_bool. intros kv Hkv. eapply referenced_count; eauto. }
  assert (Hr : filter (fun kv => expired now kv.2 = true) ref_scan =
    List.filter (fun kv => match kv.2 with Some t => (t <=? as_i64 now)%Z | None => false end) ref_scan).
  { by apply filter_bool. }
  unfold unreferenced_candidates. rewrite Hf, Hr. fold unreferenced. unfold len. rewrite length_fmap. do 2 f_equal.
  unfold candidate_report. rewrite candidate_report_sum. apply (max_sum_sat (fun kv => size_bytes kv.2)).
  - apply Forall_forall. intros kv Hkv. destruct (bi_rows _ _ HI _ _ (Hrow kv Hkv)) as (_ & ? & _). lia.
  - etrans; [|exact Hq]. etrans; [|apply (bi_quota _ _ HI)]. unfold used_bytes.
    by rewrite (sum_Z_perm _ _ (fmap_Permutation (fun kv => size_bytes kv.2) _ _ Hscan)).
Qed.


End previews.

(** ** Concrete instances *)

Import Store.Run.

Module Sample.
Definition absolute_path (l : list string) : PathBuf := {| absolute := true; names := l |}.
Definition dir_stat : Stat := {|
  st_meta := {| md_is_file := false; md_is_dir := true; md_is_symlink := false; md_uid := 1000; md_mode := 16832 |}; st_len := 0 |}.
Definition file_stat : Stat := {|
  st_meta := {| md_is_file := true; md_is_dir := false; md_is_symlink := false; md_uid := 1000; md_mode := 33152 |}; st_len := 5 |}.

(** Directories have mode 0700, files with an extension mode 0600. *)
Definition stat_of (p : PathBuf) : result IoError Stat :=
  match file_name p with
  | Some name => Ok (if contains_char "."%char name then file_stat else dir_stat)
  | None => Err IoMissing
  end.

Definition os : Os := {|
  os_lstat := stat_of; os_stat := stat_of; os_read := fun _ => Ok [Byte.x00]; os_read_dir := fun _ => true;
  os_available_space := fun _ => Some 1%Z; os_euid := 1000; os_display := fun _ => EmptyString |}.

#[export] Instance tls : TlsLib := {|
  TlsServerConfig := unit; pem_certs := fun b => Some [b]; pem_private_key := fun b => Some (Some b);
  tls_build := fun _ _ _ => Some tt |}.

Definition ones : string := map_string (fun _ => "1"%char) zeros.

(** One principal with two certificates and two lists of operations. *)
Definition config : OperatorConfig := {|
  oc_schema_version := 1; oc_node_id := "node-1"; oc_bind := "127.0.0.1:8443";
  oc_execution_root := absolute_path ["srv"; "exec"]; oc_database_path := absolute_path ["srv"; "db"; "node.sqlite"];
  oc_blob_root := absolute_path ["srv"; "blob"]; oc_blob_quota_bytes := 1000;
  oc_workspace_root := absolute_path ["srv"; "work"]; oc_workspace_quota_bytes := 1000;
  oc_max_active_executions := 4; oc_lease_ttl_seconds := 60; oc_sandbox_helper := None;
  oc_tls := {| certificate_chain := absolute_path ["srv"; "chain.pem"]; private_key := absolute_path ["srv"; "key.pem"];
               client_ca := absolute_path ["srv"; "ca.pem"] |};
  oc_clients := [{| cg_principal_id := "alice"; cg_certificate_sha256 := zeros; cg_operations := ["status"] |};
                 {| cg_principal_id := "alice"; cg_certificate_sha256 := ones; cg_operations := ["execute"] |}];
  oc_host_telemetry := None |}.

#[export] Instance sha : Sha256 := zero_sha256.
#[export] Instance url : UrlParser := sample_parser.

Lemma config_validates : validate_config os config = Ok tt.
Proof. vm_compute. reflexivity. Qed.

Definition peer : TlsInfo := {|
  client_authenticated := true; peer_certificates_present := true; peer_certificate_chain := Some [[Byte.x00]] |}.

Definition ids : gmap string string := match principals config with Ok p => p.1 | Err _ => ∅ end.
Definition grants : gmap string (list Operation) := match principals config with Ok p => p.2 | Err _ => ∅ end.

Lemma config_principals : principals config = Ok (ids, grants).
Proof.
  assert (Hok : is_ok (principals config) = true) by (vm_compute; reflexivity).
  unfold ids, grants. by destruct (principals config) as [[]|].
Qed.

Definition regular : DbFile := {|
  df_lstat := Ok (st_meta file_stat); df_opens := true; df_queries := true; df_db := Store.Run.db_retry |}.

Lemma regular_readable : readable regular.
Proof. split; [by exists (st_meta file_stat)|done]. Qed.

Lemma regular_inv : DbInv (Z.of_nat 4 + 1) (df_db regular).
Proof. by apply (reachable_inv 4 Store.Run.db_retry Store.Run.reach_retry). Qed.
End Sample.
Import Sample.

(** The certificate listed for [status] may execute, and may not read the
    status: the second entry of its principal decides. *)
Lemma configured_access_witness :
  dispatch (resolve_verified_leaf Sample.ids) (grant_authorize Sample.grants) "POST" "/v1/executions" (Some Sample.peer)
    = DHandle "alice" RtExecute /\
  ~ exists route, dispatch (resolve_verified_leaf Sample.ids) (grant_authorize Sample.grants) "GET" "/v1/status"
    (Some Sample.peer) = DHandle "alice" route.
Proof.
  split.
  - apply (configured_access Sample.os Sample.config Sample.ids Sample.grants "POST" "/v1/executions" (Some Sample.peer)
      "alice" RtExecute Sample.config_validates Sample.config_principals).
    exists OpExecute, {| cg_principal_id := "alice"; cg_certificate_sha256 := zeros; cg_operations := ["status"] |},
      {| cg_principal_id := "alice"; cg_certificate_sha256 := Sample.ones; cg_operations := ["execute"] |}, "execute".
    split; [vm_compute; reflexivity|]. split; [left|]. split; [vm_compute; reflexivity|]. split; [reflexivity|].
    split; [vm_compute; reflexivity|]. split; [left|reflexivity].
  - intros [route Hroute]. vm_compute in Hroute. discriminate.
Defined.

Lemma validated_config_starts_witness :
  exists settings, node_config Sample.os Sample.config = Ok settings /\ (1 <= nsg_max_active_executions settings <= 65536)%Z.
Proof.
  destruct (validated_config_starts Sample.os Sample.config ltac:(vm_compute; discriminate) ltac:(vm_compute; discriminate)
    Sample.config_validates) as ((settings & i & g & Hs & _ & Hb & _) & _).
  exists settings. split; [exact Hs|exact Hb].
Defined.

(** The same configuration with another key and other certificates. *)
Definition rotated (c : OperatorConfig) (key : PathBuf) (fingerprints : list string) : OperatorConfig := {|
  oc_schema_version := oc_schema_version c; oc_node_id := oc_node_id c; oc_bind := oc_bind c;
  oc_execution_root := oc_execution_root c; oc_database_path := oc_database_path c; oc_blob_root := oc_blob_root c;
  oc_blob_quota_bytes := oc_blob_quota_bytes c; oc_workspace_root := oc_workspace_root c;
  oc_workspace_quota_bytes := oc_workspace_quota_bytes c; oc_max_active_executions := oc_max_active_executions c;
  oc_lease_ttl_seconds := oc_lease_ttl_seconds c; oc_sandbox_helper := oc_sandbox_helper c;
  oc_tls := {| certificate_chain := certificate_chain (oc_tls c); private_key := key; client_ca := client_ca (oc_tls c) |};
  oc_clients := zip_with (fun g fp => {| cg_principal_id := cg_principal_id g; cg_certificate_sha256 := fp;
                                         cg_operations := cg_operations g |}) (oc_clients c) fingerprints;
  oc_host_telemetry := oc_host_telemetry c |}.

Lemma redacted_json_hides_secrets_witness :
  let c' := rotated Sample.config (Sample.absolute_path ["elsewhere.pem"]) [Sample.ones; zeros] in
  redacted_json (fun _ => Some EmptyString) (fun _ => Some "printed") Sample.config = redacted_json (fun _ => Some EmptyString) (fun _ => Some "printed") c'.
Proof.
  cbv zeta. apply (redacted_json_hides_secrets (fun _ => Some EmptyString) (fun _ => Some "printed") Sample.config
    (rotated Sample.config (Sample.absolute_path ["elsewhere.pem"]) [Sample.ones; zeros])); vm_compute; reflexivity.
Defined.

Lemma drain_marker_atomic_witness :
  let '(r, fs') := set_persistent_drain (fun _ => false) "u" EmptyString (drain_path Sample.config) true ∅ in
  r = Ok tt /\ is_persistently_draining (drain_path Sample.config) fs' = true.
Proof.
  assert (Hr : (set_persistent_drain (fun _ => false) "u" EmptyString (drain_path Sample.config) true ∅).1 = Ok tt)
    by (vm_compute; reflexivity).
  pose proof (drain_marker_atomic (fun _ => false) "u" EmptyString (drain_path Sample.config) true ∅
    ltac:(vm_compute; eexists; reflexivity)) as Hd.
  destruct (set_persistent_drain (fun _ => false) "u" EmptyString (drain_path Sample.config) true ∅) as [r fs'].
  cbn [fst] in Hr. destruct Hd as [Hd _]. split; [exact Hr|exact (Hd Hr)].
Defined.

Lemma execution_pages_complete_witness :
  exists ss, all_pages (S (length ss)) Sample.regular 1 0 = Ok ss /\ length ss = 2%nat.
Proof.
  destruct (execution_pages_complete _ Sample.regular 1 Sample.regular_inv Sample.regular_readable) as (ss & Hl & Hp & _).
  exists ss. split; [exact Hp|]. vm_compute in Hl. injection Hl as <-. reflexivity.
Defined.

Lemma quiescence_exact_witness :
  active_execution_count Sample.regular = 1%Z /\
  exists ss, load_all (df_db Sample.regular) = Ok ss /\
    active_execution_count Sample.regular = len (List.filter (fun s => is_active (snap_state s)) ss).
Proof.
  split; [vm_compute; reflexivity|].
  exact (proj2 (quiescence_exact _ Sample.regular Sample.regular_inv) Sample.regular_readable).
Defined.

Lemma metrics_snapshot_exact_witness :
  exists counters, metrics_snapshot Sample.regular true = Ok counters /\ counters !! "rejected_busy" = Some 0%Z
    /\ counters !! "workspace_derived_hits" = None.
Proof.
  destruct (metrics_snapshot_exact Sample.regular Sample.regular_readable) as (counters & Hm & Hall).
  exists counters. split; [exact Hm|]. split; [rewrite (Hall "rejected_busy")|rewrite (Hall "workspace_derived_hits")];
    vm_compute; reflexivity.
Defined.

Lemma tree_bytes_exact_witness :
  tree_bytes (fun _ => false) (fun _ => false) ["root"]
    (FsDirectory [(Some "a", FsFile [Byte.x00; Byte.x01] false); (Some "l", FsSymlink);
                  (Some "d", FsDirectory [(None, FsFile [Byte.x02] true)])]) = Ok 3%Z.
Proof.
  rewrite (proj2 (tree_bytes_exact (fun _ => false) (fun _ => false) ["root"] _) (fun _ => conj eq_refl eq_refl)).
  vm_compute. reflexivity.
Defined.

(** Stores with an expired workspace and a blob nothing refers to. *)
Module Preview.
Definition calm : Outside := {|
  Workspace.fails := fun _ => false; clock := fun _ => 0%Z; uuid := fun _ => EmptyString; hash_order := elements;
  copied := fun _ => 0%nat |}.

Definition gc : GcOutside := {|
  go_workspaces := calm; go_manifests := calm; go_artifacts := false; go_blobs := fun _ => false;
  go_workspace_scan := map_to_list; go_manifest_scan := map_to_list; go_artifact_scan := map_to_list;
  go_reference_scan := map_to_list; go_blob_scan := map_to_list; go_now := 50 |}.

Definition preview : PreviewOutside := {|
  po_workspaces := true; po_manifests := true; po_artifacts := true; po_blobs := true;
  po_workspace_scan := map_to_list; po_manifest_scan := map_to_list; po_artifact_scan := map_to_list;
  po_reference_scan := map_to_list; po_blob_scan := map_to_list; po_now := 50 |}.

Definition outside : CollectOutside := {|
  co_lock := {| lf_lstat := Err IoMissing; lf_opens := true; lf_held := false |}; co_euid := 1000;
  co_open_workspaces := calm; co_workspaces_fail := false; co_blobs_fail := false; co_artifacts_fail := false;
  co_gc := gc; co_preview := preview |}.

Definition row : WorkspaceRow := {|
  wr_execution_id := "exec-1"; wr_generation := 1; wr_principal_id := "alice"; wr_manifest_digest := zeros;
  wr_storage_key := "workspace-k"; wr_logical_bytes := 12; wr_state := "ready"; wr_created_unix_ms := 1;
  wr_expires_unix_ms := Some 40%Z |}.

Definition blob_store : BlobStore := {|
  blobs := {[zeros := {| size_bytes := 7; reference_count := 0; last_used_unix_ms := 3 |}]};
  blob_references := ∅; files := ∅ |}.

Definition stores : NodeStores := {|
  world := ({| workspaces := {["ws-1" := row]}; retained_manifests := ∅; directories := ∅; manifest_sweep_cursor := None |},
            blob_store);
  artifacts := ∅; database := empty_db |}.

Lemma blob_store_inv : BlobInv 100 blob_store.
Proof.
  split.
  - intros d r Hd. cbn [blobs blob_store] in Hd. apply lookup_singleton_Some in Hd as [<- <-]. split; [by apply (BlobDigest_parse_ok zeros zeros)|].
    split; [vm_compute; split; discriminate|]. vm_compute. reflexivity.
  - intros k Hk. cbn in Hk. set_solver.
  - vm_compute. discriminate.
Qed.

Lemma same : same_preview preview gc.
Proof. by split. Qed.

#[export] Instance manifest_serde : Serde WorkspaceManifest := {| to_vec := fun _ => None; from_slice := fun _ => None |}.
#[export] Instance record_serde : Serde ArtifactRecord := {| to_vec := fun _ => None; from_slice := fun _ => None |}.
#[export] Instance uuids : UuidParse := fun _ => true.
End Preview.
Import Preview.

