(* ===== verification/Deployment.v ===== *)
(** * Deployment and updates

    [eggwork-server/src/deployment.rs]: the install unit, the rendered
    service definitions, the compatibility of the sandbox helper, the bounded
    wait for quiescence, candidate validation, and the orchestration of an
    update.

    A path is the bytes of its text here, because the definitions print it.
    Eggup, which owns transactions and service managers, is the class [Eggup]:
    identities, hashing, plans and commits acting on a host whose live members
    can be observed.  [EggupLaws] says that a service specification holds what
    it was given, that only a commit changes live members, and what rolling
    back after a failed post-install check promises. *)

From Stdlib Require Import Ascii String ZArith Lia.
From stdpp Require Import base gmap strings list.
From S2P Require Import Prelude Text Ids Wire Std Spec Events Store Runner Operations.

#[local] Open Scope string_scope.
#[local] Open Scope list_scope.
#[local] Open Scope act_scope.

Definition PRODUCT_ID : string := "eggwork".
Definition SERVICE_ID : string := "eggwork-node".
Definition MEMBER_DAEMON : string := "eggworkd".
Definition MEMBER_HELPER : string := "eggwork-sandbox-helper".
Definition DEST_DAEMON : string := "bin/eggworkd".
Definition DEST_HELPER : string := "bin/eggwork-sandbox-helper".
Definition MAX_CANDIDATE_BYTES : Z := 256 * 1024 * 1024.
Definition MAX_VERSION_PROBE_BYTES : Z := 1024.

(** Durations in milliseconds. *)
Definition DEFAULT_DRAIN_TIMEOUT : Z := 30000.
Definition DEFAULT_HEALTH_TIMEOUT : Z := 30000.
Definition QUIESCENCE_POLL_INTERVAL : Z := 100.

(** ** Errors *)

Record DeploymentError := { de_kind : string; de_detail : string }.

Definition truncate (text : string) : string :=
  if (256 <? str_len text)%Z then take_chars 256 text else text.

(** [DeploymentError::new] *)
Definition deployment_error (kind detail : string) : DeploymentError :=
  {| de_kind := kind; de_detail := if (256 <? str_len detail)%Z then take_chars 256 detail else detail |}.

Definition SUFFIX : string := "; node left draining, run `eggworkd undrain` to clear".

Definition note_drain_remains (drain_remains_active : bool) (e : DeploymentError) : DeploymentError :=
  if negb drain_remains_active || str_contains SUFFIX (de_detail e) then e
  else
    let room := (256 - length (chars SUFFIX))%nat in
    {| de_kind := de_kind e; de_detail := take_chars room (de_detail e) +:+ SUFFIX |}.

(** ** The install unit and the service *)

Record InstallMember := { im_member : string; im_destination : string; im_required : bool }.

Definition install_unit_matrix (helper_required : bool) : list InstallMember :=
  [{| im_member := MEMBER_DAEMON; im_destination := DEST_DAEMON; im_required := true |};
   {| im_member := MEMBER_HELPER; im_destination := DEST_HELPER; im_required := helper_required |}].

Definition is_absolute (path : string) : bool := starts_with_char "/"%char path.

(** [Path::display] *)
Definition display (path : string) : string := from_utf8_lossy path.

Record ServiceSpec := {
  sp_id : string;
  sp_executable : string;
  sp_args : list string;
  sp_config : option string;
}.

Definition NL : ascii := "010"%char.

(** The alphabet of a path in [ExecStart]. *)
Definition unit_path_byte (b : ascii) : bool :=
  is_ascii_alphanumeric b || existsb (Ascii.eqb b) ["/"; "_"; "-"; "."; "+"]%char.

Definition unit_lines (executable config_path : string) : list string :=
  ["[Unit]"; "Description=Eggwork node daemon"; "After=network.target"; ""; "[Service]"; "Type=simple";
   "ExecStart=" +:+ display executable +:+ " run --config " +:+ display config_path; "Restart=on-failure"; "RestartSec=2";
   "NoNewPrivileges=true"; ""; "[Install]"; "WantedBy=multi-user.target"; ""].

Definition render_systemd_unit (executable config_path : string) : result DeploymentError string :=
  if negb (is_absolute executable) || negb (is_absolute config_path)
  then Err (deployment_error "invalid" "unit paths must be absolute")
  else if negb (forallb (fun path => all_bytes unit_path_byte (display path)) [executable; config_path])
  then Err (deployment_error "invalid" "unit paths contain characters unsupported by ExecStart policy")
  else Ok (join (String NL EmptyString) (unit_lines executable config_path)).


(** [str::replace] of one byte. *)
Fixpoint replace_byte (c : ascii) (by_ : string) (s : string) : string :=
  match s with
  | EmptyString => EmptyString
  | String a s => (if Ascii.eqb a c then by_ else String a EmptyString) +:+ replace_byte c by_ s
  end.

Definition QUOTE : ascii := "034"%char.
Definition APOSTROPHE : ascii := "039"%char.

Definition xml_escape (value : string) : string :=
  replace_byte APOSTROPHE "&apos;" (replace_byte QUOTE "&quot;" (replace_byte ">"%char "&gt;"
    (replace_byte "<"%char "&lt;" (replace_byte "&"%char "&amp;" value)))).

Definition xml (value : string) : result DeploymentError string :=
  if existsb is_control (chars value)
  then Err (deployment_error "invalid" "launchd path contains control characters")
  else Ok (xml_escape value).

Definition quoted (s : string) : string := String QUOTE s +:+ String QUOTE EmptyString.

Definition plist_text (label executable config : string) : string :=
  join (String NL EmptyString)
    ["<?xml version=" +:+ quoted "1.0" +:+ " encoding=" +:+ quoted "UTF-8" +:+ "?>";
     "<!DOCTYPE plist PUBLIC " +:+ quoted "-//Apple//DTD PLIST 1.0//EN" +:+ " "
       +:+ quoted "http://www.apple.com/DTDs/PropertyList-1.0.dtd" +:+ ">";
     "<plist version=" +:+ quoted "1.0" +:+ "><dict><key>Label</key><string>" +:+ label
       +:+ "</string><key>ProgramArguments</key><array><string>" +:+ executable
       +:+ "</string><string>run</string><string>--config</string><string>" +:+ config
       +:+ "</string></array></dict></plist>"; ""].

Definition render_launchd_plist (label executable config_path : string) : result DeploymentError string :=
  if negb (String.eqb label SERVICE_ID) || negb (is_absolute executable) || negb (is_absolute config_path)
  then Err (deployment_error "invalid" "launchd identity and paths are invalid")
  else
    let? executable := ok_or (from_utf8 executable) (deployment_error "invalid" "launchd executable path is not UTF-8") in
    let? config := ok_or (from_utf8 config_path) (deployment_error "invalid" "launchd config path is not UTF-8") in
    let? l := xml label in
    let? e := xml executable in
    let? c := xml config in
    Ok (plist_text l e c).

Inductive SystemdScope : Type := ScopeSystem | ScopeUser.

Definition parse_systemd_scope (text : string) : result DeploymentError SystemdScope :=
  if String.eqb text "system" then Ok ScopeSystem
  else if String.eqb text "user" then Ok ScopeUser
  else Err (deployment_error "invalid" "scope must be system or user").

(** What [systemd_manager] hands to [SystemdInstall::new]. *)
Record SystemdInstall := {
  si_unit_name : string;
  si_scope : SystemdScope;
  si_unit_path : string;
  si_definition : string;
  si_enable : bool;
  si_reload : bool;
  si_transition_timeout : Z;
}.

Inductive LaunchdDomain : Type := UserAgent | SystemDaemon.

(** The target check of [launchd_manager], and what it hands on. *)
Definition launchd_target_ok (domain : LaunchdDomain) (target : string) : result DeploymentError unit :=
  match domain with
  | UserAgent =>
      let? uid := ok_or (strip_prefix "gui/" target) (deployment_error "invalid" "user launchd target must be gui/<uid>") in
      if is_empty uid || negb (all_bytes is_ascii_digit uid)
      then Err (deployment_error "invalid" "user launchd target must use a numeric uid") else Ok tt
  | SystemDaemon =>
      if negb (String.eqb target "system") then Err (deployment_error "invalid" "system launchd target must be system")
      else Ok tt
  end.

Record LaunchdInstall := {
  li_label : string;
  li_domain : LaunchdDomain;
  li_target : string;
  li_plist_path : string;
  li_definition : string;
  li_bootstrap : bool;
  li_transition_timeout : Z;
}.

(** ** Versions *)

Inductive InstalledVersionCheck : Type :=
| Matched (version : string)
| Mismatch (reported : string)
| Unreadable (reason : string).

Definition matched (c : InstalledVersionCheck) : bool := match c with Matched _ => true | _ => false end.

(** [Value::get] and [Value::as_str]; in an object the last of equal keys counts. *)
Definition json_get (key : string) (v : Json) : option Json :=
  match v with
  | JObject fields => snd <$> last (List.filter (fun kv => String.eqb kv.1 key) fields)
  | _ => None
  end.
Definition json_as_str (v : Json) : option string := match v with JString s => Some s | _ => None end.

(** [check_installed_daemon_version]; [from_str] is the JSON parser. *)
Definition check_installed_daemon_version (from_str : string -> option Json) (stdout expected : string)
    : InstalledVersionCheck :=
  if (MAX_VERSION_PROBE_BYTES <? str_len stdout)%Z then Unreadable "version probe output exceeded its bound"
  else
    match from_utf8 stdout with
    | None => Unreadable "version probe output is not UTF-8"
    | Some text =>
        match from_str (Std.trim text) with
        | None => Unreadable "version probe output is not a JSON object"
        | Some report =>
            match json_get "version" report ≫= json_as_str with
            | Some reported => if String.eqb reported expected then Matched reported else Mismatch reported
            | None => Unreadable "version probe output has no version field"
            end
        end
    end.

Inductive HelperCompatibility : Type :=
| Compatible (version : string)
| NotConfigured
| Missing
| Untrusted (reason : string)
| VersionSkew (expected found : string).

Definition compatible (h : HelperCompatibility) : bool := match h with Compatible _ => true | _ => false end.
Definition helper_satisfies_required_isolation (h : HelperCompatibility) : bool := compatible h.

(** The answer of the bounded child: failed to run, or its status and output. *)
Definition probe : Type := option (bool * string).

(** [check_helper_compatibility_with_timeout]; [lstat] is [symlink_metadata],
    [run] the bounded child under the timeout. *)
Definition check_helper_compatibility_with_timeout {P} (euid : Z) (lstat : P -> result IoError Metadata)
    (run : P -> Z -> probe) (helper_path : option P) (expected_version : string) (timeout : Z)
    : HelperCompatibility :=
  match helper_path with
  | None => NotConfigured
  | Some path =>
      if (timeout =? 0)%Z then Untrusted "helper version probe budget is exhausted"
      else
        match lstat path with
        | Err IoMissing => Missing
        | Err IoFailed => Untrusted "helper metadata is unreadable"
        | Ok md =>
            if negb (md_is_file md) || md_is_symlink md then Untrusted "helper must be a regular file"
            else if (negb (md_uid md =? 0)%Z && negb (md_uid md =? euid)%Z) || mode_has md 18
            then Untrusted "helper ownership or mode check failed"
            else if negb (mode_has md 73) then Untrusted "helper is not executable"
            else
              match run path timeout with
              | None => Untrusted "helper version probe failed"
              | Some (success, stdout) =>
                  if negb success then Untrusted "helper version probe reported failure"
                  else
                    let found := Std.trim (from_utf8_lossy stdout) in
                    if is_empty found || (64 <? str_len found)%Z || existsb is_control (chars found)
                    then Untrusted "helper version output is invalid"
                    else if negb (String.eqb found expected_version) then VersionSkew expected_version found
                    else Compatible found
              end
        end
  end.

Definition check_helper_compatibility {P} (euid : Z) (lstat : P -> result IoError Metadata)
    (run : P -> Z -> probe) (helper_path : option P) (expected_version : string) : HelperCompatibility :=
  check_helper_compatibility_with_timeout euid lstat run helper_path expected_version 5000.

Record DeploymentStatus := {
  ds_eggup_core_version : string;
  ds_eggup_service_version : string;
  ds_install_unit : list InstallMember;
  ds_helper : HelperCompatibility;
  ds_producer_packaging_external : bool;
}.

(** [DeploymentStatus::collect] *)
Definition collect_status {P} (euid : Z) (lstat : P -> result IoError Metadata) (run : P -> Z -> probe)
    (own_version : string) (helper_path : option P) (helper_required : bool) : DeploymentStatus := {|
  ds_eggup_core_version := "0.1.1"; ds_eggup_service_version := "0.1.1";
  ds_install_unit := install_unit_matrix helper_required;
  ds_helper := check_helper_compatibility euid lstat run helper_path own_version;
  ds_producer_packaging_external := true |}.

(** ** Updates *)

Inductive PostCommitFailurePolicy : Type := RollBack | KeepInstalled.

Record UpdatePolicy := {
  up_drain_timeout : Z;
  up_health_timeout : Z;
  up_force : bool;
  up_post_commit : PostCommitFailurePolicy;
}.

(** [UpdatePolicy::default] *)
Definition default_policy : UpdatePolicy := {|
  up_drain_timeout := DEFAULT_DRAIN_TIMEOUT; up_health_timeout := DEFAULT_HEALTH_TIMEOUT; up_force := false;
  up_post_commit := RollBack |}.

(** The time since the start when poll [i] looks at the clock: the sleeps
    before it, each at least the interval, and whatever else it took. *)
Definition elapsed (slack : nat -> N) (i : nat) : Z := (Z.of_nat i * QUIESCENCE_POLL_INTERVAL + Z.of_N (slack i))%Z.

Definition timed_out : DeploymentError :=
  deployment_error "draining" "active executions remain after bounded drain wait".

(** The loop of [wait_for_quiescence] from poll [i]; [active i] is the count
    that poll sees. *)
Fixpoint poll_quiescence (fuel : nat) (active : nat -> Z) (slack : nat -> N) (drain_timeout : Z) (i : nat)
    : result DeploymentError unit :=
  match fuel with
  | O => Err timed_out
  | S fuel =>
      if (active i =? 0)%Z then Ok tt
      else if (drain_timeout <=? elapsed slack i)%Z then Err timed_out
      else poll_quiescence fuel active slack drain_timeout (S i)
  end.

(** One poll for every interval of the timeout, and the last. *)
Definition quiescence_fuel (drain_timeout : Z) : nat := S (Z.to_nat (drain_timeout / QUIESCENCE_POLL_INTERVAL + 1)).

Definition wait_for_quiescence (active : nat -> Z) (slack : nat -> N) (policy : UpdatePolicy)
    : result DeploymentError unit :=
  if up_force policy then Ok tt
  else poll_quiescence (quiescence_fuel (up_drain_timeout policy)) active slack (up_drain_timeout policy) 0.

Record CandidateSource := { cs_member : string; cs_source : string; cs_destination : string }.

(** [CandidateSource::validate] *)
Definition validate_candidate (lstat : string -> result IoError Stat) (c : CandidateSource) : result DeploymentError unit :=
  let refused m := Err (deployment_error "candidate" m) in
  if negb (String.eqb (cs_member c) MEMBER_DAEMON) && negb (String.eqb (cs_member c) MEMBER_HELPER)
  then refused "unknown candidate member"
  else if negb (is_absolute (cs_source c)) then refused "candidate source must be absolute"
  else if is_empty (cs_destination c) || is_absolute (cs_destination c) || str_contains ".." (cs_destination c)
  then refused "candidate destination is invalid"
  else
    match lstat (cs_source c) with
    | Err _ => refused "candidate source is unreadable"
    | Ok st =>
        if negb (md_is_file (st_meta st)) || md_is_symlink (st_meta st)
        then refused "candidate source must be a regular file"
        else if (st_len st =? 0)%Z || (MAX_CANDIDATE_BYTES <? st_len st)%Z
        then refused "candidate source size is out of bounds"
        else Ok tt
    end.

(** What Eggup tells of a service, of one transition, and of the host. *)
Record LifecycleSnapshot := { ls_ownership : string; ls_state : string }.
Record TransitionResult := { tr_completed : bool; tr_detail : string }.
Record HostFacts := {
  hf_os : string;
  hf_systemd_available : bool;
  hf_launchd_available : bool;
  hf_crontab_available : bool;
}.
Inductive ServiceCall : Type :=
| CallInstall | CallUninstall | CallStart (timeout : Z) | CallStop (timeout : Z) | CallRestart (timeout : Z).

(** What a commit is told. *)
Record LifecycleUpdatePolicy := {
  lp_post_commit_failure : PostCommitFailurePolicy;
  lp_quiesce_timeout : Z;
  lp_post_commit_timeout : Z;
  lp_rollback_restore_timeout : Z;
}.

(** A post-install check: whether it was consumed, and its remaining budget. *)
Abbreviation PostInstallCheck := (bool -> Z -> result string unit * bool).

(** Eggup on a host: identities, hashing, plans, staging and the commit with
    its service lifecycle.  [live] is what a host has installed, by
    destination; errors are their text. *)
Class Eggup := {
  Host : Type;
  live : Host -> gmap string string;
  inspect_host : Host -> result string HostFacts;
  candidate_managers : HostFacts -> list string;
  Manager : Type;
  systemd_install : SystemdInstall -> result string Manager;
  launchd_install : LaunchdInstall -> result string Manager;
  inspect : Manager -> ServiceSpec -> Host -> result string LifecycleSnapshot;
  service_call : Manager -> ServiceSpec -> ServiceCall -> Host -> result string TransitionResult * Host;
  Member : Type;
  ArtifactSet : Type;
  Plan : Type;
  Prepared : Type;
  Verified : Type;
  Validated : Type;
  Verifier : Type;
  exact_digests : list (string * list Z) -> Verifier;
  Transaction : Type;
  Receipt : Type;
  transaction : Receipt -> Transaction;
  recovery_required : result string Receipt -> bool;
  service_id_ok : string -> bool;
  service_spec : ServiceSpec -> result string ServiceSpec;
  product_id_ok : string -> bool;
  release_id_ok : string -> bool;
  member_id : string -> result string string;
  hash_file : string -> result string string;
  artifact_member : string -> string -> string -> result string Member;
  with_integrity : Member -> string -> Member;
  artifact_set : list Member -> result string ArtifactSet;
  install_plan : string -> string -> string -> ArtifactSet -> result string Plan;
  prepare : Plan -> Host -> result string Prepared * Host;
  verify_integrity : Prepared -> Host -> result string Verified * Host;
  validate_all : Verified -> Host -> result string Validated * Host;
  commit_with_lifecycle : Manager -> ServiceSpec -> Validated -> Verifier -> LifecycleUpdatePolicy -> PostInstallCheck -> Host ->
    result string Receipt * Host;
  AbsentPolicy : Type;
  commit : Validated -> Verifier -> AbsentPolicy -> Host -> result string Transaction * Host;
  commit_with_post_commit : Validated -> Verifier -> AbsentPolicy -> PostCommitFailurePolicy -> result string unit ->
    Host -> result string Transaction * Host;
}.

Class EggupLaws `{Eggup} : Prop := {
  spec_as_given spec spec' : service_spec spec = Ok spec' -> spec' = spec;
  prepare_keeps_live plan h : live (prepare plan h).2 = live h;
  verify_keeps_live p h : live (verify_integrity p h).2 = live h;
  validate_keeps_live v h : live (validate_all v h).2 = live h;
  (** Under [RollBack] the new members stay only behind a check that passed,
      or the outcome says that the artifacts need recovery by hand. *)
  rolls_back manager spec v verifier policy check h :
    lp_post_commit_failure policy = RollBack ->
    let out := commit_with_lifecycle manager spec v verifier policy check h in
    live out.2 = live h \/ recovery_required out.1 = true \/ exists remaining, (check false remaining).1 = Ok tt;
}.

Definition eggup_error (e : string) : DeploymentError := deployment_error "eggup" (truncate e).
Definition lifecycle_error (e : string) : DeploymentError := deployment_error "lifecycle" (truncate e).
Definition service_error (e : string) : DeploymentError := deployment_error "service" (truncate e).

Section update.
Context `{Eggup}.

Definition service_spec_for_install (executable : string) (config_path : option string)
    : result DeploymentError ServiceSpec :=
  if negb (is_absolute executable) then Err (deployment_error "invalid" "daemon executable must be absolute")
  else if negb (service_id_ok SERVICE_ID) then Err (deployment_error "invalid" "service identity is invalid")
  else
    match config_path with
    | Some path =>
        if negb (is_absolute path) then Err (deployment_error "invalid" "config path must be absolute")
        else map_err service_error
          (service_spec {| sp_id := SERVICE_ID; sp_executable := executable; sp_args := ["run"; "--config"; display path];
                           sp_config := Some path |})
    | None =>
        map_err service_error
          (service_spec {| sp_id := SERVICE_ID; sp_executable := executable; sp_args := ["run"]; sp_config := None |})
    end.

Definition systemd_manager (unit_name : string) (scope : SystemdScope) (unit_path executable config_path : string)
    (enable reload : bool) (transition_timeout : Z) : result DeploymentError Manager :=
  if negb (is_absolute unit_path) then Err (deployment_error "invalid" "unit path must be absolute")
  else
    let? definition := render_systemd_unit executable config_path in
    map_err service_error
      (systemd_install {| si_unit_name := unit_name; si_scope := scope; si_unit_path := unit_path; si_definition := definition;
                          si_enable := enable; si_reload := reload; si_transition_timeout := transition_timeout |}).

Definition launchd_manager (domain : LaunchdDomain) (target plist_path executable config_path : string)
    (bootstrap_on_install : bool) (transition_timeout : Z) : result DeploymentError Manager :=
  launchd_target_ok domain target ;?
  let? definition := render_launchd_plist SERVICE_ID executable config_path in
  map_err service_error
    (launchd_install {| li_label := SERVICE_ID; li_domain := domain; li_target := target; li_plist_path := plist_path;
                        li_definition := definition; li_bootstrap := bootstrap_on_install;
                        li_transition_timeout := transition_timeout |}).

Definition inspect_service (manager : Manager) (spec : ServiceSpec) (h : Host) : result DeploymentError LifecycleSnapshot :=
  map_err service_error (inspect manager spec h).

Definition platform_support (h : Host) : result DeploymentError HostFacts := map_err service_error (inspect_host h).
Definition candidate_managers_for (facts : HostFacts) : list string := candidate_managers facts.

Definition build_member (lstat : string -> result IoError Stat) (source : CandidateSource) : result DeploymentError Member :=
  validate_candidate lstat source ;?
  let? digest := map_err eggup_error (hash_file (cs_source source)) in
  let? id := map_err (fun _ => deployment_error "candidate" "member identity is invalid") (member_id (cs_member source)) in
  let? member := map_err eggup_error (artifact_member id (cs_source source) (cs_destination source)) in
  Ok (with_integrity member digest).

Fixpoint build_members (lstat : string -> result IoError Stat) (sources : list CandidateSource)
    : result DeploymentError (list Member) :=
  match sources with
  | [] => Ok []
  | source :: rest =>
      let? m := build_member lstat source in
      let? ms := build_members lstat rest in
      Ok (m :: ms)
  end.

Definition build_install_plan (lstat : string -> result IoError Stat) (installation_root release : string)
    (sources : list CandidateSource) : result DeploymentError Plan :=
  match sources with
  | [] => Err (deployment_error "candidate" "candidate set is empty")
  | _ =>
      if negb (product_id_ok PRODUCT_ID) then Err (deployment_error "candidate" "product identity is invalid")
      else if negb (release_id_ok release) then Err (deployment_error "candidate" "release identity is invalid")
      else
        let? members := build_members lstat sources in
        let? set := map_err eggup_error (artifact_set members) in
        map_err eggup_error (install_plan PRODUCT_ID release installation_root set)
  end.

Record UpdateRequest := {
  ur_spec : ServiceSpec;
  ur_installation_root : string;
  ur_release : string;
  ur_sources : list CandidateSource;
  ur_drain_marker : option PathBuf;
  ur_policy : UpdatePolicy;
}.

Abbreviation committing A := (act Host DeploymentError A).

(** A call that answers Eggup's own error. *)
Definition eggup_call {A} (f : Host -> result string A * Host) : committing A :=
  fun h => let '(r, h) := f h in (map_err eggup_error r, h).

Definition stage_plan (plan : Plan) : committing Validated :=
  let! prepared := eggup_call (prepare plan) in
  let! verified := eggup_call (verify_integrity prepared) in
  eggup_call (validate_all verified).

Definition commit_with_health_check (plan : Plan) (verifier : Verifier) (absent : AbsentPolicy)
    (policy : PostCommitFailurePolicy) (health_check : result string unit) : committing Transaction :=
  let! validated := stage_plan plan in
  eggup_call (commit_with_post_commit validated verifier absent policy health_check).

Definition commit_without_health_check (plan : Plan) (verifier : Verifier) (absent : AbsentPolicy)
    : committing Transaction :=
  let! validated := stage_plan plan in
  eggup_call (commit validated verifier absent).

(** What an update meets: the sources, the drain marker's steps, the polls,
    and the post-install check under its remaining budget. *)
Record UpdateOutside := {
  uo_lstat : string -> result IoError Stat;
  uo_drain_fails : DrainStep -> bool;
  uo_uuid : string;
  uo_partial : string;
  uo_active : nat -> Z;
  uo_slack : nat -> N;
  uo_health_check : Z -> result string unit;
}.

(** [OneShotHealthCheck::check] *)
Definition one_shot_check (health_check : Z -> result string unit) (consumed : bool) (remaining : Z)
    : result string unit * bool :=
  if (remaining =? 0)%Z then (Err "health check time budget exhausted", consumed)
  else if consumed then (Err "health check already consumed", true)
  else (health_check remaining, true).

Abbreviation updating A := (act (files_at * Host) DeploymentError A).

Definition on_host {A} (c : committing A) : updating A := fun s => let '(r, h) := c s.2 in (r, (s.1, h)).

Definition marker_error : DeploymentError := deployment_error "draining" "persistent drain marker could not be set".

Definition set_marker (o : UpdateOutside) (drain_marker : option PathBuf) : updating unit :=
  match drain_marker with
  | Some marker =>
      fun s => let '(r, fs) := set_persistent_drain (uo_drain_fails o) (uo_uuid o) (uo_partial o) marker true s.1 in
               (map_err (fun _ => marker_error) r, (fs, s.2))
  | None => ret tt
  end.

Definition orchestrate_update_with_lifecycle_budgeted (o : UpdateOutside) (manager : Manager) (verifier : Verifier)
    (r : UpdateRequest) : updating Receipt :=
  of_result (for_each (validate_candidate (uo_lstat o)) (ur_sources r)) ;!
  let! plan := of_result (build_install_plan (uo_lstat o) (ur_installation_root r) (ur_release r) (ur_sources r)) in
  let! validated := on_host (stage_plan plan) in
  let drain_remains_active := is_some (ur_drain_marker r) in
  set_marker o (ur_drain_marker r) ;!
  of_result (map_err (note_drain_remains drain_remains_active)
               (wait_for_quiescence (uo_active o) (uo_slack o) (ur_policy r))) ;!
  on_host (fun h =>
    let '(answer, h) :=
      commit_with_lifecycle manager (ur_spec r) validated verifier
        {| lp_post_commit_failure := up_post_commit (ur_policy r); lp_quiesce_timeout := 30000;
           lp_post_commit_timeout := up_health_timeout (ur_policy r); lp_rollback_restore_timeout := 30000 |}
        (one_shot_check (uo_health_check o)) h in
    (map_err (fun e => note_drain_remains drain_remains_active (lifecycle_error e)) answer, h)).

(** [orchestrate_update]; [health_check] ignores the budget. *)
Definition orchestrate_update (o : UpdateOutside) (manager : Manager) (verifier : Verifier) (r : UpdateRequest)
    : updating Transaction :=
  let! receipt := orchestrate_update_with_lifecycle_budgeted o manager verifier r in
  ret (transaction receipt).

End update.

(** ** The quiescence wait *)

Section quiescence.
Context (active : nat -> Z) (slack : nat -> N) (timeout : Z).

(** Poll [i] is the first to see no active execution, within the timeout. *)
Definition quiescent_at (i : nat) : Prop :=
  active i = 0%Z /\ forall j, j < i -> active j <> 0%Z /\ (elapsed slack j < timeout)%Z.

(** Poll [i] is the first past the timeout, and every poll saw work. *)
Definition gives_up_at (i : nat) : Prop :=
  (timeout <= elapsed slack i)%Z /\ active i <> 0%Z /\ forall j, j < i -> active j <> 0%Z /\ (elapsed slack j < timeout)%Z.

Lemma poll_decides fuel i :
  (timeout <= (Z.of_nat i + Z.of_nat fuel) * QUIESCENCE_POLL_INTERVAL)%Z ->
  (forall j, j < i -> active j <> 0%Z /\ (elapsed slack j < timeout)%Z) ->
  let r := poll_quiescence (S fuel) active slack timeout i in
  exists k, i <= k <= i + fuel /\ (r = Ok tt /\ quiescent_at k \/ r = Err timed_out /\ gives_up_at k).
Proof.
  revert i. induction fuel as [|fuel IH]; intros i Hf Hj; cbv zeta; cbn [poll_quiescence].
  all: destruct (Z.eqb_spec (active i) 0) as [Ha|Ha]; [exists i; split; [lia|by left]|].
  all: destruct (Z.leb_spec timeout (elapsed slack i)) as [Ht|Ht]; [exists i; split; [lia|by right]|].
  - exfalso. unfold elapsed, QUIESCENCE_POLL_INTERVAL in *. lia.
  - destruct (IH (S i)) as (k & Hk & Hr); [lia| |exists k; split; [lia|exact Hr]].
    intros j Hlt. destruct (decide (j = i)) as [->|Hne]; [done|apply Hj; lia].
Qed.

Lemma quiescent_or_given_up i k : quiescent_at i -> gives_up_at k -> False.
Proof.
  intros [Hi Hbefore] (Ht & Hk & Hafter). destruct (decide (k < i)) as [Hlt|Hge]; [specialize (Hbefore k Hlt); lia|].
  destruct (decide (i = k)) as [->|Hne]; [done|]. destruct (Hafter i) as [Ha _]; [lia|done].
Qed.

Lemma quiescence_fuel_enough : (timeout <= (0 + Z.of_nat (pred (quiescence_fuel timeout))) * QUIESCENCE_POLL_INTERVAL)%Z.
Proof.
  unfold quiescence_fuel, QUIESCENCE_POLL_INTERVAL. cbn [pred].
  pose proof (Z.div_mod timeout 100). pose proof (Z.mod_pos_bound timeout 100). lia.
Qed.

Lemma wait_cases policy :
  up_force policy = false -> up_drain_timeout policy = timeout ->
  let r := wait_for_quiescence active slack policy in
  exists k, (Z.of_nat k <= Z.max 0 (timeout / QUIESCENCE_POLL_INTERVAL + 1))%Z /\
    (r = Ok tt /\ quiescent_at k \/ r = Err timed_out /\ gives_up_at k).
Proof.
  intros Hforce Htime. cbv zeta. unfold wait_for_quiescence. rewrite Hforce, Htime.
  destruct (poll_decides (pred (quiescence_fuel timeout)) 0) as (k & Hk & Hr); [apply quiescence_fuel_enough|lia|].
  exists k. split; [|exact Hr]. unfold quiescence_fuel in Hk. cbn [pred] in Hk. lia.
Qed.
End quiescence.


(** ** The rendered service definitions *)

Lemma concat_strings_bytes l : bytes_of (concat_strings l) = mjoin (bytes_of <$> l).
Proof.
  induction l as [|s l IH]; [done|]. change (concat_strings (s :: l)) with (s +:+ concat_strings l).
  rewrite bytes_of_app, IH. done.
Qed.

(** A path whose display has only ASCII bytes displays as itself. *)
Lemma display_plain path : all_bytes unit_path_byte (display path) = true -> display path = path.
Proof.
  unfold display, from_utf8_lossy. intros Hplain. rewrite <- (chars_concat path) at 2. unfold chars.
  f_equal. apply all_bytes_spec in Hplain. rewrite concat_strings_bytes in Hplain.
  induction (pieces path) as [|[valid piece] l IH]; [done|]. csimpl in *.
  apply Forall_app in Hplain as [Hp Hl]. rewrite IH by done. destruct valid; [done|].
  by inversion Hp.
Qed.

Lemma plain_path_no c path : unit_path_byte c = false -> all_bytes unit_path_byte path = true -> c ∉ bytes_of path.
Proof.
  intros Hc Hall%all_bytes_spec Hin. rewrite Forall_forall in Hall. specialize (Hall _ Hin). congruence.
Qed.

(** The command lines of a unit file, and the words of one. *)
Definition unit_commands (text : string) : list (list string) :=
  split " "%char <$> omap (strip_prefix "ExecStart=") (split NL text).

Definition plain_path (path : string) : Prop := all_bytes unit_path_byte path = true /\ display path = path.

Lemma render_systemd_ok executable config_path text :
  render_systemd_unit executable config_path = Ok text ->
  plain_path executable /\ plain_path config_path /\
  text = join (String NL EmptyString) (unit_lines executable config_path).
Proof.
  unfold render_systemd_unit. destruct (negb _ || _); [done|]. destruct (negb (forallb _ _)) eqn:Ep; [done|].
  intros [= <-]. apply negb_false_iff in Ep. cbn [forallb] in Ep.
  apply andb_true_iff in Ep as [He [Hc _]%andb_true_iff]. unfold plain_path.
  pose proof (display_plain _ He) as Hde. pose proof (display_plain _ Hc) as Hdc. rewrite Hde in He. by rewrite Hdc in Hc.
Qed.

Lemma unit_lines_split executable config_path :
  plain_path executable -> plain_path config_path ->
  split NL (join (String NL EmptyString) (unit_lines executable config_path)) = unit_lines executable config_path.
Proof.
  intros [He Hde] [Hc Hdc]. apply split_join; [done|]. unfold unit_lines. rewrite Hde, Hdc.
  assert (Hline : NL ∉ bytes_of ("ExecStart=" +:+ executable +:+ " run --config " +:+ config_path)).
  { rewrite !bytes_of_app, !not_elem_of_app. split_and!; try by apply plain_path_no.
    all: apply contains_char_false; by vm_compute. }
  repeat (constructor; [first [exact Hline|apply contains_char_false; by vm_compute]|]). constructor.
Qed.

Lemma unit_commands_exact executable config_path text :
  render_systemd_unit executable config_path = Ok text ->
  unit_commands text = [[executable; "run"; "--config"; config_path]] /\ display config_path = config_path.
Proof.
  intros (He & Hc & ->)%render_systemd_ok. split; [|apply Hc].
  unfold unit_commands. rewrite unit_lines_split by done. destruct He as [He Hde], Hc as [Hc Hdc].
  unfold unit_lines. rewrite Hde, Hdc. set (command := executable +:+ " run --config " +:+ config_path).
  assert (Hs : strip_prefix "ExecStart=" ("ExecStart=" +:+ command) = Some command) by by apply strip_prefix_spec.
  cbn [omap list_omap]. rewrite Hs. cbn. f_equal. subst command.
  change (" run --config " +:+ config_path) with (String " " ("run" +:+ String " " ("--config" +:+ String " " config_path))).
  rewrite split_app_sep by by apply plain_path_no.
  rewrite split_app_sep by (apply contains_char_false; by vm_compute).
  rewrite split_app_sep by (apply contains_char_false; by vm_compute).
  by rewrite split_single by by apply plain_path_no.
Qed.

(** Escaping byte by byte, and the reader of the escaped text. *)
Definition escape_byte (a : ascii) : string :=
  if Ascii.eqb a "&"%char then "&amp;" else if Ascii.eqb a "<"%char then "&lt;"
  else if Ascii.eqb a ">"%char then "&gt;" else if Ascii.eqb a QUOTE then "&quot;"
  else if Ascii.eqb a APOSTROPHE then "&apos;" else String a EmptyString.

Definition entities : list (string * ascii) :=
  [("&amp;", "&"%char); ("&lt;", "<"%char); ("&gt;", ">"%char); ("&quot;", QUOTE); ("&apos;", APOSTROPHE)].

Definition read_entity (s : string) : option (ascii * string) :=
  head (omap (fun e : string * ascii => (fun rest => (e.2, rest)) <$> strip_prefix e.1 s) entities).

Fixpoint xml_unescape (fuel : nat) (s : string) : string :=
  match fuel, s with
  | S fuel, String a rest =>
      match read_entity s with
      | Some (c, rest) => String c (xml_unescape fuel rest)
      | None => String a (xml_unescape fuel rest)
      end
  | _, _ => EmptyString
  end.

Definition xml_text (s : string) : string := xml_unescape (String.length s) s.

(** The text of the [<string>] elements of a property list. *)
Definition plist_strings (text : string) : list string :=
  xml_text <$> omap (strip_prefix "string>") (split "<"%char text).

Lemma replace_byte_app c by_ s t : replace_byte c by_ (s +:+ t) = replace_byte c by_ s +:+ replace_byte c by_ t.
Proof.
  induction s as [|a s IH]; [done|]. rewrite str_app_cons. cbn [replace_byte]. by rewrite IH, str_app_assoc.
Qed.

Lemma xml_escape_cons a s : xml_escape (String a s) = escape_byte a +:+ xml_escape s.
Proof.
  change (String a s) with (String a EmptyString +:+ s). unfold xml_escape. rewrite !replace_byte_app. f_equal.
  unfold escape_byte. cbn [replace_byte].
  destruct (Ascii.eqb_spec a "&"%char) as [->|H1]; [by vm_compute|]. rewrite str_app_nil_r. cbn [replace_byte].
  destruct (Ascii.eqb_spec a "<"%char) as [->|H2]; [by vm_compute|]. rewrite str_app_nil_r. cbn [replace_byte].
  destruct (Ascii.eqb_spec a ">"%char) as [->|H3]; [by vm_compute|]. rewrite str_app_nil_r. cbn [replace_byte].
  destruct (Ascii.eqb_spec a QUOTE) as [->|H4]; [by vm_compute|]. rewrite str_app_nil_r. cbn [replace_byte].
  destruct (Ascii.eqb_spec a APOSTROPHE) as [->|H5]; [by vm_compute|]. by rewrite str_app_nil_r.
Qed.

Lemma read_escaped a s : 
  read_entity (escape_byte a +:+ s) = (if bool_decide (escape_byte a = String a EmptyString) then None else Some (a, s)).
Proof.
  unfold escape_byte.
  destruct (Ascii.eqb_spec a "&"%char) as [->|H1]; [done|].
  destruct (Ascii.eqb_spec a "<"%char) as [->|H2]; [done|].
  destruct (Ascii.eqb_spec a ">"%char) as [->|H3]; [done|].
  destruct (Ascii.eqb_spec a QUOTE) as [->|H4]; [done|].
  destruct (Ascii.eqb_spec a APOSTROPHE) as [->|H5]; [done|].
  rewrite bool_decide_true by done. rewrite str_app_cons, str_app_nil_l. unfold read_entity, entities.
  cbn [omap list_omap strip_prefix fst snd]. destruct (Ascii.eqb_spec "&"%char a); [congruence|done].
Qed.

Lemma escape_byte_cons a : exists b t, escape_byte a = String b t.
Proof. unfold escape_byte. repeat case_match; eauto. Qed.

Lemma unescape_escape s fuel : String.length (xml_escape s) <= fuel -> xml_unescape fuel (xml_escape s) = s.
Proof.
  revert fuel. induction s as [|a s IH]; intros fuel; [by destruct fuel|]. rewrite xml_escape_cons.
  pose proof (read_escaped a (xml_escape s)) as Hread. destruct (escape_byte_cons a) as (b & t & Hb). rewrite Hb in *.
  rewrite str_length_app. cbn [String.length]. destruct fuel as [|fuel]; [lia|]. intros Hlen.
  rewrite str_app_cons in *. cbn [xml_unescape]. rewrite Hread. case_bool_decide as Heq.
  - injection Heq as -> ->. rewrite str_app_nil_l. rewrite IH; [done|]. cbn in Hlen. lia.
  - rewrite IH; [done|lia].
Qed.

Lemma escape_no_open s : "<"%char ∉ bytes_of (xml_escape s).
Proof.
  induction s as [|a s IH]; [apply not_elem_of_nil|]. rewrite xml_escape_cons, bytes_of_app, not_elem_of_app.
  split; [|done]. apply contains_char_false. unfold escape_byte.
  destruct (Ascii.eqb_spec a "&"%char) as [->|H1]; [by vm_compute|].
  destruct (Ascii.eqb_spec a "<"%char) as [->|H2]; [by vm_compute|].
  repeat case_match; try by vm_compute. apply contains_char_false. cbn. set_solver.
Qed.

(** The property list cut at every opening bracket. *)
Definition plist_pieces (label executable config : string) : list string :=
  ["?xml version=" +:+ quoted "1.0" +:+ " encoding=" +:+ quoted "UTF-8" +:+ "?>" +:+ String NL EmptyString;
   "!DOCTYPE plist PUBLIC " +:+ quoted "-//Apple//DTD PLIST 1.0//EN" +:+ " "
     +:+ quoted "http://www.apple.com/DTDs/PropertyList-1.0.dtd" +:+ ">" +:+ String NL EmptyString;
   "plist version=" +:+ quoted "1.0" +:+ ">"; "dict>"; "key>Label"; "/key>"; "string>" +:+ label; "/string>";
   "key>ProgramArguments"; "/key>"; "array>"; "string>" +:+ executable; "/string>"; "string>run"; "/string>";
   "string>--config"; "/string>"; "string>" +:+ config; "/string>"; "/array>"; "/dict>";
   "/plist>" +:+ String NL EmptyString].

Lemma plist_text_pieces label executable config :
  plist_text label executable config = String "<"%char (join "<" (plist_pieces label executable config)).
Proof. unfold plist_text, plist_pieces. cbn [join]. rewrite !str_app_assoc. reflexivity. Qed.

Lemma plist_strings_raw label executable config :
  Forall (fun s => "<"%char ∉ bytes_of s) [label; executable; config] ->
  plist_strings (plist_text label executable config) = xml_text <$> [label; executable; "run"; "--config"; config].
Proof.
  intros [Hl [He [Hc _]%Forall_cons]%Forall_cons]%Forall_cons. unfold plist_strings. rewrite plist_text_pieces. f_equal.
  cbn [split]. rewrite Ascii.eqb_refl. rewrite split_join; [reflexivity|done|]. unfold plist_pieces.
  repeat (constructor; [rewrite ?bytes_of_app, ?not_elem_of_app; split_and?; try done;
                        apply contains_char_false; by vm_compute|]). constructor.
Qed.

Lemma xml_text_escape s : xml_text (xml_escape s) = s.
Proof. by apply unescape_escape. Qed.

Lemma plist_strings_exact label executable config :
  plist_strings (plist_text (xml_escape label) (xml_escape executable) (xml_escape config)) =
  [label; executable; "run"; "--config"; config].
Proof.
  rewrite plist_strings_raw by (repeat constructor; apply escape_no_open).
  rewrite !fmap_cons, !xml_text_escape. reflexivity.
Qed.

Lemma utf8_displays path text : from_utf8 path = Some text -> text = path /\ display path = path.
Proof.
  unfold from_utf8, display, from_utf8_lossy. destruct (forallb fst (pieces path)) eqn:Ev; [|done]. intros [= <-].
  split; [done|]. rewrite <- (chars_concat path) at 2. unfold chars. f_equal.
  induction (pieces path) as [|[valid piece] l IH]; [done|]. cbn [forallb fst] in Ev.
  apply andb_true_iff in Ev as [-> Ev]. csimpl. by rewrite IH.
Qed.

Lemma xml_ok s t : xml s = Ok t -> t = xml_escape s.
Proof. unfold xml. destruct (existsb _ _); [done|]. by intros [= <-]. Qed.

Lemma render_launchd_ok label executable config_path text :
  render_launchd_plist label executable config_path = Ok text ->
  label = SERVICE_ID /\ display config_path = config_path /\
  text = plist_text (xml_escape label) (xml_escape executable) (xml_escape config_path).
Proof.
  unfold render_launchd_plist. destruct (negb _ || _ || _) eqn:Eg; [done|].
  apply orb_false_iff in Eg as [[Hlabel _]%orb_false_iff _]. apply negb_false_iff, String.eqb_eq in Hlabel.
  unfold ok_or. destruct (from_utf8 executable) as [e|] eqn:Ee; [|done]. apply utf8_displays in Ee as [-> _].
  destruct (from_utf8 config_path) as [c|] eqn:Ec; [|done]. apply utf8_displays in Ec as [-> Hc].
  destruct (xml label) as [l|] eqn:El; [|done]. destruct (xml executable) as [x|] eqn:Ex; [|done].
  destruct (xml config_path) as [y|] eqn:Ey; [|done]. apply xml_ok in El as ->, Ex as ->, Ey as ->.
  by intros [= <-].
Qed.

Lemma service_spec_ok `{EggupLaws} executable config_path spec :
  service_spec_for_install executable (Some config_path) = Ok spec ->
  is_absolute executable = true /\ is_absolute config_path = true /\
  spec = {| sp_id := SERVICE_ID; sp_executable := executable; sp_args := ["run"; "--config"; display config_path];
            sp_config := Some config_path |}.
Proof.
  unfold service_spec_for_install, map_err. intros Hs. repeat case_match; try done. injection Hs as ->.
  bool_hyps. split_and!; [done..|]. by apply spec_as_given.
Qed.


(** ** Updates *)

(** What [CandidateSource::validate] demands. *)
Record candidate_valid (lstat : string -> result IoError Stat) (c : CandidateSource) : Prop := {
  cv_member : cs_member c = MEMBER_DAEMON \/ cs_member c = MEMBER_HELPER;
  cv_source : is_absolute (cs_source c) = true;
  cv_destination : cs_destination c <> EmptyString /\ is_absolute (cs_destination c) = false;
  cv_below : ".." ∉ split "/"%char (cs_destination c);
  cv_file : exists st, lstat (cs_source c) = Ok st /\ md_is_file (st_meta st) = true /\ md_is_symlink (st_meta st) = false /\
    st_len st <> 0%Z /\ (st_len st <= MAX_CANDIDATE_BYTES)%Z;
}.

Lemma join_suffix sep l1 part l2 : exists p r, join sep (l1 ++ part :: l2) = p +:+ part +:+ r.
Proof.
  induction l1 as [|x l1 (p & r & IH)].
  - destruct l2 as [|y l2]; [exists EmptyString, EmptyString; cbn; by rewrite str_app_nil_r|].
    exists EmptyString. eexists. reflexivity.
  - exists (x +:+ sep +:+ p), r. rewrite !str_app_assoc, <- IH. cbn [app]. by destruct l1.
Qed.

Lemma split_part_contained c s part : part ∈ split c s -> str_contains part s = true.
Proof.
  intros Hin. apply str_contains_spec. apply list_elem_of_split in Hin as (l1 & l2 & Hl).
  rewrite <- (join_split c s), Hl. apply join_suffix.
Qed.

Lemma validate_candidate_ok lstat c : validate_candidate lstat c = Ok tt -> candidate_valid lstat c.
Proof.
  unfold validate_candidate. intros Hv.
  destruct (negb (String.eqb _ _) && _) eqn:Em; [done|]. destruct (negb (is_absolute (cs_source c))) eqn:Es; [done|].
  destruct (is_empty _ || _ || _) eqn:Ed; [done|]. destruct (lstat (cs_source c)) as [st|] eqn:El; [|done].
  destruct (negb (md_is_file _) || _) eqn:Ef; [done|]. destruct ((st_len st =? 0)%Z || _) eqn:En; [done|].
  bool_hyps. constructor.
  - apply andb_false_iff in Em as [Em|Em]; apply negb_false_iff, String.eqb_eq in Em; auto.
  - done.
  - split; [|done]. by destruct (cs_destination c).
  - intros Hin%split_part_contained. congruence.
  - exists st. split_and!; try done; lia.
Qed.

(** Bytes of an error's detail: 256 characters of at most four. *)
Definition bounded (e : DeploymentError) : Prop := (str_len (de_detail e) <= 1024)%Z.

Lemma utf8_next_le s : (utf8_next s).2 <= 4.
Proof. unfold utf8_next. repeat case_match; cbn; lia. Qed.

Lemma str_take_short n s : String.length (str_take n s) <= n.
Proof. revert n. induction s as [|a s IH]; intros [|n]; cbn; try lia. specialize (IH n). lia. Qed.

Lemma chars_short s : Forall (fun c => String.length c <= 4) (chars s).
Proof.
  unfold chars, pieces. generalize (String.length s). intros fuel. revert s.
  induction fuel as [|fuel IH]; intros [|a s]; [constructor..|]. cbn [utf8_pieces].
  pose proof (utf8_next_le (String a s)). destruct (utf8_next (String a s)) as [valid n]. csimpl. cbn [snd] in *.
  constructor; [|apply IH]. pose proof (str_take_short n (String a s)). lia.
Qed.

Lemma take_chars_length n s : String.length (take_chars n s) <= 4 * n.
Proof.
  unfold take_chars. pose proof (chars_short s) as Hs. revert n. induction Hs as [|c l Hc Hl IH]; intros [|n]; cbn; try lia.
  specialize (IH n). change (foldr String.append EmptyString (take n l)) with (concat_strings (take n l)).
  change (c ++ concat_strings (take n l))%string with (c +:+ concat_strings (take n l)). rewrite str_length_app. lia.
Qed.

Lemma bounded_new kind detail : bounded (deployment_error kind detail).
Proof.
  unfold bounded, deployment_error, str_len. cbn [de_detail].
  destruct (Z.ltb_spec 256 (Z.of_nat (String.length detail))) as [Hlt|Hge]; [|lia].
  pose proof (take_chars_length 256 detail). lia.
Qed.

Lemma bounded_note active e : bounded e -> bounded (note_drain_remains active e).
Proof.
  unfold note_drain_remains. destruct (negb active || _); [done|]. intros _.
  assert (length (chars SUFFIX) = 53) as -> by reflexivity. unfold bounded, str_len. cbn [de_detail].
  rewrite str_length_app. assert (String.length SUFFIX = 53) as -> by reflexivity.
  pose proof (take_chars_length (256 - 53) (de_detail e)). lia.
Qed.

Lemma note_contains e : str_contains SUFFIX (de_detail (note_drain_remains true e)) = true.
Proof.
  unfold note_drain_remains. cbn [negb orb]. destruct (str_contains SUFFIX (de_detail e)) eqn:Ec; [done|].
  apply str_contains_spec. cbn [de_detail]. eexists _, EmptyString. by rewrite str_app_nil_r.
Qed.

#[export] Hint Resolve bounded_new bounded_note : egg.

Ltac bounded_cases := repeat case_match; simplify_eq; eauto with egg.

Lemma validate_candidate_err lstat c e : validate_candidate lstat c = Err e -> bounded e.
Proof. unfold validate_candidate. intros. bounded_cases. Qed.

Lemma validate_all_err lstat l e : for_each (validate_candidate lstat) l = Err e -> bounded e.
Proof.
  induction l as [|c l IH]; [done|]. cbn. destruct (validate_candidate lstat c) eqn:Ev; [done|].
  intros [= <-]. by eapply validate_candidate_err.
Qed.

Lemma wait_ok active slack policy :
  wait_for_quiescence active slack policy = Ok tt ->
  up_force policy = true \/ exists i, quiescent_at active slack (up_drain_timeout policy) i.
Proof.
  destruct (up_force policy) eqn:Ef; [by left|]. right.
  destruct (wait_cases active slack _ policy Ef eq_refl) as (k & _ & [[Hr Hq]|[Hr _]]); [by exists k|congruence].
Qed.

Lemma wait_err active slack policy e : wait_for_quiescence active slack policy = Err e -> bounded e.
Proof.
  destruct (up_force policy) eqn:Ef; [unfold wait_for_quiescence; by rewrite Ef|].
  destruct (wait_cases active slack _ policy Ef eq_refl) as (k & _ & [[-> _]|[-> _]]); [done|].
  intros [= <-]. apply bounded_new.
Qed.

Section update_facts.
Context `{EggupLaws}.

Lemma build_members_err lstat l e : build_members lstat l = Err e -> bounded e.
Proof.
  induction l as [|c l IH]; [done|]. cbn [build_members].
  destruct (build_member lstat c) as [m|e1] eqn:Em.
  - destruct (build_members lstat l) as [|e1]; [done|]. intros [= ->]. by apply IH.
  - intros [= <-]. unfold build_member, map_err, eggup_error in Em.
    destruct (validate_candidate lstat c) eqn:Ev; [|injection Em as <-; by eapply validate_candidate_err].
    bounded_cases.
Qed.

Lemma build_install_plan_err lstat root release l e : build_install_plan lstat root release l = Err e -> bounded e.
Proof.
  unfold build_install_plan, map_err, eggup_error. destruct l as [|c l]; [intros [= <-]; eauto with egg|].
  intros Hp. destruct (build_members lstat (c :: l)) eqn:Em; bounded_cases. by eapply build_members_err.
Qed.

Lemma stage_plan_live plan h :
  let out := stage_plan plan h in live out.2 = live h /\ forall e, out.1 = Err e -> bounded e.
Proof.
  cbv zeta. unfold stage_plan, act_bind, eggup_call, map_err, eggup_error.
  pose proof (prepare_keeps_live plan h) as Hp. destruct (prepare plan h) as [[p|e0] h1]; cbn in Hp.
  2: { split; [done|]. intros e [= <-]. eauto with egg. }
  pose proof (verify_keeps_live p h1) as Hv. destruct (verify_integrity p h1) as [[v|e0] h2]; cbn in Hv.
  2: { cbn. split; [congruence|]. intros e [= <-]. eauto with egg. }
  pose proof (validate_keeps_live v h2) as Hl. destruct (validate_all v h2) as [[w|e0] h3]; cbn in *.
  all: split; [congruence|]; intros e; try done. intros [= <-]. eauto with egg.
Qed.

(** The drain marker of the request, if it names a file, is set. *)
Definition left_draining (r : UpdateRequest) (fs : files_at) : Prop :=
  forall m, ur_drain_marker r = Some m -> is_Some (file_name m) -> is_persistently_draining m fs = true.

(** How an update ends. *)
Inductive update_stage (o : UpdateOutside) (r : UpdateRequest) (fs : files_at) (h : Host)
  : result DeploymentError Receipt -> files_at -> Host -> Prop :=
| stage_refused e h' : bounded e -> live h' = live h -> update_stage o r fs h (Err e) fs h'
| stage_marker m fs' h' :
    ur_drain_marker r = Some m -> live h' = live h -> update_stage o r fs h (Err marker_error) fs' h'
| stage_waited e fs' h' :
    left_draining r fs' ->
    live h' = live h -> wait_for_quiescence (uo_active o) (uo_slack o) (ur_policy r) = Err e ->
    update_stage o r fs h (Err (note_drain_remains (is_some (ur_drain_marker r)) e)) fs' h'
| stage_committed fs' h1 h' manager verifier validated answer :
    Forall (candidate_valid (uo_lstat o)) (ur_sources r) ->
    left_draining r fs' ->
    wait_for_quiescence (uo_active o) (uo_slack o) (ur_policy r) = Ok tt -> live h1 = live h ->
    commit_with_lifecycle manager (ur_spec r) validated verifier
      {| lp_post_commit_failure := up_post_commit (ur_policy r); lp_quiesce_timeout := 30000;
         lp_post_commit_timeout := up_health_timeout (ur_policy r); lp_rollback_restore_timeout := 30000 |}
      (one_shot_check (uo_health_check o)) h1 = (answer, h') ->
    update_stage o r fs h
      (map_err (fun e => note_drain_remains (is_some (ur_drain_marker r)) (lifecycle_error e)) answer) fs' h'.

(** A commit that ended on this host told that its artifacts need recovery. *)
Definition needs_recovery (h : Host) : Prop :=
  exists manager spec validated verifier policy check h0 answer,
    commit_with_lifecycle manager spec validated verifier policy check h0 = (answer, h) /\ recovery_required answer = true.

(** Under [RollBack], members change only behind the post-install check. *)
Lemma stage_checked o r fs h res fs' h' :
  update_stage o r fs h res fs' h' -> up_post_commit (ur_policy r) = RollBack ->
  live h' = live h \/ needs_recovery h' \/
  left_draining r fs' /\ wait_for_quiescence (uo_active o) (uo_slack o) (ur_policy r) = Ok tt /\
  exists remaining, remaining <> 0%Z /\ uo_health_check o remaining = Ok tt.
Proof.
  intros [e h1 Hb Hl|m fs1 h1 Hm Hl|e fs1 h1 Hd Hl Hw|fs1 h1 h2 mg v w answer Hv Hd Hw Hl Hc] Hroll; auto.
  match type of Hc with commit_with_lifecycle _ _ _ _ ?p ?c _ = _ =>
    pose proof (rolls_back mg (ur_spec r) w v p c h1 Hroll) as Hr end.
  cbv zeta in Hr. rewrite Hc in Hr. cbn [fst snd] in Hr. destruct Hr as [Hsame|[Hrec|[remaining Hok]]].
  - left. congruence.
  - right; left. repeat eexists; eauto.
  - right; right. split_and!; [done..|]. exists remaining. unfold one_shot_check in Hok.
    destruct (Z.eqb_spec remaining 0); [done|]. done.
Qed.

(** What a compatible helper is. *)
Lemma helper_compatible {P} euid (lstat : P -> result IoError Metadata) run helper expected timeout :
  compatible (check_helper_compatibility_with_timeout euid lstat run (Some helper) expected timeout) = true ->
  timeout <> 0%Z /\
  (exists md, lstat helper = Ok md /\ md_is_file md = true /\ md_is_symlink md = false /\
     (md_uid md = 0 \/ md_uid md = euid)%Z /\ mode_has md 18 = false /\ mode_has md 73 = true) /\
  exists stdout, run helper timeout = Some (true, stdout) /\ Std.trim (from_utf8_lossy stdout) = expected.
Proof.
  unfold check_helper_compatibility_with_timeout. destruct (Z.eqb_spec timeout 0); [done|].
  destruct (lstat helper) as [md|[]]; [|done..]. destruct (negb (md_is_file md) || _) eqn:Ef; [done|].
  destruct (_ || mode_has md 18) eqn:Eo; [done|]. destruct (negb (mode_has md 73)) eqn:Ex; [done|].
  destruct (run helper timeout) as [[success stdout]|]; [|done]. destruct success; [|done]. cbn [negb].
  destruct (is_empty _ || _ || _); [done|]. destruct (String.eqb_spec (Std.trim (from_utf8_lossy stdout)) expected); [|done].
  intros _. bool_hyps. split_and!; [done| |eauto]. exists md. split_and!; try done.
  match goal with Hu : _ && _ = false |- _ => apply andb_false_iff in Hu as [Hu|Hu] end; bool_hyps; lia.
Qed.

(** What a matching version report is. *)
Lemma version_matched from_str stdout expected v :
  check_installed_daemon_version from_str stdout expected = Matched v ->
  (str_len stdout <= MAX_VERSION_PROBE_BYTES)%Z /\
  exists text report, from_utf8 stdout = Some text /\ from_str (Std.trim text) = Some report /\
    json_get "version" report ≫= json_as_str = Some expected.
Proof.
  unfold check_installed_daemon_version.
  destruct (Z.ltb_spec MAX_VERSION_PROBE_BYTES (str_len stdout)) as [|Hlen]; [done|]. split; [lia|].
  destruct (from_utf8 stdout) as [text|]; [|done]. destruct (from_str (Std.trim text)) as [report|] eqn:Ef; [|done].
  destruct (json_get "version" report ≫= json_as_str) as [reported|] eqn:Er; [|done].
  destruct (String.eqb_spec reported expected) as [->|]; [|done]. eauto.
Qed.

Lemma set_marker_draining o drain_marker fs h :
  let out := set_marker o drain_marker (fs, h) in
  out.2.2 = h /\
  (out.1 = Err marker_error /\ is_Some drain_marker \/
   out.1 = Ok tt /\
   forall m, drain_marker = Some m -> is_Some (file_name m) -> is_persistently_draining m out.2.1 = true).
Proof.
  cbv zeta. unfold set_marker. destruct drain_marker as [marker|]; [|cbn; naive_solver]. cbn [fst snd].
  pose proof (drain_written (uo_drain_fails o) (uo_uuid o) (uo_partial o) marker fs) as Hw.
  destruct (set_persistent_drain _ _ _ _ _ _) as [[[]|e] fs']; cbn in *; split; eauto.
  right. split; [done|]. intros m [= <-] Hname. destruct (Hw Hname) as (Hok & _ & _). cbn in Hok.
  unfold is_persistently_draining. by rewrite Hok.
Qed.

Lemma candidates_valid lstat l : for_each (validate_candidate lstat) l = Ok tt -> Forall (candidate_valid lstat) l.
Proof. intros Hok%for_each_ok. eapply Forall_impl; [exact Hok|]. intros c. apply validate_candidate_ok. Qed.

Lemma update_stages o manager verifier r fs h :
  let '(res, (fs', h')) := orchestrate_update_with_lifecycle_budgeted o manager verifier r (fs, h) in
  update_stage o r fs h res fs' h'.
Proof.
  unfold orchestrate_update_with_lifecycle_budgeted, act_bind, of_result.
  destruct (for_each _ _) as [[]|e] eqn:Ev; [|constructor; [by eapply validate_all_err|done]].
  destruct (build_install_plan _ _ _ _) as [plan|e] eqn:Ep; [|constructor; [by eapply build_install_plan_err|done]].
  unfold on_host at 1. cbn [fst snd]. destruct (stage_plan_live plan h) as [Hlive Herr].
  destruct (stage_plan plan h) as [[v|e] h1]; cbn [fst snd] in *; [|constructor; auto].
  destruct (set_marker_draining o (ur_drain_marker r) fs h1) as [Hh Hm].
  destruct (set_marker o (ur_drain_marker r) (fs, h1)) as [rm [fs' h2]]. cbn [fst snd] in *. subst h2.
  destruct Hm as [[-> [m Hm]]|[-> Hd]]; [by eapply stage_marker|].
  destruct (wait_for_quiescence _ _ _) as [[]|e] eqn:Ew; cbn [map_err]; [|by apply stage_waited].
  unfold on_host. cbn [fst snd]. destruct (commit_with_lifecycle _ _ _ _ _ _ h1) as [answer h'] eqn:Ec.
  eapply stage_committed; [by apply candidates_valid|done|done|done|exact Ec].
Qed.

End update_facts.

(** C6: an update fails closed.  Live members change only if every candidate
    is valid (a known member, an absolute regular file of bounded size, a
    destination below the installation root), the drain marker asked for is on
    disk, and the node was forced or seen quiescent within the timeout.  An
    error either changed neither the drain marker nor the members, or is the
    failure to set the marker, or comes after the marker was set, and then it
    says that the node is left draining; every error's detail is bounded. *)
Theorem update_fails_closed `{EggupLaws} (o : UpdateOutside) (manager : Manager) (verifier : Verifier) (r : UpdateRequest)
    (fs : files_at) (h : Host) :
  (forall m, ur_drain_marker r = Some m -> is_Some (file_name m)) ->
  let '(res, (fs', h')) := orchestrate_update_with_lifecycle_budgeted o manager verifier r (fs, h) in
  let draining := forall m, ur_drain_marker r = Some m -> is_persistently_draining m fs' = true in
  (live h' = live h \/
   Forall (candidate_valid (uo_lstat o)) (ur_sources r) /\ draining /\
   (up_force (ur_policy r) = true \/
    exists i, quiescent_at (uo_active o) (uo_slack o) (up_drain_timeout (ur_policy r)) i)) /\
  (forall e, res = Err e ->
     bounded e /\
     (fs' = fs /\ live h' = live h \/ e = marker_error /\ live h' = live h \/
      draining /\ (is_Some (ur_drain_marker r) -> str_contains SUFFIX (de_detail e) = true))).
Proof.
  intros Hname. pose proof (update_stages o manager verifier r fs h) as Hs.
  destruct (orchestrate_update_with_lifecycle_budgeted _ _ _ _ _) as [res [fs' h']].
  assert (Hnote : forall e, is_Some (ur_drain_marker r) ->
            str_contains SUFFIX (de_detail (note_drain_remains (is_some (ur_drain_marker r)) e)) = true).
  { intros e [m ->]. apply note_contains. }
  assert (Hdrain : forall fs', left_draining r fs' -> forall m, ur_drain_marker r = Some m -> is_persistently_draining m fs' = true).
  { intros fs1 Hd m Hm. apply Hd; auto. }
  destruct Hs as [e h' Hb Hl|m fs' h' Hm Hl|e fs' h' Hd Hl Hw|fs' h1 h' mg v w answer Hv Hd Hw Hl Hc].
  - split; [by left|]. intros e' [= <-]. auto.
  - split; [by left|]. intros e' [= <-]. split; [apply bounded_new|]. auto.
  - split; [by left|]. intros e' [= <-]. split; [|by auto]. apply bounded_note.
    by eapply wait_err.
  - split; [right; split_and!; [done|by auto|by apply wait_ok]|].
    intros e' He. destruct answer as [a|e]; [done|]. injection He as <-. split; [|by auto].
    apply bounded_note, bounded_new.
Qed.

(** ** A concrete host *)

Module Release.
(** A host that installs what it is given: a member is its destination and
    digest, and a commit keeps the new members only behind a passed check
    unless told otherwise. *)
#[export] Instance eggup : Eggup := {|
  Host := gmap string string;
  live h := h;
  inspect_host _ := Ok {| hf_os := "linux"; hf_systemd_available := true; hf_launchd_available := false;
                          hf_crontab_available := false |};
  candidate_managers _ := ["Systemd"];
  Manager := unit;
  systemd_install _ := Ok tt;
  launchd_install _ := Ok tt;
  inspect _ _ _ := Ok {| ls_ownership := "Owned"; ls_state := "Running" |};
  service_call _ _ _ h := (Ok {| tr_completed := true; tr_detail := EmptyString |}, h);
  Member := string * string;
  ArtifactSet := list (string * string);
  Plan := list (string * string);
  Prepared := list (string * string);
  Verified := list (string * string);
  Validated := list (string * string);
  Verifier := unit;
  exact_digests _ := tt;
  Transaction := unit;
  Receipt := unit;
  transaction r := r;
  recovery_required _ := false;
  service_id_ok _ := true;
  service_spec := Ok;
  product_id_ok _ := true;
  release_id_ok s := negb (is_empty s);
  member_id := Ok;
  hash_file s := Ok ("sha256 of " +:+ s);
  artifact_member _ _ destination := Ok (destination, EmptyString);
  with_integrity m digest := (m.1, digest);
  artifact_set := Ok;
  install_plan _ _ _ set := Ok set;
  prepare p h := (Ok p, h);
  verify_integrity p h := (Ok p, h);
  validate_all p h := (Ok p, h);
  commit_with_lifecycle _ _ members _ policy check h :=
    match lp_post_commit_failure policy, (check false (lp_post_commit_timeout policy)).1 with
    | RollBack, Err _ => (Ok tt, h)
    | _, _ => (Ok tt, list_to_map members ∪ h)
    end;
  AbsentPolicy := unit;
  commit members _ _ h := (Ok tt, list_to_map members ∪ h);
  commit_with_post_commit members _ _ policy answer h :=
    match policy, answer with RollBack, Err _ => (Ok tt, h) | _, _ => (Ok tt, list_to_map members ∪ h) end;
|}.

#[export] Instance eggup_laws : EggupLaws.
Proof.
  constructor; try done.
  - intros spec spec' [= ->]. done.
  - intros manager spec v verifier policy check h Hp. cbn. rewrite Hp.
    destruct (check false (lp_post_commit_timeout policy)).1 as [[]|] eqn:Ec; [|by left]. right; right. eauto.
Qed.

Definition marker : PathBuf := path_of "/var/lib/eggwork/node.drain".
Definition regular : Stat :=
  {| st_meta := {| md_is_file := true; md_is_dir := false; md_is_symlink := false; md_uid := 0; md_mode := 493 |};
     st_len := 4096 |}.

Definition request (force : bool) : UpdateRequest := {|
  ur_spec := {| sp_id := SERVICE_ID; sp_executable := "/opt/eggwork/bin/eggworkd"; sp_args := ["run"]; sp_config := None |};
  ur_installation_root := "/opt/eggwork"; ur_release := "0.2.0";
  ur_sources := [{| cs_member := MEMBER_DAEMON; cs_source := "/tmp/eggworkd"; cs_destination := DEST_DAEMON |}];
  ur_drain_marker := Some marker;
  ur_policy := {| up_drain_timeout := 250; up_health_timeout := 1000; up_force := force; up_post_commit := RollBack |} |}.

(** The node is busy until poll [idle]. *)
Definition outside (idle : nat) : UpdateOutside := {|
  uo_lstat _ := Ok regular; uo_drain_fails _ := false; uo_uuid := "u"; uo_partial := EmptyString;
  uo_active i := if (i <? idle)%nat then 1%Z else 0%Z; uo_slack _ := 5%N; uo_health_check _ := Ok tt |}.

Definition no_files : files_at := ∅.
Definition bare : Host := (∅ : gmap string string).
Definition update (idle : nat) : result DeploymentError Receipt * (files_at * Host) :=
  orchestrate_update_with_lifecycle_budgeted (outside idle) tt tt (request false) (no_files, bare).

(** The third poll is inside 250 ms, the fourth is not. *)
Example update_examples :
  (update 2).1 = Ok tt /\ live (update 2).2.2 !! DEST_DAEMON = Some "sha256 of /tmp/eggworkd" /\
  (update 9).1 = Err (note_drain_remains true timed_out) /\ (update 9).2.2 = bare /\
  is_persistently_draining marker (update 9).2.1 = true.
Proof. split_and!; by vm_compute. Qed.
End Release.


Lemma outcome_parts {A B C} (p : A * (B * C)) a (Q : B -> Prop) :
  p.1 = a -> Q p.2.1 -> exists b c, p = (a, (b, c)) /\ Q b.
Proof. destruct p as [x [b c]]. cbn. intros -> HQ. by exists b, c. Qed.

Lemma busy_update :
  exists fs h,
  orchestrate_update_with_lifecycle_budgeted (H := Release.eggup) (Release.outside 9) tt tt (Release.request false)
    (Release.no_files, Release.bare) = (Err (note_drain_remains true timed_out), (fs, h)) /\
  is_persistently_draining Release.marker fs = true.
Proof. apply (outcome_parts _ _ (fun fs => is_persistently_draining Release.marker fs = true)); vm_compute; reflexivity. Qed.

Lemma marker_error_other : note_drain_remains true timed_out <> marker_error.
Proof. by vm_compute. Qed.

Lemma update_fails_closed_witness :
  exists fs h,
  orchestrate_update_with_lifecycle_budgeted (H := Release.eggup) (Release.outside 9) tt tt (Release.request false)
    (Release.no_files, Release.bare) = (Err (note_drain_remains true timed_out), (fs, h)) /\
  str_contains SUFFIX (de_detail (note_drain_remains true timed_out)) = true.
Proof.
  destruct busy_update as (fs & h & He & Hd). exists fs, h. split; [exact He|].
  pose proof (update_fails_closed (H0 := Release.eggup_laws) (Release.outside 9) tt tt (Release.request false)
    Release.no_files Release.bare) as Hc.
  rewrite He in Hc. destruct Hc as [_ Hc]; [intros m [= <-]; eexists; reflexivity|].
  destruct (Hc _ eq_refl) as (_ & [[Hfs _]|[[Hm _]|[_ Hs]]]).
  - rewrite Hfs in Hd. discriminate Hd.
  - by destruct marker_error_other.
  - apply Hs. by eexists.
Defined.
