(* ===== verification/Lifecycle.v ===== *)
(** * The life of a node

    What holds of the node of [Handlers] at every moment between its start and
    its end, whatever requests arrive, whatever fails, and however executions,
    publications and collections interleave: permits are conserved, every live
    execution has exactly one task and one record, and the workspace of a
    running execution is never up for collection.

    The invariant names two sets.  [lost] are the executions whose task ended
    without a terminal event: the store refused it, or the task panicked
    ([Node.runner_error_panics]).  [leaked] are the workspaces that a failing
    metadata operation left without an expiry.  Both are empty after a start. *)

From Stdlib Require Import Ascii String ZArith Lia.
From stdpp Require Import base gmap strings list relations.
From S2P Require Import Prelude Text Ids Wire Spec Manifest Events Store Capture Runner Routes Node Blob Workspace Artifact Storage Handlers.

Open Scope act_scope.

(** ** The invariant *)

(** What the node reads of a row, and of a record. *)
Definition row_view (row : ExecutionRow) : string * string * string := (Store.state row, lease_token_hash row, Store.principal_id row).
Definition db_view (db : Db) (key : string * Z) : option (string * string * string) := row_view <$> executions db !! key.
Definition record_view (r : ExecutionRecord) := (rec_snapshot r, rec_commit r, rec_lease_hash r).

Definition live (db : Db) (key : string * Z) : Prop := exists v, db_view db key = Some v /\ is_terminal_name v.1.1 = false.

Definition record_key (r : ExecutionRecord) : string * Z := snapshot_key (rec_snapshot r).
Definition task_key (t : Task) : string * Z := (tk_id t, as_i64 (tk_generation t)).

(** A workspace that a running execution holds. *)
Definition held_by (t : Task) (w : World) (id : string) : Prop :=
  exists row, workspaces w.1 !! id = Some row /\ wr_expires_unix_ms row = None
    /\ wr_execution_id row = tk_id t /\ as_u64 (wr_generation row) = tk_generation t.

Definition uses (t : Task) (id : string) : Prop := tk_result t = None /\ wcp_id <$> tk_workspace t = Some id.

(** The result of a task: a terminal state, and unsigned counters. *)
Definition reportable (e : ExecutionResult) : Prop :=
  is_terminal (res_state e) = true /\ Forall (fun d : string * Z => 0 <= d.2)%Z (terminal_counters e).

Section invariant.
Context `{Serde ExecutionSnapshot, Serde ExecutionEvent}.

Record NodeCore (m : Z) (lost : gset (string * Z)) (leaked : gset string) (s : NodeState) : Prop := {
  nc_db : DbInv m (ns_db s);
  nc_record id r : ns_executions s !! id = Some r ->
    Events.execution_id (rec_snapshot r) = id /\ u64_range (Events.generation (rec_snapshot r)) /\ rec_commit r = None
    /\ (is_terminal (snap_state (rec_snapshot r)) = true -> ~ live (ns_db s) (record_key r));
  nc_distinct : NoDup (task_key <$> ns_tasks s);
  nc_task t : t ∈ ns_tasks s -> live (ns_db s) (task_key t)
    /\ exists r, ns_executions s !! tk_id t = Some r /\ record_key r = task_key t
         /\ exists v, db_view (ns_db s) (task_key t) = Some v /\ rec_lease_hash r = v.1.2;
  nc_live key : live (ns_db s) key -> key ∈ task_key <$> ns_tasks s \/ key ∈ lost;
  nc_held t id : t ∈ ns_tasks s -> uses t id -> held_by t (world (ns_stores s)) id;
  nc_active id row : workspaces (world (ns_stores s)).1 !! id = Some row -> wr_expires_unix_ms row = None ->
    (exists t, t ∈ ns_tasks s /\ uses t id) \/ id ∈ leaked;
}.

Record NodeInv (cfg : NodeConfig) (m : Z) (lost : gset (string * Z)) (leaked : gset string) (s : NodeState) : Prop := {
  ni_core : NodeCore m lost leaked s;
  ni_permits : (ns_permits s + len (ns_tasks s) = nc_max_active cfg)%Z;
  ni_free : (0 <= ns_permits s)%Z;
  ni_settled t e : t ∈ ns_tasks s -> tk_result t = Some e -> reportable e;
}.

(** ** Steps that change none of it *)

(** Counters may move. *)
Record counted (db db' : Db) : Prop := {
  ct_rows : executions db' = executions db;
  ct_inv m : DbInv m db -> DbInv m db';
}.

#[export] Instance counted_preorder : PreOrder counted.
Proof. split; [by split|]. intros d1 d2 d3 [R1 I1] [R2 I2]. split; [congruence|auto]. Qed.

Lemma metrics_counted fault deltas db :
  Forall (fun d : string * Z => 0 <= d.2)%Z deltas -> counted db (increment_metrics fault deltas db).2.
Proof.
  intros Hd. split; [|intros m Hm; by apply increment_metrics_inv]. unfold increment_metrics, transaction.
  destruct (existsb _ _); [done|]. destruct deltas; [done|]. by destruct fault.
Qed.

(** Rows without an expiry stay, and no other row loses its expiry. *)
Record active_kept (w w' : World) : Prop := {
  ak_kept id row : workspaces w.1 !! id = Some row -> wr_expires_unix_ms row = None -> workspaces w'.1 !! id = Some row;
  ak_new id row : workspaces w'.1 !! id = Some row -> wr_expires_unix_ms row = None -> workspaces w.1 !! id = Some row;
}.

#[export] Instance active_kept_preorder : PreOrder active_kept.
Proof. split; [by split|]. intros w1 w2 w3 [K1 N1] [K2 N2]. split; eauto. Qed.

Record calm (s s' : NodeState) : Prop := {
  ca_permits : ns_permits s' = ns_permits s;
  ca_tasks : ns_tasks s' = ns_tasks s;
  ca_records id : record_view <$> ns_executions s' !! id = record_view <$> ns_executions s !! id;
  ca_view key : db_view (ns_db s') key = db_view (ns_db s) key;
  ca_db m : DbInv m (ns_db s) -> DbInv m (ns_db s');
  ca_active : active_kept (world (ns_stores s)) (world (ns_stores s'));
}.

#[export] Instance calm_preorder : PreOrder calm.
Proof.
  split; [by split|]. intros s1 s2 s3 [P1 T1 R1 V1 D1 A1] [P2 T2 R2 V2 D2 A2]. split; [congruence|congruence|..|by etrans].
  - intros id. by rewrite R2.
  - intros key. by rewrite V2.
  - auto.
Qed.

Lemma live_view db db' : (forall key, db_view db' key = db_view db key) -> forall key, live db' key <-> live db key.
Proof. intros Hv key. unfold live. by rewrite Hv. Qed.

Lemma record_view_lookup (m m' : gmap string ExecutionRecord) id r' :
  record_view <$> m' !! id = record_view <$> m !! id -> m' !! id = Some r' ->
  exists r, m !! id = Some r /\ rec_snapshot r' = rec_snapshot r /\ rec_commit r' = rec_commit r /\ rec_lease_hash r' = rec_lease_hash r.
Proof.
  intros E Hr. rewrite Hr in E. destruct (m !! id) as [r|]; [|done]. injection E as E1 E2 E3. by exists r.
Qed.

(** The invariant survives. *)
Lemma calm_core m lost leaked s s' : calm s s' -> NodeCore m lost leaked s -> NodeCore m lost leaked s'.
Proof.
  intros [P T R V D [AK AN]] [Hd Hr Hn Ht Hl Hh Ha]. pose proof (live_view _ _ V) as HV. split.
  - by apply D.
  - intros id r' (r & Hid & Es & Ec & _)%(record_view_lookup _ _ _ _ (R id)). destruct (Hr id r Hid) as (? & ? & ? & Hnl).
    rewrite Es, Ec. split_and!; [done..|]. unfold record_key. rewrite Es. intros Hterm. rewrite HV. by apply Hnl.
  - by rewrite T.
  - rewrite T. intros t Hin. destruct (Ht t Hin) as (Hlive & r & Hid & Ek & v & Hv & El). rewrite HV, V. split; [done|].
    specialize (R (tk_id t)). rewrite Hid in R. destruct (ns_executions s' !! tk_id t) as [r'|]; [|done]. injection R as E1 E2 E3.
    exists r'. unfold record_key in *. rewrite E1, E3. split_and!; [done..|]. by exists v.
  - intros key. rewrite HV, T. apply Hl.
  - rewrite T. intros t id Hin Hu. destruct (Hh t id Hin Hu) as (row & Hid & He & ?). exists row. split; [by apply AK|done].
  - rewrite T. intros id row Hid He. eapply Ha; [by apply AN|done].
Qed.

Lemma calm_inv cfg m lost leaked s s' : calm s s' -> NodeInv cfg m lost leaked s -> NodeInv cfg m lost leaked s'.
Proof.
  intros Hc [HC Hp Hf Hs]. split; [by eapply calm_core|by rewrite (ca_permits _ _ Hc), (ca_tasks _ _ Hc)|by rewrite (ca_permits _ _ Hc)|].
  by rewrite (ca_tasks _ _ Hc).
Qed.

Lemma core_mono m m' lost leaked s : (m <= m')%Z -> NodeCore m lost leaked s -> NodeCore m' lost leaked s.
Proof. intros Hm []. split; try done. by eapply DbInv_mono. Qed.

(** *** Store operations *)

Lemma live_unique m db id g g' : DbInv m db -> live db (id, g) -> live db (id, g') -> g = g'.
Proof.
  assert (forall g g', DbInv m db -> live db (id, g) -> live db (id, g') -> (g < g')%Z -> False) as Hlt.
  { clear g g'. intros g g' HI (v & Hv & Hl) (v' & Hv' & _) Hg. unfold db_view in *.
    destruct (executions db !! (id, g)) as [row|] eqn:Er; [|done]. injection Hv as <-.
    destruct (executions db !! (id, g')) as [row'|] eqn:Er'; [|done]. pose proof (live_is_latest m db id g row HI Er Hl) as Hnone.
    pose proof (i_positive _ _ HI id g (mk_is_Some _ _ Er)).
    destruct (generations_below m db id g' (g + 1) HI (mk_is_Some _ _ Er')) as [? ?]; [lia|]. congruence. }
  intros HI H1 H2. destruct (Z.lt_total g g') as [?|[?|?]]; [|done|]; exfalso; eauto.
Qed.

Lemma commit_view m fault sn k now db :
  DbInv m db -> (m + 1 <= I64_MAX)%Z -> u64_range (Events.generation sn) ->
  match commit_event fault sn k now db with
  | (Ok (Some _), db') => DbInv (m + 1) db' /\ exists v, db_view db (snapshot_key sn) = Some v /\ is_terminal_name v.1.1 = false
      /\ forall key, db_view db' key = if decide (key = snapshot_key sn) then Some (state_name (snap_state sn), v.1.2, v.2) else db_view db key
  | (_, db') => db' = db
  end.
Proof.
  intros HI Hm Hu. unfold commit_event, transaction. destruct fault; [done|].
  destruct (commit_event_body sn k now db) as [[r db']|] eqn:E; [|done].
  pose proof (commit_event_body_inv m _ _ _ _ _ _ HI Hm Hu E) as HI'.
  destruct (commit_event_body_cases m _ _ _ _ _ _ HI E) as [(-> & -> & _)|(row & snap & enc & Hrow & Hl & _ & _ & _ & -> & ->)]; [done|].
  split; [done|]. exists (row_view row). unfold db_view, snapshot_key. rewrite Hrow. split; [done|]. split; [done|]. intros key.
  rewrite advanced_executions. case_decide as Hk; [subst; by rewrite lookup_alter_eq, Hrow|by rewrite lookup_alter_ne].
Qed.

Lemma reserve_view m fault sn cv dg pr lh le now db :
  DbInv m db -> (1 <= m)%Z -> u64_range (Events.generation sn) ->
  match reserve fault sn cv dg pr lh le now db with
  | (Ok Created, db') => DbInv m db' /\ executions db !! snapshot_key sn = None /\ (forall g, ~ live db (Events.execution_id sn, g))
      /\ forall key, db_view db' key = if decide (key = snapshot_key sn) then Some (state_name (snap_state sn), lh, pr) else db_view db key
  | (_, db') => db' = db
  end.
Proof.
  intros HI Hm Hu. unfold reserve, transaction. destruct fault; [done|].
  destruct (reserve_body _ _ _ _ _ _ _ _) as [[r db']|] eqn:E; [|done].
  pose proof (reserve_body_inv m _ _ _ _ _ _ _ _ _ _ HI Hm Hu E) as HI'. unfold reserve_body in E.
  fold (snapshot_key sn) in E. destruct (executions db !! snapshot_key sn) as [row|] eqn:Er; [by cases_in E|].
  pose proof (stale_spec m db _ _ HI Er) as Hst. destruct (stale_generation _ _ _); [by injection E as <- <-|].
  destruct (MAX_EXECUTION_IDENTITIES <=? _)%Z; [by injection E as <- <-|]. destruct (encode_snapshot sn) as [enc|]; [|done]. injection E as <- <-.
  split; [done|]. split; [done|]. split.
  - destruct (proj1 Hst eq_refl) as [_ Hf]. intros g (v & Hv & Hl). unfold db_view in Hv.
    destruct (executions db !! (Events.execution_id sn, g)) as [row|] eqn:Eg; [|done]. injection Hv as <-. case_decide as H1'; [by rewrite Hf in Eg|].
    destruct Hf as (row' & Hr' & Ht). pose proof (live_is_latest m db _ g row HI Eg Hl) as Hnone.
    pose proof (i_positive _ _ HI _ _ (mk_is_Some _ _ Eg)). pose proof (i_positive _ _ HI _ _ (mk_is_Some _ _ Hr')).
    set (gen := as_i64 (Events.generation sn)) in *. destruct (Z.lt_total g (gen - 1)) as [Hlt|[->|Hgt]].
    + destruct (generations_below m db _ (gen - 1) (g + 1) HI (mk_is_Some _ _ Hr')) as [? ?]; [lia|]. congruence.
    + simpl in Hl. congruence.
    + destruct (generations_below m db _ g gen HI (mk_is_Some _ _ Eg)) as [? ?]; [lia|]. unfold snapshot_key in Er. subst gen. congruence.
  - intros key. unfold db_view. simpl. fold (snapshot_key sn).
    case_decide as Hk; [subst; by rewrite lookup_insert_eq|by rewrite lookup_insert_ne].
Qed.

(** *** The storage routes *)

Definition stores_calm (st st' : NodeStores) : Prop := counted (database st) (database st') /\ active_kept (world st) (world st').

#[export] Instance stores_calm_preorder : PreOrder stores_calm.
Proof. split; [by split|]. intros s1 s2 s3 [C1 A1] [C2 A2]. split; by etrans. Qed.

Lemma active_kept_rows w w' : workspaces w'.1 = workspaces w.1 -> active_kept w w'.
Proof. intros E. split; intros id row; by rewrite E. Qed.

Lemma keeps_same_active {A} (c : ws A) : keeps same_workspaces c -> keeps active_kept c.
Proof. intros Hc w. apply active_kept_rows, Hc. Qed.

Lemma keeps_count_metrics fault deltas :
  Forall (fun d : string * Z => 0 <= d.2)%Z deltas -> keeps stores_calm (count_metrics fault deltas).
Proof. intros Hd. apply keeps_modify. intros st. split; [by apply metrics_counted|done]. Qed.

Lemma keeps_with_blobs {A} (f : BlobStore -> result BlobError A * BlobStore) : keeps stores_calm (with_blobs f).
Proof. intros st. unfold with_blobs. destruct (f _). split; [done|]. by split. Qed.

Lemma keeps_with_workspaces {A} (c : ws A) : keeps active_kept c -> keeps stores_calm (with_workspaces c).
Proof. intros Hc st. unfold with_workspaces. specialize (Hc (world st)). by destruct (c _). Qed.
End invariant.

Section storage.
Context `{Sha256, UuidParse, Serde WorkspaceManifest, Serde ArtifactRecord}.
Context `{Serde ExecutionSnapshot, Serde ExecutionEvent}.
Context `{Serde FindMissingRequest, Serde PrepareBlobRequest, Serde WorkspaceCreateRequest, Serde DeriveWorkspaceRequest}.

Lemma keeps_undo_active {A} o step dir id e : keeps active_kept (undo o step dir id e : ws A).
Proof. unfold undo. keeps_tac; [apply keeps_modify; intros w; by apply active_kept_rows|apply keeps_same_active, keeps_on_blobs]. Qed.

Lemma keeps_insert_active o id row : wr_expires_unix_ms row <> None -> keeps active_kept (insert_workspace o id row).
Proof.
  intros Hrow w. unfold insert_workspace. destruct (_ || existsb _ _) eqn:E; [done|]. apply orb_false_iff in E as [E _].
  apply orb_false_iff in E as [_ Hid]. apply is_some_false in Hid. split; simpl.
  - intros i r Hi _. rewrite lookup_insert_ne; [done|]. intros ->. congruence.
  - by intros i r [[<- <-]|[_ Hi]]%lookup_insert_Some.
Qed.

Lemma keeps_publish_active o id exec gen principal m digest e : keeps active_kept (Workspace.publish o id exec gen principal m digest e).
Proof.
  unfold Workspace.publish. cbv zeta. keeps_tac; try apply keeps_undo_active.
  - intros w. unfold build_stage. destruct (materialize_tree _ _ _ _ _ _). by apply active_kept_rows.
  - apply keeps_modify. intros w. by apply active_kept_rows.
  - by apply keeps_insert_active.
Qed.

Lemma keeps_materialize_active o quota id exec gen principal m : keeps active_kept (materialize o quota id exec gen principal m).
Proof.
  unfold materialize, Workspace.lookup, replay, materialize_new. keeps_tac; [apply keeps_same_active, keeps_prepare|apply keeps_publish_active].
Qed.

Lemma keeps_derived_active o quota id exec gen principal patch : keeps active_kept (materialize_derived o quota id exec gen principal patch).
Proof.
  unfold materialize_derived. keeps_tac; [apply keeps_same_active, keeps_lookup_manifest|apply keeps_materialize_active].
Qed.

Lemma keeps_workspace_guard_calm cfg o p v id h : keeps stores_calm (workspace_guard cfg o p v id h).
Proof. unfold workspace_guard, Storage.increment_metric. keeps_tac. apply keeps_count_metrics. by constructor. Qed.

(** Every storage route leaves executions and running workspaces alone. *)
Lemma storage_calm cfg o route r principal h :
  storage_route cfg o route r principal = Some h -> keeps stores_calm h.
Proof.
  intros Hr. destruct route; simpl in Hr; injection Hr as <- || discriminate Hr.
  - unfold blob_missing, decode_body. keeps_tac.
  - unfold blob_prepare, decode_body. keeps_tac. apply keeps_with_blobs.
  - unfold blob_upload. destruct (declared_size (query r)) as [n|] eqn:En; keeps_tac; [apply keeps_with_blobs|].
    apply keeps_count_metrics. constructor; [|done]. simpl. unfold declared_size in En. simplify_option_eq. by eapply parse_u64_range.
  - unfold blob_download. keeps_tac. apply keeps_with_blobs.
  - keeps_tac.
  - unfold workspace_create, decode_body, Storage.increment_metric. keeps_tac.
    + apply keeps_workspace_guard_calm.
    + apply keeps_with_workspaces, keeps_materialize_active.
    + apply keeps_count_metrics. by constructor.
  - unfold workspace_derive, decode_body, Storage.increment_metric. keeps_tac; try (apply keeps_count_metrics; by repeat constructor).
    + apply keeps_workspace_guard_calm.
    + apply keeps_with_workspaces, keeps_derived_active.
    + apply keeps_count_metrics. repeat constructor; simpl; unfold len; lia.
  - unfold artifact_list. keeps_tac.
  - unfold artifact_download. keeps_tac; apply keeps_with_blobs.
Qed.

(** *** Collection *)

Lemma keeps_transaction_active {A} o (c : ws A) : keeps active_kept c -> keeps active_kept (workspace_transaction o c).
Proof.
  intros Hc w. unfold workspace_transaction. specialize (Hc w). destruct (c w) as [[a|e] w']; [|by apply active_kept_rows].
  destruct (fails o WsCommit); [by apply active_kept_rows|done].
Qed.

Lemma keeps_collect_active o scan now limit dry : keeps active_kept (Workspace.garbage_collect o scan now limit dry).
Proof.
  apply keeps_transaction_active. keeps_tac. destruct x as [i [id row]]. unfold collect_workspace. keeps_tac; apply keeps_modify; intros w.
  - by apply active_kept_rows.
  - destruct (workspaces w.1 !! id) as [r|] eqn:Er; [|apply active_kept_rows; simpl; by rewrite Er].
    destruct (decide (due now (wr_expires_unix_ms r))) as [Hdue|Hn]; [|apply active_kept_rows; simpl; rewrite Er; by rewrite decide_False].
    split; simpl; rewrite Er, decide_True by done.
    + intros i' r' Hi' Hnone. rewrite lookup_delete_ne; [done|]. intros ->. rewrite Er in Hi'. injection Hi' as ->. by rewrite Hnone in Hdue.
    + by intros i' r' [_ ?]%lookup_delete_Some.
Qed.

Lemma collect_garbage_calm o dry limit : keeps stores_calm (collect_garbage o dry limit).
Proof.
  unfold collect_garbage. keeps_tac.
  - intros st. unfold collecting_workspaces. pose proof (keeps_collect_active (go_workspaces o) (go_workspace_scan o (workspaces (world st).1)) (go_now o)
      (Nat.max 1 (Nat.min limit 1024)) dry (world st)) as Hc. by destruct (Workspace.garbage_collect _ _ _ _ _ _).
  - intros st. unfold collecting_workspaces. destruct (manifest_garbage_collect _ _ _ _ _ _) as [r w] eqn:E. split; [done|]. simpl.
    assert (keeps same_workspaces (manifest_garbage_collect (go_manifests o) (go_manifest_scan o (retained_manifests (world st).1)) (go_now o)
      (Nat.max 1 (Nat.min limit 1024)) dry)) as Hk by (unfold manifest_garbage_collect; keeps_tac; apply keeps_collect_manifests).
    specialize (Hk (world st)). rewrite E in Hk. by apply active_kept_rows, Hk.
  - intros st. destruct (collect_artifacts _ _ _ _ _ _). by split.
  - intros st. destruct (Blob.garbage_collect _ _ _ _ _ _). split; [done|]. by apply active_kept_rows.
Qed.
End storage.

(** *** The node's own calm steps *)

Section calm.
Context `{Sha256, UuidParse, Serde WorkspaceManifest, Serde ArtifactRecord}.
Context `{Serde ExecutionSnapshot, Serde ExecutionEvent, Serde ExecuteRequest, Serde ControlRequest}.
Context `{Serde ExecutionSpec, Serde (ExecutionSpec * string)}.

Lemma calm_stores f s : stores_calm (ns_stores s) (f (ns_stores s)) -> calm s (set_stores f s).
Proof.
  intros [[R I] A]. split; [done|done|done| |done|done]. intros key. unfold db_view, ns_db. simpl. by rewrite R.
Qed.

Lemma calm_alter f id s : (forall r, record_view (f r) = record_view r) -> calm s (set_records (alter f id) s).
Proof.
  intros Hf. split; try done. intros i. simpl. destruct (decide (id = i)) as [<-|]; [|by rewrite lookup_alter_ne].
  rewrite lookup_alter_eq. destruct (ns_executions s !! id); [|done]. simpl. by rewrite Hf.
Qed.

Lemma calm_fmap f s : (forall r, record_view (f r) = record_view r) -> calm s (set_records (fmap f) s).
Proof. intros Hf. split; try done. intros i. simpl. rewrite lookup_fmap. destruct (ns_executions s !! i); [|done]. simpl. by rewrite Hf. Qed.

Lemma keeps_node_metrics fault deltas : Forall (fun d : string * Z => 0 <= d.2)%Z deltas -> keeps calm (node_metrics_add fault deltas).
Proof. intros Hd. apply keeps_modify. intros s. apply calm_stores. split; [by apply metrics_counted|done]. Qed.

Lemma keeps_bump o name : keeps calm (bump o name).
Proof. apply keeps_node_metrics. by constructor. Qed.

Lemma keeps_reject {A} o name r : keeps calm (reject o name r : node A).
Proof. unfold reject, answer. keeps_tac. apply keeps_bump. Qed.

Lemma keeps_reject_if o b name r : keeps calm (reject_if o b name r).
Proof. unfold reject_if. keeps_tac. apply keeps_reject. Qed.

Lemma keeps_query_store {A} fault (f : Db -> result StoreError A) : keeps calm (query_store fault f).
Proof. intros s. unfold query_store. destruct fault; [done|]. by destruct (f _). Qed.

Lemma keeps_events {A} o id g after r : keeps calm (events_answer o id g after r : node A).
Proof.
  intros s. unfold events_answer. cbv zeta. match goal with |- calm s (?c s).2 => enough (keeps calm c) as Hc by apply Hc end.
  apply keeps_bind; [apply _| |]; [apply keeps_if; [apply keeps_bump|]|]; keeps_tac.
Qed.

Lemma keeps_node_workspaces {A} (c : ws A) : keeps active_kept c -> keeps calm (node_workspaces c).
Proof.
  intros Hc s. unfold node_workspaces. specialize (Hc (world (ns_stores s))). destruct (c _) as [r w]. by apply calm_stores.
Qed.

Lemma keeps_resolve o id exec gen principal : keeps eq (resolve o id exec gen principal).
Proof. unfold resolve, Workspace.lookup. keeps_tac. Qed.

Lemma keeps_execution_root cfg o wire principal : keeps calm (execution_root cfg o wire principal).
Proof.
  unfold execution_root. keeps_tac; [|apply keeps_reject]. apply keeps_node_workspaces. intros w.
  by rewrite <- (keeps_resolve _ _ _ _ _ w).
Qed.

Lemma keeps_check_execute cfg o r principal : keeps calm (check_execute cfg o r principal).
Proof. unfold check_execute. cbv zeta. keeps_tac; try apply keeps_reject_if; try apply keeps_reject. apply keeps_execution_root. Qed.

Lemma keeps_attach o a existing : keeps calm (attach o a existing).
Proof. unfold attach. cbv zeta. keeps_tac; apply keeps_events. Qed.

Lemma keeps_check_control o id r principal : keeps calm (check_control o id r principal).
Proof. unfold check_control. cbv zeta. keeps_tac; apply keeps_query_store. Qed.

Lemma keeps_observe o id query principal : keeps calm (observe o id query principal).
Proof. unfold observe. keeps_tac; apply keeps_query_store. Qed.

Lemma keeps_events_route o id query principal : keeps calm (events_route o id query principal).
Proof. unfold events_route. cbv zeta. keeps_tac; try apply keeps_query_store; apply keeps_events. Qed.

Lemma update_lease_view fault id g lh rid le now now' db key : db_view (update_lease fault id g lh rid le now now' db).2 key = db_view db key.
Proof.
  unfold update_lease, transaction, update_lease_body. destruct fault; [done|]. destruct (executions db !! _) as [row|] eqn:Er; [|done].
  destruct (_ || _); [done|]. case_decide; [done|]. simpl. unfold db_view, update_row. simpl.
  destruct (decide ((id, as_i64 g) = key)) as [<-|]; [by rewrite lookup_alter_eq, Er|by rewrite lookup_alter_ne].
Qed.

Lemma update_lease_counted_inv fault id g lh rid le now now' db m : DbInv m db -> DbInv m (update_lease fault id g lh rid le now now' db).2.
Proof.
  intros HI. unfold update_lease, transaction. destruct fault; [done|].
  destruct (update_lease_body _ _ _ _ _ _ _ _) as [[]|] eqn:E; [|done]. by eapply update_lease_body_inv.
Qed.

Lemma keeps_renew cfg o id request record : keeps calm (renew_execution cfg o id request record).
Proof.
  unfold renew_execution, answer, unavailable. keeps_tac.
  - intros s. destruct (update_lease _ _ _ _ _ _ _ _ _) as [r db] eqn:E. simpl.
    assert (db = (update_lease (ho_renewal o) id (eh_generation (ct_handle request)) (rec_lease_hash record) a (lease_end_unix cfg (ho_now o))
      (ho_stored o) (ho_later o) (ns_db s)).2) as -> by (by rewrite E).
    split; try done; [intros key; apply update_lease_view|intros m; apply update_lease_counted_inv].
  - apply keeps_modify. intros s. by apply calm_alter.
Qed.

Lemma monitor_calm id r w s : ns_executions s !! id = Some r -> calm s (set_records <[id := (monitor_lease r w).1]> s).
Proof.
  intros Hr. split; try done. intros i. simpl. destruct (decide (id = i)) as [<-|]; [|by rewrite lookup_insert_ne].
  rewrite lookup_insert_eq, Hr. simpl. f_equal. unfold monitor_lease. destruct (is_terminal _); [done|]. destruct w; [done..|]. by destruct (_ <=? _)%Z.
Qed.

Lemma shutdown_calm s : calm s (shutdown s).
Proof. etrans; [|apply calm_fmap]; [by split|]. intros r. by destruct (_ && _). Qed.

Lemma set_draining_calm persisted draining s : calm s (set_draining persisted draining s).
Proof. unfold set_draining. destruct persisted; [by split|done]. Qed.

(** *** Publications *)

(** A publication that was committed, by the record [r] of [id]. *)
Record progressed (m : Z) (id : string) (st : ExecutionState) (r : ExecutionRecord) (s s' : NodeState) : Prop := {
  pg_db : DbInv m (ns_db s');
  pg_permits : ns_permits s' = ns_permits s;
  pg_tasks : ns_tasks s' = ns_tasks s;
  pg_world : world (ns_stores s') = world (ns_stores s);
  pg_record : exists r', ns_executions s' = <[id := r']> (ns_executions s) /\ rec_commit r' = None /\ rec_lease_hash r' = rec_lease_hash r
    /\ record_key r' = record_key r /\ Events.execution_id (rec_snapshot r') = Events.execution_id (rec_snapshot r)
    /\ Events.generation (rec_snapshot r') = Events.generation (rec_snapshot r) /\ snap_state (rec_snapshot r') = st;
  pg_view : exists v, db_view (ns_db s) (record_key r) = Some v /\ is_terminal_name v.1.1 = false
    /\ forall key, db_view (ns_db s') key = if decide (key = record_key r) then Some (state_name st, v.1.2, v.2) else db_view (ns_db s) key;
}.

Lemma publish_outcomes m lost leaked fault now id st res k s r :
  NodeCore m lost leaked s -> (m + 1 <= I64_MAX)%Z -> ns_executions s !! id = Some r ->
  let s' := (publish_record fault now id st res k s).2 in calm s s' \/ progressed (m + 1) id st r s s'.
Proof.
  intros HC Hm Hr. destruct (nc_record _ _ _ _ HC id r Hr) as (Hid & Hu & Hcom & _).
  unfold publish_record. rewrite Hr. unfold Node.publish, publish_begin.
  assert (forall r', record_view r' = record_view r -> record_view <$> <[id := r']> (ns_executions s) !! id = record_view <$> ns_executions s !! id) as Hv.
  { intros r' E. rewrite lookup_insert_eq, Hr. simpl. by rewrite E. }
  assert (forall d r', record_view r' = record_view r ->
    calm s (set_drain_flag d (set_records <[id := r']> (set_stores (set_database (fun _ => ns_db s)) s)))) as Hcalm.
  { intros d r' E. split; try done; simpl. intros i. destruct (decide (id = i)) as [<-|]; [by apply Hv|by rewrite lookup_insert_ne]. }
  assert (publish_end r = r) as Hend by (unfold publish_end; by rewrite Hcom).
  destruct (is_terminal _); [left; rewrite Hend; by apply Hcalm|].
  set (sn := propose (rec_snapshot r) st res). pose proof (commit_view m fault sn k now (ns_db s) (nc_db _ _ _ _ HC) Hm Hu) as Hc.
  destruct (commit_event fault sn k now (ns_db s)) as [[[e|]|e] db'].
  - right. destruct Hc as (HI & v & Hview & Hl & Hkeys). simpl. split; try done.
    + eexists. split; [done|]. by split_and!.
    + exists v. split_and!; done.
  - left. subst db'. rewrite Hend. by apply Hcalm.
  - left. subst db'. unfold publish_end. simpl. rewrite Hcom. by apply Hcalm.
Qed.

Lemma terminal_names st : is_terminal_name (state_name st) = is_terminal st.
Proof. by destruct st. Qed.

Lemma progressed_live m id st r s s' key :
  progressed m id st r s s' -> live (ns_db s') key <-> live (ns_db s) key /\ (key = record_key r -> is_terminal st = false).
Proof.
  intros [_ _ _ _ _ (v & Hv & Hl & Hk)]. unfold live. rewrite Hk. case_decide as E.
  - subst. split.
    + intros (v' & [= <-] & Ht). simpl in Ht. rewrite terminal_names in Ht. split; [by exists v|done].
    + intros [_ Ht]. eexists. split; [done|]. simpl. rewrite terminal_names. by apply Ht.
  - split; [intros ?; by split|by intros [? _]].
Qed.

(** A committed publication keeps the invariant; one that settles an execution
    comes from an execution without a task, which is no longer lost. *)
Lemma progressed_core m m' lost lost' leaked id st r s s' :
  NodeCore m lost leaked s -> ns_executions s !! id = Some r -> progressed m' id st r s s' ->
  (is_terminal st = true -> record_key r ∉ task_key <$> ns_tasks s) ->
  (forall key, key ∈ lost -> (key = record_key r -> is_terminal st = false) -> key ∈ lost') ->
  NodeCore m' lost' leaked s'.
Proof.
  intros HC Hr Hp Hst Hlost. pose proof Hp as [HI _ HT HW (r' & He & Hc' & Hh' & Hk' & Hi' & Hg' & Hs') (v & Hv & Hl & Hkeys)].
  pose proof (fun key => progressed_live _ _ _ _ _ _ key Hp) as HL.
  destruct (nc_record _ _ _ _ HC id r Hr) as (Hid & Hu & _ & _). split.
  - done.
  - rewrite He. intros i x [[<- <-]|[_ Hx]]%lookup_insert_Some.
    + rewrite Hi', Hg', Hs'. split_and!; [done..|]. rewrite HL, Hk'. intros Ht [_ Hf]. specialize (Hf eq_refl). congruence.
    + destruct (nc_record _ _ _ _ HC i x Hx) as (? & ? & ? & Hn). split_and!; [done..|]. rewrite HL. naive_solver.
  - rewrite HT. apply (nc_distinct _ _ _ _ HC).
  - rewrite HT. intros t Ht. rewrite HL, He. destruct (nc_task _ _ _ _ HC t Ht) as (Hlive & x & Hx & Hkx & vx & Hvx & Hlx). split.
    { split; [done|]. intros E. destruct (is_terminal st); [|done]. destruct (Hst eq_refl). apply list_elem_of_fmap. by exists t. }
    destruct (decide (id = tk_id t)) as [->|Hne].
    + rewrite Hr in Hx. injection Hx as <-. exists r'. rewrite lookup_insert_eq, Hk', Hh', Hkeys, Hkx, decide_True by done. split_and!; [done..|].
      eexists. split; [done|]. simpl. rewrite Hlx. congruence.
    + exists x. rewrite lookup_insert_ne by done. split_and!; [done..|]. rewrite Hkeys. case_decide as E; [|by exists vx].
      exfalso. apply Hne. rewrite <- Hid. unfold record_key, snapshot_key, task_key in E. by injection E as ->.
  - intros key. rewrite HL, HT. intros [Hk Hterm]. destruct (nc_live _ _ _ _ HC key Hk) as [?|?]; [by left|right; by apply Hlost].
  - rewrite HT, HW. apply (nc_held _ _ _ _ HC).
  - rewrite HT, HW. apply (nc_active _ _ _ _ HC).
Qed.

Lemma publish_core m lost leaked fault now id st res k s :
  NodeCore m lost leaked s -> (m + 1 <= I64_MAX)%Z -> is_terminal st = false ->
  NodeCore (m + 1) lost leaked (publish_record fault now id st res k s).2.
Proof.
  intros HC Hm Hst. destruct (ns_executions s !! id) as [r|] eqn:Hr.
  - destruct (publish_outcomes m lost leaked fault now id st res k s r HC Hm Hr) as [Hcalm|Hp].
    + eapply core_mono; [|by eapply calm_core]. lia.
    + eapply progressed_core; [exact HC|exact Hr|exact Hp|congruence|done].
  - unfold publish_record. rewrite Hr. eapply core_mono; [|done]. lia.
Qed.

Lemma publish_permits fault now id st res k s :
  let s' := (publish_record fault now id st res k s).2 in ns_permits s' = ns_permits s /\ ns_tasks s' = ns_tasks s.
Proof. unfold publish_record. destruct (ns_executions s !! id); [|done]. by destruct (Node.publish _ _ _ _ _ _ _ _) as [[? ?] ?]. Qed.

Lemma publish_inv cfg m lost leaked fault now id st res k s :
  NodeInv cfg m lost leaked s -> (m + 1 <= I64_MAX)%Z -> is_terminal st = false ->
  NodeInv cfg (m + 1) lost leaked (publish_record fault now id st res k s).2.
Proof.
  intros [HC Hp Hf Hs] Hm Hst. destruct (publish_permits fault now id st res k s) as [Ep Et].
  split; [by apply publish_core|by rewrite Ep, Et|by rewrite Ep|by rewrite Et].
Qed.

Lemma inv_mono cfg m m' lost leaked s : (m <= m')%Z -> NodeInv cfg m lost leaked s -> NodeInv cfg m' lost leaked s.
Proof. intros Hm [HC ? ? ?]. split; try done. by eapply core_mono. Qed.

Lemma cancel_inv cfg m lost leaked o id record s :
  NodeInv cfg m lost leaked s -> (m + 1 <= I64_MAX)%Z -> NodeInv cfg (m + 1) lost leaked (cancel_execution o id record s).2.
Proof.
  intros HI Hm. pose proof (inv_mono _ m (m + 1) _ _ _ ltac:(lia) HI) as HI'. unfold cancel_execution. cbv zeta.
  destruct (negb (is_terminal _) && negb (bool_decide _)).
  - unfold act_bind at 1, guard_err. destruct (lease_over _ _); [done|]. unfold ret at 1, act_bind.
    pose proof (publish_inv cfg m lost leaked (ho_commit o) (ho_stored o) id Cancelling None (EvState Cancelling) s HI Hm eq_refl) as Hp.
    destruct (publish_record _ _ _ _ _ _ s) as [[[]|] s1]; [|done]. simpl in *. eapply calm_inv; [|exact Hp].
    apply calm_alter. intros r. by destruct (is_terminal _).
  - destruct (bool_decide _); simpl; [|done]. eapply calm_inv; [|exact HI']. by apply calm_alter.
Qed.

Lemma control_inv cfg m lost leaked o id r principal renew s :
  NodeInv cfg m lost leaked s -> (m + 1 <= I64_MAX)%Z -> NodeInv cfg (m + 1) lost leaked (control cfg o id r principal renew s).2.
Proof.
  intros HI Hm. unfold control, act_bind. pose proof (keeps_check_control o id r principal s) as Hc.
  destruct (check_control o id r principal s) as [[[request record]|e] s1]; simpl in Hc; eapply calm_inv in HI; try exact Hc.
  - destruct renew; [|by apply cancel_inv]. eapply inv_mono; [|eapply calm_inv; [apply keeps_renew|exact HI]]. lia.
  - eapply inv_mono; [|exact HI]. lia.
Qed.

(** *** Admission *)

Lemma evictable_spec size terminal records id :
  id ∈ evictable size terminal records ->
  id ∈ terminal \/ exists r, (id, r) ∈ records /\ is_terminal (snap_state (rec_snapshot r)) = true.
Proof.
  revert terminal. induction records as [|[i r] records IH]; intros terminal; simpl; [by left|].
  assert (id ∈ (if is_terminal (snap_state (rec_snapshot r)) then terminal ++ [i] else terminal) ->
    id ∈ terminal \/ exists r0, (id, r0) ∈ (i, r) :: records /\ is_terminal (snap_state (rec_snapshot r0)) = true) as H1'.
  { destruct (is_terminal _) eqn:Et; [|by left]. intros [?|Hi%list_elem_of_singleton]%elem_of_app; [by left|]. right. exists r. subst. split; [by left|done]. }
  destruct (_ <? _)%Z; [done|]. intros [?|(r0 & ? & ?)]%IH; [by apply H1'|]. right. exists r0. split; [by right|done].
Qed.

Lemma evict_lookup order (records : gmap string ExecutionRecord) id :
  order records ≡ₚ map_to_list records ->
  evict order records !! id = records !! id
  \/ (evict order records !! id = None /\ exists r, records !! id = Some r /\ is_terminal (snap_state (rec_snapshot r)) = true).
Proof.
  intros Ho. unfold evict. destruct (_ <=? _)%Z; [|by left].
  assert (forall l (m : gmap string ExecutionRecord), foldl (fun m id => delete id m) m l !! id = if decide (id ∈ l) then None else m !! id) as Hd.
  { induction l as [|i l IH]; intros m; simpl; [done|]. rewrite IH. destruct (decide (id ∈ l)), (decide (id ∈ i :: l)) as [E|E]; try done.
    - exfalso. apply E. by right.
    - apply elem_of_cons in E as [->|?]; [by rewrite lookup_delete_eq|done].
    - apply lookup_delete_ne. intros ->. apply E. by left. }
  rewrite Hd. case_decide as Hin; [|by left]. right. split; [done|]. apply evictable_spec in Hin as [?%not_elem_of_nil|(r & Hr & Ht)]; [done|].
  rewrite Ho in Hr. exists r. split; [by apply elem_of_map_to_list|done].
Qed.

Lemma evict_core m lost leaked order s :
  (forall records, order records ≡ₚ map_to_list records) -> NodeCore m lost leaked s -> NodeCore m lost leaked (set_records (evict order) s).
Proof.
  intros Ho HC. split; try by apply HC; simpl.
  - simpl. intros id r Hr. apply (nc_record _ _ _ _ HC). by destruct (evict_lookup order (ns_executions s) id (Ho _)) as [<-|[E _]]; [|congruence].
  - simpl. intros t Ht. destruct (nc_task _ _ _ _ HC t Ht) as (Hl & r & Hr & Hk & Hv). split; [done|]. exists r. split; [|done].
    destruct (evict_lookup order (ns_executions s) (tk_id t) (Ho _)) as [->|(_ & r' & Hr' & Ht')]; [done|]. exfalso.
    rewrite Hr in Hr'. injection Hr' as <-. destruct (nc_record _ _ _ _ HC _ _ Hr) as (_ & _ & _ & Hn). apply (Hn Ht'). by rewrite Hk.
Qed.

Lemma core_world m lost leaked leaked' s s' :
  NodeCore m lost leaked s -> ns_db s' = ns_db s -> ns_executions s' = ns_executions s -> ns_tasks s' = ns_tasks s ->
  (forall t id, t ∈ ns_tasks s -> uses t id -> held_by t (world (ns_stores s')) id) ->
  (forall id row, workspaces (world (ns_stores s')).1 !! id = Some row -> wr_expires_unix_ms row = None ->
     (exists t, t ∈ ns_tasks s /\ uses t id) \/ id ∈ leaked') ->
  NodeCore m lost leaked' s'.
Proof. intros [] Ed Ee Et Hh Ha. split; rewrite ?Ed, ?Ee, ?Et; done. Qed.

Lemma core_leaked m lost leaked leaked' s : leaked ⊆ leaked' -> NodeCore m lost leaked s -> NodeCore m lost leaked' s.
Proof. intros Hs HC. eapply core_world; [exact HC|done..|apply HC|]. intros id row H1' H2'. destruct (nc_active _ _ _ _ HC id row H1' H2'); [by left|right; set_solver]. Qed.

(** What activating a workspace does to the table. *)
Lemma mark_active_rows o id wd :
  let '(r, wd') := mark_active o id wd in
  (workspaces wd'.1 = workspaces wd.1 /\ is_ok r = false)
  \/ (exists row, workspaces wd.1 !! id = Some row /\ workspaces wd'.1 = <[id := set_expiry None row]> (workspaces wd.1)
       /\ (is_ok r = true \/ fails o WsExpiry = true)).
Proof.
  unfold mark_active, active_key, activate, act_bind, guard_err, gets. destruct (fails o WsLookup); [by left|]. simpl.
  destruct (workspaces wd.1 !! id) as [row|] eqn:Er; [|by left]. destruct (_ && _); [|by left]. simpl.
  destruct (_ || negb _); [by left|]. simpl. destruct (fails o WsUpdate || fails o WsCommit); [by left|]. simpl. rewrite Er.
  destruct (_ && _); [|by left]. simpl. unfold on_blobs, clear_reference_expiry. simpl.
  assert (alter (set_expiry None) id (workspaces wd.1) = <[id := set_expiry None row]> (workspaces wd.1)) as Ha.
  { apply map_eq. intros i. destruct (decide (id = i)) as [<-|]; [by rewrite lookup_alter_eq, lookup_insert_eq, Er|by rewrite lookup_alter_ne, lookup_insert_ne]. }
  destruct (fails o WsExpiry); right; exists row; split_and!; simpl; auto.
Qed.

Lemma mark_terminal_rows o id e wd :
  let '(r, wd') := mark_terminal o id e wd in
  workspaces wd'.1 = if fails o WsUpdate then workspaces wd.1 else alter (set_expiry (Some (as_i64 e))) id (workspaces wd.1).
Proof.
  unfold mark_terminal, act_bind, guard_err. destruct (fails o WsUpdate); [done|]. simpl. unfold on_blobs, set_reference_expiry.
  by destruct (fails o WsExpiry).
Qed.

(** An active row: whoever held it still does. *)
Lemma activate_core m lost leaked id row s s' :
  NodeCore m lost leaked s -> ns_db s' = ns_db s -> ns_executions s' = ns_executions s -> ns_tasks s' = ns_tasks s ->
  workspaces (world (ns_stores s)).1 !! id = Some row ->
  workspaces (world (ns_stores s')).1 = <[id := set_expiry None row]> (workspaces (world (ns_stores s)).1) ->
  NodeCore m lost ({[id]} ∪ leaked) s'.
Proof.
  intros HC Ed Ee Et Hid Hw. eapply core_world; [exact HC|done..| |].
  - intros t i Ht Hu. destruct (nc_held _ _ _ _ HC t i Ht Hu) as (r & Hr & Hn & Hb). unfold held_by. rewrite Hw.
    destruct (decide (id = i)) as [<-|]; [|exists r; by rewrite lookup_insert_ne]. exists (set_expiry None row). rewrite lookup_insert_eq.
    rewrite Hid in Hr. by injection Hr as ->.
  - rewrite Hw. intros i r [[<- <-]|[_ Hi]]%lookup_insert_Some Hn; [right; set_solver|].
    destruct (nc_active _ _ _ _ HC i r Hi Hn); [by left|right; set_solver].
Qed.

(** A workspace that nobody uses goes back to retention. *)
Lemma retain_core m lost leaked id x s s' :
  NodeCore m lost ({[id]} ∪ leaked) s -> ns_db s' = ns_db s -> ns_executions s' = ns_executions s -> ns_tasks s' = ns_tasks s ->
  (forall t, t ∈ ns_tasks s -> ~ uses t id) ->
  workspaces (world (ns_stores s')).1 = alter (set_expiry (Some x)) id (workspaces (world (ns_stores s)).1) ->
  NodeCore m lost leaked s'.
Proof.
  intros HC Ed Ee Et Hnone Hw. eapply core_world; [exact HC|done..| |].
  - intros t i Ht Hu. destruct (nc_held _ _ _ _ HC t i Ht Hu) as (r & Hr & ?). exists r. rewrite Hw.
    rewrite lookup_alter_ne; [done|]. intros <-. by eapply Hnone.
  - rewrite Hw. intros i r Hi Hn. destruct (decide (id = i)) as [<-|Hne].
    + rewrite lookup_alter_eq in Hi. destruct (workspaces _ !! id); [|done]. injection Hi as <-. done.
    + rewrite lookup_alter_ne in Hi by done. destruct (nc_active _ _ _ _ HC i r Hi Hn) as [?|Hin]; [by left|right; set_solver].
Qed.

(** The workspace of a request, and whether a failing operation leaks it. *)
Definition workspace_of (a : Admission) : gset string :=
  match xr_workspace_id (ad_wire a) with Some w => {[w]} | None => ∅ end.
Definition leaks (o : HandlerOutside) : bool := fails (ho_activate o) WsExpiry || fails (ho_retain o) WsUpdate.
Definition leak (o : HandlerOutside) (a : Admission) : gset string := if leaks o then workspace_of a else ∅.

(** No running execution uses the workspace of the request. *)
Definition unused (a : Admission) (s : NodeState) : Prop :=
  forall w t, xr_workspace_id (ad_wire a) = Some w -> t ∈ ns_tasks s -> ~ uses t w.

Definition same_slots (s s' : NodeState) : Prop := ns_permits s' = ns_permits s /\ ns_tasks s' = ns_tasks s.

#[export] Instance same_slots_preorder : PreOrder same_slots.
Proof. split; [done|]. intros s1 s2 s3 [P1 T1] [P2 T2]. split; congruence. Qed.

Lemma calm_slots s s' : calm s s' -> same_slots s s'.
Proof. intros Hc. split; [apply (ca_permits _ _ Hc)|apply (ca_tasks _ _ Hc)]. Qed.

Lemma unused_slots a s s' : same_slots s s' -> unused a s -> unused a s'.
Proof. intros [_ T] Hu w t Hw. rewrite T. by apply Hu. Qed.

Lemma release_core m lost leaked o a s :
  NodeCore m lost (workspace_of a ∪ leaked) s -> unused a s ->
  NodeCore m lost (leak o a ∪ leaked) (release_workspace o a s).2 /\ same_slots s (release_workspace o a s).2.
Proof.
  intros HC Hu. unfold release_workspace, workspace_of, leak, leaks in *. destruct (xr_workspace_id (ad_wire a)) as [w|] eqn:Ew.
  - unfold act_bind, node_workspaces. pose proof (mark_terminal_rows (ho_retain o) w (sat_add (ho_later o) DEFAULT_RETENTION_MILLIS) (world (ns_stores s))) as Hr.
    destruct (mark_terminal _ _ _ _) as [r wd]. simpl. split; [|done].
    destruct (fails (ho_retain o) WsUpdate) eqn:Ef.
    + unfold workspace_of. rewrite orb_true_r, Ew. eapply core_world; [exact HC|done..| |].
      * intros t id Ht Hut. destruct (nc_held _ _ _ _ HC t id Ht Hut) as (row & Hrow & ?). exists row. simpl. by rewrite Hr.
      * simpl. rewrite Hr. apply (nc_active _ _ _ _ HC).
    + eapply core_leaked; [|eapply (retain_core m lost leaked w); [exact HC|done..| |exact Hr]]; [set_solver|].
      intros t Ht. by apply (Hu w t).
  - split; [|done]. eapply core_leaked; [|exact HC]. set_solver.
Qed.

Lemma activate_workspace_core m lost leaked o a s :
  NodeCore m lost leaked s ->
  match activate_workspace o a s with
  | (Ok _, s') => NodeCore m lost (workspace_of a ∪ leaked) s' /\ same_slots s s' /\ ns_db s' = ns_db s
                  /\ (forall w row, xr_workspace_id (ad_wire a) = Some w -> workspaces (world (ns_stores s)).1 !! w = Some row ->
                        workspaces (world (ns_stores s')).1 !! w = Some (set_expiry None row))
  | (Err _, s') => NodeCore m lost (leak o a ∪ leaked) s' /\ same_slots s s'
  end.
Proof.
  intros HC. unfold activate_workspace, workspace_of, leak, leaks. destruct (xr_workspace_id (ad_wire a)) as [w|] eqn:Ew.
  2:{ split; [|done]. eapply core_leaked; [|exact HC]. set_solver. }
  unfold act_bind, node_workspaces. pose proof (mark_active_rows (ho_activate o) w (world (ns_stores s))) as Hr.
  destruct (mark_active _ _ _) as [r wd]. set (s1 := set_stores _ s).
  assert (is_ok r = true -> NodeCore m lost ({[w]} ∪ leaked) s1) as H1'.
  { intros Hok. destruct Hr as [[_ ?]|(row & Hid & Hw & _)]; [congruence|]. by eapply activate_core. }
  assert (is_ok r = false -> NodeCore m lost ((if fails (ho_activate o) WsExpiry || fails (ho_retain o) WsUpdate then workspace_of a else ∅) ∪ leaked) s1) as H2'.
  { intros Hok. destruct Hr as [[Hw _]|(row & Hid & Hw & [?|Hf])]; [|congruence|].
    - eapply core_leaked; [|eapply (core_world m lost leaked leaked s); [exact HC|done..| |]]; [set_solver| |].
      + intros t id Ht Hu. destruct (nc_held _ _ _ _ HC t id Ht Hu) as (row & Hrow & ?). exists row. simpl. by rewrite Hw.
      + simpl. rewrite Hw. apply (nc_active _ _ _ _ HC).
    - rewrite Hf. unfold workspace_of. rewrite Ew. by eapply activate_core. }
  destruct (is_ok r) eqn:Hok; simpl.
  - split; [by apply H1'|]. split; [done|]. split; [done|]. intros w' row [= <-] Hrow. destruct Hr as [[_ ?]|(row' & Hid & Hw & _)]; [congruence|].
    rewrite Hw, lookup_insert_eq. congruence.
  - pose proof (keeps_reject (A := unit) o "rejected_invalid" workspace_not_ready s1) as Hc.
    split; [by eapply (calm_core _ _ _ s1); [exact Hc|apply H2']|]. by apply (calm_slots s1).
Qed.

(** ** Admission *)

Definition ad_key (a : Admission) : string * Z := (ad_id a, as_i64 (ad_generation a)).

(** What [check_execute] leaves for the admission: the workspace of the request
    belongs to the execution of the request. *)
Record bound (a : Admission) (s : NodeState) : Prop := {
  bo_capture : wcp_id <$> ad_capture a = xr_workspace_id (ad_wire a);
  bo_range : u64_range (ad_generation a);
  bo_row w : xr_workspace_id (ad_wire a) = Some w ->
    exists row, workspaces (world (ns_stores s)).1 !! w = Some row /\ wr_execution_id row = ad_id a
      /\ as_u64 (wr_generation row) = ad_generation a;
}.

Lemma live_row db key : executions db !! key = None -> ~ live db key.
Proof. intros E (v & Hv & _). unfold db_view in Hv. by rewrite E in Hv. Qed.

Lemma bound_unused m lost leaked a s :
  NodeCore m lost leaked s -> bound a s -> executions (ns_db s) !! ad_key a = None -> unused a s.
Proof.
  intros HC [_ _ Hb] Hn w t Hw Ht Hu. destruct (Hb w Hw) as (row & Hrow & Hid & Hg).
  destruct (nc_held _ _ _ _ HC t w Ht Hu) as (row' & Hrow' & _ & Hid' & Hg'). rewrite Hrow in Hrow'. injection Hrow' as <-.
  apply (live_row _ _ Hn). destruct (nc_task _ _ _ _ HC t Ht) as [Hl _]. unfold ad_key, task_key in *. by rewrite <- Hid, Hid', <- Hg, Hg'.
Qed.

(** The new execution has its record, its task and its workspace. *)
Lemma admitted_core cfg m lost leaked o a s s' :
  NodeCore m lost (workspace_of a ∪ leaked) s -> bound a s ->
  (forall w row, xr_workspace_id (ad_wire a) = Some w -> workspaces (world (ns_stores s)).1 !! w = Some row -> wr_expires_unix_ms row = None) ->
  executions (ns_db s) !! ad_key a = None -> (forall g, ~ live (ns_db s) (ad_id a, g)) ->
  DbInv m (ns_db s') ->
  (forall key, db_view (ns_db s') key = if decide (key = ad_key a) then Some (state_name Accepted, ad_lease_hash a, ad_principal a) else db_view (ns_db s) key) ->
  ns_executions s' = ns_executions s -> ns_tasks s' = ns_tasks s -> world (ns_stores s') = world (ns_stores s) ->
  NodeCore m lost leaked (admitted cfg o a s').2.
Proof.
  intros HC [Hcap Hrng Hrow] Hexp Hn Hnl HI Hk He Ht Hw. set (key := ad_key a) in *.
  assert (live (ns_db s') key) as Hlive. { eexists. rewrite Hk, decide_True by done. by split. }
  assert (forall k, live (ns_db s') k -> k = key \/ live (ns_db s) k) as HL.
  { intros k (v & Hv & Hl). rewrite Hk in Hv. case_decide; [by left|right; by exists v]. }
  assert (forall t, t ∈ ns_tasks s -> tk_id t <> ad_id a) as Hold.
  { intros t Hin E. destruct (nc_task _ _ _ _ HC t Hin) as [Hl _]. unfold task_key in Hl. rewrite E in Hl. by eapply Hnl. }
  split; simpl; rewrite ?Ht, ?Hw, ?He.
  - done.
  - intros id r [[<- <-]|[Hne Hr]]%lookup_insert_Some; [by split_and!|].
    destruct (nc_record _ _ _ _ HC id r Hr) as (Hid & ? & ? & Hterm). split_and!; [done..|].
    intros Hs [E|?]%HL; [|by apply Hterm]. apply Hne. unfold record_key, snapshot_key, key, ad_key in E. injection E as E _. congruence.
  - rewrite fmap_app. apply NoDup_app. split_and!; [apply (nc_distinct _ _ _ _ HC)| |apply NoDup_singleton].
    intros k (t & -> & Hin)%list_elem_of_fmap Hk'. apply list_elem_of_singleton in Hk'. injection Hk' as E _. by eapply Hold.
  - intros t [Hin|Hin%list_elem_of_singleton]%elem_of_app; [|subst t].
    + destruct (nc_task _ _ _ _ HC t Hin) as ((v & Hv & Hl) & r & Hr & Hkr & v' & Hv' & Hlh). specialize (Hold t Hin).
      assert (task_key t <> key) as Hne by (unfold task_key, key, ad_key; congruence).
      unfold live. rewrite lookup_insert_ne, Hk, decide_False by congruence. split; [by exists v|]. exists r. split_and!; [done..|]. by exists v'.
    + split; [done|]. eexists. simpl. rewrite lookup_insert_eq. split_and!; [done..|]. unfold task_key. simpl. fold (ad_key a). fold key.
      eexists. rewrite Hk, decide_True by done. by split.
  - intros k [->|Hl]%HL; [left; rewrite fmap_app; set_solver|]. destruct (nc_live _ _ _ _ HC k Hl) as [?|?]; [left; rewrite fmap_app; set_solver|by right].
  - intros t id [Hin|Hin%list_elem_of_singleton]%elem_of_app Hu; [by apply (nc_held _ _ _ _ HC)|]. subst t. destruct Hu as [_ Hu]. simpl in Hu. rewrite Hcap in Hu.
    destruct (Hrow id Hu) as (row & Hr & Hid & Hg). exists row. split_and!; [done|by eapply Hexp|done..].
  - intros id row Hr Hx. destruct (nc_active _ _ _ _ HC id row Hr Hx) as [(t & Hin & Hu)|[Hin|?]%elem_of_union]; [left; exists t; set_solver| |by right].
    left. unfold workspace_of in Hin. destruct (xr_workspace_id (ad_wire a)) as [w|]; [|set_solver]. apply elem_of_singleton in Hin as ->.
    eexists. split; [apply elem_of_app; right; by apply list_elem_of_singleton|]. by split.
Qed.

(** A refusal that leaves the node as it was, the workspace released. *)
Definition refused (m : Z) (lost : gset (string * Z)) (leaked : gset string) (s : NodeState) (c : node unit) : Prop :=
  exists e s', c s = (Err e, s') /\ NodeCore m lost leaked s' /\ same_slots s s'.

Lemma release_refused m lost leaked o a s e :
  NodeCore m lost (workspace_of a ∪ leaked) s -> unused a s ->
  refused m lost (leak o a ∪ leaked) s (release_workspace o a ;! throw e).
Proof.
  intros HC Hu. pose proof (release_core m lost leaked o a s HC Hu) as Hr. unfold refused, act_bind.
  assert ((release_workspace o a s).1 = Ok tt) as E.
  { unfold release_workspace. destruct (xr_workspace_id _); [|done]. unfold act_bind, node_workspaces. by destruct (mark_terminal _ _ _ _). }
  destruct (release_workspace o a s) as [r s1]. simpl in E. subst r. simpl. by eexists _, _.
Qed.

Lemma reserve_absent fault sn cv dg pr lh le now db :
  executions db !! snapshot_key sn = None -> forall snap, (reserve fault sn cv dg pr lh le now db).1 <> Ok (Existing snap).
Proof.
  intros Hn snap. unfold reserve, transaction. destruct fault; [done|]. destruct (reserve_body _ _ _ _ _ _ _ _) as [[r db']|] eqn:E; [|done].
  unfold reserve_body in E. fold (snapshot_key sn) in E. rewrite Hn in E. by cases_in E.
Qed.

(** How the reservation answers, and what it leaves. *)
Definition slot_answered (cfg : NodeConfig) (m : Z) (lost : gset (string * Z)) (leaked : gset string) (o : HandlerOutside) (a : Admission)
    (s : NodeState) (c : node unit) : Prop :=
  match c s with
  | (Ok _, s') => NodeCore m lost leaked (admitted cfg o a s').2 /\ same_slots s s'
  | (Err _, s') => NodeCore m lost (leak o a ∪ leaked) s' /\ same_slots s s'
  end.

Lemma refused_slot cfg m lost leaked o a s0 s c :
  same_slots s0 s -> refused m lost (leak o a ∪ leaked) s c -> slot_answered cfg m lost leaked o a s0 (fun _ => c s).
Proof. intros Hs (e & s' & E & HC & Hs'). unfold slot_answered. rewrite E. split; [done|by etrans]. Qed.

Lemma reserve_slot_core cfg m lost leaked o a s :
  NodeCore m lost (workspace_of a ∪ leaked) s -> bound a s -> (1 <= m)%Z ->
  (forall w row, xr_workspace_id (ad_wire a) = Some w -> workspaces (world (ns_stores s)).1 !! w = Some row -> wr_expires_unix_ms row = None) ->
  executions (ns_db s) !! ad_key a = None ->
  slot_answered cfg m lost leaked o a s (reserve_slot cfg o a).
Proof.
  intros HC Hb Hm Hexp Hn. pose proof (bound_unused _ _ _ a s HC Hb Hn) as Hu. unfold reserve_slot, act_bind at 1.
  pose proof (reserve_view m (ho_reserve o) (accepted a) (ad_canonical_version a) (ad_digest a) (ad_principal a) (ad_lease_hash a)
                (lease_end_unix cfg (ho_now o)) (ho_stored o) (ns_db s) (nc_db _ _ _ _ HC) Hm (bo_range _ _ Hb)) as Hv.
  pose proof (reserve_absent (ho_reserve o) (accepted a) (ad_canonical_version a) (ad_digest a) (ad_principal a) (ad_lease_hash a)
                (lease_end_unix cfg (ho_now o)) (ho_stored o) (ns_db s) Hn) as Hno.
  unfold slot_answered. destruct (reserve _ _ _ _ _ _ _ _ _) as [res db]. set (s1 := set_stores _ s).
  assert (db = ns_db s -> NodeCore m lost (workspace_of a ∪ leaked) s1) as Hback.
  { intros ->. eapply core_world; [exact HC|done..|apply (nc_held _ _ _ _ HC)|apply (nc_active _ _ _ _ HC)]. }
  assert (forall e, db = ns_db s -> slot_answered cfg m lost leaked o a s (fun _ => (release_workspace o a ;! throw e) s1)) as Hrel.
  { intros e Ed. by apply refused_slot, release_refused; [|apply Hback|]. }
  destruct res as [[|snap| | |]|e]; try by (apply Hrel).
  - destruct Hv as (HI & _ & Hnl & Hk). simpl. split; [|done].
    eapply (admitted_core _ _ _ _ _ _ s); [exact HC|exact Hb|exact Hexp|exact Hn|exact Hnl| | |done..].
    + by apply increment_metrics_inv; [|repeat constructor].
    + intros key. transitivity (db_view db key); [|apply Hk].
      apply (f_equal (fun rows : gmap _ ExecutionRow => row_view <$> rows !! key)), ct_rows, metrics_counted. by repeat constructor.
  - by destruct (Hno snap).
  - pose proof (keeps_bump o "rejected_storage" s1) as Hc. apply (refused_slot _ _ _ _ _ _ _ (bump o "rejected_storage" s1).2); [by apply (calm_slots s1)|].
    apply release_refused; [by eapply calm_core, Hback|]. by eapply (unused_slots a s1), Hu; apply calm_slots.
Qed.

Lemma make_room_core m lost leaked o s :
  (forall records, ho_order o records ≡ₚ map_to_list records) -> NodeCore m lost leaked s ->
  NodeCore m lost leaked (make_room o s).2 /\ same_slots s (make_room o s).2 /\ world (ns_stores (make_room o s).2) = world (ns_stores s)
  /\ executions (ns_db (make_room o s).2) = executions (ns_db s).
Proof.
  intros Ho HC. pose proof (evict_core m lost leaked (ho_order o) s) as Hev. set (s1 := set_records _ s) in *.
  unfold make_room, act_bind, modify, gets. fold s1. cbn. unfold reject_if, reject, bump. destruct (_ <=? _)%Z; [|by split_and!; [apply Hev|..]].
  pose proof (keeps_bump o "rejected_storage" s1) as Hc. split_and!; [by eapply calm_core, Hev|by apply (calm_slots s1)|done|].
  apply ct_rows, metrics_counted. by repeat constructor.
Qed.

Lemma reserve_execution_core cfg m lost leaked o a s :
  (forall records, ho_order o records ≡ₚ map_to_list records) ->
  NodeCore m lost leaked s -> bound a s -> (1 <= m)%Z -> executions (ns_db s) !! ad_key a = None ->
  slot_answered cfg m lost leaked o a s (reserve_execution cfg o a).
Proof.
  intros Ho HC Hb Hm Hn. destruct (make_room_core m lost leaked o s Ho HC) as (HC1 & Hs1 & Hw1 & Hd1).
  unfold slot_answered, reserve_execution, act_bind at 1. destruct (make_room o s) as [[u|e] s1].
  2:{ split; [eapply core_leaked; [|exact HC1]; set_solver|done]. }
  simpl in HC1, Hs1, Hw1, Hd1. pose proof (activate_workspace_core m lost leaked o a s1 HC1) as H2'. unfold act_bind at 1.
  destruct (activate_workspace o a s1) as [[u2|e] s2].
  2:{ destruct H2' as [? ?]. split; [done|by etrans]. }
  destruct H2' as (HC2 & Hs2 & Hd2 & Hw2).
  assert (bound a s2) as Hb2.
  { destruct Hb as [Hcap Hrng Hrow]. split; [done..|]. intros w Hw. destruct (Hrow w Hw) as (row & Hr & ? & ?).
    exists (set_expiry None row). rewrite Hw1 in Hw2. split; [by apply Hw2|done]. }
  pose proof (reserve_slot_core cfg m lost leaked o a s2 HC2 Hb2 Hm) as Hf. unfold slot_answered in Hf.
  destruct (reserve_slot cfg o a s2) as [[u3|e] s3]; (destruct Hf as [? ?]; [|by rewrite Hd2, Hd1|split; [done|by etrans; [|etrans]]]).
  - intros w row Hw Hr. destruct (bo_row _ _ Hb w Hw) as (row0 & Hr0 & _). rewrite <- Hw1 in Hr0. rewrite (Hw2 w row0 Hw Hr0) in Hr. by injection Hr as <-.
  - intros w row Hw Hr. destruct (bo_row _ _ Hb w Hw) as (row0 & Hr0 & _). rewrite <- Hw1 in Hr0. rewrite (Hw2 w row0 Hw Hr0) in Hr. by injection Hr as <-.
Qed.

(** A node that at most started one execution, one that never was before. *)
Definition spawned (s s' : NodeState) : Prop :=
  ns_tasks s' = ns_tasks s \/ exists t, ns_tasks s' = ns_tasks s ++ [t] /\ executions (ns_db s) !! task_key t = None.

Lemma calm_absent s s' key : calm s s' -> executions (ns_db s') !! key = None <-> executions (ns_db s) !! key = None.
Proof. intros Hc. pose proof (ca_view _ _ Hc key) as E. unfold db_view in E. by destruct (executions (ns_db s') !! key), (executions (ns_db s) !! key). Qed.

Lemma calm_spawned s s' : calm s s' -> spawned s s'.
Proof. left. by apply ca_tasks. Qed.

(** Admission conserves the permits: a refusal returns the one it took. *)
Lemma admit_inv cfg m lost leaked o a s :
  (forall records, ho_order o records ≡ₚ map_to_list records) ->
  NodeInv cfg m lost leaked s -> bound a s -> (1 <= m)%Z ->
  NodeInv cfg m lost (leak o a ∪ leaked) (admit_execution cfg o a s).2 /\ spawned s (admit_execution cfg o a s).2.
Proof.
  intros Ho HN Hb Hm.
  set (P := fun s' => NodeInv cfg m lost (leak o a ∪ leaked) s' /\ spawned s s'). change (P (admit_execution cfg o a s).2).
  assert (forall s', calm s s' -> P s') as Hcalm.
  { intros s' Hc. split; [|by apply calm_spawned]. apply (calm_inv _ _ _ _ _ _ Hc) in HN as [HC Hp Hf Hs]. split; [|done..]. eapply core_leaked; [|exact HC]. set_solver. }
  unfold admit_execution, act_bind at 1, query_store. destruct (ho_lookup o); [by apply Hcalm|].
  destruct (Store.lookup _ _ _) as [[existing|]|e] eqn:El; [apply Hcalm, keeps_attach| |by apply Hcalm].
  unfold act_bind at 1, gets at 1. unfold act_bind at 1.
  destruct (is_draining s); simpl; [apply Hcalm, (keeps_bump o "rejected_draining" s)|]. unfold act_bind at 1, gets at 1. unfold act_bind at 1.
  destruct (ns_permits s =? 0)%Z eqn:Ep; simpl; [apply Hcalm, (keeps_bump o "rejected_busy" s)|]. apply Z.eqb_neq in Ep.
  unfold act_bind at 1, modify at 1. set (s1 := set_permits Z.pred s). destruct HN as [HC Hp Hf Hset].
  assert (NodeCore m lost leaked s1) as HC1 by (destruct HC; by split).
  pose proof (reserve_execution_core cfg m lost leaked o a s1 Ho HC1) as Hr. unfold slot_answered in Hr. unfold act_bind at 1, attempt.
  assert (executions (ns_db s1) !! ad_key a = None) as Hn.
  { unfold Store.lookup in El. unfold ad_key. simpl. destruct (executions _ !! _) as [row|]; [|done]. by destruct (decode_snapshot _). }
  destruct (reserve_execution cfg o a s1) as [[u|e] s2].
  - destruct Hr as [HC2 [P2 T2]]; [by destruct Hb; split|done|done|].
    split; [|right; eexists; split; [by unfold admitted, act_bind, modify; simpl; rewrite T2|done]]. split.
    + eapply core_leaked; [|exact HC2]. set_solver.
    + unfold admitted, act_bind, modify. simpl. rewrite P2, T2. subst s1. simpl. unfold len in *. rewrite length_app. simpl. lia.
    + unfold admitted, act_bind, modify. simpl. rewrite P2. subst s1. simpl. lia.
    + simpl. rewrite T2. intros t e [Hin|Hin%list_elem_of_singleton]%elem_of_app; [by apply Hset|by subst t].
  - destruct Hr as [HC2 [P2 T2]]; [by destruct Hb; split|done|done|]. unfold act_bind, modify. split; [|by left]. split.
    + by destruct HC2; split.
    + simpl. rewrite P2, T2. subst s1. simpl. lia.
    + simpl. rewrite P2. subst s1. simpl. lia.
    + simpl. by rewrite T2.
Qed.

(** The numbers of a request are as wide as its wire type. *)
Definition typed_execute (r : HttpRequest) : Prop :=
  forall bytes wire, read_limited_body MAX_REQUEST_BYTES [] (body_chunks r) = Ok bytes -> from_slice bytes = Some wire ->
    u64_range (eh_generation (xr_handle wire)).

Lemma execution_root_bound cfg o wire principal s root s' :
  execution_root cfg o wire principal s = (Ok root, s') ->
  s' = s /\ forall w, xr_workspace_id wire = Some w ->
    exists row, workspaces (world (ns_stores s)).1 !! w = Some row /\ wr_execution_id row = eh_execution_id (xr_handle wire)
      /\ as_u64 (wr_generation row) = eh_generation (xr_handle wire).
Proof.
  unfold execution_root. destruct (xr_workspace_id wire) as [w|]; [|by intros [= _ <-]].
  rewrite act_bind_Ok. unfold node_workspaces. intros (ready & s1 & E1 & E2). destruct (resolve _ _ _ _ _ _) as [res wd] eqn:Er.
  injection E1 as <- <-. destruct res as [ready|e]; [|done]. injection E2 as _ <-.
  apply resolve_Ok in Er as (-> & _ & _ & row & Hrow & _ & Hid & Hg & _). split; [by destruct s as [[] ? ? ? ? ?]|].
  intros w' [= <-]. by exists row.
Qed.

(** The workspace a request names. *)
Definition request_workspace (r : HttpRequest) : gset string :=
  match read_limited_body MAX_REQUEST_BYTES [] (body_chunks r) with
  | Ok bytes => match from_slice bytes with
                | Some wire => match xr_workspace_id wire with Some w => {[w]} | None => ∅ end
                | None => ∅
                end
  | Err _ => ∅
  end.

Definition execute_leak (o : HandlerOutside) (r : HttpRequest) : gset string := if leaks o then request_workspace r else ∅.

Lemma check_execute_bound cfg o r principal s a s' :
  typed_execute r -> check_execute cfg o r principal s = (Ok a, s') -> bound a s' /\ workspace_of a = request_workspace r.
Proof.
  intros Ht. unfold check_execute. cbv zeta.
  rewrite act_bind_Ok. intros (bytes & s1 & E1 & E). unfold of_result in E1. destruct (read_limited_body _ _ _) as [b|] eqn:Eb; [|done].
  injection E1 as -> _. rewrite act_bind_Ok in E. destruct E as (wire & s2 & E2 & E). unfold of_result, ok_or in E2.
  destruct (from_slice bytes) as [x|] eqn:Ew; [|done]. injection E2 as -> _.
  do 11 (rewrite act_bind_Ok in E; destruct E as (? & ? & _ & E)).
  destruct (request_digest_with_workspace _ _) as [[cv dg]|]; [|by unfold reject in E; rewrite act_bind_Ok in E; destruct E as (? & ? & ? & ?)].
  rewrite act_bind_Ok in E. destruct E as (root & s3 & Hroot & E). apply execution_root_bound in Hroot as [-> Hrow].
  destruct (RunnerRequest_from_spec _ _ _) as [rq|]; [|by unfold reject in E; rewrite act_bind_Ok in E; destruct E as (? & ? & ? & ?)].
  injection E as <- <-. split; [|unfold request_workspace; by rewrite Eb, Ew]. split; simpl.
  - by destruct (xr_workspace_id wire).
  - by eapply Ht.
  - done.
Qed.

(** [execute] keeps the invariant; a workspace is leaked only by an engine that
    fails in the middle of an operation. *)
Lemma execute_inv cfg m lost leaked o r principal s :
  (forall records, ho_order o records ≡ₚ map_to_list records) -> typed_execute r ->
  NodeInv cfg m lost leaked s -> (1 <= m)%Z -> (m + 1 <= I64_MAX)%Z ->
  let s' := (execute cfg o r principal s).2 in NodeInv cfg (m + 1) lost (execute_leak o r ∪ leaked) s' /\ spawned s s'.
Proof.
  intros Ho Ht HN Hm Hm' s'. set (P := fun s' => NodeInv cfg (m + 1) lost (execute_leak o r ∪ leaked) s' /\ spawned s s').
  change (P s'). unfold s', execute. clear s'. pose proof (keeps_check_execute cfg o r principal s) as Hc. unfold act_bind at 1.
  destruct (check_execute cfg o r principal s) as [[a|e] s1] eqn:Ec.
  2:{ split; [|by apply calm_spawned]. apply (calm_inv _ _ _ _ _ _ Hc), (inv_mono _ m (m + 1)) in HN as [HC ? ? ?]; [|lia].
      split; try done. eapply core_leaked; [|exact HC]. set_solver. }
  simpl in Hc. apply (calm_inv _ _ _ _ _ _ Hc) in HN. destruct (check_execute_bound _ _ _ _ _ _ _ Ht Ec) as [Hb Ew].
  destruct (admit_inv cfg m lost leaked o a s1 Ho HN Hb Hm) as [HN2 Hsp]. unfold leak in HN2. rewrite Ew in HN2. fold (execute_leak o r) in HN2.
  assert (forall s', ns_tasks s' = ns_tasks (admit_execution cfg o a s1).2 -> spawned s s') as Hsp'.
  { intros s' Et. unfold spawned. rewrite Et, <- (ca_tasks _ _ Hc). destruct Hsp as [?|(t & ? & Hn)]; [by left|right; exists t; split; [done|]].
    by apply (calm_absent _ _ _ Hc). }
  unfold act_bind at 1. destruct (admit_execution cfg o a s1) as [[u|e] s2]; [|split; [by eapply inv_mono; [|exact HN2]; lia|by apply Hsp']].
  pose proof (publish_inv cfg m lost (execute_leak o r ∪ leaked) (ho_commit o) (ho_stored o) (ad_id a) Accepted None (EvState Accepted) s2 HN2 Hm' eq_refl) as HN3.
  destruct (publish_permits (ho_commit o) (ho_stored o) (ad_id a) Accepted None (EvState Accepted) s2) as [_ T3].
  unfold act_bind at 1. destruct (publish_record _ _ _ _ _ _ _) as [[u3|e] s3]; [|split; [done|by apply Hsp']]. unfold act_bind, gets.
  destruct (ns_executions s3 !! ad_id a) as [rec|]; [|split; [done|by apply Hsp']].
  pose proof (keeps_events (A := Outcome) o (ad_id a) (ad_generation a) 0 rec s3) as Hev.
  split; [by eapply calm_inv|]. apply Hsp'. by rewrite (ca_tasks _ _ Hev).
Qed.

(** ** The end of a task *)

Lemma same_task_spec t t' : same_task t t' = true <-> tk_id t = tk_id t' /\ tk_generation t = tk_generation t'.
Proof. unfold same_task. by rewrite andb_true_iff, String.eqb_eq, Z.eqb_eq. Qed.

Lemma same_task_key t t' : same_task t t' = true -> task_key t = task_key t'.
Proof. intros [E1 E2]%same_task_spec. unfold task_key. congruence. Qed.

Lemma NoDup_fmap_inj {A B} (f : A -> B) l x y : NoDup (f <$> l) -> x ∈ l -> y ∈ l -> f x = f y -> x = y.
Proof.
  induction l as [|z l IH]; [by intros _ ?%not_elem_of_nil|]. rewrite fmap_cons, NoDup_cons. intros [Hz Hl] Hx Hy E.
  apply elem_of_cons in Hx as [->|Hx], Hy as [->|Hy]; [done| | |by apply IH]; exfalso; apply Hz; apply list_elem_of_fmap; eauto.
Qed.

Lemma task_unique m lost leaked s t t' :
  NodeCore m lost leaked s -> t ∈ ns_tasks s -> t' ∈ ns_tasks s -> task_key t = task_key t' -> t = t'.
Proof. intros HC. apply NoDup_fmap_inj, (nc_distinct _ _ _ _ HC). Qed.

(** Two tasks use no common workspace. *)
Lemma uses_unique m lost leaked s t t' w :
  NodeCore m lost leaked s -> t ∈ ns_tasks s -> t' ∈ ns_tasks s -> uses t w -> uses t' w -> t = t'.
Proof.
  intros HC Ht Ht' Hu Hu'. eapply task_unique; [done..|]. destruct (nc_held _ _ _ _ HC t w Ht Hu) as (row & Hr & _ & Hi & Hg).
  destruct (nc_held _ _ _ _ HC t' w Ht' Hu') as (row' & Hr' & _ & Hi' & Hg'). unfold task_key. congruence.
Qed.

(** What [finalize_task] does to the table of the workspaces. *)
Definition retained (o : FinalOutside) (w : WorkspaceCapture) (rows : gmap string WorkspaceRow) : gmap string WorkspaceRow :=
  if fails (fo_retain o) WsUpdate then rows
  else alter (set_expiry (Some (as_i64 (sat_add (fo_later o) DEFAULT_RETENTION_MILLIS)))) (wcp_id w) rows.

(** Only the stores change, and of the workspaces only by [f]. *)
Record only_rows (f : gmap string WorkspaceRow -> gmap string WorkspaceRow) (s s' : NodeState) : Prop := {
  or_db : ns_db s' = ns_db s;
  or_records : ns_executions s' = ns_executions s;
  or_slots : same_slots s s';
  or_rows : workspaces (world (ns_stores s')).1 = f (workspaces (world (ns_stores s)).1);
}.

(** The same terminal state and the same counters. *)
Definition same_report (e e' : ExecutionResult) : Prop := res_state e' = res_state e /\ terminal_counters e' = terminal_counters e.

Lemma capture_outputs_shape cfg o t w completed e s :
  exists e' s', capture_outputs cfg o t w completed e s = (Ok e', s') /\ only_rows id s s' /\ same_report e e'.
Proof.
  unfold capture_outputs. destruct (should_capture _ _ _); [|by eexists _, _]. unfold act_bind, node_artifacts.
  destruct (capture_declared _ _ _ _ _ _ _ _ _ _) as [[n|x] [rows b]]; by eexists _, _.
Qed.

Lemma retain_workspace_shape o w e s :
  exists e' s', retain_workspace o w e s = (Ok e', s') /\ only_rows (retained o w) s s' /\ same_report e e'.
Proof.
  unfold retain_workspace, act_bind, node_workspaces.
  pose proof (mark_terminal_rows (fo_retain o) (wcp_id w) (sat_add (fo_later o) DEFAULT_RETENTION_MILLIS) (world (ns_stores s))) as Hr.
  destruct (mark_terminal _ _ _ _) as [r wd]. eexists _, _. split; [done|]. split; [by split|by destruct (is_ok r)].
Qed.

Lemma finalize_shape cfg o t loop lease_expired s :
  exists e s', finalize_task cfg o t loop lease_expired s = (Ok tt, set_tasks (fmap (fun t' => if same_task t t' then set_result e t' else t')) s')
    /\ only_rows (match tk_workspace t with Some w => retained o w | None => fun rows => rows end) s s'
    /\ same_report (execution_outcome loop lease_expired (rq_sandbox (tk_request t)) (rq_resources (tk_request t))) e.
Proof.
  unfold finalize_task. cbv zeta. set (e0 := execution_outcome _ _ _ _). destruct (tk_workspace t) as [w|]; [|by exists e0, s].
  destruct (capture_outputs_shape cfg o t w (is_some (lp_result loop)) e0 s) as (e1 & s1 & E1 & [D1 R1 S1 W1] & [A1 C1]).
  destruct (retain_workspace_shape o w e1 s1) as (e2 & s2 & E2 & [D2 R2 S2 W2] & [A2 C2]).
  exists e2, s2. unfold act_bind at 1 2. rewrite E1, E2. split; [done|]. split; [|split; congruence].
  split; [congruence|congruence|by etrans|]. rewrite W2, W1. done.
Qed.

Definition final_leak (o : FinalOutside) (t : Task) : gset string :=
  if fails (fo_retain o) WsUpdate then match tk_workspace t with Some w => {[wcp_id w]} | None => ∅ end else ∅.

Definition with_result (t : Task) (e : ExecutionResult) (t' : Task) : Task := if same_task t t' then set_result e t' else t'.

Lemma with_result_key t e t' : task_key (with_result t e t') = task_key t' /\ tk_id (with_result t e t') = tk_id t'.
Proof. unfold with_result. by destruct (same_task t t'). Qed.

Lemma with_result_keys t e (l : list Task) : task_key <$> (with_result t e <$> l) = task_key <$> l.
Proof. rewrite <- list_fmap_compose. apply list_fmap_ext. intros ? t' _. apply with_result_key. Qed.

Lemma with_result_uses t e t' id : uses (with_result t e t') id -> uses t' id /\ t' <> t.
Proof.
  unfold with_result. destruct (same_task t t') eqn:Es; [by intros [? _]|]. intros Hu. split; [done|]. intros ->.
  assert (same_task t t = true) by by apply same_task_spec. congruence.
Qed.

Lemma with_result_other m lost leaked s t e t' :
  NodeCore m lost leaked s -> t ∈ ns_tasks s -> t' ∈ ns_tasks s -> t' <> t -> with_result t e t' = t'.
Proof.
  intros HC Ht Ht' Hne. unfold with_result. destruct (same_task t t') eqn:Es; [|done]. destruct Hne. symmetry.
  eapply task_unique; [done..|by apply same_task_key].
Qed.

(** The rows of the workspaces after finalization, by who uses them. *)
Lemma finalized_row o t rows id row :
  match tk_workspace t with Some w => retained o w | None => fun rows => rows end rows !! id = Some row -> wr_expires_unix_ms row = None ->
  rows !! id = Some row /\ (wcp_id <$> tk_workspace t = Some id -> id ∈ final_leak o t).
Proof.
  unfold retained, final_leak. destruct (tk_workspace t) as [w|]; [|done]. destruct (fails _ _); [intros; split; [done|]; intros [= ->]; set_solver|].
  destruct (decide (wcp_id w = id)) as [<-|Hne].
  - rewrite lookup_alter_eq. destruct (rows !! wcp_id w); [|done]. by intros [= <-].
  - rewrite lookup_alter_ne by done. intros. split; [done|]. by intros [= ?].
Qed.

Lemma finalize_core m lost leaked o t e s s' :
  NodeCore m lost leaked s -> t ∈ ns_tasks s -> tk_result t = None ->
  only_rows (match tk_workspace t with Some w => retained o w | None => fun rows => rows end) s s' ->
  NodeCore m lost (final_leak o t ∪ leaked) (set_tasks (fmap (with_result t e)) s').
Proof.
  intros HC Ht Hn [D R [_ T] W]. split; [change (DbInv m (ns_db s'))|..]; simpl; change (ns_db (set_tasks _ s')) with (ns_db s'); rewrite ?D, ?R, ?T.
  - apply (nc_db _ _ _ _ HC).
  - apply (nc_record _ _ _ _ HC).
  - rewrite with_result_keys. apply (nc_distinct _ _ _ _ HC).
  - intros t' (t0 & -> & Hin)%list_elem_of_fmap. destruct (with_result_key t e t0) as [-> ->]. by apply (nc_task _ _ _ _ HC).
  - intros key Hl. rewrite with_result_keys. by apply (nc_live _ _ _ _ HC).
  - intros t' id (t0 & -> & Hin)%list_elem_of_fmap [Hu0 Hne]%with_result_uses. rewrite (with_result_other m lost leaked s) by done.
    destruct (nc_held _ _ _ _ HC t0 id Hin Hu0) as (row & Hr & Hx). exists row. split; [|done]. rewrite W.
    destruct (tk_workspace t) as [w|] eqn:Ew; [|done]. unfold retained. destruct (fails _ _); [done|]. rewrite lookup_alter_ne; [done|].
    intros <-. apply Hne. eapply uses_unique; [done..|]. split; [done|by rewrite Ew].
  - rewrite W. intros id row Hr Hx. destruct (finalized_row o t _ id row Hr Hx) as [Hr0 Hleak].
    destruct (nc_active _ _ _ _ HC id row Hr0 Hx) as [(t0 & Hin & Hu)|?]; [|right; set_solver]. destruct (decide (tk_id t0 = tk_id t /\ tk_generation t0 = tk_generation t)) as [[E1 E2]|Hne].
    + assert (t0 = t) as -> by (eapply task_unique; [done..|]; unfold task_key; congruence). right. apply elem_of_union_l, Hleak, Hu.
    + left. exists t0. split; [|done]. apply list_elem_of_fmap. exists t0. split; [|done]. symmetry. eapply with_result_other; [done..|]. intros ->. by apply Hne.
Qed.

(** The byte counts of a runner's result are unsigned. *)
Definition typed_loop (loop : LoopState) : Prop :=
  forall r, lp_result loop = Some r -> (0 <= total_bytes_ (rr_stdout r))%Z /\ (0 <= total_bytes_ (rr_stderr r))%Z.

Lemma outcome_reportable loop lease_expired sandbox resources :
  typed_loop loop -> reportable (execution_outcome loop lease_expired sandbox resources).
Proof.
  intros Ht. unfold execution_outcome. destruct (lp_result loop) as [r|] eqn:Er.
  - destruct (Ht r Er) as [Ho He]. unfold reportable, terminal_counters, execution_result. split.
    + destruct lease_expired; [done|]. simpl. destruct (rr_resource_limits_exceeded r), (rr_termination r); try done. by case_decide.
    + rewrite !Forall_app. split_and!; [by destruct (terminal_metric _); repeat constructor|destruct lease_expired; by repeat constructor|].
      by destruct (cleanup_warning _); repeat constructor.
  - destruct lease_expired, (failure_for_runner_error _ _); split; try done; by repeat constructor.
Qed.

(** A finalized task no longer uses its workspace. *)
Lemma finalize_inv cfg m lost leaked o t loop lease_expired s :
  NodeInv cfg m lost leaked s -> t ∈ ns_tasks s -> tk_result t = None ->
  typed_loop loop ->
  NodeInv cfg m lost (final_leak o t ∪ leaked) (finalize_task cfg o t loop lease_expired s).2.
Proof.
  intros [HC Hp Hf Hs] Ht Hn Hty. pose proof (outcome_reportable loop lease_expired (rq_sandbox (tk_request t)) (rq_resources (tk_request t)) Hty) as Hrep.
  destruct (finalize_shape cfg o t loop lease_expired s) as (e & s1 & E & Hrows & [Er Ec]). rewrite E. simpl.
  destruct (or_slots _ _ _ Hrows) as [P T]. split; simpl; rewrite ?P, ?T.
  - by eapply (finalize_core _ _ _ _ t e s).
  - unfold len in *. by rewrite length_fmap.
  - done.
  - intros t' e' (t0 & -> & Hin)%list_elem_of_fmap. unfold reportable in *. destruct (same_task t t0); [|by apply Hs]. intros [= <-]. by rewrite Er, Ec.
Qed.

(** The task of an execution is gone.  An execution that is still live then is
    lost, and a workspace the task still uses is leaked. *)
Lemma gone_core m lost leaked leaked' t s s' :
  NodeCore m lost leaked s -> t ∈ ns_tasks s -> leaked ⊆ leaked' -> (forall id, uses t id -> id ∈ leaked') ->
  ns_db s' = ns_db s -> ns_executions s' = ns_executions s -> world (ns_stores s') = world (ns_stores s) ->
  ns_tasks s' = List.filter (fun t' => negb (same_task t t')) (ns_tasks s) ->
  NodeCore m ({[task_key t]} ∪ lost) leaked' s'.
Proof.
  intros HC Ht Hsub Hl' D R W T.
  assert (forall t', t' ∈ ns_tasks s' <-> t' ∈ ns_tasks s /\ t' <> t) as Hin.
  { intros t'. rewrite T, !list_elem_of_In, filter_In, negb_true_iff. rewrite <- !list_elem_of_In. split; intros [H1' H2']; (split; [done|]).
    - intros ->. assert (same_task t t = true) by by apply same_task_spec. congruence.
    - destruct (same_task t t') eqn:Es; [|done]. destruct H2'. symmetry. eapply task_unique; [done..|by apply same_task_key]. }
  split; rewrite ?D, ?R, ?W.
  - apply (nc_db _ _ _ _ HC).
  - apply (nc_record _ _ _ _ HC).
  - rewrite T. pose proof (nc_distinct _ _ _ _ HC) as Hd. clear -Hd. induction (ns_tasks s) as [|x l IH]; [constructor|]. simpl.
    rewrite fmap_cons, NoDup_cons in Hd. destruct Hd as [Hx Hl]. destruct (same_task t x); simpl; [by apply IH|]. rewrite NoDup_cons. split; [|by apply IH].
    intros (y & E & Hy)%list_elem_of_fmap. apply Hx. apply list_elem_of_fmap. exists y. split; [done|]. apply list_elem_of_In, filter_In in Hy as [Hy _]. by apply list_elem_of_In.
  - intros t' [H1' _]%Hin. by apply (nc_task _ _ _ _ HC).
  - intros key Hl. destruct (nc_live _ _ _ _ HC key Hl) as [(t' & -> & H1')%list_elem_of_fmap|?]; [|right; set_solver].
    destruct (decide (task_key t' = task_key t)) as [->|Hne]; [right; set_solver|]. left. apply list_elem_of_fmap. exists t'. split; [done|]. apply Hin. split; congruence.
  - intros t' id [H1' _]%Hin. by apply (nc_held _ _ _ _ HC).
  - intros id row Hr Hx. destruct (nc_active _ _ _ _ HC id row Hr Hx) as [(t' & H1' & Hu)|?]; [|right; set_solver].
    destruct (decide (task_key t' = task_key t)) as [E|Hne].
    + right. apply Hl'. by rewrite <- (task_unique m lost leaked s t' t HC).
    + left. exists t'. split; [|done]. apply Hin. split; congruence.
Qed.

Lemma gone_length t l : NoDup (task_key <$> l) -> t ∈ l -> len (List.filter (fun t' => negb (same_task t t')) l) = (len l - 1)%Z.
Proof.
  unfold len. induction l as [|x l IH]; [by intros _ ?%not_elem_of_nil|]. rewrite fmap_cons, NoDup_cons. intros [Hx Hl] Hin.
  simpl. apply elem_of_cons in Hin as [->|Hin].
  - assert (same_task x x = true) as -> by by apply same_task_spec. simpl.
    assert (List.filter (fun t' => negb (same_task x t')) l = l) as ->; [|lia].
    clear -Hx. induction l as [|y l IH]; [done|]. simpl. rewrite fmap_cons, not_elem_of_cons in Hx. destruct Hx as [Hy Hx].
    destruct (same_task x y) eqn:Es; [by apply same_task_key in Es|]. simpl. by rewrite IH.
  - destruct (same_task t x) eqn:Es; simpl; [|specialize (IH Hl Hin); lia].
    exfalso. apply Hx. apply list_elem_of_fmap. exists t. split; [|done]. symmetry. by apply same_task_key.
Qed.

Lemma publish_tasks fault now id st res k f s :
  publish_record fault now id st res k (set_tasks f s)
  = ((publish_record fault now id st res k s).1, set_tasks f (publish_record fault now id st res k s).2).
Proof.
  unfold publish_record. simpl. change (ns_db (set_tasks f s)) with (ns_db s). destruct (ns_executions s !! id) as [r|]; [|done].
  by destruct (Node.publish _ _ _ _ _ _ _ _) as [[? ?] ?].
Qed.

Lemma publish_answers fault now id st res k s : (publish_record fault now id st res k s).1 = Ok tt.
Proof. unfold publish_record. destruct (ns_executions s !! _); [|done]. by destruct (Node.publish _ _ _ _ _ _ _ _) as [[? ?] ?]. Qed.

(** [settle_task], the task removed first. *)
Lemma settle_shape metric commit now t e s :
  settle_task metric commit now t e s
  = (Ok tt, set_permits Z.succ (set_records (alter set_finished (tk_id t))
      (publish_record commit now (tk_id t) (res_state e) (Some e) (EvState (res_state e))
        (set_tasks (List.filter (fun t' => negb (same_task t t'))) (node_metrics_add metric (terminal_counters e) s).2)).2)).
Proof.
  rewrite publish_tasks. set (s1 := (node_metrics_add metric (terminal_counters e) s).2). unfold settle_task, act_bind, modify.
  change (node_metrics_add metric (terminal_counters e) s) with (@Ok Outcome unit tt, s1). cbv beta iota.
  pose proof (publish_answers commit now (tk_id t) (res_state e) (Some e) (EvState (res_state e)) s1) as Eok.
  destruct (publish_record _ _ _ _ _ _ _) as [r x]. simpl in Eok. rewrite Eok. done.
Qed.

(** An execution whose terminal event the store refused is lost. *)
Definition lost_after (t : Task) (s : NodeState) (lost : gset (string * Z)) : gset (string * Z) :=
  match executions (ns_db s) !! task_key t with
  | Some row => if is_terminal_name (Store.state row) then lost else {[task_key t]} ∪ lost
  | None => lost
  end.

(** The terminal publication of an execution whose task is gone. *)
Lemma settle_publish m lost leaked commit now t r e s :
  NodeCore m ({[task_key t]} ∪ lost) leaked s -> (m + 1 <= I64_MAX)%Z -> task_key t ∉ task_key <$> ns_tasks s ->
  ns_executions s !! tk_id t = Some r -> record_key r = task_key t -> is_terminal (res_state e) = true ->
  let s' := (publish_record commit now (tk_id t) (res_state e) (Some e) (EvState (res_state e)) s).2 in
  NodeCore (m + 1) (lost_after t s' lost) leaked s'.
Proof.
  intros HC Hm Hnt Hr Hk Hterm s'. destruct (publish_outcomes m _ leaked commit now (tk_id t) (res_state e) (Some e) (EvState (res_state e)) s r HC Hm Hr) as [Hcalm|Hp].
  - fold s' in Hcalm. apply (calm_core _ _ _ _ _ Hcalm), (core_mono m (m + 1)) in HC; [|lia].
    assert (~ live (ns_db s') (task_key t) -> NodeCore (m + 1) lost leaked s') as Hdead.
    { intros Hnl. destruct HC as [? ? ? ? Hl ? ?]. split; try done.
      intros key Hkey. destruct (Hl key Hkey) as [?|[->%elem_of_singleton|?]%elem_of_union]; [by left|done|by right]. }
    unfold lost_after. destruct (executions (ns_db s') !! task_key t) as [row|] eqn:Erow; [destruct (is_terminal_name (Store.state row)) eqn:Et|].
    + apply Hdead. intros (v & Hv & Hlv). unfold db_view in Hv. rewrite Erow in Hv. injection Hv as <-. simpl in Hlv. congruence.
    + done.
    + by apply Hdead, live_row.
  - replace (lost_after t s' lost) with lost.
    + eapply progressed_core; [exact HC|exact Hr|exact Hp|by rewrite Hk|].
      rewrite Hk. intros key [->%elem_of_singleton|?]%elem_of_union Hx; [|done]. rewrite Hx in Hterm; done.
    + destruct (pg_view _ _ _ _ _ _ Hp) as (v & _ & _ & Hkeys). fold s' in Hkeys. specialize (Hkeys (task_key t)). rewrite decide_True in Hkeys by done.
      unfold db_view in Hkeys. unfold lost_after. destruct (executions (ns_db s') !! task_key t) as [row|]; [|done]. injection Hkeys as Es _ _.
      by rewrite Es, terminal_names, Hterm.
Qed.

(** A settled execution gives its permit back; it is lost exactly if the store
    refused its terminal event. *)
Lemma settle_inv cfg m lost leaked metric commit now t e s :
  NodeInv cfg m lost leaked s -> (m + 1 <= I64_MAX)%Z -> t ∈ ns_tasks s -> tk_result t = Some e ->
  let s' := (settle_task metric commit now t e s).2 in NodeInv cfg (m + 1) (lost_after t s' lost) leaked s'.
Proof.
  intros HN Hm Ht He s'. destruct (ni_settled _ _ _ _ _ HN t e Ht He) as [Hterm Hcnt].
  apply (calm_inv _ _ _ _ _ _ (keeps_node_metrics metric _ Hcnt s)) in HN. pose proof (ca_tasks _ _ (keeps_node_metrics metric _ Hcnt s)) as T1.
  unfold s'. rewrite settle_shape. cbn [snd]. set (s1 := (node_metrics_add metric (terminal_counters e) s).2) in *. rewrite <- T1 in Ht. clear T1 s'.
  destruct HN as [HC Hp Hf Hset]. set (s2 := set_tasks (List.filter (fun t' => negb (same_task t t'))) s1).
  assert (NodeCore m ({[task_key t]} ∪ lost) leaked s2) as HC2.
  { eapply gone_core; [exact HC|exact Ht|done| |done..]. intros id [Hn _]. congruence. }
  destruct (nc_task _ _ _ _ HC t Ht) as (_ & r & Hr & Hkey & _).
  assert (task_key t ∉ task_key <$> ns_tasks s2) as Hnt.
  { intros (t' & E & [Hin Hne]%list_elem_of_In%filter_In)%list_elem_of_fmap. apply list_elem_of_In in Hin.
    rewrite (task_unique m lost leaked s1 t t' HC Ht Hin E), (proj2 (same_task_spec t' t')) in Hne by done. done. }
  pose proof (settle_publish m lost leaked commit now t r e s2 HC2 Hm Hnt Hr Hkey Hterm) as HC3.
  destruct (publish_permits commit now (tk_id t) (res_state e) (Some e) (EvState (res_state e)) s2) as [P3 T3].
  set (s3 := (publish_record _ _ _ _ _ _ s2).2) in *. split; simpl; rewrite ?P3, ?T3.
  - pose proof (calm_core _ _ _ _ _ (calm_alter set_finished (tk_id t) s3 (fun _ => eq_refl)) HC3) as HC4. by destruct HC4; split.
  - change (ns_permits s2) with (ns_permits s1). change (ns_tasks s2) with (List.filter (fun t' => negb (same_task t t')) (ns_tasks s1)).
    rewrite gone_length; [lia|apply (nc_distinct _ _ _ _ HC)|done].
  - change (ns_permits s2) with (ns_permits s1). lia.
  - intros t' e' [Hin _]%list_elem_of_In%filter_In. apply Hset. by apply list_elem_of_In.
Qed.

(** What a panicking task leaves behind. *)
Definition abandon_leak (t : Task) : gset string :=
  match tk_result t, tk_workspace t with None, Some w => {[wcp_id w]} | _, _ => ∅ end.

Lemma abandon_inv cfg m lost leaked t s :
  NodeInv cfg m lost leaked s -> t ∈ ns_tasks s -> NodeInv cfg m ({[task_key t]} ∪ lost) (abandon_leak t ∪ leaked) (abandon_task t s).
Proof.
  intros [HC Hp Hf Hset] Ht. split; simpl.
  - eapply gone_core; [exact HC|exact Ht|set_solver| |done..]. unfold abandon_leak. intros id [Hr Hw]. rewrite Hr. destruct (tk_workspace t); [|done].
    injection Hw as <-. set_solver.
  - rewrite gone_length; [lia|apply (nc_distinct _ _ _ _ HC)|done].
  - lia.
  - intros t' e' [Hin _]%list_elem_of_In%filter_In. apply Hset. by apply list_elem_of_In.
Qed.

(** ** Start *)

Lemma guard_Ok {S E} (b : bool) (e : E) (s : S) u s' : guard_err b e s = (Ok u, s') -> b = false /\ s' = s.
Proof. unfold guard_err. destruct b; [done|]. by intros [= _ <-]. Qed.

Lemma starting_workspaces_Ok (c : ws unit) st u st' :
  starting_workspaces c st = (Ok u, st') -> database st' = database st /\ artifacts st' = artifacts st /\ c (world st) = (Ok tt, world st').
Proof. unfold starting_workspaces. destruct (c (world st)) as [[[]|e] w]; [|done]. by intros [= _ <-]. Qed.

Definition none_active (w : World) : Prop := forall id row, workspaces w.1 !! id = Some row -> wr_expires_unix_ms row <> None.

Lemma recover_retention_none o e w w' : recover_retention o e w = (Ok tt, w') -> none_active w'.
Proof.
  unfold recover_retention. rewrite act_bind_Ok. intros (? & ? & [_ ->]%guard_Ok & E). rewrite act_bind_Ok in E. destruct E as (ids & ? & [= <- <-] & E).
  rewrite act_bind_Ok in E. destruct E as (? & ? & [_ ->]%guard_Ok & E). rewrite act_bind_Ok in E. destruct E as (? & w1 & [= <- <-] & E).
  assert (keeps same_workspaces (act_each (fun p : nat * string => on_blobs WeBlob (set_reference_expiry (fails o (WsOwnerExpiry p.1)) "workspace" p.2 e))
    (imap pair (filter (fun kv => wr_expires_unix_ms kv.2 = None) (map_to_list (workspaces w.1))).*1))) as Hk.
  { apply keeps_each; [apply _|]. intros p _. apply keeps_on_blobs. }
  match type of E with _ ?x = _ => specialize (Hk x) end. rewrite E in Hk. destruct Hk as [Hk _]. intros id row. simpl in Hk. rewrite Hk, lookup_fmap_Some.
  intros (r & <- & _). destruct (wr_expires_unix_ms r) eqn:Er; [congruence|done].
Qed.

(** What a successful start went through. *)
Lemma start_shape cfg o stores s stores' :
  start cfg o stores = (Ok s, stores') ->
  exists recovered db snapshots, recover (so_recover o) (so_recover_rows o) (so_recovered o) (database stores) = (Ok recovered, db)
    /\ counted db (ns_db s) /\ load_all (ns_db s) = Ok snapshots
    /\ ns_executions s = foldl (fun m sn => <[Events.execution_id sn := restored_record (so_instant o) sn]> m) ∅ snapshots
    /\ none_active (world (ns_stores s)) /\ ns_permits s = nc_max_active cfg /\ ns_tasks s = [] /\ nc_max_active cfg <> 0%Z.
Proof.
  unfold start. rewrite act_bind_Ok. intros (? & ? & [Hlim ->]%guard_Ok & E).
  do 6 (rewrite act_bind_Ok in E; destruct E as (? & ? & [_ ->]%guard_Ok & E)).
  rewrite act_bind_Ok in E. destruct E as (? & st1 & [= _ <-] & E). rewrite act_bind_Ok in E. destruct E as (? & st2 & (D2 & _ & _)%starting_workspaces_Ok & E).
  rewrite act_bind_Ok in E. destruct E as (? & ? & [_ ->]%guard_Ok & E). rewrite act_bind_Ok in E. destruct E as (recovered & st3 & Hrec & E).
  destruct (recover _ _ _ (database st2)) as [[r|] db] eqn:Er; [|done]. injection Hrec as -> <-. rewrite D2 in Er. simpl in Er.
  rewrite act_bind_Ok in E. destruct E as (? & st4 & Hm & E).
  assert (counted db (database st4)) as Hc4.
  { destruct (len recovered =? 0)%Z; injection Hm as _ <-; [done|]. apply metrics_counted. repeat constructor. unfold len. simpl. lia. }
  rewrite act_bind_Ok in E. destruct E as (? & st5 & (D5 & _ & H5')%starting_workspaces_Ok & E). apply recover_retention_none in H5'.
  rewrite act_bind_Ok in E. destruct E as (? & st6 & (D6 & _ & H6')%starting_workspaces_Ok & E).
  rewrite act_bind_Ok in E. destruct E as (? & st7 & (D7 & _ & H7')%starting_workspaces_Ok & E).
  rewrite act_bind_Ok in E. destruct E as (? & ? & [_ ->]%guard_Ok & E). rewrite act_bind_Ok in E. destruct E as (snapshots & ? & Hl & E).
  destruct (load_all (database st7)) as [ss|] eqn:El; [|done]. injection Hl as -> <-.
  rewrite act_bind_Ok in E. destruct E as (? & ? & [_ ->]%guard_Ok & E). rewrite act_bind_Ok in E. destruct E as (? & ? & [= <- <-] & [= <- <-]).
  exists recovered, db, snapshots. split_and!; try done.
  - unfold ns_db. simpl. by rewrite D7, D6, D5.
  - simpl. assert (same_workspaces (world st5) (world st7)) as [Ews _].
    { etrans; [|pose proof (keeps_reconcile_manifests (so_reconcile o) (so_manifest_scan o) (so_reconciled o) 1024 (world st6)) as Hk; by rewrite H7' in Hk].
      assert (keeps same_workspaces (recover_manifest_retention (so_manifest_retention o) (sat_add (so_manifests_retained o) DEFAULT_RETENTION_MILLIS))) as Hk
        by (unfold recover_manifest_retention; keeps_tac; by apply keeps_modify).
      specialize (Hk (world st5)). by rewrite H6' in Hk. }
    intros id row. rewrite Ews. apply H5'.
  - by apply orb_false_iff in Hlim as [?%Z.eqb_neq _].
Qed.

Context `{!SerdeRoundTrip ExecutionSnapshot}.

(** The records [start] restores are those of stored rows. *)
Lemma restored_records instant (ss : list ExecutionSnapshot) (m0 : gmap string ExecutionRecord) id r :
  foldl (fun m sn => <[Events.execution_id sn := restored_record instant sn]> m) m0 ss !! id = Some r ->
  m0 !! id = Some r \/ exists sn, sn ∈ ss /\ Events.execution_id sn = id /\ r = restored_record instant sn.
Proof.
  revert m0. induction ss as [|sn ss IH]; simpl; intros m0 Hr; [by left|]. apply IH in Hr as [[[<- <-]|[_ ?]]%lookup_insert_Some|(x & ? & ? & ?)].
  - right. exists sn. split; [by left|done].
  - by left.
  - right. exists x. split; [by right|done].
Qed.

Lemma load_all_rows m db ss sn :
  DbInv m db -> load_all db = Ok ss -> sn ∈ ss ->
  u64_range (Events.generation sn) /\ exists row, executions db !! snapshot_key sn = Some row /\ Store.state row = state_name (snap_state sn).
Proof.
  intros HI Hl Hin. unfold load_all in Hl.
  destruct (decode_rows m db (sort_by Store.cmp_key (map_to_list (executions db))) HI) as (ss' & Hss & Hall).
  { intros [k row]. rewrite sort_by_perm. apply elem_of_map_to_list. }
  rewrite Hss in Hl. injection Hl as ->. apply list_elem_of_lookup in Hin as [i Hi].
  destruct (Forall2_lookup_r _ _ _ _ _ Hall Hi) as ([k row] & Hkv & _ & Hk & Hu & Hst). split; [done|]. exists row. split; [|done].
  rewrite Hk. apply list_elem_of_lookup_2 in Hkv. rewrite sort_by_perm in Hkv. by apply elem_of_map_to_list in Hkv.
Qed.

(** After a recovery nothing is live. *)
Lemma recovered_none m fault rows now db recovered db' :
  DbInv m db -> (m + 1 <= I64_MAX)%Z -> rows ≡ₚ live_rows db -> recover fault rows now db = (Ok recovered, db') ->
  DbInv (m + 1) db' /\ forall key, ~ live db' key.
Proof.
  intros HI Hm Hrows. unfold recover, transaction. destruct fault; [done|]. destruct (recover_body rows now db) as [[r d]|] eqn:E; [|done].
  intros [= -> ->]. destruct (recover_body_spec m _ _ _ _ _ HI Hm Hrows E) as (HI' & _ & Hterm & Hsome & Hlive & _). split; [done|].
  intros key (v & Hv & Hl). unfold db_view in Hv. destruct (executions db' !! key) as [row'|] eqn:Er'; [|done]. injection Hv as <-. simpl in Hl.
  destruct (proj1 (Hsome key) ltac:(by rewrite Er')) as [row Hrow]. destruct (is_terminal_name (Store.state row)) eqn:Et.
  - destruct (Hterm key row Hrow Et) as [E1 _]. congruence.
  - destruct (Hlive key row Hrow Et) as (sn & row2 & _ & _ & Er2 & Hr). rewrite Er' in Er2. injection Er2 as <-.
    unfold recovered_row in Hr. destruct Hr as (? & _ & ->). done.
Qed.

(** A node that starts has nothing live, lost or leaked. *)
Lemma start_inv cfg m o stores s stores' :
  DbInv m (database stores) -> (m + 1 <= I64_MAX)%Z -> so_recover_rows o ≡ₚ live_rows (database stores) -> (0 <= nc_max_active cfg)%Z ->
  start cfg o stores = (Ok s, stores') -> NodeInv cfg (m + 1) ∅ ∅ s /\ forall key, ~ live (ns_db s) key.
Proof.
  intros HI Hm Hrows Hmax E. destruct (start_shape _ _ _ _ _ E) as (rec & db & ss & Hrec & [Hr Hc] & Hl & He & Hn & Hp & Ht & _).
  destruct (recovered_none m _ _ _ _ _ _ HI Hm Hrows Hrec) as [HI' Hnl].
  assert (forall key, ~ live (ns_db s) key) as Hdead. { intros key (v & Hv & Hlv). apply (Hnl key). exists v. split; [|done]. unfold db_view in *. by rewrite Hr in Hv. }
  split; [|done]. split; [|by rewrite Hp, Ht; unfold len; simpl; lia|lia|rewrite Ht; by intros t e ?%not_elem_of_nil]. split; rewrite ?Ht.
  - by apply Hc.
  - rewrite He. intros id r [[]%lookup_empty_Some|(sn & Hin & Hid & ->)]%restored_records.
    destruct (load_all_rows _ _ _ _ (Hc _ HI') Hl Hin) as [Hu _]. by split_and!.
  - constructor.
  - by intros t ?%not_elem_of_nil.
  - by intros key ?%Hdead.
  - by intros t id ?%not_elem_of_nil.
  - intros id row H1' H2'. by destruct (Hn id row H1').
Qed.

(** ** Rows are for ever *)

Definition rows_kept (s s' : NodeState) : Prop :=
  forall key, is_Some (executions (ns_db s) !! key) -> is_Some (executions (ns_db s') !! key).

#[export] Instance rows_kept_preorder : PreOrder rows_kept.
Proof. split; [by intros s key|]. intros s1 s2 s3 K1 K2 key Hk. by apply K2, K1. Qed.

Lemma calm_rows s s' : calm s s' -> rows_kept s s'.
Proof. intros Hc key [row Hrow]. pose proof (calm_absent s s' key Hc) as Ha. destruct (executions (ns_db s') !! key); [done|]. by rewrite (proj1 Ha eq_refl) in Hrow. Qed.

Lemma keeps_calm_rows {A} (c : node A) : keeps calm c -> keeps rows_kept c.
Proof. intros Hc s. apply calm_rows, Hc. Qed.

Lemma commit_rows fault sn k now db key :
  is_Some (executions db !! key) -> is_Some (executions (commit_event fault sn k now db).2 !! key).
Proof.
  intros Hk. unfold commit_event, transaction. destruct fault; [done|]. destruct (commit_event_body sn k now db) as [[r d]|] eqn:E; [|done].
  unfold commit_event_body in E. destruct (executions db !! (_, _)) as [row|] eqn:Er; [|by injection E as <- <-].
  destruct (is_terminal_name _); [by injection E as <- <-|]. cases_in E; try done. unfold insert_event in *. simpl in *.
  repeat case_match; simplify_eq. simpl. apply lookup_alter_is_Some. done.
Qed.

Lemma keeps_publish_rows fault now id st res k : keeps rows_kept (publish_record fault now id st res k).
Proof.
  intros s key Hk. unfold publish_record. destruct (ns_executions s !! id) as [r|]; [|done]. unfold Node.publish, publish_begin.
  destruct (is_terminal _); [done|]. set (sn := propose _ _ _). pose proof (commit_rows fault sn k now (ns_db s) key Hk) as Hc.
  by destruct (commit_event _ _ _ _ _) as [[[e|]|e] db].
Qed.

Lemma reserve_rows fault sn cv dg pr lh le now db key :
  is_Some (executions db !! key) -> is_Some (executions (reserve fault sn cv dg pr lh le now db).2 !! key).
Proof.
  intros Hk. unfold reserve, transaction. destruct fault; [done|]. destruct (reserve_body _ _ _ _ _ _ _ _) as [[r d]|] eqn:E; [|done].
  unfold reserve_body in E. destruct (executions db !! (_, _)) as [row|] eqn:Er; [by cases_in E|]. cases_in E; try done. simpl.
  rewrite lookup_insert_is_Some'. by right.
Qed.

Lemma same_db_rows s s' : ns_db s' = ns_db s -> rows_kept s s'.
Proof. intros E key. by rewrite E. Qed.

Lemma keeps_release_rows o a : keeps rows_kept (release_workspace o a).
Proof. unfold release_workspace. keeps_tac. intros st. apply same_db_rows. unfold node_workspaces. by destruct (mark_terminal _ _ _ _). Qed.

Lemma keeps_execute_rows cfg o r principal : keeps rows_kept (execute cfg o r principal).
Proof.
  unfold execute, admit_execution, reserve_execution, make_room, activate_workspace, reserve_slot, admitted, answer, unavailable.
  keeps_tac; try apply keeps_release_rows; try apply keeps_publish_rows; try (apply keeps_calm_rows; first
    [apply keeps_check_execute|apply keeps_query_store|apply keeps_attach|apply keeps_reject_if|apply keeps_bump|apply keeps_events]);
    try (by apply keeps_modify; intros ?; apply same_db_rows).
  - intros st. apply same_db_rows. unfold node_workspaces. by destruct (mark_active _ _ _).
  - intros st key Hk. apply (reserve_rows (ho_reserve o) (accepted a) (ad_canonical_version a) (ad_digest a) (ad_principal a) (ad_lease_hash a)
      (lease_end_unix cfg (ho_now o)) (ho_stored o)) in Hk. by destruct (reserve _ _ _ _ _ _ _ _ _).
Qed.

Lemma keeps_control_rows cfg o id r principal renew : keeps rows_kept (control cfg o id r principal renew).
Proof.
  unfold control, cancel_execution. keeps_tac; try apply keeps_publish_rows; try (by apply keeps_modify; intros ?; apply same_db_rows).
  - apply keeps_calm_rows, keeps_check_control.
  - apply keeps_calm_rows, keeps_renew.
Qed.

Definition same_tasks (s s' : NodeState) : Prop := ns_tasks s' = ns_tasks s.

#[export] Instance same_tasks_preorder : PreOrder same_tasks.
Proof. split; [done|]. intros s1 s2 s3 E1 E2. unfold same_tasks in *. congruence. Qed.

Lemma keeps_control_tasks cfg o id r principal renew : keeps same_tasks (control cfg o id r principal renew).
Proof.
  unfold control, cancel_execution. keeps_tac; try (by apply keeps_modify).
  - intros s. apply (ca_tasks _ _ (keeps_check_control o id r principal s)).
  - intros s. apply (ca_tasks _ _ (keeps_renew cfg o id _ _ s)).
  - intros s. apply publish_permits.
Qed.

Lemma settle_rows metric commit now t e s : rows_kept s (settle_task metric commit now t e s).2.
Proof.
  unfold settle_task. match goal with |- rows_kept s (?c s).2 => enough (keeps rows_kept c) as Hk by apply Hk end.
  keeps_tac; try (by apply keeps_modify; intros ?; apply same_db_rows); [|apply keeps_publish_rows]. apply keeps_modify. intros x key Hk. change (ns_db _) with (increment_metrics metric (terminal_counters e) (ns_db x)).2.
  unfold increment_metrics, transaction. destruct (existsb _ _); [done|]. destruct (terminal_counters e); [done|]. by destruct metric.
Qed.

Context `{Serde FindMissingRequest, Serde PrepareBlobRequest, Serde WorkspaceCreateRequest, Serde DeriveWorkspaceRequest}.

(** ** Every moment of a node

    A transition is one handler, one round of a background loop or one phase of
    a task, atomically; requests, engine failures, clocks and scan orders are
    arbitrary.  ([Node] interleaves the halves of a publication.) *)

Inductive transition (cfg : NodeConfig) (lost : gset (string * Z)) (leaked : gset string) (s : NodeState)
    : gset (string * Z) -> gset string -> NodeState -> Prop :=
| tr_execute o r principal :
    (forall records, ho_order o records ≡ₚ map_to_list records) -> typed_execute r ->
    transition cfg lost leaked s lost (execute_leak o r ∪ leaked) (execute cfg o r principal s).2
| tr_control o id r principal renew : transition cfg lost leaked s lost leaked (control cfg o id r principal renew s).2
| tr_observe o id query principal : transition cfg lost leaked s lost leaked (observe o id query principal s).2
| tr_events o id query principal : transition cfg lost leaked s lost leaked (events_route o id query principal s).2
| tr_storage o route r principal h :
    storage_route (nc_storage cfg) o route r principal = Some h ->
    transition cfg lost leaked s lost leaked (set_stores (fun st => (h st).2) s)
| tr_pull_blob read fault r :
    transition cfg lost leaked s lost leaked (set_stores (set_database (fun db => (pull_blob read fault r db).2)) s)
| tr_pull_artifact read now renew_fails release_fails r :
    transition cfg lost leaked s lost leaked
      (set_stores (set_world (fun w => (w.1, (pull_artifact read now renew_fails release_fails r w.2).2))) s)
| tr_collect o dry limit : transition cfg lost leaked s lost leaked (set_stores (fun st => (collect_garbage o dry limit st).2) s)
| tr_running commit now t k :
    t ∈ ns_tasks s -> tk_result t = None ->
    transition cfg lost leaked s lost leaked (publish_record commit now (tk_id t) Running None k s).2
| tr_finalize o t loop lease_expired :
    t ∈ ns_tasks s -> tk_result t = None -> typed_loop loop ->
    transition cfg lost leaked s lost (final_leak o t ∪ leaked) (finalize_task cfg o t loop lease_expired s).2
| tr_settle metric commit now t e :
    t ∈ ns_tasks s -> tk_result t = Some e ->
    transition cfg lost leaked s (lost_after t (settle_task metric commit now t e s).2 lost) leaked (settle_task metric commit now t e s).2
| tr_panic t :
    t ∈ ns_tasks s -> transition cfg lost leaked s ({[task_key t]} ∪ lost) (abandon_leak t ∪ leaked) (abandon_task t s)
| tr_monitor id r w :
    ns_executions s !! id = Some r -> transition cfg lost leaked s lost leaked (set_records <[id := (monitor_lease r w).1]> s)
| tr_drain persisted draining : transition cfg lost leaked s lost leaked (set_draining persisted draining s)
| tr_shutdown : transition cfg lost leaked s lost leaked (shutdown s).

(** The transitions that are neither an [execute] nor the end of a task. *)
Lemma pull_blob_calm read fault r s : calm s (set_stores (set_database (fun db => (pull_blob read fault r db).2)) s).
Proof.
  apply calm_stores. split; [|done]. simpl. unfold pull_blob. destruct read as [n|]; [|done]. destruct (read_file n (br_rest r)) as [[|c chunk] rest]; [done|].
  apply metrics_counted. repeat constructor. unfold len. simpl. lia.
Qed.

(** Every task was there, or runs an execution that is new. *)
Definition fresh_tasks (s s' : NodeState) : Prop :=
  forall t, t ∈ ns_tasks s' -> task_key t ∈ task_key <$> ns_tasks s \/ executions (ns_db s) !! task_key t = None.

Lemma same_tasks_fresh s s' : (forall t, t ∈ ns_tasks s' -> task_key t ∈ task_key <$> ns_tasks s) -> fresh_tasks s s'.
Proof. intros Ht t Hin. left. by apply Ht. Qed.

Lemma spawned_fresh s s' : spawned s s' -> fresh_tasks s s'.
Proof.
  intros [E|(t & E & Hn)] x; rewrite E; [intros Hx; left; apply list_elem_of_fmap; by exists x|].
  intros [Hx|Hx%list_elem_of_singleton]%elem_of_app; [left; apply list_elem_of_fmap; by exists x|right; by subst x].
Qed.

Lemma gone_fresh t s s' : ns_tasks s' = List.filter (fun t' => negb (same_task t t')) (ns_tasks s) -> fresh_tasks s s'.
Proof.
  intros E. apply same_tasks_fresh. intros x. rewrite E. intros [Hx _]%list_elem_of_In%filter_In. apply list_elem_of_fmap. exists x.
  split; [done|by apply list_elem_of_In].
Qed.

Lemma transition_inv cfg m lost leaked s lost' leaked' s' :
  NodeInv cfg m lost leaked s -> (1 <= m)%Z -> (m + 1 <= I64_MAX)%Z -> transition cfg lost leaked s lost' leaked' s' ->
  NodeInv cfg (m + 1) lost' leaked' s' /\ rows_kept s s' /\ fresh_tasks s s'.
Proof.
  intros HN Hm Hm'.
  assert (forall s1, ns_tasks s1 = ns_tasks s -> fresh_tasks s s1) as Hsame by (intros s1 E; apply spawned_fresh; by left).
  assert (forall s1, calm s s1 -> NodeInv cfg (m + 1) lost leaked s1 /\ rows_kept s s1 /\ fresh_tasks s s1) as Hcalm.
  { intros s1 Hc. split_and!; [by eapply (inv_mono _ m); [lia|eapply calm_inv]|by apply calm_rows|by apply Hsame, ca_tasks]. }
  destruct 1 as [o r principal Ho Ht|o id r principal renew|o id query principal|o id query principal|o route r principal h Hh|read fault r
    |read now rf lf r|o dry limit|commit now t k Ht Hn|o t loop le Ht Hn Hty|metric commit now t e Ht He|t Ht|id r w Hr|persisted draining|].
  - destruct (execute_inv cfg m lost leaked o r principal s Ho Ht HN Hm Hm') as [HN' Hsp]. split_and!; [done|apply keeps_execute_rows|by apply spawned_fresh].
  - split_and!; [by apply control_inv|apply keeps_control_rows|apply Hsame, keeps_control_tasks].
  - apply Hcalm, keeps_observe.
  - apply Hcalm, keeps_events_route.
  - apply Hcalm, calm_stores. by eapply storage_calm.
  - apply Hcalm, pull_blob_calm.
  - apply Hcalm, calm_stores. split; [done|]. by apply active_kept_rows.
  - apply Hcalm, calm_stores, collect_garbage_calm.
  - split_and!; [by apply publish_inv|apply keeps_publish_rows|apply Hsame, publish_permits].
  - destruct (finalize_shape cfg o t loop le s) as (e & s1 & E & Hrows & _). split_and!.
    + eapply inv_mono; [|by apply finalize_inv]. lia.
    + rewrite E. apply same_db_rows, (or_db _ _ _ Hrows).
    + apply same_tasks_fresh. rewrite E. simpl. destruct (or_slots _ _ _ Hrows) as [_ ->].
      intros x (x0 & -> & Hx)%list_elem_of_fmap. destruct (with_result_key t e x0) as [Ek _]. unfold with_result in Ek. rewrite Ek. by apply list_elem_of_fmap_2.
  - split_and!; [by apply settle_inv|apply settle_rows|]. apply (gone_fresh t). rewrite settle_shape. cbn [snd].
    match goal with |- ns_tasks (set_permits _ (set_records _ (publish_record ?f ?n ?i ?st ?r ?k ?x).2)) = _ =>
      change (ns_tasks (publish_record f n i st r k x).2 = List.filter (fun t' => negb (same_task t t')) (ns_tasks s)); destruct (publish_permits f n i st r k x) as [_ ->] end. done.
  - split_and!; [eapply inv_mono; [|by apply abandon_inv]; lia|by apply same_db_rows|by apply (gone_fresh t)].
  - by apply Hcalm, monitor_calm.
  - apply Hcalm, set_draining_calm.
  - apply Hcalm, shutdown_calm.
Qed.

(** The executions that a transition started. *)
Definition started_by (s s' : NodeState) : list (string * Z) :=
  List.filter (fun key => negb (is_some (executions (ns_db s) !! key))) (task_key <$> ns_tasks s').

(** A node and all it was before: [started] lists the executions it ever
    started.  A crash loses all but the database; the other stores are
    whatever the crash left. *)
Inductive node_reach (cfg : NodeConfig) : nat -> list (string * Z) -> gset (string * Z) -> gset string -> NodeState -> Prop :=
| nr_start n stores o s stores' :
    reachable n (database stores) -> so_recover_rows o ≡ₚ live_rows (database stores) -> start cfg o stores = (Ok s, stores') ->
    node_reach cfg (S n) [] ∅ ∅ s
| nr_transition n started lost leaked s lost' leaked' s' :
    node_reach cfg n started lost leaked s -> transition cfg lost leaked s lost' leaked' s' ->
    node_reach cfg (S n) (started ++ started_by s s') lost' leaked' s'
| nr_restart n started lost leaked s stores o s' stores' :
    node_reach cfg n started lost leaked s -> database stores = ns_db s ->
    so_recover_rows o ≡ₚ live_rows (ns_db s) -> start cfg o stores = (Ok s', stores') ->
    node_reach cfg (S n) started ∅ ∅ s'.

(** What is known of the executions ever started. *)
Record StartedInv (started : list (string * Z)) (s : NodeState) : Prop := {
  st_once : NoDup started;
  st_rows key : key ∈ started -> is_Some (executions (ns_db s) !! key);
  st_tasks t : t ∈ ns_tasks s -> task_key t ∈ started;
}.

Lemma started_step cfg m lost leaked started s s' :
  NodeInv cfg m lost leaked s' -> rows_kept s s' -> fresh_tasks s s' -> StartedInv started s -> StartedInv (started ++ started_by s s') s'.
Proof.
  intros [HC _ _ _] Hrows Hfresh [Hon Hro Hta]. unfold started_by.
  assert (forall key, key ∈ List.filter (fun key => negb (is_some (executions (ns_db s) !! key))) (task_key <$> ns_tasks s')
    <-> key ∈ task_key <$> ns_tasks s' /\ executions (ns_db s) !! key = None) as Hnew.
  { intros key. rewrite list_elem_of_In, filter_In, <- list_elem_of_In. destruct (executions (ns_db s) !! key); naive_solver. }
  split.
  - apply NoDup_app. split_and!; [done| |].
    + intros key Hk [_ Hn]%Hnew. destruct (Hro key Hk) as [? ?]. congruence.
    + apply NoDup_ListNoDup, List.NoDup_filter, NoDup_ListNoDup, (nc_distinct _ _ _ _ HC).
  - intros key [Hk|[(t & -> & Ht)%list_elem_of_fmap _]%Hnew]%elem_of_app; [by apply Hrows, Hro|].
    destruct (nc_task _ _ _ _ HC t Ht) as [(v & Hv & _) _]. unfold db_view in Hv. by destruct (executions _ !! task_key t).
  - intros t Ht. apply elem_of_app. destruct (Hfresh t Ht) as [(t0 & -> & Ht0)%list_elem_of_fmap|Hn]; [left; by apply Hta|].
    right. apply Hnew. split; [by apply list_elem_of_fmap_2|done].
Qed.

(** What a start does to the executions it finds. *)
Lemma start_effect cfg m o stores s stores' :
  DbInv m (database stores) -> (m + 1 <= I64_MAX)%Z -> so_recover_rows o ≡ₚ live_rows (database stores) -> start cfg o stores = (Ok s, stores') ->
  forall key, match executions (database stores) !! key with
              | None => executions (ns_db s) !! key = None
              | Some row => if is_terminal_name (Store.state row) then executions (ns_db s) !! key = Some row
                            else exists row', executions (ns_db s) !! key = Some row' /\ Store.state row' = "Interrupted"
              end.
Proof.
  intros HI Hm Hrows E key. destruct (start_shape _ _ _ _ _ E) as (rec & db & _ & Hrec & [-> _] & _).
  unfold recover, transaction in Hrec. destruct (so_recover o); [done|]. destruct (recover_body _ _ _) as [[r d]|] eqn:Eb; [|done]. injection Hrec as -> ->.
  destruct (recover_body_spec m _ _ _ _ _ HI Hm Hrows Eb) as (_ & _ & Hterm & Hsome & Hlive & _).
  destruct (executions (database stores) !! key) as [row|] eqn:Er.
  - destruct (is_terminal_name (Store.state row)) eqn:Et; [by apply (Hterm key row)|].
    destruct (Hlive key row Er Et) as (sn & row' & _ & _ & Hr' & snap & _ & ->). by eexists.
  - apply eq_None_not_Some. rewrite Hsome, Er. by intros [? ?].
Qed.

Lemma node_reach_inv cfg n started lost leaked s :
  node_reach cfg n started lost leaked s -> (Z.of_nat n + 1 <= I64_MAX)%Z -> (0 <= nc_max_active cfg)%Z ->
  NodeInv cfg (Z.of_nat n + 1) lost leaked s /\ StartedInv started s.
Proof.
  intros Hr Hn Hmax. induction Hr as [n stores o s stores' Hdb Hrows Hs|n started lost leaked s lost' leaked' s' Hr IH Htr|n started lost leaked s stores o s' stores' Hr IH Ed Hrows Hs].
  - pose proof (reachable_inv _ _ Hdb ltac:(lia)) as HI. destruct (start_inv cfg _ o stores s stores' HI ltac:(lia) Hrows Hmax Hs) as [HN _].
    replace (Z.of_nat (S n) + 1)%Z with (Z.of_nat n + 1 + 1)%Z by lia. split; [done|].
    destruct (start_shape _ _ _ _ _ Hs) as (_ & _ & _ & _ & _ & _ & _ & _ & _ & Ht & _). split; [constructor|by intros k ?%not_elem_of_nil|rewrite Ht; by intros t ?%not_elem_of_nil].
  - destruct IH as [HN HS]; [lia|]. replace (Z.of_nat (S n) + 1)%Z with (Z.of_nat n + 1 + 1)%Z by lia.
    destruct (transition_inv cfg _ _ _ _ _ _ _ HN ltac:(lia) ltac:(lia) Htr) as (HN' & Hk & Hf). split; [done|by eapply started_step].
  - destruct IH as [HN [Hon Hro Hta]]; [lia|]. replace (Z.of_nat (S n) + 1)%Z with (Z.of_nat n + 1 + 1)%Z by lia.
    pose proof (nc_db _ _ _ _ (ni_core _ _ _ _ _ HN)) as HI. rewrite <- Ed in HI, Hrows.
    destruct (start_inv cfg _ o stores s' stores' HI ltac:(lia) Hrows Hmax Hs) as [HN' _]. split; [done|].
    destruct (start_shape _ _ _ _ _ Hs) as (_ & _ & _ & _ & _ & _ & _ & _ & _ & Ht & _). split; [done| |rewrite Ht; by intros t ?%not_elem_of_nil].
    intros key Hkey. destruct (Hro key Hkey) as [row Hrow]. pose proof (start_effect cfg _ o stores s' stores' HI ltac:(lia) Hrows Hs key) as Hef.
    rewrite Ed, Hrow in Hef. destruct (is_terminal_name _); [by exists row|]. destruct Hef as (row' & ? & _). by exists row'.
Qed.

(** The records of a started node. *)
Lemma start_records cfg m o stores s stores' :
  DbInv m (database stores) -> (m + 1 <= I64_MAX)%Z -> so_recover_rows o ≡ₚ live_rows (database stores) -> (0 <= nc_max_active cfg)%Z ->
  start cfg o stores = (Ok s, stores') ->
  forall id r, ns_executions s !! id = Some r -> Events.execution_id (rec_snapshot r) = id /\ is_terminal (snap_state (rec_snapshot r)) = true.
Proof.
  intros HI Hm Hrows Hmax E id r Hr. destruct (start_inv cfg m o stores s stores' HI Hm Hrows Hmax E) as [HN Hdead].
  destruct (start_shape _ _ _ _ _ E) as (_ & _ & ss & _ & _ & Hl & He & _). rewrite He in Hr.
  apply restored_records in Hr as [[]%lookup_empty_Some|(sn & Hin & Hid & ->)]. split; [done|]. simpl.
  destruct (load_all_rows _ _ _ _ (nc_db _ _ _ _ (ni_core _ _ _ _ _ HN)) Hl Hin) as [_ (row & Hrow & Hst)].
  destruct (is_terminal (snap_state sn)) eqn:Et; [done|]. destruct (Hdead (snapshot_key sn)). exists (row_view row). unfold db_view. rewrite Hrow.
  split; [done|]. simpl. by rewrite Hst, terminal_names.
Qed.

(** The tasks and the live executions of a node. *)
Lemma node_tasks m lost leaked s t :
  NodeCore m lost leaked s -> t ∈ ns_tasks s -> exists row r, executions (ns_db s) !! task_key t = Some row /\ is_terminal_name (Store.state row) = false
    /\ ns_executions s !! tk_id t = Some r /\ record_key r = task_key t /\ rec_lease_hash r = lease_token_hash row.
Proof.
  intros HC Ht. destruct (nc_task _ _ _ _ HC t Ht) as ((v & Hv & Hl) & r & Hr & Hk & v' & Hv' & Hh).
  rewrite Hv in Hv'. injection Hv' as <-. unfold db_view in Hv. destruct (executions _ !! task_key t) as [row|]; [|done]. injection Hv as <-.
  by exists row, r.
Qed.

Lemma node_live m lost leaked s key row :
  NodeCore m lost leaked s -> executions (ns_db s) !! key = Some row -> is_terminal_name (Store.state row) = false -> key ∉ lost ->
  exists t, t ∈ ns_tasks s /\ task_key t = key /\ forall t', t' ∈ ns_tasks s -> tk_id t' = key.1 -> t' = t.
Proof.
  intros HC Hrow Ht Hl. assert (live (ns_db s) key) as Hlive. { exists (row_view row). unfold db_view. by rewrite Hrow. }
  destruct (nc_live _ _ _ _ HC key Hlive) as [(t & -> & Hin)%list_elem_of_fmap|?]; [|done]. exists t. split; [done|]. split; [done|].
  intros t' Hin' Hid. simpl in Hid. eapply task_unique; [done..|]. destruct (nc_task _ _ _ _ HC t' Hin') as [Hl' _]. unfold task_key in *. f_equal; [done|].
  rewrite Hid in Hl'. by eapply live_unique; [apply (nc_db _ _ _ _ HC)|..].
Qed.

(** ** What the node promises *)

(** C1: whatever happens to a node (requests in any order, failing engines,
    panicking tasks, collections, a drain, crashes and restarts), permits and
    tasks add up to the configured maximum; every task runs a live execution
    and shares its lease with the record of that execution; every live
    execution is run by exactly one task, unless the store refused its
    terminal event or its task panicked; a workspace in use exists, belongs to
    its execution and never expires; and a workspace without an expiry is in
    use, unless a failing operation leaked it. *)
Theorem node_invariant (cfg : NodeConfig) (n : nat) (started : list (string * Z)) (lost : gset (string * Z)) (leaked : gset string) (s : NodeState) :
  node_reach cfg n started lost leaked s -> (Z.of_nat n + 1 <= I64_MAX)%Z -> (0 <= nc_max_active cfg)%Z ->
  (ns_permits s + len (ns_tasks s) = nc_max_active cfg)%Z /\ (0 <= ns_permits s)%Z
  /\ (forall t, t ∈ ns_tasks s -> exists row r, executions (ns_db s) !! task_key t = Some row /\ is_terminal_name (Store.state row) = false
        /\ ns_executions s !! tk_id t = Some r /\ record_key r = task_key t /\ rec_lease_hash r = lease_token_hash row)
  /\ (forall key row, executions (ns_db s) !! key = Some row -> is_terminal_name (Store.state row) = false -> key ∉ lost ->
        exists t, t ∈ ns_tasks s /\ task_key t = key /\ forall t', t' ∈ ns_tasks s -> tk_id t' = key.1 -> t' = t)
  /\ (forall t id, t ∈ ns_tasks s -> uses t id -> held_by t (world (ns_stores s)) id)
  /\ (forall id row, workspaces (world (ns_stores s)).1 !! id = Some row -> wr_expires_unix_ms row = None -> id ∉ leaked ->
        exists t, t ∈ ns_tasks s /\ uses t id).
Proof.
  intros Hr Hn Hmax. destruct (node_reach_inv cfg n started lost leaked s Hr Hn Hmax) as [[HC Hp Hf _] _]. split_and!; [done..|by eauto using node_tasks| | |].
  - intros key row Hrow Ht Hl. eapply node_live; eauto.
  - apply (nc_held _ _ _ _ HC).
  - intros id row Hrow Hx Hl. by destruct (nc_active _ _ _ _ HC id row Hrow Hx).
Qed.


(** C12: a restart settles what a crash interrupted.  On any database the store
    can reach, a start that answers keeps every finished execution, interrupts
    every other, and leaves a node with all its permits, without tasks, whose
    workspaces all have an expiry; each of its records is that of an execution
    that is over. *)
Theorem start_recovers (cfg : NodeConfig) (n : nat) (o : StartOutside) (stores : NodeStores) (s : NodeState) (stores' : NodeStores) :
  reachable n (database stores) -> (Z.of_nat n + 2 <= I64_MAX)%Z -> so_recover_rows o ≡ₚ live_rows (database stores) -> (0 <= nc_max_active cfg)%Z ->
  start cfg o stores = (Ok s, stores') ->
  ns_permits s = nc_max_active cfg /\ ns_tasks s = []
  /\ (forall key, match executions (database stores) !! key with
                  | None => executions (ns_db s) !! key = None
                  | Some row => if is_terminal_name (Store.state row) then executions (ns_db s) !! key = Some row
                                else exists row', executions (ns_db s) !! key = Some row' /\ Store.state row' = "Interrupted"
                  end)
  /\ none_active (world (ns_stores s))
  /\ (forall id r, ns_executions s !! id = Some r -> Events.execution_id (rec_snapshot r) = id /\ is_terminal (snap_state (rec_snapshot r)) = true).
Proof.
  intros Hdb Hn Hrows Hmax Hs. pose proof (reachable_inv _ _ Hdb ltac:(lia)) as HI.
  destruct (start_shape _ _ _ _ _ Hs) as (_ & _ & _ & _ & _ & _ & _ & Hnone & Hp & Ht & _). split_and!; [done|done| |exact Hnone|].
  - eapply start_effect; [exact HI|lia|done|done].
  - eapply start_records; [exact HI|lia|done|done|done].
Qed.

(** *** Control *)

(** What a control request must show: the principal, the lease and the latest
    generation of the execution it names. *)
Definition control_authorized (id : string) (r : HttpRequest) (principal : string) (db : Db) : Prop :=
  exists bytes request row, read_limited_body MAX_REQUEST_BYTES [] (body_chunks r) = Ok bytes /\ from_slice bytes = Some request
    /\ eh_execution_id (ct_handle request) = id /\ executions db !! (id, as_i64 (eh_generation (ct_handle request))) = Some row
    /\ Store.principal_id row = principal /\ lease_token_hash row = lease_hash (eh_lease_id (ct_handle request))
    /\ forall g, is_Some (executions db !! (id, g)) -> (g <= as_i64 (eh_generation (ct_handle request)))%Z.

(** Only the execution [id] changes, and of the rest of the node nothing. *)
Record only_execution (id : string) (s s' : NodeState) : Prop := {
  oe_rows key : key.1 <> id -> executions (ns_db s') !! key = executions (ns_db s) !! key;
  oe_records i : i <> id -> ns_executions s' !! i = ns_executions s !! i;
  oe_tasks : ns_tasks s' = ns_tasks s;
  oe_permits : ns_permits s' = ns_permits s;
  oe_world : world (ns_stores s') = world (ns_stores s);
  oe_artifacts : artifacts (ns_stores s') = artifacts (ns_stores s);
}.

#[export] Instance only_execution_preorder id : PreOrder (only_execution id).
Proof.
  split; [by split|]. intros s1 s2 s3 [R1 E1 T1 P1 W1 A1] [R2 E2 T2 P2 W2 A2]. split; try congruence.
  - intros key Hk. by rewrite R2, R1.
  - intros i Hi. by rewrite E2, E1.
Qed.

Lemma load_latest m db id sn :
  DbInv m db -> load_snapshot id None db = Ok (Some sn) ->
  forall g, is_Some (executions db !! (id, g)) -> (g <= as_i64 (Events.generation sn))%Z.
Proof.
  intros HI. unfold load_snapshot, decode_found. pose proof (latest_where_spec (fun i _ => String.eqb i id) db) as Hl.
  destruct (latest_where _ db) as [[k row]|]; [|done]. destruct Hl as (Hk & Hid & Hmax). simpl. unfold decode_snapshot.
  destruct (i_snapshot _ _ HI k row Hk) as (s0 & Hs0 & _ & _ & Hg & _). rewrite (from_slice_to_vec _ _ Hs0). simpl. intros [= <-] g [row' Hrow'].
  rewrite Hg. apply (Hmax (id, g) row' Hrow'). by apply String.eqb_eq.
Qed.

Lemma check_control_authorized m o id r principal s request record s' :
  DbInv m (ns_db s) -> check_control o id r principal s = (Ok (request, record), s') ->
  s' = s /\ control_authorized id r principal (ns_db s) /\ ns_executions s !! id = Some record.
Proof.
  intros HI. unfold check_control. cbv zeta.
  rewrite act_bind_Ok. intros (bytes & s1 & E1 & E). unfold of_result in E1. destruct (read_limited_body _ _ _) as [b|] eqn:Eb; [|done].
  injection E1 as -> <-. rewrite act_bind_Ok in E. destruct E as (req & s2 & E2 & E). unfold of_result, ok_or in E2.
  destruct (from_slice bytes) as [x|] eqn:Ew; [|done]. injection E2 as -> <-. rewrite act_bind_Ok in E. destruct E as (? & ? & [Hid ->]%guard_Ok & E).
  rewrite act_bind_Ok in E. destruct E as (ex & s3 & E3 & E). unfold query_store in E3. destruct (ho_lookup o); [done|].
  destruct (Store.lookup id _ (ns_db s)) as [[ex'|]|] eqn:El; [|by injection E3 as <- <-; rewrite act_bind_Ok in E; destruct E as (? & ? & ? & ?)|done].
  injection E3 as <- <-. rewrite act_bind_Ok in E. destruct E as (? & ? & [= <- <-] & E).
  rewrite act_bind_Ok in E. destruct E as (? & ? & [Hpr ->]%guard_Ok & E). rewrite act_bind_Ok in E. destruct E as (? & ? & [Hlh ->]%guard_Ok & E).
  rewrite act_bind_Ok in E. destruct E as (lat & s4 & E4 & E). unfold query_store in E4. destruct (ho_latest o); [done|].
  destruct (load_snapshot id None (ns_db s)) as [l|] eqn:Elat; [|done]. injection E4 as <- <-. rewrite act_bind_Ok in E. destruct E as (sn & ? & E5 & E).
  destruct l as [sn'|]; [|done]. injection E5 as -> <-. rewrite act_bind_Ok in E. destruct E as (? & ? & [Hg ->]%guard_Ok & E).
  rewrite act_bind_Ok in E. destruct E as (rc & ? & [= <- <-] & E). rewrite act_bind_Ok in E. destruct E as (rc' & ? & E6 & E).
  destruct (ns_executions s !! id) as [rc|] eqn:Erec; [|done]. injection E6 as -> <-. rewrite act_bind_Ok in E. destruct E as (? & ? & [_ ->]%guard_Ok & [= <- <- <-]).
  apply negb_false_iff, String.eqb_eq in Hpr, Hlh. apply negb_false_iff, Z.eqb_eq in Hg. apply orb_false_iff in Hid as [_ Hid]. apply negb_false_iff, String.eqb_eq in Hid.
  unfold Store.lookup in El. destruct (executions (ns_db s) !! _) as [row|] eqn:Erow; [|done]. destruct (decode_snapshot _) as [d|]; [|done]. injection El as <-.
  split; [done|]. split; [|done]. exists bytes, req, row. split_and!; try done. rewrite <- Hg. by eapply load_latest.
Qed.

Lemma keeps_query_eq {A} fault (f : Db -> result StoreError A) : keeps eq (query_store fault f).
Proof. intros s. unfold query_store. destruct fault; [done|]. by destruct (f _). Qed.

Lemma keeps_check_control_eq o id r principal : keeps eq (check_control o id r principal).
Proof. unfold check_control. cbv zeta. keeps_tac; apply keeps_query_eq. Qed.

Lemma commit_others fault sn k now db key :
  key <> snapshot_key sn -> executions (commit_event fault sn k now db).2 !! key = executions db !! key.
Proof.
  intros Hk. unfold commit_event, transaction. destruct fault; [done|]. destruct (commit_event_body sn k now db) as [[r d]|] eqn:E; [|done].
  unfold commit_event_body in E. destruct (executions db !! (_, _)) as [row|] eqn:Er; [|by injection E as <- <-].
  destruct (is_terminal_name _); [by injection E as <- <-|]. cases_in E; try done. unfold insert_event in *. simpl in *.
  repeat case_match; simplify_eq. simpl. by apply lookup_alter_ne.
Qed.

Lemma update_lease_others fault id g lh rid le now now' db key :
  key.1 <> id -> executions (update_lease fault id g lh rid le now now' db).2 !! key = executions db !! key.
Proof.
  intros Hk. unfold update_lease, transaction. destruct fault; [done|]. destruct (update_lease_body _ _ _ _ _ _ _ _) as [[r d]|] eqn:E; [|done].
  unfold update_lease_body in E. cases_in E; try done. simpl. apply lookup_alter_ne. intros <-. by apply Hk.
Qed.

Lemma publish_only fault now id st res k s r :
  ns_executions s !! id = Some r -> Events.execution_id (rec_snapshot r) = id -> only_execution id s (publish_record fault now id st res k s).2.
Proof.
  intros Hr Hid. unfold publish_record. rewrite Hr. unfold Node.publish, publish_begin.
  assert (forall d r' db, (forall key : string * Z, key.1 <> id -> executions db !! key = executions (ns_db s) !! key) ->
    only_execution id s (set_drain_flag d (set_records <[id := r']> (set_stores (set_database (fun _ => db)) s)))) as Hset.
  { intros d' r' db Hdb. split; try done. intros i Hi. simpl. by rewrite lookup_insert_ne. }
  destruct (is_terminal _); [by apply Hset|]. set (sn := propose _ _ _).
  assert (forall key : string * Z, key.1 <> id -> executions (commit_event fault sn k now (ns_db s)).2 !! key = executions (ns_db s) !! key) as Hdb.
  { intros key Hk. apply commit_others. intros ->. by apply Hk. }
  destruct (commit_event _ _ _ _ _) as [[[e|]|e] db]; by apply Hset.
Qed.

Lemma alter_only f id s : only_execution id s (set_records (alter f id) s).
Proof. split; try done. intros i Hi. simpl. by apply lookup_alter_ne. Qed.

Lemma control_only m lost leaked cfg o id request record (renew : bool) s :
  NodeCore m lost leaked s -> ns_executions s !! id = Some record ->
  only_execution id s ((if renew then renew_execution cfg o id request record else cancel_execution o id record) s).2.
Proof.
  intros HC Hr. destruct (nc_record _ _ _ _ HC id record Hr) as (Hid & _). destruct renew.
  - enough (keeps (only_execution id) (renew_execution cfg o id request record)) as Hk by apply Hk. unfold renew_execution, answer, unavailable.
    keeps_tac; [|apply keeps_modify; intros st; apply alter_only].
    intros st. destruct (update_lease _ _ _ _ _ _ _ _ _) as [res db] eqn:E. split; try done. intros key Hk. simpl.
    pose proof (update_lease_others (ho_renewal o) id (eh_generation (ct_handle request)) (rec_lease_hash record) a
      (lease_end_unix cfg (ho_now o)) (ho_stored o) (ho_later o) (ns_db st) key Hk) as Ho. by rewrite E in Ho.
  - unfold cancel_execution. cbv zeta. destruct (negb (is_terminal _) && _).
    + unfold act_bind at 1 2, guard_err. destruct (lease_over _ _); [done|]. unfold ret at 1. unfold act_bind at 1.
      pose proof (publish_only (ho_commit o) (ho_stored o) id Cancelling None (EvState Cancelling) s record Hr Hid) as Hp.
      destruct (publish_record _ _ _ _ _ _ s) as [[[]|] s1]; [|done]. simpl in *. etrans; [exact Hp|apply alter_only].
    + destruct (bool_decide _); simpl; [apply alter_only|done].
Qed.

End calm.

(** ** Concrete runs *)

Import Store.Run.

#[export] Instance ExecuteRequest_tree : Tree ExecuteRequest :=
  via_tree (fun r => (xr_schema_version r, xr_handle r, xr_workspace_id r, xr_spec r))
    (fun t => {| xr_schema_version := t.1.1.1; xr_handle := t.1.1.2; xr_workspace_id := t.1.2; xr_spec := t.2 |})
    (fun r => match r with Build_ExecuteRequest _ _ _ _ => eq_refl end).
#[export] Instance ControlRequest_tree : Tree ControlRequest :=
  via_tree (fun r => (ct_schema_version r, ct_handle r, ct_renewal_id r))
    (fun t => {| ct_schema_version := t.1.1; ct_handle := t.1.2; ct_renewal_id := t.2 |})
    (fun r => match r with Build_ControlRequest _ _ _ => eq_refl end).

#[local] Instance n_sha : Sha256 := zero_sha256.
#[local] Instance n_uuid : UuidParse := fun _ => true.
#[local] Instance n_manifest : Serde WorkspaceManifest := tree_serde.
#[local] Instance n_record : Serde ArtifactRecord := tree_serde.
#[local] Instance n_execute : Serde ExecuteRequest := tree_serde.
#[local] Instance n_control : Serde ControlRequest := tree_serde.
#[local] Instance n_spec : Serde ExecutionSpec := tree_serde.
#[local] Instance n_workspace_spec : Serde (ExecutionSpec * string) := tree_serde.
#[local] Instance n_missing : Serde FindMissingRequest := refuses.
#[local] Instance n_prepare : Serde PrepareBlobRequest := refuses.
#[local] Instance n_create : Serde WorkspaceCreateRequest := refuses.
#[local] Instance n_derive : Serde DeriveWorkspaceRequest := refuses.

(** A node of two permits that finds an execution its crash interrupted and the
    workspace [w] of the execution [e]. *)
Definition n_cfg : NodeConfig :=
  {| nc_node_id := "node"; nc_storage := {| blob_quota_bytes := 100; workspace_quota_bytes := 100; authorize_request := fun _ _ => true |};
     nc_execution_root := ["work"]; nc_workspace_root := ["workspaces"]; nc_max_active := 2; nc_lease_ttl_ms := 60000; nc_features := [] |}.
Definition n_stores : NodeStores := {| world := w_run.2; artifacts := ∅; database := db_running |}.
Definition n_begin : StartOutside :=
  {| so_tls_ok := true; so_lock_fails := false; so_lock_held := false; so_open_fails := false; so_blobs_fail := false; so_open_workspaces := w_outside;
     so_artifacts_fail := false; so_recover := None; so_recover_rows := live_rows db_running; so_metric := None; so_retention := w_outside;
     so_manifest_retention := w_outside; so_reconcile := w_outside; so_manifest_scan := fun w => map_to_list (retained_manifests w.1);
     so_load := None; so_drain_file := false; so_server_fails := false; so_recovered := 100; so_retained := 101; so_manifests_retained := 102; so_reconciled := 103; so_instant := 0 |}.
Definition n_outside : HandlerOutside :=
  {| ho_metric := None; ho_lookup := None; ho_latest := None; ho_reserve := None; ho_renewal := None; ho_commit := None; ho_page := None;
     ho_resolve := w_outside; ho_activate := w_outside; ho_retain := w_outside; ho_now := 200; ho_stored := 200; ho_later := 201; ho_instant := 5; ho_instant_later := 5;
     ho_order := map_to_list |}.
Definition n_handle : ExecutionHandle := {| eh_execution_id := "e"; eh_generation := 1; eh_lease_id := "lease" |}.
Definition n_request : HttpRequest :=
  {| query := None; body_length := None;
     body_chunks := [to_vec {| xr_schema_version := 1; xr_handle := n_handle; xr_workspace_id := Some "w"; xr_spec := sample_spec [] |}] |}.
Definition n_cancel : HttpRequest :=
  {| query := None; body_length := None; body_chunks := [to_vec {| ct_schema_version := 1; ct_handle := n_handle; ct_renewal_id := None |}] |}.

Definition n0 : NodeState :=
  match (start n_cfg n_begin n_stores).1 with Ok s => s | Err _ => {| ns_stores := n_stores; ns_executions := ∅; ns_permits := 0; ns_draining := true; ns_drain_file := true; ns_tasks := [] |} end.
Definition n1 : NodeState := (execute n_cfg n_outside n_request "p" n0).2.
Definition n2 : NodeState := (execute n_cfg n_outside n_request "p" n1).2.
Definition n3 : NodeState := (control n_cfg n_outside "e" n_cancel "p" false n2).2.

Lemma n0_starts : start n_cfg n_begin n_stores = (Ok n0, (start n_cfg n_begin n_stores).2).
Proof.
  assert (is_ok (start n_cfg n_begin n_stores).1 = true) as E by (vm_compute; reflexivity). unfold n0.
  by destruct (start n_cfg n_begin n_stores) as [[s|e] st].
Qed.

Lemma n_typed : typed_execute n_request.
Proof.
  intros bytes wire Hb Hw.
  assert (match read_limited_body MAX_REQUEST_BYTES [] (body_chunks n_request) with
          | Ok bytes => eh_generation ∘ xr_handle <$> from_slice bytes | Err _ => None end = Some 1%Z) as E by (vm_compute; reflexivity).
  rewrite Hb, Hw in E. injection E as ->. unfold u64_range, U64_MAX. lia.
Qed.

Definition n_leak : gset string := execute_leak n_outside n_request.

Lemma n0_reached : node_reach n_cfg 3 [] ∅ ∅ n0.
Proof. exact (nr_start n_cfg 2 n_stores n_begin n0 _ reach_running (Permutation_refl _) n0_starts). Qed.

Lemma n1_reached : node_reach n_cfg 4 ([] ++ started_by n0 n1) ∅ (n_leak ∪ ∅) n1.
Proof. exact (nr_transition n_cfg 3 [] ∅ ∅ n0 _ _ n1 n0_reached (tr_execute n_cfg ∅ ∅ n0 n_outside n_request "p" (fun _ => Permutation_refl _) n_typed)). Qed.

Definition n_twice : list (string * Z) := ([] ++ started_by n0 n1) ++ started_by n1 n2.
Definition n_leaked : gset string := n_leak ∪ (n_leak ∪ ∅).

Lemma n2_reached : node_reach n_cfg 5 n_twice ∅ n_leaked n2.
Proof.
  exact (nr_transition n_cfg 4 _ ∅ _ n1 _ _ n2 n1_reached (tr_execute n_cfg ∅ _ n1 n_outside n_request "p" (fun _ => Permutation_refl _) n_typed)).
Qed.

Definition n_started : list (string * Z) := n_twice ++ started_by n2 n3.

(** Started, asked twice for the same execution, and asked to cancel it. *)
Lemma n3_reached : node_reach n_cfg 6 n_started ∅ n_leaked n3.
Proof. exact (nr_transition n_cfg 5 n_twice ∅ n_leaked n2 _ _ n3 n2_reached (tr_control n_cfg ∅ n_leaked n2 n_outside "e" n_cancel "p" false)). Qed.

Lemma node_invariant_witness :
  (ns_permits n3 + len (ns_tasks n3))%Z = 2%Z /\ len (ns_tasks n3) = 1%Z
  /\ forall t id, t ∈ ns_tasks n3 -> uses t id -> held_by t (world (ns_stores n3)) id.
Proof.
  destruct (node_invariant n_cfg 6 n_started ∅ n_leaked n3 n3_reached ltac:(discriminate) ltac:(discriminate)) as (Hp & _ & _ & _ & Hh & _).
  split; [exact Hp|]. split; [vm_compute; reflexivity|exact Hh].
Defined.


Lemma start_recovers_witness :
  ns_permits n0 = 2%Z /\ exists row', executions (ns_db n0) !! ("exec-1", 1%Z) = Some row' /\ Store.state row' = "Interrupted".
Proof.
  destruct (start_recovers n_cfg 2 n_begin n_stores n0 _ reach_running ltac:(discriminate) ltac:(reflexivity) ltac:(discriminate) n0_starts)
    as (Hp & _ & Hr & _). split; [exact Hp|]. specialize (Hr ("exec-1", 1%Z)).
  assert ((is_terminal_name ∘ Store.state) <$> executions (database n_stores) !! ("exec-1", 1%Z) = Some false) as E by (vm_compute; reflexivity).
  destruct (executions (database n_stores) !! ("exec-1", 1%Z)) as [row|]; [|discriminate E]. injection E as E. rewrite E in Hr. exact Hr.
Defined.

