(* ===== verification/Daemon.v ===== *)
(** * The operator command

    [eggwork-server/src/bin/eggworkd.rs] on Linux: argument handling, the
    dispatch of [run] to the operations, deployment and service functions, the
    update command with its post-install check, and the service command.

    The machine is the files a drain marker lives among, the node's stores,
    Eggup's host and what was printed.  A printed report is the value handed to
    [output], an inhabitant of [Output]. *)

From Stdlib Require Import Ascii String ZArith Lia.
From stdpp Require Import base gmap strings list.
From S2P Require Import Prelude Text Ids Wire Std Spec Manifest Events Store Capture Runner Routes Telemetry Node Blob.
From S2P Require Import Workspace Artifact Storage Handlers Operations Deployment.

#[local] Open Scope string_scope.
#[local] Open Scope list_scope.
#[local] Open Scope act_scope.

(** ** Arguments *)

Fixpoint position (name : string) (args : list string) : option nat :=
  match args with
  | [] => None
  | a :: rest => if String.eqb a name then Some O else S <$> position name rest
  end.

Definition has_flag (name : string) (args : list string) : bool := existsb (fun arg => String.eqb arg name) args.

Definition option_value (args : list string) (name : string) : option string :=
  i ← position name args; args !! S i.

Definition required_option (args : list string) (name : string) : result string string :=
  ok_or (option_value args name) ("deployment apply requires " +:+ name).

Definition absolute_option (args : list string) (name : string) : result string string :=
  let? path := required_option args name in
  if negb (is_absolute path) then Err (name +:+ " must be an absolute path") else Ok path.

(** [parse_option] at [usize] and [u64], 64 bits both. *)
Definition parse_option (args : list string) (name : string) (default : Z) : result string Z :=
  match position name args with
  | Some i =>
      let? value := ok_or (args !! S i) (name +:+ " requires a value") in
      ok_or (parse_u64 value) ("invalid " +:+ name +:+ " value")
  | None => Ok default
  end.

Definition usage : string :=
  "usage: eggworkd <run|config validate|config print|doctor|status|drain|undrain|executions list|executions show|storage summary|inspect|gc|deployment status|deployment apply|service spec|service status|service install|service uninstall|service start|service stop|service restart|version> --config <file>; deployment apply accepts local --daemon/--helper candidates; service backends require explicit systemd, launchd, or Windows SCM policy".

Definition sha256_length_error : string :=
  "previous SHA-256 value must contain exactly 64 hexadecimal characters".

(** [parse_sha256]; [hex_decode] is the [hex] crate's. *)
Definition parse_sha256 (hex_decode : string -> option (list Z)) (text : string) : result string (list Z) :=
  if negb (str_len text =? 64)%Z || negb (all_bytes is_ascii_hexdigit text) then Err sha256_length_error
  else
    let? decoded := ok_or (hex_decode text) "previous SHA-256 value is invalid" in
    if Nat.eqb (length decoded) 32 then Ok decoded else Err "previous SHA-256 value is invalid".

(** [PathBuf::join] with a relative name, on the text. *)
Definition join_text (base name : string) : string :=
  if ends_with_char "/"%char base then base +:+ name else base +:+ "/" +:+ name.

(** [Display] of a [DeploymentError]. *)
Definition error_text (e : DeploymentError) : string := "deployment " +:+ de_kind e +:+ ": " +:+ de_detail e.

(** ** The machine *)

Record StatusReport := {
  sr_node_id : string;
  sr_draining : bool;
  sr_page : ExecutionPage;
  sr_max_active_executions : Z;
  sr_metrics : gmap string Z;
  sr_doctor : DoctorReport;
}.

Inductive Output : Type :=
| OutVersion (version : string)
| OutValid (valid : bool) (report : DoctorReport)
| OutConfig (text : string)
| OutDoctor (report : DoctorReport)
| OutStatus (report : StatusReport)
| OutDraining (draining : bool)
| OutPage (page : ExecutionPage)
| OutSnapshot (snapshot : ExecutionSnapshot)
| OutStorage (summary : StorageSummary)
| OutInspection (inspection : ResourceInspection)
| OutCollected (report : NodeGcReport)
| OutReady (node_id : string)
| OutDeployment (status : DeploymentStatus) (executable : option string) (platform : option (HostFacts * list string))
| OutApplied (release : string)
| OutSpec (spec : ServiceSpec)
| OutService (snapshot : LifecycleSnapshot)
| OutTransition (operation : string) (completed : bool).

Section daemon.
Context `{Sha256, UuidParse, TlsLib, UrlParser, Serde WorkspaceManifest, Serde ArtifactRecord,
  Serde ExecutionSnapshot, Serde ExecutionEvent, Serde OperatorConfig, Eggup}.

Record Machine := {
  m_files : files_at;
  m_stores : NodeStores;
  m_host : Host;
  m_printed : list Output;
}.

(** What one invocation meets. *)
Record Daemon := {
  d_version : string;
  d_os : Os;
  d_doctor : DoctorOutside;
  d_encodes : Output -> bool;
  d_to_str : PathBuf -> option string;
  d_pretty : Json -> option string;
  d_database : result IoError Metadata * bool * bool;
  d_metrics_prepare : bool;
  d_drain_fails : DrainStep -> bool;
  d_uuid : string;
  d_partial : string;
  d_stat_fails : path -> bool;
  d_list_fails : path -> bool;
  d_blob_tree : fs_node;
  d_workspace_tree : fs_node;
  d_inspect_opens : bool;
  d_shard : string -> result IoError Metadata;
  d_blob_file : string -> result IoError Stat;
  d_collect : CollectOutside;
  d_features : list string;
  d_start : StartOutside;
  d_serve : NodeState -> NodeState;
  d_signal_fails : bool;
  d_current_exe : option string;
  (** [symlink_metadata] and a bounded child: its arguments, its timeout and
      the most output it may write; the configured helper's [--version]. *)
  d_lstat : string -> result IoError Stat;
  d_run : string -> list string -> Z -> option Z -> probe;
  d_run_helper : PathBuf -> Z -> probe;
  d_from_str : string -> option Json;
  d_hex_decode : string -> option (list Z);
  d_polls : nat -> DbFile;
  d_slack : nat -> N;
  d_probe_time : N;
}.

Abbreviation command A := (act Machine string A).

Definition print (v : Output) : command unit :=
  modify (fun m => {| m_files := m_files m; m_stores := m_stores m; m_host := m_host m; m_printed := m_printed m ++ [v] |}).

Definition output (d : Daemon) (v : Output) : command unit :=
  guard_err (negb (d_encodes d v)) "output could not be encoded" ;! print v.

(** A call on one part of the machine, its error replaced. *)
Definition on_files {E A} (e : string) (c : act files_at E A) : command A :=
  fun m => let '(r, fs) := c (m_files m) in
           (map_err (fun _ => e) r, {| m_files := fs; m_stores := m_stores m; m_host := m_host m; m_printed := m_printed m |}).
Definition on_stores {E A} (e : string) (c : act NodeStores E A) : command A :=
  fun m => let '(r, st) := c (m_stores m) in
           (map_err (fun _ => e) r, {| m_files := m_files m; m_stores := st; m_host := m_host m; m_printed := m_printed m |}).
Definition on_update {A} (c : act (files_at * Host) DeploymentError A) : command A :=
  fun m => let '(r, (fs, h)) := c (m_files m, m_host m) in
           (map_err error_text r, {| m_files := fs; m_stores := m_stores m; m_host := h; m_printed := m_printed m |}).
Definition on_service {A} (c : Host -> result string A * Host) : command A :=
  fun m => let '(r, h) := c (m_host m) in
           (r, {| m_files := m_files m; m_stores := m_stores m; m_host := h; m_printed := m_printed m |}).

Definition or_error {E A} (r : result E A) (e : string) : command A := of_result (map_err (fun _ => e) r).

Definition database_file (d : Daemon) (m : Machine) : DbFile :=
  let '(lstat, opens, queries) := d_database d in
  {| df_lstat := lstat; df_opens := opens; df_queries := queries; df_db := database (m_stores m) |}.

(** ** Services *)

Definition product_service_manager (spec : ServiceSpec) (args : list string) : result string Manager :=
  let? unit_path := ok_or (option_value args "--unit-path") "service lifecycle requires --unit-path <absolute-path>" in
  let? scope := map_err error_text (parse_systemd_scope (default "system" (option_value args "--scope"))) in
  let? unit_name := ok_or (file_name (path_of unit_path)) "unit path must name a *.service file" in
  let? config := ok_or (sp_config spec) "service spec requires a config path" in
  map_err error_text
    (systemd_manager unit_name scope unit_path (sp_executable spec) config (has_flag "--enable" args)
       (negb (has_flag "--no-reload" args)) 60000).

Definition service_call_of (verb : string) : option ServiceCall :=
  if String.eqb verb "install" then Some CallInstall
  else if String.eqb verb "uninstall" then Some CallUninstall
  else if String.eqb verb "start" then Some (CallStart 60000)
  else if String.eqb verb "stop" then Some (CallStop 60000)
  else if String.eqb verb "restart" then Some (CallRestart 60000)
  else None.

Definition apply_service_operation (d : Daemon) (manager : Manager) (spec : ServiceSpec) (verb : string) : command unit :=
  if String.eqb verb "status" then
    let! h := gets m_host in
    let! snapshot := of_result (inspect manager spec h) in
    output d (OutService snapshot)
  else
    let! call := of_result (ok_or (service_call_of verb) usage) in
    let! outcome := on_service (service_call manager spec call) in
    output d (OutTransition verb (tr_completed outcome)) ;!
    guard_err (negb (tr_completed outcome))
      ("service " +:+ verb +:+ " did not complete"
       +:+ (if is_empty (tr_detail outcome) then EmptyString else ": " +:+ tr_detail outcome)).

Definition service_verbs : list string := ["status"; "install"; "uninstall"; "start"; "stop"; "restart"].

Definition service_command (d : Daemon) (args : list string) : command unit :=
  let! verb := of_result (ok_or (head args) usage) in
  let! executable :=
    of_result (match position "--executable" args with
               | Some i => ok_or (args !! S i) "--executable requires a value"
               | None => ok_or (d_current_exe d) "service commands require --executable <absolute-path>"
               end) in
  guard_err (negb (is_absolute executable)) "service executable must be absolute" ;!
  let! config_path :=
    of_result (match position "--service-config" args with
               | Some i => ok_or (args !! S i) "--service-config requires a value"
               | None => Err "service commands require --service-config <absolute-path>"
               end) in
  guard_err (negb (is_absolute config_path)) "service config path must be absolute" ;!
  let! spec := of_result (map_err error_text (service_spec_for_install executable (Some config_path))) in
  if String.eqb verb "spec" then output d (OutSpec spec)
  else if existsb (String.eqb verb) service_verbs then
    let! manager := of_result (product_service_manager spec args) in
    apply_service_operation d manager spec verb
  else throw usage.

(** ** Updates *)

Definition stat_meta (r : result IoError Stat) : result IoError Metadata := let? st := r in Ok (st_meta st).

(** The post-install check; its time is spent by the daemon's probe, and the
    helper's budget is what is left of the deadline. *)
Definition post_install_check (d : Daemon) (executable installed_helper : string) (remaining : Z) : result string unit :=
  let timeout := Z.min remaining 5000 in
  if (timeout =? 0)%Z then Err "post-install check budget exhausted"
  else
    match d_run d executable ["version"] timeout (Some MAX_VERSION_PROBE_BYTES) with
    | None => Err "installed daemon version probe failed"
    | Some (success, stdout) =>
        if negb success then Err "installed daemon version probe did not succeed"
        else
          match check_installed_daemon_version (d_from_str d) stdout (d_version d) with
          | Mismatch reported => Err ("installed daemon reports version " +:+ reported +:+ ", not this release")
          | Unreadable reason => Err ("installed daemon version report is unusable: " +:+ reason)
          | Matched _ =>
              let helper_budget := sat_sub remaining (Z.of_N (d_probe_time d)) in
              if negb (compatible
                         (check_helper_compatibility_with_timeout (os_euid (d_os d)) (fun p => stat_meta (d_lstat d p))
                            (fun p t => d_run d p ["--version"] t None) (Some installed_helper) (d_version d) helper_budget))
              then Err "installed sandbox helper is untrusted or version-incoherent" else Ok tt
          end
    end.

(** The digests the members to be replaced must have. *)
Definition expected_digest (d : Daemon) (member : string) (digest : option string) : result string (list (string * list Z)) :=
  match digest with
  | Some digest =>
      let? id := member_id member in
      let? bytes := parse_sha256 (d_hex_decode d) digest in
      Ok [(id, bytes)]
  | None => Ok []
  end.

Definition update_outside (d : Daemon) (check : Z -> result string unit) : UpdateOutside := {|
  uo_lstat := d_lstat d; uo_drain_fails := d_drain_fails d; uo_uuid := d_uuid d; uo_partial := d_partial d;
  uo_active := fun i => active_execution_count (d_polls d i); uo_slack := d_slack d; uo_health_check := check |}.

(** The candidates and the verifier [deployment_apply] makes of its options. *)
Definition release_sources (args : list string) (daemon_candidate : string) : result string (list CandidateSource) :=
  let? helper := ok_or (option_value args "--helper") "Linux release apply requires --helper <absolute-candidate>" in
  if negb (is_absolute helper) then Err "--helper must be an absolute path"
  else Ok [{| cs_member := MEMBER_DAEMON; cs_source := daemon_candidate; cs_destination := DEST_DAEMON |};
           {| cs_member := MEMBER_HELPER; cs_source := helper; cs_destination := DEST_HELPER |}].

Definition release_verifier (d : Daemon) (args : list string) : result string Verifier :=
  let previous_daemon := option_value args "--previous-daemon-sha256" in
  let previous_helper := option_value args "--previous-helper-sha256" in
  if (is_some previous_daemon || is_some previous_helper)
     && (negb (is_some previous_daemon) || negb (is_some previous_helper))
  then Err "replacement requires previous SHA-256 values for every release member"
  else
    let? daemon := expected_digest d MEMBER_DAEMON previous_daemon in
    let? helper := expected_digest d MEMBER_HELPER previous_helper in
    Ok (exact_digests (daemon ++ helper)).

Definition deployment_apply (d : Daemon) (args : list string) (config : OperatorConfig) : command unit :=
  let! installation_root := of_result (absolute_option args "--installation-root") in
  let! release := of_result (required_option args "--release") in
  let! daemon_candidate := of_result (absolute_option args "--daemon") in
  let! service_config := of_result (absolute_option args "--service-config") in
  let! sources := of_result (release_sources args daemon_candidate) in
  let! verifier := of_result (release_verifier d args) in
  let executable := join_text installation_root DEST_DAEMON in
  let! spec := of_result (map_err error_text (service_spec_for_install executable (Some service_config))) in
  let! manager := of_result (product_service_manager spec args) in
  let installed_helper := join_text installation_root DEST_HELPER in
  let! receipt :=
    on_update (orchestrate_update_with_lifecycle_budgeted
      (update_outside d (post_install_check d executable installed_helper)) manager verifier
      {| ur_spec := spec; ur_installation_root := installation_root; ur_release := release; ur_sources := sources;
         ur_drain_marker := Some (drain_path config);
         ur_policy := {| up_drain_timeout := up_drain_timeout default_policy;
                         up_health_timeout := up_health_timeout default_policy;
                         up_force := has_flag "--force" args; up_post_commit := up_post_commit default_policy |} |}) in
  output d (OutApplied release).

(** ** Commands *)

Definition require_valid (d : Daemon) (config : OperatorConfig) : command unit :=
  or_error (validate_config (d_os d) config) "configuration is invalid".

Definition config_command (d : Daemon) (args : list string) (config : OperatorConfig) : command unit :=
  match args !! 1 with
  | Some verb =>
      if String.eqb verb "validate" then
        let report := doctor (d_os d) (d_doctor d) config in
        let valid := is_ok (validate_config (d_os d) config) && dr_ready report in
        output d (OutValid valid report) ;! guard_err (negb valid) "configuration checks failed"
      else if String.eqb verb "print" then
        let! text := or_error (redacted_json (d_to_str d) (d_pretty d) config) "configuration could not be rendered" in
        print (OutConfig text)
      else throw usage
  | None => throw usage
  end.

Definition doctor_command (d : Daemon) (config : OperatorConfig) : command unit :=
  let report := doctor (d_os d) (d_doctor d) config in
  output d (OutDoctor report) ;! guard_err (negb (dr_ready report)) "doctor found an unavailable or invalid check".

Definition status_command (d : Daemon) (config : OperatorConfig) : command unit :=
  let report := doctor (d_os d) (d_doctor d) config in
  guard_err (negb (configuration_ok report)) "configuration is invalid" ;!
  let! file := gets (database_file d) in
  let! page := or_error (execution_page file 1 0) "execution state is unavailable" in
  let! metrics := or_error (metrics_snapshot file (d_metrics_prepare d)) "operator metrics are unavailable" in
  let! draining := gets (fun m => is_persistently_draining (drain_path config) (m_files m)) in
  output d (OutStatus {| sr_node_id := oc_node_id config; sr_draining := draining; sr_page := page;
                         sr_max_active_executions := oc_max_active_executions config; sr_metrics := metrics;
                         sr_doctor := report |}).

Definition drain_command (d : Daemon) (draining : bool) (config : OperatorConfig) : command unit :=
  require_valid d config ;!
  on_files "drain state could not be updated"
    (set_persistent_drain (d_drain_fails d) (d_uuid d) (d_partial d) (drain_path config) draining) ;!
  output d (OutDraining draining).

Definition executions_command (d : Daemon) (args : list string) (config : OperatorConfig) : command unit :=
  require_valid d config ;!
  let! file := gets (database_file d) in
  match args !! 1 with
  | Some verb =>
      if String.eqb verb "list" then
        let! limit := of_result (parse_option (drop 2 args) "--limit" 50) in
        let! offset := of_result (parse_option (drop 2 args) "--offset" 0) in
        let! page := or_error (execution_page file (Z.max 1 (Z.min limit 200)) (Z.min offset 2048))
                       "execution state is unavailable" in
        output d (OutPage page)
      else if String.eqb verb "show" then
        let! id := of_result (ok_or (args !! 2) usage) in
        let! generation := of_result (parse_option (drop 3 args) "--generation" 0) in
        let! snapshot := or_error (execution_show file id (if (generation =? 0)%Z then None else Some generation))
                           "execution was not found or could not be read" in
        output d (OutSnapshot snapshot)
      else throw usage
  | None => throw usage
  end.

Definition storage_command (d : Daemon) (args : list string) (config : OperatorConfig) : command unit :=
  require_valid d config ;!
  if bool_decide (args !! 1 = Some "summary") then
    let! summary := or_error (storage_summary (d_os d) (d_stat_fails d) (d_list_fails d) (d_blob_tree d)
                                (d_workspace_tree d) config) "storage summary is unavailable" in
    output d (OutStorage summary)
  else throw usage.

Definition inspect_command (d : Daemon) (args : list string) (config : OperatorConfig) : command unit :=
  require_valid d config ;!
  let! kind := of_result (ok_or (args !! 1) usage) in
  let! id := of_result (ok_or (args !! 2) usage) in
  let! m := gets (fun m : Machine => m) in
  let failed := "resource was not found or could not be inspected" in
  let! inspection :=
    if String.eqb kind "blob" then
      or_error (inspect_blob (d_inspect_opens d) (d_shard d) (d_blob_file d) id (world (m_stores m)).2) failed
    else if String.eqb kind "workspace" then
      or_error (inspect_workspace (d_inspect_opens d) id (world (m_stores m)).1) failed
    else if String.eqb kind "artifact" then
      or_error (inspect_artifact (d_inspect_opens d) id (artifacts (m_stores m))) failed
    else throw usage in
  output d (OutInspection inspection).

Definition gc_command (d : Daemon) (args : list string) (config : OperatorConfig) : command unit :=
  require_valid d config ;!
  let dry_run := negb (has_flag "--apply" (drop 1 args)) in
  let! limit := of_result (parse_option (drop 1 args) "--limit" 128) in
  let! report := on_stores "bounded garbage collection failed"
                   (operator_collect (d_collect d) dry_run (Z.to_nat (Z.max 1 (Z.min limit 1024)))) in
  output d (OutCollected report).

(** [d_serve] is the life of the node between its start and the signal. *)
Definition serve_command (d : Daemon) (config : OperatorConfig) : command unit :=
  require_valid d config ;!
  let! server := on_stores "node failed to start; check doctor and service logs"
                   (start_server (d_os d) (d_features d) (d_start d) config) in
  print (OutReady (oc_node_id config)) ;!
  let served := d_serve d server.2 in
  on_stores EmptyString (modify (E := unit) (fun _ => ns_stores served)) ;!
  guard_err (d_signal_fails d) "could not wait for shutdown signal" ;!
  on_stores EmptyString (modify (E := unit) (fun _ => ns_stores (shutdown served))).

Definition deployment_command (d : Daemon) (args : list string) (config : OperatorConfig) : command unit :=
  require_valid d config ;!
  match args !! 1 with
  | Some verb =>
      if String.eqb verb "status" then
        let helper_required := is_some (oc_sandbox_helper config) in
        let status := collect_status (os_euid (d_os d)) (fun p => stat_meta (os_lstat (d_os d) p))
                        (d_run_helper d) (d_version d)
                        (oc_sandbox_helper config) helper_required in
        let! h := gets m_host in
        let platform := match platform_support h with
                        | Ok facts => Some (facts, candidate_managers_for facts)
                        | Err _ => None
                        end in
        output d (OutDeployment status (display <$> d_current_exe d) platform)
      else if String.eqb verb "apply" then deployment_apply d (drop 1 args) config
      else throw usage
  | None => throw usage
  end.

Definition dispatch_command (d : Daemon) (name : string) (args : list string) (config : OperatorConfig) : command unit :=
  if String.eqb name "config" then config_command d args config
  else if String.eqb name "doctor" then doctor_command d config
  else if String.eqb name "status" then status_command d config
  else if String.eqb name "drain" then drain_command d true config
  else if String.eqb name "undrain" then drain_command d false config
  else if String.eqb name "executions" then executions_command d args config
  else if String.eqb name "storage" then storage_command d args config
  else if String.eqb name "inspect" then inspect_command d args config
  else if String.eqb name "gc" then gc_command d args config
  else if String.eqb name "run" then serve_command d config
  else if String.eqb name "deployment" then deployment_command d args config
  else if String.eqb name "service" then require_valid d config ;! service_command d (drop 1 args)
  else throw usage.

(** The configuration named by the arguments, and the arguments without it. *)
Definition split_config (args : list string) : option (string * list string) :=
  i ← position "--config" args; path ← args !! S i; Some (path, take i args ++ drop (S (S i)) args).

Definition run (d : Daemon) (args : list string) : command unit :=
  match args with
  | [] => throw usage
  | name :: _ =>
      if String.eqb name "version" then output d (OutVersion (d_version d))
      else
        let! (config_path, args) := of_result (ok_or (split_config args) usage) in
        let! config := or_error (load_config (d_os d) (path_of config_path)) "configuration is invalid or unreadable" in
        dispatch_command d name args config
  end.

(** ** What a command may change *)

Inductive Part : Type := PFiles | PStores | PHost.

Definition same_part (p : Part) (m m' : Machine) : Prop :=
  match p with
  | PFiles => m_files m' = m_files m
  | PStores => m_stores m' = m_stores m
  | PHost => m_host m' = m_host m
  end.

(** Everything outside [parts] stays. *)
Definition frame (parts : list Part) (m m' : Machine) : Prop := forall p, p ∉ parts -> same_part p m m'.

#[export] Instance frame_preorder parts : PreOrder (frame parts).
Proof.
  split; [by intros m []|]. intros m1 m2 m3 H12 H23 p Hp. specialize (H12 p Hp). specialize (H23 p Hp).
  destruct p; cbn in *; congruence.
Qed.

Lemma frame_print parts v : keeps (frame parts) (print v).
Proof. by intros m [] _. Qed.
Lemma frame_output parts d v : keeps (frame parts) (output d v).
Proof. unfold output. keeps_tac. apply frame_print. Qed.
Lemma frame_on_files {E A} e (c : act files_at E A) : keeps (frame [PFiles]) (on_files e c).
Proof. intros m p Hp. unfold on_files. destruct (c (m_files m)). destruct p; try done. by destruct Hp; left. Qed.
Lemma frame_on_stores {E A} e (c : act NodeStores E A) : keeps (frame [PStores]) (on_stores e c).
Proof. intros m p Hp. unfold on_stores. destruct (c (m_stores m)). destruct p; try done. by destruct Hp; left. Qed.
Lemma frame_on_service {A} (c : Host -> result string A * Host) : keeps (frame [PHost]) (on_service c).
Proof. intros m p Hp. unfold on_service. destruct (c (m_host m)). destruct p; try done. by destruct Hp; left. Qed.
Lemma frame_on_update {A} (c : act (files_at * Host) DeploymentError A) : keeps (frame [PFiles; PHost]) (on_update c).
Proof.
  intros m p Hp. unfold on_update. destruct (c (m_files m, m_host m)) as [r [fs h]]. destruct p; try done; destruct Hp; set_solver.
Qed.

(** [keeps_tac] and the calls of a command. *)
Ltac frame_tac :=
  unfold or_error; keeps_tac;
  first [ apply frame_print | apply frame_output | apply frame_on_files | apply frame_on_stores | apply frame_on_service
        | apply frame_on_update | idtac ].

(** The verbs that change a service. *)
Definition changes_service (verb : option string) : bool :=
  match verb with Some verb => is_some (service_call_of verb) | None => false end.

(** The parts a command with these arguments may change. *)
Definition allowed_parts (name : string) (args : list string) : list Part :=
  if String.eqb name "drain" || String.eqb name "undrain" then [PFiles]
  else if String.eqb name "gc" then (if has_flag "--apply" (drop 1 args) then [PStores] else [])
  else if String.eqb name "run" then [PStores]
  else if String.eqb name "deployment" then (if bool_decide (args !! 1 = Some "apply") then [PFiles; PHost] else [])
  else if String.eqb name "service" then (if changes_service (args !! 1) then [PHost] else [])
  else [].

Lemma frame_readers d args config :
  keeps (frame []) (config_command d args config) /\ keeps (frame []) (doctor_command d config) /\
  keeps (frame []) (status_command d config) /\ keeps (frame []) (executions_command d args config) /\
  keeps (frame []) (storage_command d args config) /\ keeps (frame []) (inspect_command d args config).
Proof.
  unfold config_command, doctor_command, status_command, executions_command, storage_command, inspect_command, require_valid.
  split_and!; frame_tac.
Qed.

Lemma frame_drain d draining config : keeps (frame [PFiles]) (drain_command d draining config).
Proof. unfold drain_command, require_valid. frame_tac. Qed.

Lemma frame_serve d config : keeps (frame [PStores]) (serve_command d config).
Proof. unfold serve_command, require_valid. frame_tac. Qed.

Lemma frame_preview e o limit : keeps (frame []) (on_stores e (operator_collect o true limit)).
Proof. by intros m [] _. Qed.

Lemma frame_gc d args config :
  keeps (frame (if has_flag "--apply" (drop 1 args) then [PStores] else [])) (gc_command d args config).
Proof.
  unfold gc_command, require_valid. destruct (has_flag "--apply" (drop 1 args)); cbn [negb]; frame_tac.
  apply frame_preview.
Qed.

Lemma frame_deployment d args config :
  keeps (frame (if bool_decide (args !! 1 = Some "apply") then [PFiles; PHost] else [])) (deployment_command d args config).
Proof.
  unfold deployment_command, require_valid. apply keeps_bind; [apply _|frame_tac|intros _].
  destruct (args !! 1) as [verb|]; [|frame_tac]. destruct (String.eqb_spec verb "status") as [->|Hs]; [frame_tac|].
  destruct (String.eqb_spec verb "apply") as [->|Ha]; [|frame_tac].
  rewrite bool_decide_true by done. unfold deployment_apply. frame_tac.
Qed.

Lemma frame_service_operation d manager spec verb :
  keeps (frame (if is_some (service_call_of verb) then [PHost] else [])) (apply_service_operation d manager spec verb).
Proof.
  unfold apply_service_operation.
  destruct (service_call_of verb) as [call|]; cbn [is_some ok_or]; [frame_tac|].
  destruct (String.eqb verb "status"); [frame_tac|]. by intros m [] _.
Qed.

Lemma frame_known {A B} parts (a : A) (k : A -> command B) :
  keeps (frame parts) (k a) -> keeps (frame parts) (act_bind (of_result (Ok a)) k).
Proof. exact id. Qed.

Lemma frame_service d args :
  keeps (frame (if changes_service (head args) then [PHost] else [])) (service_command d args).
Proof.
  unfold service_command. destruct (head args) as [verb|]; cbn [changes_service ok_or]; [|by intros m [] _].
  apply frame_known. pose proof (fun manager spec => frame_service_operation d manager spec verb) as Hcall.
  set (parts := if is_some _ then _ else _) in *. clearbody parts. frame_tac. apply Hcall.
Qed.

Lemma frame_dispatch d name args config : keeps (frame (allowed_parts name args)) (dispatch_command d name args config).
Proof.
  unfold dispatch_command, allowed_parts.
  destruct (frame_readers d args config) as (Hconfig & Hdoctor & Hstatus & Hexecutions & Hstorage & Hinspect).
  destruct (String.eqb_spec name "config") as [->|_]; [done|].
  destruct (String.eqb_spec name "doctor") as [->|_]; [done|].
  destruct (String.eqb_spec name "status") as [->|_]; [done|].
  destruct (String.eqb name "drain"); [apply frame_drain|].
  destruct (String.eqb name "undrain"); [apply frame_drain|]. cbn [orb].
  destruct (String.eqb_spec name "executions") as [->|_]; [done|].
  destruct (String.eqb_spec name "storage") as [->|_]; [done|].
  destruct (String.eqb_spec name "inspect") as [->|_]; [done|].
  destruct (String.eqb name "gc"); [apply frame_gc|].
  destruct (String.eqb name "run"); [apply frame_serve|].
  destruct (String.eqb name "deployment"); [apply frame_deployment|].
  destruct (String.eqb name "service"); [|frame_tac].
  unfold require_valid. apply keeps_bind; [apply _|frame_tac|intros _].
  replace (args !! 1) with (head (drop 1 args)) by by destruct args as [|? [|? ?]]. apply frame_service.
Qed.

(** A command that changes anything validated its configuration first. *)
Lemma dispatch_validates d name args config m :
  allowed_parts name args <> [] -> validate_config (d_os d) config <> Ok tt ->
  (dispatch_command d name args config m).2 = m.
Proof.
  intros Hparts Hbad. assert (Hreq : forall {B} (k : unit -> command B), (act_bind (require_valid d config) k m).2 = m).
  { intros B k. unfold act_bind, require_valid, or_error, of_result, map_err.
    by destruct (validate_config (d_os d) config) as [[]|e]. }
  unfold dispatch_command, allowed_parts in *.
  destruct (String.eqb_spec name "config") as [->|_]; [done|].
  destruct (String.eqb_spec name "doctor") as [->|_]; [done|].
  destruct (String.eqb_spec name "status") as [->|_]; [done|].
  repeat case_match; try apply Hreq; done.
Qed.

(** C13: an operator command changes only what it is for, and only behind a
    valid configuration.  The drain marker's files change only under [drain],
    [undrain] and [deployment apply]; the stores only under [run] and [gc] with
    [--apply]; the host only under [deployment apply] and the five changing
    service verbs.  In all these cases the configuration named by [--config] was
    loaded and passed validation first; every other command line, malformed
    ones included, leaves all three as they are. *)
Theorem commands_change_only_their_part (d : Daemon) (args : list string) (m : Machine) :
  let m' := (run d args m).2 in
  (forall p, same_part p m m') \/
  exists name config_path rest config,
    head args = Some name /\ split_config args = Some (config_path, rest) /\
    load_config (d_os d) (path_of config_path) = Ok config /\ validate_config (d_os d) config = Ok tt /\
    frame (allowed_parts name rest) m m'.
Proof.
  cbv zeta. destruct args as [|name args]; [left; by intros []|]. unfold run.
  destruct (String.eqb name "version").
  { left. intros p. by apply (frame_output [] d (OutVersion (d_version d)) m p), not_elem_of_nil. }
  unfold act_bind, of_result, or_error. destruct (split_config (name :: args)) as [[config_path rest]|] eqn:Es;
    cbn [ok_or]; [|left; by intros []].
  destruct (load_config _ _) as [config|] eqn:El; cbn [map_err]; [|left; by intros []].
  pose proof (frame_dispatch d name rest config m) as Hf.
  destruct (decide (allowed_parts name rest = [])) as [Hnone|Hsome].
  { left. intros p. apply Hf. rewrite Hnone. apply not_elem_of_nil. }
  destruct (validate_config (d_os d) config) as [[]|] eqn:Ev.
  - right. by exists name, config_path, rest, config.
  - left. intros p. change (same_part p m (dispatch_command d name rest config m).2).
    rewrite dispatch_validates by (try done; by rewrite Ev). by destruct p.
Qed.

(** ** What [deployment apply] installs *)

(** The program reports this release when asked for its version. *)
Definition reports_release (d : Daemon) (program : string) (timeout : Z) : Prop :=
  exists stdout text report,
    d_run d program ["version"] timeout (Some MAX_VERSION_PROBE_BYTES) = Some (true, stdout) /\
    (str_len stdout <= MAX_VERSION_PROBE_BYTES)%Z /\ from_utf8 stdout = Some text /\
    d_from_str d (Std.trim text) = Some report /\ json_get "version" report ≫= json_as_str = Some (d_version d).

(** The helper is a protected executable of this release. *)
Definition helper_of_release (d : Daemon) (helper : string) (timeout : Z) : Prop :=
  (exists md, stat_meta (d_lstat d helper) = Ok md /\ md_is_file md = true /\ md_is_symlink md = false /\
     (md_uid md = 0 \/ md_uid md = os_euid (d_os d))%Z /\ mode_has md 18 = false /\ mode_has md 73 = true) /\
  exists stdout, d_run d helper ["--version"] timeout None = Some (true, stdout) /\
    Std.trim (from_utf8_lossy stdout) = d_version d.

Lemma post_install_ok d executable helper remaining :
  post_install_check d executable helper remaining = Ok tt ->
  reports_release d executable (Z.min remaining 5000) /\
  helper_of_release d helper (sat_sub remaining (Z.of_N (d_probe_time d))).
Proof.
  unfold post_install_check. destruct (Z.min remaining 5000 =? 0)%Z; [done|].
  destruct (d_run d executable _ _ _) as [[[] stdout]|] eqn:Er; [|done..]. cbn [negb].
  destruct (check_installed_daemon_version _ _ _) as [v| |] eqn:Ev; [|done..].
  apply version_matched in Ev as (Hlen & text & report & Htext & Hjson & Hv).
  destruct (compatible _) eqn:Ec; [|done]. intros _.
  apply helper_compatible in Ec as (_ & Hmd & Hout). split; [|by split].
  unfold reports_release. eauto 10.
Qed.

Lemma output_same d v m : m_host (output d v m).2 = m_host m /\ m_files (output d v m).2 = m_files m.
Proof. split; [apply (frame_output [] d v m PHost)|apply (frame_output [] d v m PFiles)]; apply not_elem_of_nil. Qed.

Context `{!EggupLaws}.

End daemon.

(** ** A release applied on a concrete machine *)

Module Apply.
Import Sample Preview Release.

#[export] Instance snapshot_serde : Serde ExecutionSnapshot := {| to_vec := fun _ => None; from_slice := fun _ => None |}.
#[export] Instance event_serde : Serde ExecutionEvent := {| to_vec := fun _ => None; from_slice := fun _ => None |}.
#[export] Instance config_serde : Serde OperatorConfig := {| to_vec := fun _ => None; from_slice := fun _ => Some config |}.

Definition begin : StartOutside := {|
  so_tls_ok := true; so_lock_fails := false; so_lock_held := false; so_open_fails := false; so_blobs_fail := false;
  so_open_workspaces := calm; so_artifacts_fail := false; so_recover := None; so_recover_rows := []; so_metric := None;
  so_retention := calm; so_manifest_retention := calm; so_reconcile := calm; so_manifest_scan := fun _ => [];
  so_load := None; so_drain_file := false; so_server_fails := false; so_recovered := 0; so_retained := 0;
  so_manifests_retained := 0; so_reconciled := 0; so_instant := 0 |}.

(** Every file is root's executable; the daemon reports [reported] and the
    helper 0.2.0; no database exists, so nothing is active. *)
Definition no_database : DbFile := {| df_lstat := Err IoMissing; df_opens := false; df_queries := false; df_db := empty_db |}.

Definition daemon (reported : string) : Daemon := {|
  d_version := "0.2.0"; d_os := os;
  d_doctor := {| do_trusted_helper := fun _ => true; do_capabilities := fun _ => []; do_bind := fun _ => true;
                 do_connect := fun _ => false |};
  d_encodes := fun _ => true; d_to_str := fun _ => None; d_pretty := fun _ => None;
  d_database := (Err IoMissing, false, false); d_metrics_prepare := false;
  d_drain_fails := fun _ => false; d_uuid := "u"; d_partial := EmptyString;
  d_stat_fails := fun _ => false; d_list_fails := fun _ => false; d_blob_tree := FsDirectory []; d_workspace_tree := FsDirectory [];
  d_inspect_opens := false; d_shard := fun _ => Err IoMissing; d_blob_file := fun _ => Err IoMissing;
  d_collect := Preview.outside; d_features := []; d_start := begin; d_serve := id; d_signal_fails := false;
  d_current_exe := None; d_lstat := fun _ => Ok Release.regular;
  d_run := fun _ args _ _ => Some (true, if bool_decide (args = ["version"]) then reported else "0.2.0");
  d_run_helper := fun _ _ => None;
  d_from_str := fun text => Some (JObject [("version", JString text)]); d_hex_decode := fun _ => None;
  d_polls := fun _ => no_database; d_slack := fun _ => 0%N; d_probe_time := 700%N |}.

Definition apply_args : list string :=
  ["apply"; "--installation-root"; "/opt/eggwork"; "--release"; "0.2.0"; "--daemon"; "/tmp/eggworkd"; "--helper"; "/tmp/helper";
   "--service-config"; "/etc/eggwork.json"; "--unit-path"; "/etc/systemd/system/eggwork.service"].

Definition machine : Machine := {| m_files := ∅; m_stores := stores; m_host := bare; m_printed := [] |}.

Definition applied (reported : string) : result string unit * Machine :=
  run (daemon reported) ("deployment" :: apply_args ++ ["--config"; "/etc/node.json"]) machine.

(** The staged release replaces the members when it reports itself, and is
    rolled back when it reports another version; the node is left draining. *)
Example apply_examples :
  live (m_host (applied "0.2.0").2) !! DEST_HELPER = Some "sha256 of /tmp/helper" /\
  m_host (applied "0.1.9").2 = bare /\
  is_persistently_draining (drain_path config) (m_files (applied "0.1.9").2) = true.
Proof. split_and!; vm_compute; reflexivity. Qed.
End Apply.

Lemma apply_installs :
  live (m_host (deployment_apply (Apply.daemon "0.2.0") Apply.apply_args Sample.config Apply.machine).2) !! DEST_DAEMON =
  Some "sha256 of /tmp/eggworkd".
Proof. vm_compute. reflexivity. Qed.

#[local] Existing Instance Release.eggup_laws.

